(** * QuerySenseAI: the NL-to-SQL agent of [agent.py], embedded and verified

    The development follows the source file top-down:

    - [Text]      Python [str] values restricted to ASCII, with the
                  character classes of the [re] module;
    - [Regex]     a backtracking matcher with the priority order of
                  Python's [re] ([search], [sub], groups, lazy and greedy
                  repetition, [\b], [$], look-ahead);
    - [Agent]     the methods of [QueryAgent], one definition per method,
                  with the completion capability, the database and the
                  Python runtime library passed as an explicit environment.

    After the three modules come the predicates the statements are written
    with, the lemmas on the matcher and on each rewrite, and the theorems
    on [_clean_llm_response], [_fix_product_column_in_sql],
    [_generate_summary_query], [try_execute_sql], [_detect_smalltalk] and
    [ask], each with an instance at a concrete request.  The models of
    [_get_db_schema], of the sample block of [_generate_insights], of the
    export thread and of [chat] and [export_status] of [app.py] stand with
    those predicates, before the lemmas that use them.

    Text is modelled as [list ascii]; characters above 127 are carried
    through unchanged and belong to no character class.  Python's case
    mappings, character classes and lengths look at whole Unicode
    characters, so the embedding is that of the code on ASCII text, and the
    statements that depend on case, on white space, on word characters or
    on the length of a text carry the hypothesis [ascii_text].  A thread that
    [ask] starts is recorded in the process state and not run: the state
    after [ask] is the state at the moment [ask] returns, before the
    export thread has written to the registry. *)

From Stdlib Require Import Ascii String List Bool Arith Lia ZArith NArith.
From Stdlib Require Import DecimalString.
Import ListNotations.

Set Implicit Arguments.
Set Warnings "-register-all".


(* ================================================================== *)
(** ** Text *)
(* ================================================================== *)

Module Text.

Definition text := list ascii.

(** A string literal of the source as text. *)
Definition txt (s : string) : text := list_ascii_of_string s.

Definition code (c : ascii) : N := N_of_ascii c.

Definition in_range (lo hi : N) (c : ascii) : bool :=
  (N.leb lo (code c) && N.leb (code c) hi)%bool.

Definition is_upper (c : ascii) : bool := in_range 65 90 c.
Definition is_lower (c : ascii) : bool := in_range 97 122 c.
Definition is_digit (c : ascii) : bool := in_range 48 57 c.

(** [\w] on ASCII text: letters, digits and the underscore. *)
Definition is_word (c : ascii) : bool :=
  is_upper c || is_lower c || is_digit c || Ascii.eqb c "_".

(** [\s] and [str.isspace] on ASCII text: TAB, LF, VT, FF, CR, the four
    separators 0x1c..0x1f and the space. *)
Definition is_space (c : ascii) : bool :=
  in_range 9 13 c || in_range 28 32 c.

Definition any_char (_ : ascii) : bool := true.

(** [str.lower] and [str.upper], one character at a time, on ASCII text:
    a character above 127 is left as it is. *)
Definition lower (c : ascii) : ascii :=
  if is_upper c then ascii_of_N (code c + 32) else c.

Definition upper (c : ascii) : ascii :=
  if is_lower c then ascii_of_N (code c - 32) else c.

Definition str_lower (s : text) : text := map lower s.
Definition str_upper (s : text) : text := map upper s.

(** [s.replace(' ', '')]. *)
Definition remove_spaces (s : text) : text :=
  filter (fun c => negb (Ascii.eqb c " ")) s.

(** [s.strip()]: white space removed at both ends. *)
Fixpoint lstrip (s : text) : text :=
  match s with
  | c :: s' => if is_space c then lstrip s' else s
  | [] => []
  end.

Definition rstrip (s : text) : text := rev (lstrip (rev s)).

Definition strip (s : text) : text := rstrip (lstrip s).

(** Equality of texts, [s == t]. *)
Fixpoint text_eqb (s t : text) : bool :=
  match s, t with
  | [], [] => true
  | a :: s', b :: t' => Ascii.eqb a b && text_eqb s' t'
  | _, _ => false
  end.

(** [t.startswith(p)], with the characters compared by [eq]. *)
Fixpoint starts_with (eq : ascii -> ascii -> bool) (p t : text) : bool :=
  match p, t with
  | [], _ => true
  | a :: p', b :: t' => eq a b && starts_with eq p' t'
  | _ :: _, [] => false
  end.

Definition eq_cs (a b : ascii) : bool := Ascii.eqb a b.
Definition eq_ci (a b : ascii) : bool := Ascii.eqb (lower a) (lower b).

(** [needle in hay], the substring test of Python. *)
Fixpoint contains (eq : ascii -> ascii -> bool) (needle hay : text) : bool :=
  starts_with eq needle hay ||
  match hay with
  | _ :: hay' => contains eq needle hay'
  | [] => false
  end.

(** Text whose characters are all in the ASCII range, where the character
    classes and the case mappings above are those of Python. *)
Definition ascii_text (s : text) : bool :=
  forallb (fun c => N.ltb (code c) 128) s.

(** [s.endswith(c)] for a single character. *)
Definition ends_with_char (c : ascii) (s : text) : bool :=
  match rev s with
  | x :: _ => Ascii.eqb x c
  | [] => false
  end.

End Text.

Import Text.

(* ================================================================== *)
(** ** Regular expressions with the matching order of Python's [re] *)
(* ================================================================== *)

Module Regex.

(** The constructs the patterns of [agent.py] use.  Repetition is over a
    character class, which is all those patterns repeat, apart from the
    optional groups, which are [Opt]. *)
Inductive re : Type :=
| Chr  (p : ascii -> bool)                  (* a character of a class     *)
| Eps                                        (* the empty pattern          *)
| Seq  (a b : re)                            (* ab                         *)
| Alt  (a b : re)                            (* a|b                        *)
| Rep  (greedy : bool) (min : nat) (p : ascii -> bool)
                                             (* p*, p+, p*?, p+?           *)
| Opt  (a : re)                              (* a?                         *)
| Grp  (n : nat) (a : re)                    (* capturing group number n   *)
| WordB                                      (* \b                         *)
| Dollar                                     (* $ without MULTILINE        *)
| Look (a : re).                             (* (?=a)                      *)

Declare Scope re_scope.
Delimit Scope re_scope with re.
Bind Scope re_scope with re.
Infix ";;" := Seq (at level 61, right associativity) : re_scope.
Infix "<|>" := Alt (at level 62, right associativity) : re_scope.

(** A literal, case-sensitive or under IGNORECASE. *)
Definition chr (c : ascii) : re := Chr (eq_cs c).
Definition chr_ci (c : ascii) : re := Chr (eq_ci c).

Fixpoint lit_with (eq : ascii -> ascii -> bool) (s : text) : re :=
  match s with
  | [] => Eps
  | c :: s' => Seq (Chr (eq c)) (lit_with eq s')
  end.

Definition lit (s : string) : re := lit_with eq_cs (txt s).
Definition lit_ci (s : string) : re := lit_with eq_ci (txt s).

(** A captured group: the number of characters that were left when the
    group started (its start position counted from the end of the subject)
    and the text it matched. *)
Record cap : Type := mkcap { cap_left : nat; cap_text : text }.

(** The matcher's state: the character before the current position, the
    text from the current position on, and the groups set so far. *)
Record mstate : Type := mkst {
  prev : option ascii;
  rest : text;
  caps : list (nat * cap)
}.

Definition word_boundary (p : option ascii) (r : text) : bool :=
  xorb (match p with Some c => is_word c | None => false end)
       (match r with c :: _ => is_word c | [] => false end).

(** [$] matches at the end and before a newline that ends the subject. *)
Definition at_dollar (r : text) : bool :=
  match r with
  | [] => true
  | [c] => Ascii.eqb c "010"
  | _ => false
  end.

(** The first alternative that succeeds; the second is tried only when
    the first fails. *)
Notation "x 'orelse' y" :=
  (match x with Some r => Some r | None => y end)
  (at level 70, no associativity, only parsing).

Section Repetition.
Variable A : Type.
Variable p : ascii -> bool.

(** Greedy repetition: as many characters as possible first, then, on
    failure of what follows, one fewer at a time. *)
Fixpoint rep_greedy (min : nat) (pv : option ascii) (rs : text)
    (k : option ascii -> text -> option A) : option A :=
  match rs with
  | c :: rs' =>
      if p c then
        rep_greedy (pred min) (Some c) rs' k
        orelse (if Nat.eqb min 0 then k pv rs else None)
      else if Nat.eqb min 0 then k pv rs else None
  | [] => if Nat.eqb min 0 then k pv rs else None
  end.

(** Lazy repetition: as few characters as possible first. *)
Fixpoint rep_lazy (min : nat) (pv : option ascii) (rs : text)
    (k : option ascii -> text -> option A) : option A :=
  match rs with
  | c :: rs' =>
      if Nat.eqb min 0 then
        k pv rs
        orelse (if p c then rep_lazy 0 (Some c) rs' k else None)
      else if p c then rep_lazy (pred min) (Some c) rs' k else None
  | [] => if Nat.eqb min 0 then k pv rs else None
  end.
End Repetition.

Definition set_cap (n : nat) (c : cap) (cs : list (nat * cap)) : list (nat * cap) :=
  (n, c) :: filter (fun e => negb (Nat.eqb (fst e) n)) cs.

(** [mt r st k]: match [r] at state [st] and continue with [k]; the first
    alternative for which the continuation succeeds is the result. *)
Fixpoint mt (r : re) (st : mstate) (k : mstate -> option mstate) : option mstate :=
  match r with
  | Chr p =>
      match rest st with
      | c :: rs => if p c then k (mkst (Some c) rs (caps st)) else None
      | [] => None
      end
  | Eps => k st
  | Seq a b => mt a st (fun st' => mt b st' k)
  | Alt a b => mt a st k orelse mt b st k
  | Rep true min p =>
      rep_greedy p min (prev st) (rest st) (fun pv rs => k (mkst pv rs (caps st)))
  | Rep false min p =>
      rep_lazy p min (prev st) (rest st) (fun pv rs => k (mkst pv rs (caps st)))
  | Opt a => mt a st k orelse k st
  | Grp n a =>
      mt a st (fun st' =>
        let len := length (rest st) - length (rest st') in
        k (mkst (prev st') (rest st')
                (set_cap n (mkcap (length (rest st)) (firstn len (rest st))) (caps st'))))
  | WordB => if word_boundary (prev st) (rest st) then k st else None
  | Dollar => if at_dollar (rest st) then k st else None
  | Look a =>
      match mt a st Some with
      | Some st' => k (mkst (prev st) (rest st) (caps st'))
      | None => None
      end
  end.

(** A match attempt at one position. *)
Definition match_here (r : re) (pv : option ascii) (rs : text) : option mstate :=
  mt r (mkst pv rs []) Some.

(** A match object: how many characters precede the match, and the
    matcher's final state. *)
Record mobj : Type := mkmobj { m_start : nat; m_end : mstate }.

(** [re.search]: the leftmost position at which the pattern matches. *)
Fixpoint search_at (r : re) (pv : option ascii) (rs : text) : option mobj :=
  match match_here r pv rs with
  | Some st' => Some (mkmobj 0 st')
  | None =>
      match rs with
      | c :: rs' =>
          match search_at r (Some c) rs' with
          | Some m => Some (mkmobj (S (m_start m)) (m_end m))
          | None => None
          end
      | [] => None
      end
  end.

Definition search (r : re) (s : text) : option mobj := search_at r None s.

(** [m.group(n)], [None] for a group that did not take part. *)
Fixpoint lookup_cap (n : nat) (cs : list (nat * cap)) : option cap :=
  match cs with
  | [] => None
  | (i, c) :: cs' => if Nat.eqb i n then Some c else lookup_cap n cs'
  end.

Definition group (m : mobj) (n : nat) : option text :=
  option_map cap_text (lookup_cap n (caps (m_end m))).

(** [m.start(n)] in a subject of length [len]. *)
Definition group_start (len : nat) (m : mobj) (n : nat) : option nat :=
  option_map (fun c => len - cap_left c) (lookup_cap n (caps (m_end m))).

Definition groups_text (cs : list (nat * cap)) (n : nat) : text :=
  match lookup_cap n cs with Some c => cap_text c | None => [] end.

Definition dec_count (cnt : option nat) : option nat := option_map pred cnt.

(** A match attempt that has to consume a character: what [re.sub] asks
    for at the position of an empty match. *)
Definition match_advancing (r : re) (pv : option ascii) (rs : text) : option mstate :=
  mt r (mkst pv rs [])
     (fun st' => if Nat.ltb (length (rest st')) (length rs) then Some st' else None).

(** [re.sub(r, repl, s, count)]: the matches are found from left to right
    without overlap and each is replaced by [repl] of its text and groups;
    after an empty match the next match at the same position has to
    consume a character.  [skip] counts the characters of the current match
    still to be dropped, [cnt] is the number of replacements still allowed
    ([None]: no limit). *)
Fixpoint sub_go (r : re) (repl : text -> list (nat * cap) -> text)
    (cnt : option nat) (skip : nat) (pv : option ascii) (rs : text) : text :=
  match skip with
  | S n =>
      match rs with
      | c :: rs' => sub_go r repl cnt n (Some c) rs'
      | [] => []
      end
  | O =>
      match cnt with
      | Some O => rs
      | _ =>
          match match_here r pv rs with
          | Some st' =>
              let len := length rs - length (rest st') in
              repl (firstn len rs) (caps st') ++
              match len with
              | S n =>
                  match rs with
                  | c :: rs' => sub_go r repl (dec_count cnt) n (Some c) rs'
                  | [] => []
                  end
              | O =>
                  match dec_count cnt with
                  | Some O => rs
                  | cnt' =>
                      match match_advancing r pv rs with
                      | Some st2 =>
                          let len2 := length rs - length (rest st2) in
                          repl (firstn len2 rs) (caps st2) ++
                          match rs with
                          | c :: rs' =>
                              sub_go r repl (dec_count cnt') (pred len2) (Some c) rs'
                          | [] => []
                          end
                      | None =>
                          match rs with
                          | c :: rs' => c :: sub_go r repl cnt' 0 (Some c) rs'
                          | [] => []
                          end
                      end
                  end
              end
          | None =>
              match rs with
              | c :: rs' => c :: sub_go r repl cnt 0 (Some c) rs'
              | [] => []
              end
          end
      end
  end.

Definition sub (r : re) (repl : text -> list (nat * cap) -> text)
    (cnt : option nat) (s : text) : text :=
  sub_go r repl cnt 0 None s.

End Regex.

Import Regex.
Local Open Scope re_scope.

(* ================================================================== *)
(** ** The agent *)
(* ================================================================== *)

Module Agent.

(** *** [_clean_llm_response] *)

(** [r'```json\s*(\{.*?\})\s*```'] with DOTALL and IGNORECASE. *)
Definition fence_re : re :=
  lit_ci "```json" ;; Rep true 0 is_space ;;
  Grp 1 (chr "{" ;; Rep false 0 any_char ;; chr "}") ;;
  Rep true 0 is_space ;; lit_ci "```".

(** [r'(\{.*?\})'] with DOTALL. *)
Definition brace_re : re :=
  Grp 1 (chr "{" ;; Rep false 0 any_char ;; chr "}").

Definition _clean_llm_response (response_text : text) : option text :=
  match search fence_re response_text with
  | Some m => group m 1
  | None =>
      match search brace_re response_text with
      | Some m => group m 1
      | None => None
      end
  end.

(** *** [_fix_product_column_in_sql] *)

Definition not_quote (c : ascii) : bool := negb (Ascii.eqb c "'").

(** [r'\bWHERE\b'] with IGNORECASE. *)
Definition where_kw_re : re := WordB ;; lit_ci "WHERE" ;; WordB.

(** [where_clause_regex]:
    [r'(\bWHERE\b)(.*?)((?=\bGROUP BY\b|\bORDER BY\b|\bHAVING\b|$))'],
    used with IGNORECASE and DOTALL. *)
Definition where_terminator : re :=
  WordB ;; lit_ci "GROUP BY" ;; WordB <|>
  WordB ;; lit_ci "ORDER BY" ;; WordB <|>
  WordB ;; lit_ci "HAVING" ;; WordB <|>
  Dollar.

Definition where_clause_regex : re :=
  Grp 1 (WordB ;; lit_ci "WHERE" ;; WordB) ;;
  Grp 2 (Rep false 0 any_char) ;;
  Grp 3 (Look where_terminator).

(** [r"(?:\[?Product\]?|\[?Product_Name\]?)\s+LIKE\s+'%([^']+)%'"] with
    IGNORECASE: the column, [\s+LIKE\s+], and the quoted literal. *)
Definition product_column : re :=
  Opt (chr "[") ;; lit_ci "Product" ;; Opt (chr "]") <|>
  Opt (chr "[") ;; lit_ci "Product_Name" ;; Opt (chr "]").

Definition product_head : re :=
  product_column ;; Rep true 1 is_space ;; lit_ci "LIKE" ;; Rep true 1 is_space.

Definition product_literal : re :=
  lit "'%" ;; Grp 1 (Rep true 1 not_quote) ;; lit "%'".

Definition product_like_re : re := product_head ;; product_literal.

(** [normalize_product_value]: the literal without spaces, in upper case. *)
Definition normalize_value (product_value : text) : text :=
  str_upper (remove_spaces product_value).

Definition normalize_product_value (_ : text) (cs : list (nat * cap)) : text :=
  txt "[Product] LIKE '%" ++ normalize_value (groups_text cs 1) ++ txt "%'".

(** Step 2 of [process_where_content], on the content of the WHERE clause. *)
Definition product_sub (where_content : text) : text :=
  sub product_like_re normalize_product_value None where_content.

Definition process_where_content (_ : text) (cs : list (nat * cap)) : text :=
  let where_keyword := groups_text cs 1 in
  let where_content := groups_text cs 2 in
  let terminator := groups_text cs 3 in
  where_keyword ++ product_sub where_content ++ terminator.

Definition _fix_product_column_in_sql (sql_query : text) : text :=
  match search where_kw_re sql_query with
  | None => sql_query
  | Some _ => sub where_clause_regex process_where_content (Some 1) sql_query
  end.

(** *** [_generate_summary_query] *)

Definition word_or_dot (c : ascii) : bool := is_word c || Ascii.eqb c ".".
Definition gt_or_eq (c : ascii) : bool := Ascii.eqb c ">" || Ascii.eqb c "=".
Definition minus_or_plus (c : ascii) : bool := Ascii.eqb c "-" || Ascii.eqb c "+".
Definition word_slash_space (c : ascii) : bool :=
  is_word c || Ascii.eqb c "/" || is_space c.

(** [r'\bWITH\b.*?\)\s*(SELECT)'] with IGNORECASE and DOTALL. *)
Definition cte_re : re :=
  WordB ;; lit_ci "WITH" ;; WordB ;; Rep false 0 any_char ;; chr ")" ;;
  Rep true 0 is_space ;; Grp 1 (lit_ci "SELECT").

(** [r'FROM\s+([\w\.]+)(?:(?:\s+as\s+|\s+)(\w+))?'] with IGNORECASE. *)
Definition from_re : re :=
  lit_ci "FROM" ;; Rep true 1 is_space ;; Grp 1 (Rep true 1 word_or_dot) ;;
  Opt ((Rep true 1 is_space ;; lit_ci "as" ;; Rep true 1 is_space <|>
        Rep true 1 is_space) ;;
       Grp 2 (Rep true 1 is_word)).

(** [r'(WHERE\s+.+?)(?:GROUP BY|ORDER BY|UNION|$)'] with IGNORECASE and
    DOTALL. *)
Definition summary_where_re : re :=
  Grp 1 (lit_ci "WHERE" ;; Rep true 1 is_space ;; Rep false 1 any_char) ;;
  (lit_ci "GROUP BY" <|> lit_ci "ORDER BY" <|> lit_ci "UNION" <|> Dollar).

(** [sargable_pattern_gte]:
    [r'YEAR\(([\w\.]+)\)\s*([>=]+)\s*((?:YEAR\(GETDATE\(\)\)\s*[-+]\s*\d+)|(?:YEAR\(GETDATE\(\)\))|(?:\d{4}))']
    with IGNORECASE. *)
Definition year_expr : re :=
  lit_ci "YEAR(GETDATE())" ;; Rep true 0 is_space ;; Chr minus_or_plus ;;
    Rep true 0 is_space ;; Rep true 1 is_digit <|>
  lit_ci "YEAR(GETDATE())" <|>
  Chr is_digit ;; Chr is_digit ;; Chr is_digit ;; Chr is_digit.

Definition sargable_pattern_gte : re :=
  lit_ci "YEAR(" ;; Grp 1 (Rep true 1 word_or_dot) ;; chr ")" ;;
  Rep true 0 is_space ;; Grp 2 (Rep true 1 gt_or_eq) ;; Rep true 0 is_space ;;
  Grp 3 year_expr.

(** [optimize_date_sargable]:
    [f" {col} {op} DATEFROMPARTS({year_func}, 1, 1) "]. *)
Definition date_from_parts (col op year_func : text) : text :=
  txt " " ++ col ++ txt " " ++ op ++ txt " DATEFROMPARTS(" ++ year_func ++
  txt ", 1, 1) ".

Definition optimize_date_sargable (_ : text) (cs : list (nat * cap)) : text :=
  date_from_parts (groups_text cs 1) (groups_text cs 2) (groups_text cs 3).

Definition sargable_sub (where_clause : text) : text :=
  sub sargable_pattern_gte optimize_date_sargable None where_clause.

(** [r'\b' + re.escape(table_alias) + r'\.'] with IGNORECASE; the alias is
    made of word characters, which [re.escape] leaves as they are. *)
Definition alias_pattern (table_alias : text) : re :=
  WordB ;; lit_with eq_ci table_alias ;; chr ".".

Definition strip_alias (table_alias where_clause : text) : text :=
  sub (alias_pattern table_alias) (fun _ _ => []) None where_clause.

(** [r'GROUP BY\s+(?:[\w\.]+\.)?(\[?[\w\/\s]+\]?)'] with IGNORECASE. *)
Definition group_by_re : re :=
  lit_ci "GROUP BY" ;; Rep true 1 is_space ;;
  Opt (Rep true 1 word_or_dot ;; chr ".") ;;
  Grp 1 (Opt (chr "[") ;; Rep true 1 word_slash_space ;; Opt (chr "]")).

Definition mem_text (s : text) (l : list text) : bool :=
  existsb (text_eqb s) l.

Definition nl : ascii := "010".
Definition line (s : string) : text := txt s ++ [nl].

(** The f-string of [summary_query], before [.strip()]. *)
Definition summary_template
    (name_col entity_name table_name where_clause date_col : text) : text :=
  [nl] ++
  line "        WITH TopEntity AS (" ++
  line "            SELECT TOP 1" ++
  txt "                " ++ name_col ++ line "," ++
  line "                SUM(Total_Value_INR) AS TopEntityValue" ++
  txt "            FROM " ++ table_name ++ [nl] ++
  txt "            " ++ where_clause ++ [nl] ++
  txt "            GROUP BY " ++ name_col ++ [nl] ++
  line "            ORDER BY TopEntityValue DESC" ++
  line "        )," ++
  line "        Aggregates AS (" ++
  line "            SELECT" ++
  line "                COUNT(*) as TotalRecords," ++
  txt "                COUNT(DISTINCT " ++ name_col ++ txt ") as Total" ++ entity_name ++ line "s," ++
  line "                SUM(Total_Value_INR) as TotalValue_INR," ++
  line "                SUM(QUANTITY_KG) as TotalQuantity_KG," ++
  line "                SUM(Total_Value_INR) / NULLIF(SUM(QUANTITY_KG), 0) as WeightedAvgPrice_INR," ++
  line "                MAX(Total_Value_INR) as MaxShipmentValue," ++
  txt "                MIN(" ++ date_col ++ line ") as EarliestDate," ++
  txt "                MAX(" ++ date_col ++ line ") as LatestDate," ++
  txt "                COUNT(DISTINCT CAST(" ++ date_col ++ line " AS DATE)) as UniqueDates" ++
  txt "            FROM " ++ table_name ++ [nl] ++
  txt "            " ++ where_clause ++ [nl] ++
  line "        )" ++
  line "        SELECT" ++
  line "            a.*, -- All aggregates" ++
  txt "            t." ++ name_col ++ txt " as Top" ++ entity_name ++ line "," ++
  txt "            t.TopEntityValue as Top" ++ entity_name ++ line "Value" ++
  line "        FROM Aggregates a" ++
  line "        CROSS JOIN TopEntity t" ++
  txt "        ".

(** [query_to_search]: the query itself or, after a WITH block, the text
    from the main SELECT on. *)
Definition main_block (original_query : text) : text :=
  match search cte_re original_query with
  | Some cte_match =>
      match group_start (length original_query) cte_match 1 with
      | Some main_select_start => skipn main_select_start original_query
      | None => original_query
      end
  | None => original_query
  end.

Definition _generate_summary_query (original_query : text) : option text :=
  (* --- Handle WITH clauses --- *)
  let query_to_search := main_block original_query in
  (* Extract table name and alias *)
  match search from_re query_to_search with
  | None => None
  | Some table_match =>
      let table_name := groups_text (caps (m_end table_match)) 1 in
      let table_alias := group table_match 2 in
      (* --- Validate the alias --- *)
      let table_alias :=
        match table_alias with
        | Some a =>
            if negb (text_eqb a []) &&
               mem_text (str_upper a)
                 [txt "WHERE"; txt "GROUP"; txt "ORDER"; txt "HAVING"]
            then None else table_alias
        | None => None
        end in
      (* Extract WHERE clause *)
      let where_clause :=
        match search summary_where_re query_to_search with
        | Some where_match => strip (groups_text (caps (m_end where_match)) 1)
        | None => []
        end in
      (* --- Remove any trailing semicolons --- *)
      let where_clause :=
        if ends_with_char ";" where_clause
        then strip (removelast where_clause) else where_clause in
      (* --- Optimize date functions in the extracted WHERE clause --- *)
      let where_clause :=
        match where_clause with
        | [] => where_clause
        | _ :: _ =>
            let optimized_where := sargable_sub where_clause in
            match table_alias with
            | Some a =>
                if text_eqb a [] then optimized_where
                else strip_alias a optimized_where
            | None => optimized_where
            end
        end in
      (* --- Determine which columns to use based on table --- *)
      let date_col :=
        if contains eq_cs (txt "import") (str_lower table_name)
        then txt "BE_Date" else txt "SB_Date" in
      let default_name_col := txt "[Importer/Exporter_Name]" in
      (* Find the primary GROUP BY column from the original query *)
      let group_by_col := 
        match search group_by_re query_to_search with
        | Some group_by_match => group group_by_match 1
        | None => None
        end in
      let has (w : text) :=
        match group_by_col with
        | Some g => negb (text_eqb g []) && contains eq_cs w (str_lower g)
        | None => false
        end in
      let '(name_col, entity_name) :=
        if has (txt "product") then (txt "Product_Name", txt "Product")
        else if has (txt "formatted") then (txt "[Formatted_Name]", txt "Company")
        else if has (txt "importer/exporter")
             then (txt "[Importer/Exporter_Name]", txt "Company")
        else (default_name_col, txt "Company") in
      Some (strip (summary_template name_col entity_name table_name
                                    where_clause date_col))
  end.

(** *** [_detect_smalltalk] *)

Definition greetings : list text :=
  map txt ["hi"; "hello"; "hey"; "good morning"; "good afternoon";
           "good evening"; "hola"]%string.
Definition gratitude : list text :=
  map txt ["thanks"; "thank you"; "appreciate"; "great job"; "cool";
           "awesome"]%string.
Definition wellbeing : list text :=
  map txt ["how are you"; "how's it going"; "how are things";
           "how are you doing"]%string.
Definition help_queries : list text :=
  map txt ["help"; "what can you do"; "who are you"; "what is this";
           "what do you do"; "capabilities"; "features"; "function";
           "what is your purpose"]%string.

(** [r"\b" + re.escape(word) + r"\b"]: the word itself between two word
    boundaries, [re.escape] making each of its characters a literal. *)
Definition word_re (word : text) : re := WordB ;; lit_with eq_cs word ;; WordB.

(** [any(re.search(..., query) for word in words)]. *)
Definition any_word (words : list text) (query : text) : bool :=
  existsb (fun word =>
             match search (word_re word) query with
             | Some _ => true
             | None => false
             end) words.

Definition greeting_response : text :=
  txt "Hello there! üëã I'm your analytics assistant. Ask me about import trends, totals, or comparisons.".
Definition wellbeing_response : text :=
  txt "I'm doing great ‚Äî thanks for asking! üòä How can I help you explore your import data today?".
Definition gratitude_response : text :=
  txt "You're welcome! Happy to help anytime. üôå".
Definition help_response : text :=
  txt "I am an AI Data Agent designed to analyze your Import/Export data.<br><br>" ++
  txt "I can help you with:<br>" ++
  txt "‚Ä¢ **Data Retrieval:** 'Show me full export data for Zinc.'<br>" ++
  txt "‚Ä¢ **Analysis:** 'Who are the top 5 importers?'<br>" ++
  txt "‚Ä¢ **Comparison:** 'Compare air vs sea shipments.'".

Definition _detect_smalltalk (user_query : text) : option text :=
  let query := str_lower (strip user_query) in
  if any_word greetings query then Some greeting_response
  else if any_word wellbeing query then Some wellbeing_response
  else if any_word gratitude query then Some gratitude_response
  else if any_word help_queries query then Some help_response
  else None.

(** *** Python values, the environment and the process state *)

(** The values that travel through [ask]: JSON from the completion, cells
    of database rows, and the response.  A float is carried as its IEEE-754
    bit pattern, a date as year, month and day, any other object (a
    [Decimal], say) as its [repr]. *)
Inductive pyval : Type :=
| PNone
| PBool (b : bool)
| PInt (z : Z)
| PFloat (bits : Z)
| PStr (s : text)
| PDate (y m d : Z)
| PList (l : list pyval)
| PDict (d : list (text * pyval))
| PObj (repr : text).

(** A [dict] in insertion order. *)
Definition dict := list (text * pyval).

Fixpoint dict_get (d : dict) (key : text) : option pyval :=
  match d with
  | [] => None
  | (k, v) :: d' => if text_eqb k key then Some v else dict_get d' key
  end.

(** [d.get(key, default)]. *)
Definition get_default (d : dict) (key : text) (default : pyval) : pyval :=
  match dict_get d key with Some v => v | None => default end.

(** [d[key] = v]: an existing key keeps its place. *)
Fixpoint dict_set (d : dict) (key : text) (v : pyval) : dict :=
  match d with
  | [] => [(key, v)]
  | (k, v0) :: d' =>
      if text_eqb k key then (k, v) :: d' else (k, v0) :: dict_set d' key v
  end.

Definition keys (d : dict) : list text := map fst d.

(** Truth value of an object in a condition. *)
Definition truthy (v : pyval) : bool :=
  match v with
  | PNone => false
  | PBool b => b
  | PInt z => negb (Z.eqb z 0)
  | PFloat bits => negb (Z.eqb bits 0) && negb (Z.eqb bits (2 ^ 63))
  | PStr s => negb (text_eqb s [])
  | PDate _ _ _ => true
  | PList l => match l with [] => false | _ => true end
  | PDict d => match d with [] => false | _ => true end
  | PObj _ => true
  end.

(** The outcome of a call that may raise. *)
Inductive res (A : Type) : Type :=
| Ok (a : A)
| Raise (e : text).
Arguments Ok {A} a.
Arguments Raise {A} e.

(** What [model.generate_content] hands back: whether the first candidate
    has content parts (reading them may raise), the [text] property (which
    may raise too), and whether what [text] raises is an [AttributeError],
    the one exception that [getattr(..., "text", "")] replaces by its
    default. *)
Record llm_response : Type := mkresp {
  has_parts : res bool;
  resp_text : res text;
  text_attribute_error : bool
}.

(** [getattr(llm_response, "text", "")]. *)
Definition getattr_text (r : llm_response) : res text :=
  match resp_text r with
  | Ok t => Ok t
  | Raise e => if text_attribute_error r then Ok [] else Raise e
  end.

(** What [conn.execute] hands back: the column names and the rows, or a
    result that returns no rows, on which [fetchall] raises. *)
Record rowset : Type := mkrows {
  result_keys : list text;
  result_rows : list (list pyval)
}.

Definition cursor := option rowset.

(** The external capabilities and the runtime library.  The completion
    capability and the database answer by call number and argument; the
    text of the two prompts and the formatting of numbers and dates are
    the library's and the f-strings' business and are left to the
    environment. *)
Record Env : Type := mkenv {
  schema : text;
  build_prompt : text -> text -> text -> text;
  generate_content : nat -> text -> res llm_response;
  connect : res unit;
  execute : nat -> text -> res cursor;
  json_loads : text -> res pyval;
  py_str : pyval -> text;
  strftime : pyval -> text;
  float_format0 : pyval -> option text;
  format_count : nat -> text;
  build_insight_prompt : text -> list dict -> dict -> text;
  time_time : Z
}.

(** A background export task as it is handed to [Thread]. *)
Record export_task : Type := mktask {
  task_job_id : text;
  task_data : list dict
}.

(** The process state: the prompts sent to the completion capability and
    the statements sent to the database, oldest first, the module-level
    [export_jobs] registry, and the threads started. *)
Record World : Type := mkworld {
  llm_log : list text;
  db_log : list text;
  export_jobs : dict;
  threads : list export_task
}.

(** Computations on the process state that may raise. *)
Definition M (A : Type) : Type := World -> res A * World.

Definition ret {A} (a : A) : M A := fun w => (Ok a, w).
Definition raise {A} (e : text) : M A := fun w => (Raise e, w).
Definition bind {A B} (m : M A) (f : A -> M B) : M B :=
  fun w =>
    match m w with
    | (Ok a, w') => f a w'
    | (Raise e, w') => (Raise e, w')
    end.
Definition lift {A} (r : res A) : M A := fun w => (r, w).

(** [try: m except Exception as e: h e]. *)
Definition try_except {A} (m : M A) (h : text -> M A) : M A :=
  fun w =>
    match m w with
    | (Ok a, w') => (Ok a, w')
    | (Raise e, w') => h e w'
    end.

Notation "'let*' x ':=' m 'in' k" := (bind m (fun x => k))
  (at level 10, x name, m at level 100, k at level 200).

(** Inside a function body: go on with a value, or [return] a response. *)
Inductive flow (A : Type) : Type :=
| Continue (a : A)
| Return (r : dict).
Arguments Continue {A} a.
Arguments Return {A} r.

Section WithEnv.
Variable env : Env.

Definition call_llm (prompt : text) : M llm_response :=
  fun w =>
    (generate_content env (length (llm_log w)) prompt,
     mkworld (llm_log w ++ [prompt]) (db_log w) (export_jobs w) (threads w)).

Definition call_db (query : text) : M cursor :=
  fun w =>
    (execute env (length (db_log w)) query,
     mkworld (llm_log w) (db_log w ++ [query]) (export_jobs w) (threads w)).

(** *** [try_execute_sql] *)

(** [r"(Importer_Name|Exporter_Name|Product_Name)\s*=\s*'([^']+)'"]. *)
Definition equality_re : re :=
  Grp 1 (lit "Importer_Name" <|> lit "Exporter_Name" <|> lit "Product_Name") ;;
  Rep true 0 is_space ;; chr "=" ;; Rep true 0 is_space ;;
  chr "'" ;; Grp 2 (Rep true 1 not_quote) ;; chr "'".

(** The template [r"\1 LIKE '%\2%'"]. *)
Definition like_template (_ : text) (cs : list (nat * cap)) : text :=
  groups_text cs 1 ++ txt " LIKE '%" ++ groups_text cs 2 ++ txt "%'".

Definition equality_to_like (query : text) : text :=
  sub equality_re like_template None query.

Definition repairable (e : text) : bool :=
  contains eq_cs (txt "Invalid column") e || contains eq_cs (txt "Syntax") e.

Definition try_execute_sql (query : text) : M cursor :=
  try_except (call_db query)
    (fun e =>
       if repairable e then
         let query_like := equality_to_like query in
         call_db query_like
       else raise e).

(** *** Row formatting (STEP 8) *)

Definition is_date (v : pyval) : bool :=
  match v with PDate _ _ _ => true | _ => false end.

Definition is_none (v : pyval) : bool :=
  match v with PNone => true | _ => false end.

(** [str(v)] and the [{v}] of an f-string; a [str] is itself. *)
Definition to_str (v : pyval) : text :=
  match v with PStr s => s | _ => py_str env v end.

Definition format_cell (col_name : text) (val : pyval) : pyval :=
  if is_date val then PStr (strftime env val)
  else if mem_text col_name [txt "BE_Number"; txt "SB_Number"] && negb (is_none val)
  then match float_format0 env val with
       | Some s => PStr s
       | None => PStr (to_str val)
       end
  else val.

(** The inner loop [for i, val in enumerate(row)]. *)
Fixpoint format_row (column_names : list text) (i : nat) (row : list pyval)
    (new_row_dict : dict) : res dict :=
  match row with
  | [] => Ok new_row_dict
  | val :: row' =>
      match nth_error column_names i with
      | Some col_name =>
          format_row column_names (S i) row'
            (dict_set new_row_dict col_name (format_cell col_name val))
      | None => Raise (txt "IndexError")
      end
  end.

(** The outer loop [for row in rows]. *)
Fixpoint format_rows (column_names : list text) (rows : list (list pyval))
    : res (list dict) :=
  match rows with
  | [] => Ok []
  | row :: rows' =>
      match format_row column_names 0 row [] with
      | Ok d =>
          match format_rows column_names rows' with
          | Ok ds => Ok (d :: ds)
          | Raise e => Raise e
          end
      | Raise e => Raise e
      end
  end.

(** [result.fetchall()]. *)
Definition fetchall (result : cursor) : M rowset :=
  match result with
  | Some rs => ret rs
  | None => raise (txt "ResourceClosedError")
  end.

(** [dict(zip(names, row))]. *)
Definition dict_zip (names : list text) (row : list pyval) : dict :=
  fold_left (fun d kv => dict_set d (fst kv) (snd kv)) (combine names row) [].

(** *** [_generate_insights] *)

Definition is_number (v : pyval) : bool :=
  match v with PInt _ | PFloat _ | PBool _ => true | _ => false end.

(** [safe_format(key, 's')] formats an [int] or a [float] with the code
    ['s'], which raises [ValueError]. *)
Definition format_s_raises (stats : dict) (key : text) : bool :=
  is_number (get_default stats key (PStr (txt "N/A"))).

Definition has_key (d : dict) (key : text) : bool :=
  match dict_get d key with Some _ => true | None => false end.

(** [str] of an integer. *)
Definition str_of_Z (z : Z) : text :=
  txt (DecimalString.NilZero.string_of_int (Z.to_int z)).

(** [sep.join(parts)]. *)
Fixpoint join (sep : text) (parts : list text) : text :=
  match parts with
  | [] => []
  | [p] => p
  | p :: ps => p ++ sep ++ join sep ps
  end.

(** The lower-case names a name column goes by. *)
Definition name_keys : list text :=
  [txt "product_name"; txt "importer/exporter_name"; txt "formatted_name";
   txt "product"].

(** [next((key for key in viz_data[0].keys() if key.lower() in [...]), None)]. *)
Definition find_name_col (first_row : dict) : option text :=
  find (fun key => mem_text (str_lower key) name_keys) (keys first_row).

(** [[row[name_col] for row in rows]]: a row without the column raises. *)
Fixpoint top_names (name_col : text) (rows : list dict) : res (list pyval) :=
  match rows with
  | [] => Ok []
  | row :: rows' =>
      match dict_get row name_col with
      | Some name =>
          match top_names name_col rows' with
          | Ok names => Ok (name :: names)
          | Raise e => Raise e
          end
      | None => Raise (txt "KeyError")
      end
  end.

(** The body of the loop [for name in top_names]; [len] and the slice count
    the characters of the name, which are its bytes on ASCII text. *)
Definition sanitized_name (name : pyval) : text :=
  let name_str := to_str name in
  if 75 <? length name_str
  then txt "- " ++ firstn 75 name_str ++ txt "..."
  else txt "- " ++ name_str.

(** The line added below the names of a result of more than ten rows. *)
Definition sample_trailer (viz_data : list dict) : text :=
  if 10 <? length viz_data
  then [nl; nl] ++ txt "... (showing top 10 of " ++
       str_of_Z (Z.of_nat (length viz_data)) ++ txt " results)"
  else [].

(** The list [sanitized_names]; it stays empty when no name column is
    found. *)
Definition sanitized_names (viz_data : list dict) : res (list text) :=
  match viz_data with
  | [] => Raise (txt "IndexError")
  | first_row :: _ =>
      match find_name_col first_row with
      | Some name_col =>
          match top_names name_col (firstn 10 viz_data) with
          | Ok names => Ok (map sanitized_name names)
          | Raise e => Raise e
          end
      | None => Ok []
      end
  end.

(** The text [sample_summary] that goes into the insight prompt. *)
Definition sample_summary (viz_data : list dict) : res text :=
  match viz_data with
  | [] => Raise (txt "IndexError")
  | first_row :: _ =>
      match find_name_col first_row with
      | Some name_col =>
          match top_names name_col (firstn 10 viz_data) with
          | Ok names =>
              Ok (join [nl] (map sanitized_name names) ++ sample_trailer viz_data)
          | Raise e => Raise e
          end
      | None => Ok []
      end
  end.

Definition _generate_insights (user_query : text) (viz_data : list dict)
    (summary_stats : option (list dict)) : M (option text) :=
  match summary_stats with
  | None | Some [] => ret None
  | Some (stats :: _) =>
      match viz_data with
      | [] => ret None
      | _ :: _ =>
          let entity_name :=
            if has_key stats (txt "TotalProducts")
            then txt "Product" else txt "Company" in
          if format_s_raises stats (txt "EarliestDate")
             || format_s_raises stats (txt "LatestDate")
             || format_s_raises stats (txt "Top" ++ entity_name)
          then raise (txt "ValueError")
          else
            (* the sample block, where [row[name_col]] may raise *)
            let* _ := lift (sample_summary viz_data) in
            let insight_prompt :=
              build_insight_prompt env user_query viz_data stats in
            try_except
              (let* insight_response := call_llm insight_prompt in
               let* t := lift (resp_text insight_response) in
               ret (Some (strip t)))
              (fun _ => ret None)
      end
  end.

(** *** [ask] *)

(** The reduced dictionary the error paths return. *)
Definition reply3 (answer : string) (query : pyval) : dict :=
  [(txt "answer", PStr (txt answer)); (txt "data", PList []);
   (txt "query", query)].

Definition smalltalk_reply (smalltalk_response : text) : dict :=
  [(txt "answer", PStr smalltalk_response); (txt "data", PList []);
   (txt "query", PStr []); (txt "query_type", PStr (txt "analytical"));
   (txt "chart_title", PStr []); (txt "is_time_series", PBool false)].

(** STEP 2: the conversation history as text. *)
Definition format_turn (turn : dict) : text :=
  let role :=
    match dict_get turn (txt "role") with
    | Some (PStr r) => if text_eqb r (txt "user") then txt "User" else txt "Agent"
    | _ => txt "Agent"
    end in
  let content := get_default turn (txt "content") (PStr []) in
  role ++ txt ": " ++ to_str content ++ [nl].

Definition format_history (history : list dict) : text :=
  fold_left (fun formatted_history turn => formatted_history ++ format_turn turn)
            history [].

(** [not llm_response.candidates or
     not llm_response.candidates[0].content.parts]. *)
Definition no_content (r : llm_response) : M bool :=
  match has_parts r with
  | Ok b => ret (negb b)
  | Raise e => raise e
  end.

(** STEP 5, with its own [try]: the completion text cleaned, or an early
    [return]. *)
Definition check_completion (prompt : text) (llm_response : llm_response)
    : M (flow (option text)) :=
  try_except
    (let* empty := no_content llm_response in
     let* r :=
       (if empty then
          let* llm_response := call_llm prompt in
          let* empty := no_content llm_response in
          if empty then
            ret (Return (reply3
              "I'm sorry, I couldn't process that question right now. Please try rephrasing it."
              (PStr [])))
          else ret (Continue llm_response)
        else ret (Continue llm_response)) in
     match r with
     | Return d => ret (Return d)
     | Continue llm_response =>
         let* t := lift (getattr_text llm_response) in
         let llm_text := strip t in
         if text_eqb llm_text [] then
           ret (Return (reply3
             "I couldn't generate a response for that question. Please try again."
             (PStr [])))
         else ret (Continue (_clean_llm_response llm_text))
     end)
    (fun _ =>
       ret (Return (reply3
         "I'm sorry, I ran into a temporary issue while processing your question."
         (PStr [])))).

Definition processing_job : pyval :=
  PDict [(txt "status", PStr (txt "processing")); (txt "progress", PInt 0);
         (txt "file", PNone)].

(** [export_jobs[job_id] = {...}] followed by [Thread(target=export_job).start()]. *)
Definition start_export (job_id : text) (data_for_viz : list dict) : M unit :=
  fun w =>
    (Ok tt,
     mkworld (llm_log w) (db_log w)
             (dict_set (export_jobs w) job_id processing_job)
             (threads w ++ [mktask job_id data_for_viz])).

Definition export_answer (answer : pyval) (insights : option text)
    (row_count : nat) : text :=
  to_str answer ++ [nl; nl] ++
  match insights with Some i => i | None => txt "None" end ++
  txt " " ++ [nl; nl] ++ txt "‚è≥ The dataset contains **" ++ format_count env row_count ++
  txt " rows**. I am preparing a downloadable Excel file...".

(** The summary statistics: [None] when no summary query was derived. *)
Definition run_summary (summary_query : option text) : M (option (list dict)) :=
  match summary_query with
  | Some ((_ :: _) as summary_query) =>
      let* summary_result := try_execute_sql summary_query in
      let* srs := fetchall summary_result in
      ret (Some (map (dict_zip (result_keys srs)) (result_rows srs)))
  | _ => ret None
  end.

(** What STEPS 4 to 7 leave for the execution: the normalized SQL and
    the other four fields of the completion. *)
Record generated : Type := mkgen {
  g_sql_query : text;
  g_answer : pyval;
  g_chart_title : pyval;
  g_query_type : pyval;
  g_is_time_series : pyval
}.

(** STEPS 4 to 7: from the prompt to the generated query. *)
Definition generate_query (prompt : text) : M (flow generated) :=
  let* llm_response := call_llm prompt in
  let* checked := check_completion prompt llm_response in
  match checked with
  | Return d => ret (Return d)
  | Continue cleaned_json_str =>
      match cleaned_json_str with
      | None | Some [] => raise (txt "LLM did not return valid JSON.")
      | Some ((_ :: _) as cleaned_json_str) =>
          let* llm_data := lift (json_loads env cleaned_json_str) in
          match llm_data with
          | PDict llm_data =>
              let sql_query := get_default llm_data (txt "sql_query") PNone in
              let answer :=
                get_default llm_data (txt "answer")
                            (PStr (txt "I found some data for you.")) in
              let chart_title := get_default llm_data (txt "chart_title") (PStr []) in
              let is_time_series :=
                get_default llm_data (txt "is_time_series") (PBool false) in
              let query_type :=
                get_default llm_data (txt "query_type") (PStr (txt "analytical")) in
              (* STEP 6.5 *)
              let* sql_query :=
                (if truthy sql_query then
                   match sql_query with
                   | PStr q => ret (PStr (_fix_product_column_in_sql q))
                   | _ => raise (txt "TypeError")
                   end
                 else ret sql_query) in
              (* STEP 7: [query_type.upper()] *)
              let* _ :=
                (match query_type with
                 | PStr _ => ret tt
                 | _ => raise (txt "AttributeError")
                 end) in
              match sql_query with
              | PStr ((_ :: _) as sql_query) =>
                  ret (Continue (mkgen sql_query answer chart_title query_type
                                       is_time_series))
              | _ =>
                  ret (Return
                    (reply3 "I'm sorry, I couldn't generate a SQL query for that."
                            (PStr (txt "N/A"))))
              end
          | _ => raise (txt "AttributeError")
          end
      end
  end.

Definition export_reply (g : generated) (insights : option text)
    (row_count : nat) (job_id : text) : dict :=
  [(txt "answer", PStr (export_answer (g_answer g) insights row_count));
   (txt "data", PList []);
   (txt "query", PStr (g_sql_query g));
   (txt "chart_title", g_chart_title g);
   (txt "export_job_id", PStr job_id);
   (txt "query_type", g_query_type g);
   (txt "is_time_series", g_is_time_series g)].

(** The large-result branch of STEP 8, [if row_count > 10000:]. *)
Definition export_branch (user_query : text) (g : generated)
    (data_for_viz : list dict) (summary_stats : option (list dict)) : M dict :=
  let row_count := length data_for_viz in
  let job_id := str_of_Z (time_time env) in
  let* _ := start_export job_id data_for_viz in
  let* insights := _generate_insights user_query data_for_viz summary_stats in
  ret (export_reply g insights row_count job_id).

(** STEP 8 inside [with self.engine.connect() as conn: try: ...]. *)
Definition run_queries (user_query : text) (g : generated)
    : M (flow (list dict * option (list dict))) :=
  let sql_query := g_sql_query g in
  let* result := try_execute_sql sql_query in
  let* rs := fetchall result in
  let column_names := result_keys rs in
  let* formatted_rows := lift (format_rows column_names (result_rows rs)) in
  let data_for_viz := formatted_rows in
  let summary_query := _generate_summary_query sql_query in
  let* summary_stats := run_summary summary_query in
  let row_count := length data_for_viz in
  if (10000 <? Z.of_nat row_count)%Z then
    let* d := export_branch user_query g data_for_viz summary_stats in
    ret (Return d)
  else ret (Continue (data_for_viz, summary_stats)).

Definition sql_error_reply (sql_query : text) : dict :=
  reply3
    "I couldn't run the generated SQL query correctly. Please rephrase your question or try again."
    (PStr sql_query).

Definition no_data_answer (user_query : text) : text :=
  txt "I've looked for the data you requested:" ++ [nl] ++
  txt "`" ++ user_query ++ txt "`" ++ [nl] ++
  txt "However, I couldn't find any matching records in the database.".

Definition final_answer (user_query : text) (answer : pyval)
    (insights : option text) (data_for_viz : list dict) : pyval :=
  let answer :=
    match insights with
    | Some ((_ :: _) as insights) => PStr (to_str answer ++ [nl; nl] ++ insights)
    | _ => answer
    end in
  match data_for_viz with
  | [] => PStr (no_data_answer user_query)
  | _ :: _ => answer
  end.

Definition data_reply (g : generated) (answer : pyval)
    (data_for_viz : list dict) : dict :=
  [(txt "answer", answer);
   (txt "data", PList (map PDict data_for_viz));
   (txt "query", PStr (g_sql_query g));
   (txt "chart_title", g_chart_title g);
   (txt "query_type", g_query_type g);
   (txt "is_time_series", g_is_time_series g)].

(** STEPS 8 to 10: execution, insights and the response. *)
Definition answer_query (user_query : text) (g : generated) : M dict :=
  let* _ := lift (connect env) in
  let* ran :=
    try_except (run_queries user_query g)
               (fun _ => ret (Return (sql_error_reply (g_sql_query g)))) in
  match ran with
  | Return d => ret d
  | Continue (data_for_viz, summary_stats) =>
      (* STEP 9 *)
      let* insights := _generate_insights user_query data_for_viz summary_stats in
      (* STEP 10 *)
      ret (data_reply g (final_answer user_query (g_answer g) insights data_for_viz)
                      data_for_viz)
  end.

(** The body of the outer [try]. *)
Definition ask_body (user_query prompt : text) : M dict :=
  let* g := generate_query prompt in
  match g with
  | Return d => ret d
  | Continue g => answer_query user_query g
  end.

Definition ask (user_query : text) (history : list dict) : M dict :=
  (* STEP 1 *)
  match _detect_smalltalk user_query with
  | Some ((_ :: _) as smalltalk_response) => ret (smalltalk_reply smalltalk_response)
  | _ =>
      (* STEP 2 and STEP 3 *)
      let formatted_history := format_history history in
      let prompt := build_prompt env (schema env) formatted_history user_query in
      try_except (ask_body user_query prompt)
        (fun _ =>
           ret (reply3
             "I'm sorry, I encountered a temporary issue while generating that insight. Please try rephrasing your question."
             (PStr [])))
  end.

End WithEnv.

End Agent.


(** * The vocabulary of the statements

    Predicates on patterns and texts, decompositions of a subject that
    mirror what a pattern matches, and the environments at which the
    theorems are instantiated. *)

Import Text Regex Agent.
Local Open Scope re_scope.
Unset Implicit Arguments.

(** ** The matcher *)

(** The character before the position reached after [u], when [pv] is the
    character before [u]. *)
Fixpoint lastc (pv : option ascii) (u : text) : option ascii :=
  match u with [] => pv | x :: u' => lastc (Some x) u' end.

(** The characters a pattern can consume. *)
Fixpoint alphabet (r : re) (c : ascii) : bool :=
  match r with
  | Chr p => p c
  | Eps | WordB | Dollar | Look _ => false
  | Seq a b | Alt a b => alphabet a c || alphabet b c
  | Rep _ _ p => p c
  | Opt a | Grp _ a => alphabet a c
  end.

(** Patterns without groups and look-ahead leave the groups as they are. *)
Fixpoint plain (r : re) : bool :=
  match r with
  | Chr _ | Eps | WordB | Dollar | Rep _ _ _ => true
  | Seq a b | Alt a b => plain a && plain b
  | Opt a => plain a
  | Grp _ _ | Look _ => false
  end.

(** Patterns whose matching does not look at the context. *)
Fixpoint local (r : re) : bool :=
  match r with
  | Chr _ | Eps | Rep _ _ _ => true
  | Seq a b | Alt a b => local a && local b
  | Opt a => local a
  | Grp _ _ | Look _ | WordB | Dollar => false
  end.

(** [reach r st st']: [st'] is [st] after some characters of the alphabet
    of [r] were consumed. *)
Definition reach (r : re) (st st' : mstate) : Prop :=
  exists c, rest st = c ++ rest st' /\
            forallb (alphabet r) c = true /\
            prev st' = lastc (prev st) c /\
            (plain r = true -> caps st' = caps st).

(** The state [st] of a match in a subject extended by [sfx]. *)
Definition with_suffix (sfx : text) (st : mstate) : mstate :=
  mkst (prev st) (rest st ++ sfx) (caps st).

(** Patterns that do not look at the context of the match. *)
Fixpoint context_free (r : re) : bool :=
  match r with
  | Chr _ | Eps | Rep _ _ _ => true
  | Seq a b | Alt a b => context_free a && context_free b
  | Opt a | Grp _ a => context_free a
  | Look _ | WordB | Dollar => false
  end.

(** Two outcomes that agree on the remaining text and on the groups. *)
Definition same_rc (o o' : option mstate) : Prop :=
  match o, o' with
  | Some a, Some b => rest a = rest b /\ caps a = caps b
  | None, None => True
  | _, _ => False
  end.

(** No match starts in [g], which is followed by [rs]. *)
Fixpoint no_match_in (r : re) (pv : option ascii) (g rs : text) : bool :=
  match g with
  | [] => true
  | c :: g' =>
      match match_here r pv (g ++ rs) with
      | Some _ => false
      | None => no_match_in r (Some c) g' rs
      end
  end.

(** ** The repair of [try_execute_sql] *)


(** ** The date rewrite of the summary query *)

(** Case analysis on the eight bits of a character. *)
Ltac ascii_cases x :=
  destruct x as [[] [] [] [] [] [] [] []]; try discriminate; try reflexivity.

(** [YEAR(GETDATE())] in lower case. *)
Definition year_call : text := txt "year(getdate())".

(** The right-hand sides the pattern accepts, with what may follow them:
    a four-digit year; the current year with an offset, not followed by a
    digit; the current year alone, not followed by an offset. *)
Inductive year_operand : text -> text -> Prop :=
| literal_year (d1 d2 d3 d4 : ascii) (h : text) :
    forallb is_digit [d1; d2; d3; d4] = true ->
    year_operand [d1; d2; d3; d4] h
| relative_year (call ws1 ws2 digits : text) (sign : ascii) (h : text) :
    str_lower call = year_call ->
    forallb is_space ws1 = true -> minus_or_plus sign = true ->
    forallb is_space ws2 = true ->
    digits <> [] -> forallb is_digit digits = true ->
    match h with x :: _ => is_digit x = false | [] => True end ->
    year_operand (call ++ ws1 ++ sign :: ws2 ++ digits) h
| current_year (call ws h : text) :
    str_lower call = year_call ->
    forallb is_space ws = true ->
    match h with x :: _ => is_space x = false /\ minus_or_plus x = false | [] => True end ->
    year_operand call (ws ++ h).

(** ** The product pattern *)

(** The text before the first quote and the text after it. *)
Fixpoint split_quote (t : text) : option (text * text) :=
  match t with
  | [] => None
  | x :: t' =>
      if Ascii.eqb x "'" then Some ([], t')
      else match split_quote t' with
           | Some (a, r) => Some (x :: a, r)
           | None => None
           end
  end.

(** The continuation that accepts at the end of the subject only. *)
Definition at_end (st : mstate) : option mstate :=
  match rest st with [] => Some st | _ :: _ => None end.

(** [A] is a column, [LIKE] and the white space around it, and nothing else. *)
Definition is_head (A : text) : bool :=
  match mt product_head (mkst None A []) at_end with
  | Some _ => true
  | None => false
  end.

(** [B] is [%value%] with a value that is not empty. *)
Definition is_lit (B : text) : bool :=
  match B with
  | b :: r => Ascii.eqb b "%" && Nat.ltb 1 (length r) && Ascii.eqb (last r " "%char) "%"
  | [] => false
  end.

(** The value inside [%value%]. *)
Definition lit_value (B : text) : text := removelast (tl B).

(** A match of [product_like_re] at the start of [t]: the head, the value
    and the text after the match. *)
Definition product_match (t : text) : option (text * text * text) :=
  match split_quote t with
  | Some (A, t1) =>
      match split_quote t1 with
      | Some (B, t2) =>
          if is_head A && is_lit B then Some (A, lit_value B, t2) else None
      | None => None
      end
  | None => None
  end.

(** The column and [LIKE] that [normalize_product_value] writes. *)
Definition canonical_head : text := txt "[Product] LIKE ".

(** What [normalize_product_value] writes for the value [v]. *)
Definition canonical (v : text) : text :=
  canonical_head ++ "'"%char :: "%"%char :: normalize_value v ++ ["%"%char; "'"%char].

(** What follows the optional bracket in [product_head]. *)
Definition after_bracket (name : string) : re :=
  (lit_ci name ;; Opt (chr "]")) ;;
  Rep true 1 is_space ;; lit_ci "LIKE" ;; Rep true 1 is_space.

(** The number of quotes in [t]. *)
Definition count_quotes (t : text) : nat :=
  length (filter (fun c => Ascii.eqb c "'") t).

(** ** The WHERE pattern *)

(** [\bWHERE\b] at the start of [t], after the character [pv]. *)
Definition where_at (pv : option ascii) (t : text) : bool :=
  match match_here where_kw_re pv t with Some _ => true | None => false end.

(** The look-ahead of [where_clause_regex] holds at the start of [t]. *)
Definition term_at (pv : option ascii) (t : text) : bool :=
  match mt where_terminator (mkst pv t []) Some with Some _ => true | None => false end.

(** The content of the WHERE clause and what follows it: the content ends
    at the first position where the look-ahead holds. *)
Fixpoint where_span (pv : option ascii) (t : text) : text * text :=
  if term_at pv t then ([], t)
  else match t with
       | x :: t' => let (c, r) := where_span (Some x) t' in (x :: c, r)
       | [] => ([], [])
       end.

(** ** The normalizer *)

(** The normalizer as a scan: the first position at which [WHERE] stands
    as a word, the span up to the terminator, and the product patterns of
    the span rewritten. *)
Fixpoint normalize_from (pv : option ascii) (s : text) : text :=
  if where_at pv s then
    let kw := firstn 5 s in
    let (c, r) := where_span (lastc pv kw) (skipn 5 s) in
    kw ++ product_sub c ++ r
  else
    match s with
    | [] => []
    | x :: s' => x :: normalize_from (Some x) s'
    end.

(** The text starts with a character of a word. *)
Definition hd_word (t : text) : bool :=
  match t with c :: _ => is_word c | [] => false end.

(** ** The completion parser *)

(** [t] has no occurrence of the character [c]. *)
Definition no_char (c : ascii) (t : text) : bool :=
  forallb (fun x => negb (Ascii.eqb x c)) t.

(** The double quote. *)
Definition dq : ascii := "034"%char.

(** An object with a nested object. *)
Definition nested_object : text :=
  txt "{" ++ dq :: txt "sql_query" ++ dq :: txt ": " ++ dq :: txt "SELECT 1" ++ dq ::
  txt ", " ++ dq :: txt "meta" ++ dq :: txt ": {" ++ dq :: txt "k" ++ dq :: txt ": 1}}".

(** The same object inside a fence. *)
Definition fenced_completion : text :=
  txt "Here is the query: ```json" ++ nl :: nested_object ++ nl :: txt "``` done".

(** ** Smalltalk *)

(** The input has a phrase of one of the four smalltalk categories
    between word boundaries. *)
Definition is_smalltalk (user_query : text) : bool :=
  let query := str_lower (strip user_query) in
  any_word greetings query || any_word wellbeing query ||
  any_word gratitude query || any_word help_queries query.

(** ** Environments *)

(** A JSON string. *)
Definition jstr (s : string) : text := [dq] ++ txt s ++ [dq].

(** A completion: a fenced JSON object with the one field [sql_query]. *)
Definition completion_of (sql : string) : text :=
  txt "```json" ++ [nl] ++ txt "{" ++ jstr "sql_query" ++ txt ": " ++ jstr sql ++ txt "}" ++ [nl] ++ txt "```".

(** The object inside the fence. *)
Definition json_of (sql : string) : text :=
  txt "{" ++ jstr "sql_query" ++ txt ": " ++ jstr sql ++ txt "}".

(** An environment for one request: the completion answers [completion],
    [json.loads] parses the object above, and the database answers by [db]. *)
Definition scenario (sql : string) (completion : res llm_response)
    (db : nat -> text -> res cursor) : Env :=
  {| schema := txt "Table 'View_Clean_Imports':";
     build_prompt := fun sch hist q => sch ++ hist ++ q;
     generate_content := fun _ _ => completion;
     connect := Ok tt;
     execute := db;
     json_loads := fun s =>
       if text_eqb s (json_of sql) then Ok (PDict [(txt "sql_query", PStr (txt sql))])
       else Raise (txt "JSONDecodeError");
     py_str := fun _ => txt "<object>";
     strftime := fun _ => txt "01-Jan-2024";
     float_format0 := fun _ => None;
     format_count := fun _ => txt "many";
     build_insight_prompt := fun q _ _ => q;
     time_time := 1700000000 |}.

(** A completion that has content and whose text is the fenced object. *)
Definition answers (sql : string) : res llm_response :=
  Ok (mkresp (Ok true) (Ok (completion_of sql)) false).

(** The process before the request: nothing logged, no export job. *)
Definition world0 : World := mkworld [] [] [] [].

(** Result sets with one row and with 10001 rows. *)
Definition one_row : cursor := Some (mkrows [txt "n"] [[PInt 1]]).

Definition many_rows : cursor := Some (mkrows [txt "n"] (repeat [PInt 1] (Z.to_nat 10001))).

(** A database that answers every query. *)
Definition db_ok (_ : nat) (_ : text) : res cursor := Ok one_row.

(** A database that answers the first query by [rows] and fails with
    [msg] from the second on. *)
Definition db_summary_fails (rows : cursor) (msg : string) (n : nat) (_ : text) : res cursor :=
  match n with 0 => Ok rows | _ => Raise (txt msg) end.

(** ** The shape of the response *)

(** The fields of the full response and of the error response. *)
Definition stable_fields : list text :=
  map txt ["answer"; "data"; "query"; "chart_title"; "query_type"; "is_time_series"]%string.

Definition reduced_fields : list text := map txt ["answer"; "data"; "query"]%string.

(** [d] has every key of [required] and no key outside [required] and
    [optional]. *)
Definition has_fields (required optional : list text) (d : dict) : bool :=
  forallb (fun k => mem_text k (keys d)) required &&
  forallb (fun k => mem_text k (required ++ optional)) (keys d).

(** The full response: the six fields, and [export_job_id] at most. *)
Definition stable_envelope (d : dict) : bool :=
  has_fields stable_fields [txt "export_job_id"] d.

(** The [data] field is the empty list. *)
Definition empty_data (d : dict) : bool :=
  match dict_get d (txt "data") with Some (PList []) => true | _ => false end.

(** The error response: [answer], [data] and [query], with no data. *)
Definition reduced_envelope (d : dict) : bool :=
  has_fields reduced_fields [] d && empty_data d.

(** One of the two shapes. *)
Definition envelope (d : dict) : Prop :=
  stable_envelope d = true \/ reduced_envelope d = true.

(** Postcondition of a computation: what holds of the value it returns. *)
Definition returns {A} (m : M A) (P : A -> Prop) : Prop :=
  forall w, match fst (m w) with Ok a => P a | Raise _ => True end.

(** An early return that is an error response. *)
Definition early_reduced {A} (f : flow A) : Prop :=
  match f with Return d => reduced_envelope d = true | Continue _ => True end.

(** An early return that is a full response. *)
Definition early_stable {A} (f : flow A) : Prop :=
  match f with Return d => stable_envelope d = true | Continue _ => True end.

(** ** The request after the primary query *)

(** The prompt [ask] builds from the schema, the history and the
    question. *)
Definition the_prompt (env : Env) (user_query : text) (history : list dict) : text :=
  build_prompt env (schema env) (format_history env history) user_query.

(** The world after [start_export]: the job registered, its thread
    started. *)
Definition exported (w : World) (job_id : text) (data : list dict) : World :=
  mkworld (llm_log w) (db_log w)
          (dict_set (export_jobs w) job_id processing_job)
          (threads w ++ [mktask job_id data]).

(** Frame: a computation that leaves the export registry and the threads
    as they are. *)
Definition keeps_jobs {A} (m : M A) : Prop :=
  forall w, export_jobs (snd (m w)) = export_jobs w /\
            threads (snd (m w)) = threads w.

(** ** The claims about [ask] *)

(** The request is not smalltalk, its completion gives the fields [g], the
    connection opens, and the primary query runs and gives the formatted
    rows [data], which leaves the world [w2]. *)
Definition primary_run (env : Env) (user_query : text) (history : list dict)
    (w : World) (g : generated) (data : list dict) (w2 : World) : Prop :=
  _detect_smalltalk user_query = None /\
  connect env = Ok tt /\
  exists w1 rs,
    generate_query env (the_prompt env user_query history) w = (Ok (Continue g), w1) /\
    try_execute_sql env (g_sql_query g) w1 = (Ok (Some rs), w2) /\
    format_rows env (result_keys rs) (result_rows rs) = Ok data.

(** A request whose completion is the query [sql] and whose database
    answers by [db]. *)
Definition request_env (sql : string) (db : nat -> text -> res cursor) : Env :=
  scenario sql (answers sql) db.

(** The question, the fields and the prompt of the requests below. *)
Definition zinc_question : text := txt "show zinc".

Definition generated_for (sql : string) : generated :=
  mkgen (txt sql) (PStr (txt "I found some data for you.")) (PStr [])
        (PStr (txt "analytical")) (PBool false).

Definition zinc_prompt : text := txt "Table 'View_Clean_Imports':show zinc".

(** The world after the completion call and the queries [qs]. *)
Definition after_queries (qs : list text) : World := mkworld [zinc_prompt] qs [] [].

(** One row more than the export threshold. *)
Definition big : nat := Z.to_nat 10001.

Definition big_data : list dict := repeat [(txt "n", PInt 1)] big.

(** An environment whose completion capability raises. *)
Definition failing_llm : Env := scenario "SELECT 1" (Raise (txt "503 unavailable")) db_ok.

(** The two fixed messages of the error responses. *)
Definition error_message : string :=
  "I'm sorry, I encountered a temporary issue while generating that insight. Please try rephrasing your question.".

Definition sql_error_message : string :=
  "I couldn't run the generated SQL query correctly. Please rephrase your question or try again.".

(** The summary query derived from [sql]. *)
Definition summary_of (sql : string) : text :=
  match _generate_summary_query (txt sql) with Some sq => sq | None => [] end.

(** ** The response of [ask], path by path *)

(** The four replies with which STEPS 4 to 7 end a request early: after a
    completion without content, after an empty completion text, after a
    failure while the completion is read, and after a completion without
    SQL. *)
Definition early_replies : list dict :=
  [reply3 "I'm sorry, I couldn't process that question right now. Please try rephrasing it."
          (PStr []);
   reply3 "I couldn't generate a response for that question. Please try again." (PStr []);
   reply3 "I'm sorry, I ran into a temporary issue while processing your question."
          (PStr []);
   reply3 "I'm sorry, I couldn't generate a SQL query for that." (PStr (txt "N/A"))].

(** Exactly the six fields of the full response. *)
Definition six_fields (d : dict) : bool := has_fields stable_fields [] d.

(** Exactly the six fields and [export_job_id]. *)
Definition seven_fields (d : dict) : bool :=
  has_fields (stable_fields ++ [txt "export_job_id"]) [] d.

(** An early return that is one of the four early replies. *)
Definition early_listed {A} (f : flow A) : Prop :=
  match f with Return d => In d early_replies | Continue _ => True end.

(** An early return of the execution is the export reply for more than
    10000 rows. *)
Definition early_export (env : Env) (g : generated) {A} (f : flow A) : Prop :=
  match f with
  | Return d =>
      exists insights n,
        (10000 < Z.of_nat n)%Z /\
        d = export_reply env g insights n (str_of_Z (time_time env))
  | Continue _ => True
  end.

(** ** The claims about the rewrites *)

(** The world after the queries [qs] were sent to the database. *)
Definition logged (w : World) (qs : list text) : World :=
  mkworld (llm_log w) (db_log w ++ qs) (export_jobs w) (threads w).

(** A database that rejects the first query with [msg] and answers the
    next ones. *)
Definition db_rejects_first (msg : string) (n : nat) (_ : text) : res cursor :=
  match n with 0 => Raise (txt msg) | _ => Ok one_row end.

(** ** Calls, payload and registry of [ask] *)

(** From [w] to [w'] the prompts [l1] went to the completion capability
    and the statements [l2] to the database. *)
Definition step (w w' : World) (l1 l2 : list text) : Prop :=
  llm_log w' = llm_log w ++ l1 /\ db_log w' = db_log w ++ l2.

(** A computation that sends at most [a] prompts and at most [b]
    statements, all of them among [allowed]. *)
Definition within (a b : nat) (allowed : list text) {A} (m : M A) : Prop :=
  forall w, exists l1 l2,
    step w (snd (m w)) l1 l2 /\
    length l1 <= a /\ length l2 <= b /\ incl l2 allowed.

(** The statements [ask] may send for the generated query [sql]: the query,
    its repaired form, the summary query derived from it and the repaired
    form of that. *)
Definition allowed_statements (sql : text) : list text :=
  [sql; equality_to_like sql] ++
  match _generate_summary_query sql with
  | Some sq => [sq; equality_to_like sq]
  | None => []
  end.

(** As [within], with the results after which no prompt was sent. *)
Definition within_quiet (a b : nat) (allowed : list text) {A} (m : M A)
    (quiet : A -> Prop) : Prop :=
  forall w, exists l1 l2,
    step w (snd (m w)) l1 l2 /\
    length l1 <= a /\ length l2 <= b /\ incl l2 allowed /\
    (forall x, fst (m w) = Ok x -> quiet x -> l1 = []).

(** After [Continue] no prompt has been sent yet. *)
Definition goes_on {A} (f : flow A) : Prop :=
  match f with Continue _ => True | Return _ => False end.

(** The response carries at most 10000 rows. *)
Definition small_data (d : dict) : Prop :=
  exists l, dict_get d (txt "data") = Some (PList l) /\ (Z.of_nat (length l) <= 10000)%Z.

(** An early return carries no more, and the rows to go on with are at most
    10000. *)
Definition small_flow (f : flow (list dict * option (list dict))) : Prop :=
  match f with
  | Return d => small_data d
  | Continue (data, _) => (Z.of_nat (length data) <= 10000)%Z
  end.

(** What goes on to the execution: the normalizer's result on the text
    that the completion gives as [sql_query], which is not empty. *)
Definition normalized_flow (env : Env) (f : flow generated) : Prop :=
  match f with
  | Continue g =>
      exists cleaned_json_str llm_data raw,
        json_loads env cleaned_json_str = Ok (PDict llm_data) /\
        dict_get llm_data (txt "sql_query") = Some (PStr raw) /\
        g_sql_query g = _fix_product_column_in_sql raw /\
        g_sql_query g <> []
  | Return _ => True
  end.

(** From [w] to [w'] nothing happened to the registry and the threads, or
    the job [job_id] was entered as processing and one thread was started
    for more than 10000 rows. *)
Definition registry_step (job_id : text) (w w' : World) : Prop :=
  (export_jobs w' = export_jobs w /\ threads w' = threads w) \/
  exists data,
    (10000 < Z.of_nat (length data))%Z /\
    export_jobs w' = dict_set (export_jobs w) job_id processing_job /\
    threads w' = threads w ++ [mktask job_id data].

Definition may_export (job_id : text) {A} (m : M A) : Prop :=
  forall w, registry_step job_id w (snd (m w)).

(** ** More on the parser, the rewrites and the classifier *)

(** After the first opening brace of [t] there is a closing brace. *)
Fixpoint brace_pair (t : text) : bool :=
  match t with
  | [] => false
  | c :: t' =>
      if Ascii.eqb c "{" then existsb (Ascii.eqb "}"%char) t' else brace_pair t'
  end.

(** ** Comparisons that the date rewrite leaves alone *)

(** The comparison operators that are no run of [>] and [=]. *)
Definition other_comparisons : list text :=
  [txt "<"; txt "<="; txt "<>"; txt "!="].

(** ** Row formatting *)

(** A row has a column name for each of its cells. *)
Definition fits (column_names : list text) (row : list pyval) : bool :=
  Nat.leb (length row) (length column_names).

(** The formatted cell under its column name. *)
Definition formatted_cell (env : Env) (cv : text * pyval) : text * pyval :=
  (fst cv, format_cell env (fst cv) (snd cv)).

(** An environment whose [float] accepts the integers. *)
Definition number_env : Env :=
  mkenv (schema (request_env "SELECT 1" db_ok))
        (build_prompt (request_env "SELECT 1" db_ok))
        (generate_content (request_env "SELECT 1" db_ok))
        (connect (request_env "SELECT 1" db_ok))
        (execute (request_env "SELECT 1" db_ok))
        (json_loads (request_env "SELECT 1" db_ok))
        (py_str (request_env "SELECT 1" db_ok))
        (strftime (request_env "SELECT 1" db_ok))
        (fun v => match v with PInt z => Some (str_of_Z z) | _ => None end)
        (format_count (request_env "SELECT 1" db_ok))
        (build_insight_prompt (request_env "SELECT 1" db_ok))
        (time_time (request_env "SELECT 1" db_ok)).

(** ** The web application ([app.py]) and the export thread *)

(** [for turn in history: turn.get(...)]: the turns of a history that can
    be iterated and whose elements all have [get]; [None] stands for the
    [TypeError] or [AttributeError] of any other value. *)
Fixpoint all_dicts (l : list pyval) : option (list dict) :=
  match l with
  | [] => Some []
  | PDict d :: l' =>
      match all_dicts l' with
      | Some ds => Some (d :: ds)
      | None => None
      end
  | _ :: _ => None
  end.

Definition as_history (history : pyval) : option (list dict) :=
  match history with
  | PList l => all_dicts l
  | PStr [] => Some []
  | PDict [] => Some []
  | _ => None
  end.

(** [query_agent.ask(user_message, history)] on the values of a JSON
    request: a message that is no string has no [strip], and the history
    is looked at after the smalltalk test only. *)
Definition ask_json (env : Env) (user_message : option pyval) (history : pyval) : M dict :=
  match user_message with
  | Some (PStr user_query) =>
      match _detect_smalltalk user_query with
      | Some (_ :: _) => ask env user_query []
      | _ =>
          match as_history history with
          | Some h => ask env user_query h
          | None => raise (txt "AttributeError")
          end
      end
  | _ => raise (txt "AttributeError")
  end.

(** [if not user_message]. *)
Definition no_message (user_message : option pyval) : bool :=
  match user_message with
  | Some v => negb (truthy v)
  | None => true
  end.

(** The two bodies of [chat] that carry [is_fact]. *)
Definition with_is_fact (answer : string) : dict :=
  reply3 answer (PStr []) ++ [(txt "is_fact", PBool false)].

(** The message of the two failures of [chat] after the agent was called. *)
Definition chat_failure : dict :=
  with_is_fact
    "I'm sorry, I encountered a temporary issue while generating that insight. Please try again.".

(** [chat] of [app.py], on the parsed JSON body of the request; the result
    is the body of the response and its status.  [serializable] tells
    whether [jsonify] accepts the dictionary of the agent, whose rows hold
    the values of the database; on the constant bodies it always does. *)
Definition chat (query_agent : option Env) (serializable : dict -> bool)
    (data : pyval) : M (dict * Z) :=
  match query_agent with
  | None =>
      ret (reply3 "Error: The Query Agent is not initialized. Please check server logs."
                  (PStr []), 500%Z)
  | Some env =>
      match data with
      | PDict data =>
          let user_message := dict_get data (txt "message") in
          let history := get_default data (txt "history") (PList []) in
          if no_message user_message then
            ret (reply3 "Error: No message provided." (PStr []), 400%Z)
          else
            try_except
              (let* response := ask_json env user_message history in
               match response with
               | [] =>
                   ret (with_is_fact
                          "I'm sorry, I couldn't process that question at the moment.",
                        500%Z)
               | _ :: _ =>
                   if serializable response then ret (response, 200%Z)
                   else raise (txt "TypeError")
               end)
              (fun _ => ret (chat_failure, 500%Z))
      | _ => raise (txt "AttributeError")
      end
  end.

(** [export_status] of [app.py]: the job and the status of the response. *)
Definition export_status (job_id : text) (w : World) : pyval * Z :=
  match dict_get (export_jobs w) job_id with
  | Some job =>
      if truthy job then (job, 200%Z)
      else (PDict [(txt "status", PStr (txt "not_found"))], 404%Z)
  | None => (PDict [(txt "status", PStr (txt "not_found"))], 404%Z)
  end.

(** [export_jobs[job_id][field] = value]. *)
Definition set_job_field (registry : dict) (job_id field : text) (value : pyval) : res dict :=
  match dict_get registry job_id with
  | Some (PDict job) => Ok (dict_set registry job_id (PDict (dict_set job field value)))
  | Some _ => Raise (txt "TypeError")
  | None => Raise (txt "KeyError")
  end.

(** The body of the thread [export_job]: [written] tells whether the file
    was written without an exception. *)
Definition export_job (written : bool) (job_id : text) (registry : dict) : res dict :=
  let filename := txt "export_" ++ job_id ++ txt ".xlsx" in
  if written then
    match set_job_field registry job_id (txt "status") (PStr (txt "ready")) with
    | Ok r1 =>
        match set_job_field r1 job_id (txt "progress") (PInt 100) with
        | Ok r2 =>
            match set_job_field r2 job_id (txt "file") (PStr filename) with
            | Ok r3 => Ok r3
            | Raise e => set_job_field r2 job_id (txt "status") (PStr (txt "error"))
            end
        | Raise e => set_job_field r1 job_id (txt "status") (PStr (txt "error"))
        end
    | Raise e => set_job_field registry job_id (txt "status") (PStr (txt "error"))
    end
  else set_job_field registry job_id (txt "status") (PStr (txt "error")).

(** The response has the three fields every caller reads. *)
Definition basic_fields (d : dict) : bool :=
  forallb (fun k => mem_text k (keys d)) reduced_fields.

(** The job as the export thread leaves it. *)
Definition finished_job (written : bool) (job_id : text) : pyval :=
  if written then
    PDict [(txt "status", PStr (txt "ready")); (txt "progress", PInt 100);
           (txt "file", PStr (txt "export_" ++ job_id ++ txt ".xlsx"))]
  else
    PDict [(txt "status", PStr (txt "error")); (txt "progress", PInt 0);
           (txt "file", PNone)].

(** ** The schema reader and the sample block of the insights *)

(** The rows of [INFORMATION_SCHEMA.COLUMNS] for one table: the name and
    the data type of each column. *)
Definition columns_rows := list (text * text).

(** [schema_str] for one table. *)
Definition schema_part (table_name : text) (rows : columns_rows) : text :=
  txt "Table '" ++ table_name ++ txt "':" ++ [nl] ++
  join [nl] (map (fun col => txt "- " ++ fst col ++ txt " (" ++ snd col ++ txt ")") rows).

(** The loop [for table_name in table_names], with the list
    [all_schema_parts] it appends to. *)
Fixpoint schema_loop (columns : text -> res columns_rows)
    (table_names : list text) (all_schema_parts : list text) : res (list text) :=
  match table_names with
  | [] => Ok all_schema_parts
  | table_name :: table_names' =>
      match columns table_name with
      | Raise e => Raise e
      | Ok [] => schema_loop columns table_names' all_schema_parts
      | Ok rows =>
          schema_loop columns table_names'
            (all_schema_parts ++ [schema_part table_name rows])
      end
  end.

Definition schema_fetch_error : text := txt "Error: Could not fetch database schema.".

Definition schema_no_tables : text := txt "Error: No valid tables found in the database.".

(** [_get_db_schema(table_names)], with the outcome of [engine.connect()]
    and the answer of the database to the query for one table. *)
Definition _get_db_schema (connect : res unit) (columns : text -> res columns_rows)
    (table_names : list text) : text :=
  match connect with
  | Raise _ => schema_fetch_error
  | Ok _ =>
      match schema_loop columns table_names [] with
      | Raise _ => schema_fetch_error
      | Ok [] => schema_no_tables
      | Ok all_schema_parts => join [nl; nl] all_schema_parts
      end
  end.

(** The query for a table raises. *)
Definition query_raises (columns : text -> res columns_rows) (table_name : text) : bool :=
  match columns table_name with Raise _ => true | Ok _ => false end.

(** The query for a table gives at least one column. *)
Definition has_columns (columns : text -> res columns_rows) (table_name : text) : bool :=
  match columns table_name with Ok (_ :: _) => true | _ => false end.

(** The part of the schema for a table whose query gave rows. *)
Definition part_of (columns : text -> res columns_rows) (table_name : text) : text :=
  match columns table_name with
  | Ok rows => schema_part table_name rows
  | Raise _ => []
  end.

(** A database with the two views of the agent, the second without
    columns, and one whose query for the second view fails. *)
Definition two_views (table_name : text) : res columns_rows :=
  if text_eqb table_name (txt "View_Clean_Imports")
  then Ok [(txt "Product_Name", txt "nvarchar"); (txt "BE_Date", txt "date")]
  else Ok [].

Definition second_view_fails (table_name : text) : res columns_rows :=
  if text_eqb table_name (txt "View_Clean_Imports")
  then Ok [(txt "Product_Name", txt "nvarchar")]
  else Raise (txt "OperationalError").

(** Every key of the rows and every value, as text, is in ASCII. *)
Definition ascii_rows (env : Env) (viz_data : list dict) : bool :=
  forallb (fun row =>
             forallb (fun kv => ascii_text (fst kv) && ascii_text (to_str env (snd kv))) row)
          viz_data.

(** A result whose one row has a product name of 80 characters. *)
Definition long_name_rows : list dict :=
  [[(txt "Product_Name", PStr (repeat "x"%char 80)); (txt "n", PInt 1)]].

(** ** Insight generation in [ask] *)

(** A statistic that [safe_format] is asked to format with the code ['s']
    is a number. *)
Definition numeric_statistic (stats : dict) : bool :=
  let entity_name :=
    if has_key stats (txt "TotalProducts") then txt "Product" else txt "Company" in
  format_s_raises stats (txt "EarliestDate")
  || format_s_raises stats (txt "LatestDate")
  || format_s_raises stats (txt "Top" ++ entity_name).

(** The outcome of the completion call for the insights: its text, or the
    exception of the call or of reading the text. *)
Definition insight_text (env : Env) (n : nat) (prompt : text) : res text :=
  match generate_content env n prompt with
  | Ok r => resp_text r
  | Raise e => Raise e
  end.

(** The world after one more prompt. *)
Definition prompted (w : World) (prompt : text) : World :=
  mkworld (llm_log w ++ [prompt]) (db_log w) (export_jobs w) (threads w).

(** A database whose summary statistics have a number as latest date. *)
Definition db_numeric_date (n : nat) (_ : text) : res cursor :=
  match n with
  | 0 => Ok one_row
  | _ => Ok (Some (mkrows [txt "TotalRecords"; txt "LatestDate"] [[PInt 1; PInt 2024]]))
  end.

(** A database whose summary statistics are as the summary query names
    them. *)
Definition db_with_stats (n : nat) (_ : text) : res cursor :=
  match n with
  | 0 => Ok one_row
  | _ => Ok (Some (mkrows [txt "TotalRecords"; txt "TopCompany"]
                          [[PInt 1; PStr (txt "ACME")]]))
  end.

(** An environment whose first completion is the query [sql] and whose
    later completions fail. *)
Definition insight_failure_env (sql : string) (db : nat -> text -> res cursor) : Env :=
  mkenv (schema (scenario sql (answers sql) db))
        (build_prompt (scenario sql (answers sql) db))
        (fun n _ => match n with 0 => answers sql | _ => Raise (txt "429 quota") end)
        (Ok tt) db
        (json_loads (scenario sql (answers sql) db))
        (py_str (scenario sql (answers sql) db))
        (strftime (scenario sql (answers sql) db))
        (float_format0 (scenario sql (answers sql) db))
        (format_count (scenario sql (answers sql) db))
        (build_insight_prompt (scenario sql (answers sql) db))
        (time_time (scenario sql (answers sql) db)).

(** A database whose result has the column and no row. *)
Definition db_no_rows (_ : nat) (_ : text) : res cursor :=
  Ok (Some (mkrows [txt "n"] [])).

(** ** Smalltalk phrases inside a question *)

(** The phrases of the four smalltalk categories. *)
Definition smalltalk_phrases : list text :=
  greetings ++ wellbeing ++ gratitude ++ help_queries.

(** No word character comes last in [a]. *)
Definition ends_outside_word (a : text) : bool :=
  match lastc None a with Some c => negb (is_word c) | None => true end.

(** No word character comes first in [b]. *)
Definition starts_outside_word (b : text) : bool :=
  match b with c :: _ => negb (is_word c) | [] => true end.

(** A text that starts and ends with a word character. *)
Definition word_ends (p : text) : bool :=
  match p with c :: _ => is_word c | [] => false end &&
  match lastc None p with Some c => is_word c | None => false end.

(** The character before a position is no word character. *)
Definition outside (pv : option ascii) : bool :=
  match pv with Some c => negb (is_word c) | None => true end.

(** ** The summary query of a plain filter query *)

(** [hay.find(needle)], with the characters compared by [eq]. *)
Fixpoint index_of (eq : ascii -> ascii -> bool) (needle hay : text) : option nat :=
  if starts_with eq needle hay then Some 0
  else match hay with
       | _ :: hay' => option_map S (index_of eq needle hay')
       | [] => None
       end.

(** White space, and at least one character of it. *)
Definition blank (ws : text) : bool :=
  negb (text_eqb ws []) && forallb is_space ws.

(** A table name as the FROM pattern reads it. *)
Definition table_text (table : text) : bool :=
  negb (text_eqb table []) && forallb word_or_dot table.

(** A condition with no white space around it and no semicolon at its
    end. *)
Definition trimmed (cond : text) : bool :=
  match cond with c :: _ => negb (is_space c) | [] => false end &&
  match lastc None cond with
  | Some d => negb (is_space d) && negb (Ascii.eqb d ";")
  | None => false
  end.

(** The keywords that make [_generate_summary_query] look further than
    the FROM and the WHERE clause. *)
Definition other_keywords : list text :=
  [txt "WITH"; txt "GROUP BY"; txt "ORDER BY"; txt "UNION"; txt "YEAR("].

Definition none_of (keywords : list text) (query : text) : bool :=
  forallb (fun kw => negb (contains eq_ci kw query)) keywords.

(** A query of the form [... FROM table WHERE cond]. *)
Definition filter_query (pre kw_from ws1 table ws2 kw_where ws3 cond : text) : text :=
  pre ++ kw_from ++ ws1 ++ table ++ ws2 ++ kw_where ++ ws3 ++ cond.

(** The date column of the views. *)
Definition date_column (table : text) : text :=
  if contains eq_cs (txt "import") (str_lower table)
  then txt "BE_Date" else txt "SB_Date".

(** ** The first WHERE span of the normalizer *)

(** The keyword [k], in any case, stands as a word at the start of [t],
    after the character [pv]. *)
Definition keyword_at (k : string) (pv : option ascii) (t : text) : bool :=
  outside pv && starts_with eq_ci (txt k) t &&
  starts_outside_word (skipn (length (txt k)) t).

(** Where the WHERE clause stops: before GROUP BY, ORDER BY or HAVING, at
    the end of the text, and before the line break that ends the text. *)
Definition span_end (pv : option ascii) (t : text) : bool :=
  keyword_at "GROUP BY" pv t || keyword_at "ORDER BY" pv t ||
  keyword_at "HAVING" pv t ||
  match t with [] => true | [c] => Ascii.eqb c nl | _ :: _ :: _ => false end.

(** The column of a product predicate, in any case, bracketed or not,
    starts the text. *)
Definition product_column_at (_ : option ascii) (t : text) : bool :=
  starts_with eq_ci (txt "Product") t || starts_with eq_ci (txt "[Product") t.

(** [p] holds at no position of [a], in the text [a ++ b] that comes after
    the character [pv]. *)
Fixpoint none_before (p : option ascii -> text -> bool) (pv : option ascii)
    (a b : text) : bool :=
  match a with
  | [] => true
  | x :: a' => negb (p pv (a ++ b)) && none_before p (Some x) a' b
  end.

(** The first position of [a ++ b] at which [p] holds is the start of [b]. *)
Definition first_after (p : option ascii -> text -> bool) (pv : option ascii)
    (a b : text) : bool :=
  none_before p pv a b && p (lastc pv a) b.

(** ** The fenced object of a completion *)

(** A completion with a fenced object: text, the marker, white space, the
    object between its braces, white space, the closing fence, text. *)
Definition fenced (a marker ws1 u ws2 c : text) : text :=
  a ++ marker ++ ws1 ++ "{"%char :: u ++ "}"%char :: ws2 ++ txt "```" ++ c.

(** A completion with explanations in braces before and after a fenced
    object with a nested object. *)
Definition explained_completion : text :=
  txt "Using {table} as asked." ++ [nl] ++ txt "```JSON" ++ [nl] ++
  txt "{" ++ jstr "sql_query" ++ txt ": " ++ jstr "SELECT 1" ++ txt ", " ++
  jstr "meta" ++ txt ": {" ++ jstr "k" ++ txt ": 1}}" ++ [nl] ++ txt "```" ++
  txt " {done}".

(** * The matcher, the rewrites and the request *)

(** ** The matcher *)

Lemma lastc_app pv u v : lastc pv (u ++ v) = lastc (lastc pv u) v.
Proof. revert pv. induction u; intros; cbn; auto. Qed.

Lemma reach_refl r st : reach r st st.
Proof. exists []. repeat split; auto. Qed.

Lemma forallb_weaken (p q : ascii -> bool) c :
  (forall x, p x = true -> q x = true) -> forallb p c = true -> forallb q c = true.
Proof.
  intros H. induction c; cbn; auto. intros E. apply andb_true_iff in E as [E1 E2].
  rewrite (H _ E1). auto.
Qed.

Section RepLemmas.

Variable A : Type.

Variable p : ascii -> bool.

Lemma rep_greedy_ext min : forall rs pv (k k' : option ascii -> text -> option A),
  (forall c rs', rs = c ++ rs' -> forallb p c = true ->
     k (lastc pv c) rs' = k' (lastc pv c) rs') ->
  rep_greedy p min pv rs k = rep_greedy p min pv rs k'.
Proof.
  intros rs. revert min. induction rs as [|x rs IH]; intros min pv k k' H; cbn.
  - pose proof (H [] [] eq_refl eq_refl) as H0. cbn in H0. now rewrite H0.
  - pose proof (H [] (x :: rs) eq_refl eq_refl) as H0. cbn in H0. rewrite H0.
    destruct (p x) eqn:E; [|reflexivity].
    rewrite (IH (pred min) (Some x) k k'); [reflexivity|].
    intros c rs' -> Hc. apply (H (x :: c) rs'); [reflexivity|]. cbn. now rewrite E.
Qed.

Lemma rep_lazy_ext min : forall rs pv (k k' : option ascii -> text -> option A),
  (forall c rs', rs = c ++ rs' -> forallb p c = true ->
     k (lastc pv c) rs' = k' (lastc pv c) rs') ->
  rep_lazy p min pv rs k = rep_lazy p min pv rs k'.
Proof.
  intros rs. revert min. induction rs as [|x rs IH]; intros min pv k k' H; cbn.
  - pose proof (H [] [] eq_refl eq_refl) as H0. cbn in H0. now rewrite H0.
  - pose proof (H [] (x :: rs) eq_refl eq_refl) as H0. cbn in H0. rewrite H0.
    assert (IH' : forall m, rep_lazy p m (Some x) rs k = rep_lazy p m (Some x) rs k' \/ p x = false).
    { intros m. destruct (p x) eqn:E; [left|now right].
      apply IH. intros c rs' -> Hc. apply (H (x :: c) rs'); [reflexivity|]. cbn. now rewrite E. }
    destruct (Nat.eqb min 0).
    + destruct (IH' 0) as [->| ->]; reflexivity.
    + destruct (IH' (pred min)) as [->| ->]; reflexivity.
Qed.

Lemma rep_greedy_fail min : forall rs pv,
  rep_greedy p min pv rs (fun _ _ => @None A) = None.
Proof.
  intros rs. revert min. induction rs as [|x rs IH]; intros min pv; cbn.
  - now destruct (Nat.eqb min 0).
  - rewrite IH. destruct (p x), (Nat.eqb min 0); reflexivity.
Qed.

Lemma rep_lazy_fail min : forall rs pv,
  rep_lazy p min pv rs (fun _ _ => @None A) = None.
Proof.
  intros rs. revert min. induction rs as [|x rs IH]; intros min pv; cbn.
  - now destruct (Nat.eqb min 0).
  - rewrite !IH. destruct (p x), (Nat.eqb min 0); reflexivity.
Qed.

(** Appending text that starts with a character outside the class. *)
Lemma rep_greedy_append q t min : forall u pv (k : option ascii -> text -> option A),
  p q = false ->
  rep_greedy p min pv (u ++ q :: t) k =
  rep_greedy p min pv u (fun pv' rs' => k pv' (rs' ++ q :: t)).
Proof.
  intros u. revert min. induction u as [|x u IH]; intros min pv k Hq; cbn.
  - now rewrite Hq.
  - rewrite IH by exact Hq. reflexivity.
Qed.

Lemma rep_lazy_append q t min : forall u pv (k : option ascii -> text -> option A),
  p q = false ->
  rep_lazy p min pv (u ++ q :: t) k =
  rep_lazy p min pv u (fun pv' rs' => k pv' (rs' ++ q :: t)).
Proof.
  intros u. revert min. induction u as [|x u IH]; intros min pv k Hq; cbn.
  - rewrite Hq. now destruct (Nat.eqb min 0); [destruct (k pv (q :: t))|].
  - rewrite !IH by exact Hq. reflexivity.
Qed.

End RepLemmas.

Lemma reach_weaken r r' st st' :
  (forall x, alphabet r x = true -> alphabet r' x = true) ->
  (plain r' = true -> plain r = true) ->
  reach r st st' -> reach r' st st'.
Proof.
  intros Ha Hp (c & E & F & P & C). exists c. repeat split; auto.
  eapply forallb_weaken; eauto.
Qed.

Lemma reach_seq a b st s1 s2 :
  reach a st s1 -> reach b s1 s2 -> reach (Seq a b) st s2.
Proof.
  intros (c1 & E1 & F1 & P1 & C1) (c2 & E2 & F2 & P2 & C2).
  exists (c1 ++ c2). repeat split.
  - rewrite E1, E2. now rewrite app_assoc.
  - rewrite forallb_app. apply andb_true_iff. split.
    + eapply forallb_weaken; [|exact F1]. cbn. intros x ->. reflexivity.
    + eapply forallb_weaken; [|exact F2]. cbn. intros x ->. apply orb_true_r.
  - rewrite lastc_app, <- P1. exact P2.
  - cbn. intros H. apply andb_true_iff in H as [Ha Hb]. rewrite (C2 Hb). auto.
Qed.

(** The continuation matters only on the states the pattern can reach. *)
Lemma mt_ext r : forall st k k',
  (forall st', reach r st st' -> k st' = k' st') ->
  mt r st k = mt r st k'.
Proof.
  induction r; intros st k k' H; cbn [mt].
  - destruct (rest st) as [|c rs] eqn:E; [reflexivity|].
    destruct (p c) eqn:Ep; [|reflexivity].
    apply H. exists [c]. cbn. rewrite Ep. repeat split; auto.
  - apply H, reach_refl.
  - apply IHr1. intros s1 R1. apply IHr2. intros s2 R2.
    apply H. eapply reach_seq; eauto.
  - rewrite (IHr1 st k k'), (IHr2 st k k'); [reflexivity| |].
    + intros st' R. apply H. eapply reach_weaken; [| |exact R]; cbn.
      * intros x ->. apply orb_true_r.
      * intros E. now apply andb_true_iff in E.
    + intros st' R. apply H. eapply reach_weaken; [| |exact R]; cbn.
      * intros x ->. reflexivity.
      * intros E. now apply andb_true_iff in E.
  - assert (Hk : forall c rs', rest st = c ++ rs' -> forallb p c = true ->
       k (mkst (lastc (prev st) c) rs' (caps st)) = k' (mkst (lastc (prev st) c) rs' (caps st))).
    { intros c rs' E F. apply H. exists c. cbn. repeat split; auto. }
    destruct greedy; [apply rep_greedy_ext | apply rep_lazy_ext]; exact Hk.
  - rewrite (IHr st k k'); [rewrite (H st (reach_refl _ _)); reflexivity|].
    intros st' R. apply H. exact R.
  - apply IHr. intros st' (c & E & F & P & C). apply H.
    exists c. cbn. repeat split; auto. discriminate.
  - destruct (word_boundary _ _); [apply H, reach_refl | reflexivity].
  - destruct (at_dollar _); [apply H, reach_refl | reflexivity].
  - destruct (mt r st Some) as [st'|]; [|reflexivity].
    apply H. exists []. cbn. repeat split; auto. discriminate.
Qed.

Lemma mt_ext_all r st k k' : (forall st', k st' = k' st') -> mt r st k = mt r st k'.
Proof. intros H. apply mt_ext. intros; apply H. Qed.

Lemma mt_fail r : forall st, mt r st (fun _ => None) = None.
Proof.
  induction r; intros st; cbn [mt].
  - destruct (rest st); [reflexivity | now destruct (p a)].
  - reflexivity.
  - rewrite (mt_ext_all r1 st _ (fun _ => None)); [apply IHr1 | apply IHr2].
  - now rewrite IHr1, IHr2.
  - destruct greedy; [apply rep_greedy_fail | apply rep_lazy_fail].
  - now rewrite IHr.
  - apply IHr.
  - now destruct (word_boundary _ _).
  - now destruct (at_dollar _).
  - now destruct (mt r st Some).
Qed.

(** A continuation that fails on every reachable state makes the match fail. *)
Lemma mt_none r st k :
  (forall st', reach r st st' -> k st' = None) -> mt r st k = None.
Proof. intros H. rewrite (mt_ext r st k (fun _ => None) H). apply mt_fail. Qed.

Section RepMap.

Variables (A B : Type) (f : A -> B) (p : ascii -> bool).

Lemma rep_greedy_map min : forall rs pv (k : option ascii -> text -> option A),
  rep_greedy p min pv rs (fun a b => option_map f (k a b)) =
  option_map f (rep_greedy p min pv rs k).
Proof.
  intros rs. revert min. induction rs as [|x rs IH]; intros min pv k; cbn.
  - now destruct (Nat.eqb min 0).
  - rewrite IH. destruct (p x); [|now destruct (Nat.eqb min 0)].
    destruct (rep_greedy p (pred min) (Some x) rs k); [reflexivity|].
    now destruct (Nat.eqb min 0).
Qed.

Lemma rep_lazy_map min : forall rs pv (k : option ascii -> text -> option A),
  rep_lazy p min pv rs (fun a b => option_map f (k a b)) =
  option_map f (rep_lazy p min pv rs k).
Proof.
  intros rs. revert min. induction rs as [|x rs IH]; intros min pv k; cbn.
  - now destruct (Nat.eqb min 0).
  - rewrite !IH. destruct (Nat.eqb min 0).
    + destruct (k pv (x :: rs)); [reflexivity|]. now destruct (p x).
    + now destruct (p x).
Qed.

End RepMap.

Lemma mt_map (f : mstate -> mstate) r : forall st k,
  mt r st (fun s => option_map f (k s)) = option_map f (mt r st k).
Proof.
  induction r; intros st k; cbn [mt].
  - destruct (rest st); [reflexivity | now destruct (p a)].
  - reflexivity.
  - rewrite <- IHr1. apply mt_ext_all. intros s1. apply IHr2.
  - rewrite IHr1, IHr2. now destruct (mt r1 st k).
  - destruct greedy; [apply rep_greedy_map with (k := fun a b => k (mkst a b (caps st)))
                     | apply rep_lazy_map with (k := fun a b => k (mkst a b (caps st)))].
  - rewrite IHr. now destruct (mt r st k).
  - apply IHr with (k := fun st' => k (mkst (prev st') (rest st')
        (set_cap n (mkcap (length (rest st)) (firstn (length (rest st) - length (rest st')) (rest st))) (caps st')))).
  - now destruct (word_boundary _ _).
  - now destruct (at_dollar _).
  - now destruct (mt r st Some).
Qed.

(** A pattern that cannot consume [q] behaves on [u ++ q :: t] as on [u]. *)
Lemma mt_append r q t : 
  local r = true -> alphabet r q = false ->
  forall pv u cs k,
  mt r (mkst pv (u ++ q :: t) cs) k =
  mt r (mkst pv u cs) (fun st => k (with_suffix (q :: t) st)).
Proof.
  induction r; cbn [local alphabet]; intros Hl Ha pv u cs k; try discriminate; cbn [mt rest prev caps].
  - destruct u as [|c u]; cbn; [now rewrite Ha | reflexivity].
  - reflexivity.
  - apply andb_true_iff in Hl as [L1 L2]. apply orb_false_iff in Ha as [A1 A2].
    rewrite (IHr1 L1 A1). apply mt_ext_all. intros [pv' u' cs']. cbn.
    apply (IHr2 L2 A2).
  - apply andb_true_iff in Hl as [L1 L2]. apply orb_false_iff in Ha as [A1 A2].
    now rewrite (IHr1 L1 A1), (IHr2 L2 A2).
  - destruct greedy; [apply rep_greedy_append | apply rep_lazy_append]; exact Ha.
  - now rewrite (IHr Hl Ha).
Qed.

Lemma same_rc_orelse (a a' b b' : option mstate) :
  same_rc a a' -> same_rc b b' ->
  same_rc (match a with Some r => Some r | None => b end)
          (match a' with Some r => Some r | None => b' end).
Proof. destruct a, a'; cbn; tauto. Qed.

Section RepPrev.

Variable p : ascii -> bool.

Lemma rep_greedy_prev min : forall rs pv pv' (k k' : option ascii -> text -> option mstate),
  (forall a a' t, same_rc (k a t) (k' a' t)) ->
  same_rc (rep_greedy p min pv rs k) (rep_greedy p min pv' rs k').
Proof.
  intros rs. revert min. induction rs as [|x rs IH]; intros min pv pv' k k' H; cbn.
  - destruct (Nat.eqb min 0); [apply H | exact I].
  - assert (Hh : same_rc (if Nat.eqb min 0 then k pv (x :: rs) else None)
                         (if Nat.eqb min 0 then k' pv' (x :: rs) else None)).
    { destruct (Nat.eqb min 0); [apply H | exact I]. }
    destruct (p x); [|exact Hh].
    apply same_rc_orelse; [apply IH, H | exact Hh].
Qed.

Lemma rep_lazy_prev min : forall rs pv pv' (k k' : option ascii -> text -> option mstate),
  (forall a a' t, same_rc (k a t) (k' a' t)) ->
  same_rc (rep_lazy p min pv rs k) (rep_lazy p min pv' rs k').
Proof.
  intros rs. revert min. induction rs as [|x rs IH]; intros min pv pv' k k' H; cbn.
  - destruct (Nat.eqb min 0); [apply H | exact I].
  - destruct (Nat.eqb min 0).
    + apply same_rc_orelse; [apply H|]. destruct (p x); [apply IH, H | exact I].
    + destruct (p x); [apply IH, H | exact I].
Qed.

End RepPrev.

(** The outcome of a context-free pattern does not depend on the
    character before the match. *)
Lemma mt_prev r : context_free r = true ->
  forall pv pv' rs cs k k',
  (forall st st', rest st = rest st' -> caps st = caps st' -> same_rc (k st) (k' st')) ->
  same_rc (mt r (mkst pv rs cs) k) (mt r (mkst pv' rs cs) k').
Proof.
  induction r; cbn [context_free]; intros Hc pv pv' rs cs k k' H; try discriminate; cbn [mt rest prev caps].
  - destruct rs as [|c rs]; [exact I|]. destruct (p c); [apply H; reflexivity | exact I].
  - apply H; reflexivity.
  - apply andb_true_iff in Hc as [C1 C2]. apply IHr1; [exact C1|].
    intros [a t c] [a' t' c']; cbn; intros -> ->. apply IHr2; [exact C2 | exact H].
  - apply andb_true_iff in Hc as [C1 C2].
    apply same_rc_orelse; [apply IHr1 | apply IHr2]; auto.
  - destruct greedy; [apply rep_greedy_prev | apply rep_lazy_prev];
      intros; apply H; reflexivity.
  - apply same_rc_orelse; [apply IHr; auto | apply H; reflexivity].
  - apply IHr; [exact Hc|]. intros [a t c] [a' t' c']; cbn; intros -> ->.
    apply H; reflexivity.
Qed.

Lemma match_here_prev r pv pv' rs : context_free r = true ->
  same_rc (match_here r pv rs) (match_here r pv' rs).
Proof.
  intros Hc. unfold match_here. apply mt_prev; [exact Hc|].
  intros st st' E1 E2. cbn. auto.
Qed.

(** [re.sub] with a context-free pattern does not depend on the character
    before the text. *)
Lemma match_advancing_prev r pv pv' rs : context_free r = true ->
  same_rc (match_advancing r pv rs) (match_advancing r pv' rs).
Proof.
  intros Hc. unfold match_advancing. apply mt_prev; [exact Hc|].
  intros st st' E1 E2. rewrite E1. destruct (Nat.ltb _ _); cbn; auto.
Qed.

Lemma sub_go_prev r repl : context_free r = true ->
  forall rs cnt skip pv pv',
  sub_go r repl cnt skip pv rs = sub_go r repl cnt skip pv' rs.
Proof.
  intros Hc rs. induction rs as [|c rs IH]; intros cnt skip pv pv'.
  - destruct skip; [|reflexivity]. cbn [sub_go].
    generalize (match_here_prev r pv pv' [] Hc) (match_advancing_prev r pv pv' [] Hc).
    destruct (match_here r pv []) as [s|], (match_here r pv' []) as [s'|];
      cbn [same_rc]; try tauto.
    destruct (match_advancing r pv []) as [a|], (match_advancing r pv' []) as [a'|];
      cbn [same_rc]; try tauto.
    + intros [-> ->] [-> ->]. reflexivity.
    + intros [-> ->] _. reflexivity.
  - destruct skip; cbn [sub_go]; [|apply IH].
    generalize (match_here_prev r pv pv' (c :: rs) Hc)
               (match_advancing_prev r pv pv' (c :: rs) Hc).
    destruct (match_here r pv (c :: rs)) as [s|], (match_here r pv' (c :: rs)) as [s'|];
      cbn [same_rc]; try tauto.
    destruct (match_advancing r pv (c :: rs)) as [a|],
             (match_advancing r pv' (c :: rs)) as [a'|];
      cbn [same_rc]; try tauto.
    + intros [-> ->] [-> ->]. reflexivity.
    + intros [-> ->] _. reflexivity.
Qed.

Lemma sub_go_skip r repl cnt m : forall pv rs,
  sub_go r repl cnt (length m) pv (m ++ rs) = sub_go r repl cnt 0 (lastc pv m) rs.
Proof.
  induction m as [|c m IH]; intros pv rs; [reflexivity|]. cbn. apply IH.
Qed.

Lemma firstn_len_diff (u v : text) :
  firstn (length (u ++ v) - length v) (u ++ v) = u.
Proof.
  rewrite length_app, Nat.add_sub.
  rewrite firstn_app, Nat.sub_diag, firstn_all. cbn. apply app_nil_r.
Qed.

(** A match of the text [m], which is not empty, followed by [rs]. *)
Lemma sub_go_match r repl pv m rs st' :
  m <> [] -> match_here r pv (m ++ rs) = Some st' -> rest st' = rs ->
  sub_go r repl None 0 pv (m ++ rs) =
  repl m (caps st') ++ sub_go r repl None 0 (lastc pv m) rs.
Proof.
  intros Hm Hmatch Hrest. destruct m as [|c m]; [congruence|].
  assert (E : sub_go r repl None 0 pv ((c :: m) ++ rs) =
    repl (firstn (length ((c :: m) ++ rs) - length (rest st')) ((c :: m) ++ rs)) (caps st') ++
    sub_go r repl None (pred (length ((c :: m) ++ rs) - length (rest st'))) (Some c) (m ++ rs)).
  { cbn [sub_go app]. change (c :: m ++ rs) with ((c :: m) ++ rs). rewrite Hmatch, Hrest.
    replace (length ((c :: m) ++ rs) - length rs) with (S (length m))
      by (rewrite length_app, Nat.add_sub; reflexivity).
    reflexivity. }
  rewrite E, Hrest, firstn_len_diff.
  replace (length ((c :: m) ++ rs) - length rs) with (S (length m))
    by (rewrite length_app, Nat.add_sub; reflexivity).
  apply f_equal. cbn [lastc pred]. apply sub_go_skip.
Qed.

Lemma sub_go_done r repl pv rs : sub_go r repl (Some 0) 0 pv rs = rs.
Proof. destruct rs; reflexivity. Qed.

Lemma sub_go_gap r repl cnt g : forall pv rs,
  no_match_in r pv g rs = true ->
  sub_go r repl cnt 0 pv (g ++ rs) = g ++ sub_go r repl cnt 0 (lastc pv g) rs.
Proof.
  destruct cnt as [[|n]|].
  - intros pv rs _. now rewrite !sub_go_done.
  - induction g as [|c g IH]; intros pv rs H; [reflexivity|].
    cbn [no_match_in] in H. cbn [sub_go app lastc].
    change (c :: g ++ rs) with ((c :: g) ++ rs).
    destruct (match_here r pv ((c :: g) ++ rs)); [discriminate|].
    cbn [app]. f_equal. apply IH, H.
  - induction g as [|c g IH]; intros pv rs H; [reflexivity|].
    cbn [no_match_in] in H. cbn [sub_go app lastc].
    change (c :: g ++ rs) with ((c :: g) ++ rs).
    destruct (match_here r pv ((c :: g) ++ rs)); [discriminate|].
    cbn [app]. f_equal. apply IH, H.
Qed.

Lemma mt_lit eq s : forall st k,
  mt (lit_with eq s) st k =
  if starts_with eq s (rest st)
  then k (mkst (lastc (prev st) (firstn (length s) (rest st)))
               (skipn (length s) (rest st)) (caps st))
  else None.
Proof.
  induction s as [|c s IH]; intros [pv rs cs] k; cbn [lit_with mt starts_with rest prev caps].
  - reflexivity.
  - destruct rs as [|x rs]; [reflexivity|].
    destruct (eq c x); cbn [andb]; [|reflexivity].
    rewrite IH. reflexivity.
Qed.

(** A literal that is there. *)
Lemma mt_lit_here eq s u v pv cs k :
  length u = length s -> starts_with eq s (u ++ v) = true ->
  mt (lit_with eq s) (mkst pv (u ++ v) cs) k = k (mkst (lastc pv u) v cs).
Proof.
  intros Hl Hs. rewrite mt_lit. cbn [rest prev caps]. rewrite Hs, <- Hl.
  rewrite firstn_app, Nat.sub_diag, firstn_all, skipn_app, Nat.sub_diag, skipn_all.
  cbn. now rewrite app_nil_r.
Qed.


Lemma firstn_exact (u v : text) : firstn (length u) (u ++ v) = u.
Proof. induction u; cbn; [now destruct v | now f_equal]. Qed.

(** *** The matcher on small subjects, as Python's [re] answers them *)

Example sub_lazy_star :
  sub (Rep false 0 (eq_cs "a")) (fun _ _ => txt "-") None (txt "baac") = txt "-b-----c-".
Proof. reflexivity. Qed.

Example sub_greedy_star :
  sub (Rep true 0 (eq_cs "x")) (fun _ _ => txt "-") None (txt "abxd") = txt "-a-b--d-".
Proof. reflexivity. Qed.

Example sub_count :
  sub (Rep true 0 (eq_cs "x")) (fun _ _ => txt "-") (Some 2) (txt "abxd") = txt "-a-bxd".
Proof. reflexivity. Qed.

Example sub_lookahead :
  sub (Look (chr "b") <|> chr "b") (fun _ _ => txt "-") None (txt "abc") = txt "a--c".
Proof. reflexivity. Qed.

Example search_leftmost :
  option_map m_start (search (lit_ci "from" ;; Rep true 1 is_space) (txt "x FROM  t from u")) =
  Some 2.
Proof. reflexivity. Qed.

Example dollar_before_final_newline :
  option_map m_start (search Dollar [ "a"%char; "010"%char ]) = Some 1.
Proof. reflexivity. Qed.

(** ** The repair of [try_execute_sql] *)

Section RepDet.

Variable A : Type.

Variable p : ascii -> bool.

(** Greedy repetition before something that cannot start with a
    character of the class: the whole run is taken. *)
Lemma rep_greedy_det (u : text) : forall min v pv (k : option ascii -> text -> option A),
  forallb p u = true ->
  (forall pv' x t, p x = true -> k pv' (x :: t) = None) ->
  match v with x :: _ => p x = false | [] => True end ->
  rep_greedy p min pv (u ++ v) k =
  if Nat.leb min (length u) then k (lastc pv u) v else None.
Proof.
  induction u as [|c u IH]; intros min v pv k Hu Hk Hv.
  - cbn [app length lastc]. destruct v as [|x v]; cbn.
    + now destruct min.
    + rewrite Hv. now destruct min.
  - cbn in Hu. apply andb_true_iff in Hu as [Hc Hu].
    cbn [app rep_greedy length lastc]. rewrite Hc.
    rewrite (IH (pred min) v (Some c) k Hu Hk Hv).
    rewrite (Hk pv c (u ++ v) Hc).
    destruct min as [|min]; cbn [pred Nat.leb Nat.eqb].
    + now destruct (k (lastc (Some c) u) v).
    + now destruct (Nat.leb min (length u)); [destruct (k (lastc (Some c) u) v)|].
Qed.

End RepDet.

Lemma space_not (c x : ascii) : is_space c = false -> is_space x = true -> eq_cs c x = false.
Proof.
  intros Hc Hx. unfold eq_cs. destruct (Ascii.eqb_spec c x); [subst; congruence | reflexivity].
Qed.

(** A group around a greedy repetition, before something that cannot start
    with a character of the class. *)
Lemma mt_grp_rep_det n p min u v pv cs k :
  forallb p u = true ->
  (forall pv' x t cs', p x = true -> k (mkst pv' (x :: t) cs') = None) ->
  match v with x :: _ => p x = false | [] => True end ->
  mt (Grp n (Rep true min p)) (mkst pv (u ++ v) cs) k =
  if Nat.leb min (length u)
  then k (mkst (lastc pv u) v (set_cap n (mkcap (length (u ++ v)) u) cs))
  else None.
Proof.
  intros Hu Hk Hv. cbn [mt rest prev caps].
  rewrite rep_greedy_det; [|exact Hu| |exact Hv].
  - cbn [rest prev caps]. now rewrite firstn_len_diff.
  - intros pv' x t Hx. cbn [rest prev caps]. now apply Hk.
Qed.

Lemma mt_rep_det p min u v pv cs k :
  forallb p u = true ->
  (forall pv' x t, p x = true -> k (mkst pv' (x :: t) cs) = None) ->
  match v with x :: _ => p x = false | [] => True end ->
  mt (Rep true min p) (mkst pv (u ++ v) cs) k =
  if Nat.leb min (length u) then k (mkst (lastc pv u) v cs) else None.
Proof.
  intros Hu Hk Hv. cbn [mt rest prev caps].
  rewrite rep_greedy_det; [reflexivity|exact Hu| |exact Hv].
  intros pv' x t Hx. now apply Hk.
Qed.

Lemma mt_chr c x rs pv cs k :
  mt (chr c) (mkst pv (x :: rs) cs) k = if Ascii.eqb c x then k (mkst (Some x) rs cs) else None.
Proof. reflexivity. Qed.

Lemma mt_seq a b st k : mt (a ;; b) st k = mt a st (fun st' => mt b st' k).
Proof. reflexivity. Qed.



(** ** The date rewrite of the summary query *)

Section RepAll.

Variable A : Type.

Variable p : ascii -> bool.

(** Greedy repetition before something that succeeds after the whole run. *)
Lemma rep_greedy_all (u : text) : forall min v pv (k : option ascii -> text -> option A) r,
  forallb p u = true -> min <= length u ->
  match v with x :: _ => p x = false | [] => True end ->
  k (lastc pv u) v = Some r ->
  rep_greedy p min pv (u ++ v) k = Some r.
Proof.
  induction u as [|c u IH]; intros min v pv k r Hu Hmin Hv Hk.
  - cbn [app length lastc] in *. assert (min = 0) by lia. subst.
    destruct v as [|x v]; cbn; [exact Hk|]. now rewrite Hv, Hk.
  - cbn in Hu. apply andb_true_iff in Hu as [Hc Hu].
    cbn [app rep_greedy length lastc] in *. rewrite Hc.
    rewrite (IH (pred min) v (Some c) k r Hu); [reflexivity | lia | exact Hv | exact Hk].
Qed.

End RepAll.

Lemma starts_with_lower s : forall kw rs,
  str_lower kw = str_lower s ->
  starts_with eq_ci s (kw ++ rs) = true /\ length kw = length s.
Proof.
  induction s as [|c s IH]; intros kw rs H.
  - destruct kw; [split; reflexivity | discriminate].
  - destruct kw as [|x kw]; [discriminate|]. cbn in H. injection H as Hx Hs.
    destruct (IH kw rs Hs) as [E L]. cbn. split; [|now rewrite L].
    unfold eq_ci at 1. rewrite Hx, Ascii.eqb_refl. exact E.
Qed.

Lemma mt_lit_ci_here s kw v pv cs k :
  str_lower kw = str_lower (txt s) ->
  mt (lit_ci s) (mkst pv (kw ++ v) cs) k = k (mkst (lastc pv kw) v cs).
Proof.
  intros H. destruct (starts_with_lower (txt s) kw v H) as [E L].
  unfold lit_ci. now apply mt_lit_here.
Qed.

Lemma mt_alt a b st k :
  mt (a <|> b) st k = match mt a st k with Some r => Some r | None => mt b st k end.
Proof. reflexivity. Qed.

Lemma mt_chr_fail c x rs pv cs k :
  Ascii.eqb c x = false -> mt (chr c) (mkst pv (x :: rs) cs) k = None.
Proof. intros H. rewrite mt_chr. now rewrite H. Qed.

Lemma mt_Chr p x rs pv cs k :
  mt (Chr p) (mkst pv (x :: rs) cs) k = if p x then k (mkst (Some x) rs cs) else None.
Proof. reflexivity. Qed.

(** No year expression starts with a character that is neither a digit
    nor a Y. *)
Lemma year_expr_fail x rs pv cs k :
  is_digit x = false -> eq_ci "Y" x = false ->
  mt year_expr (mkst pv (x :: rs) cs) k = None.
Proof.
  intros Hd Hy. unfold year_expr. rewrite !mt_alt. unfold lit_ci.
  rewrite !mt_seq, !mt_lit. cbn [rest starts_with txt list_ascii_of_string].
  rewrite Hy. cbn [andb]. rewrite mt_Chr, Hd. reflexivity.
Qed.

Lemma space_no_year x : is_space x = true -> is_digit x = false /\ eq_ci "Y" x = false.
Proof. ascii_cases x; split; reflexivity. Qed.

Lemma cmp_no_year x : gt_or_eq x = true ->
  is_digit x = false /\ eq_ci "Y" x = false /\ is_space x = false.
Proof. ascii_cases x; repeat split; reflexivity. Qed.

Lemma digit_not_y d : is_digit d = true -> eq_ci "Y" d = false.
Proof. ascii_cases d. Qed.

Lemma mt_Grp n a st k :
  mt (Grp n a) st k =
  mt a st (fun st' => k (mkst (prev st') (rest st')
    (set_cap n (mkcap (length (rest st))
       (firstn (length (rest st) - length (rest st')) (rest st))) (caps st')))).
Proof. reflexivity. Qed.

Lemma app_assoc5 (a b c d e : text) (x : ascii) :
  (a ++ b ++ x :: c ++ d) ++ e = a ++ b ++ x :: c ++ d ++ e.
Proof. rewrite <- !app_assoc. cbn. now rewrite <- !app_assoc. Qed.

Lemma year_operand_match e h (Hy : year_operand e h) : forall pv cs (K : mstate -> option mstate) r,
  K (mkst (lastc pv e) h (set_cap 3 (mkcap (length (e ++ h)) e) cs)) = Some r ->
  mt (Grp 3 year_expr) (mkst pv (e ++ h) cs) K = Some r.
Proof.
  destruct Hy as [d1 d2 d3 d4 h Hd | call ws1 ws2 digits sign h Hc Hw1 Hs Hw2 Hn Hd Hh
                  | call ws h Hc Hw Hh]; intros pv cs K r HK;
    rewrite mt_Grp; unfold year_expr; rewrite !mt_alt.
  - cbn in Hd. apply andb_true_iff in Hd as [Hd1 Hd]. apply andb_true_iff in Hd as [Hd2 Hd].
    apply andb_true_iff in Hd as [Hd3 Hd]. apply andb_true_iff in Hd as [Hd4 _].
    unfold lit_ci. rewrite (mt_seq (lit_with _ _)), !mt_lit.
    cbn [rest starts_with txt list_ascii_of_string app].
    rewrite (digit_not_y d1) by assumption. cbn [andb].
    rewrite mt_seq, mt_Chr, Hd1, mt_seq, mt_Chr, Hd2, mt_seq, mt_Chr, Hd3, mt_Chr, Hd4.
    cbn [rest prev caps length firstn].
    replace (S (S (S (S (length h)))) - length h) with 4 by lia. apply HK.
  - rewrite app_assoc5.
    rewrite mt_seq, mt_lit_ci_here by exact Hc.
    rewrite mt_seq, mt_rep_det; [|exact Hw1| |revert Hs; ascii_cases sign].
    2:{ intros pv' x t Hx. rewrite mt_seq, mt_Chr. revert Hx. ascii_cases x. }
    cbn [Nat.leb]. rewrite mt_seq, mt_Chr, Hs.
    rewrite mt_seq, mt_rep_det; [|exact Hw2| |].
    2:{ intros pv' x t Hx. cbn [mt rest prev caps rep_greedy]. revert Hx. ascii_cases x. }
    2:{ destruct digits as [|d ds]; [congruence|]. cbn in Hd. apply andb_true_iff in Hd as [Hd _].
        cbn [app]. revert Hd. ascii_cases d. }
    cbn [Nat.leb mt rest prev caps].
    erewrite rep_greedy_all; [reflexivity | exact Hd | destruct digits; [congruence | cbn; lia] | exact Hh |].
    cbn [rest prev caps]. rewrite <- app_assoc5, firstn_len_diff.
    rewrite <- HK. f_equal. f_equal.
    rewrite (lastc_app _ call), (lastc_app _ ws1). cbn [lastc]. rewrite (lastc_app _ ws2). reflexivity.
  - rewrite mt_seq, mt_lit_ci_here by exact Hc.
    rewrite mt_seq, mt_rep_det; [|exact Hw| |].
    2:{ intros pv' x t Hx. rewrite mt_seq, mt_Chr. revert Hx. ascii_cases x. }
    2:{ destruct h as [|x h]; [exact I | apply Hh]. }
    cbn [Nat.leb]. rewrite mt_seq.
    assert (F : forall k', mt (Chr minus_or_plus) (mkst (lastc (lastc pv call) ws) h cs) k' = None).
    { intros k'. destruct h as [|x h]; [reflexivity|]. rewrite mt_Chr. destruct Hh as [_ ->]. reflexivity. }
    rewrite F. rewrite mt_lit_ci_here by exact Hc.
    cbn [rest prev caps]. rewrite firstn_len_diff. now rewrite HK.
Qed.

Lemma year_operand_head e h : year_operand e h ->
  exists x e', e = x :: e' /\ gt_or_eq x = false /\ is_space x = false.
Proof.
  assert (Hcall : forall call, str_lower call = year_call ->
            exists x e', call = x :: e' /\ gt_or_eq x = false /\ is_space x = false).
  { intros [|x call] H; [discriminate|]. injection H as Hx _.
    exists x, call. split; [reflexivity|]. revert Hx. ascii_cases x; split; reflexivity. }
  intros [d1 d2 d3 d4 h' Hd | call ws1 ws2 digits sign h' Hc _ _ _ _ _ _ | call ws h' Hc _ _].
  - exists d1, [d2; d3; d4]. split; [reflexivity|]. cbn in Hd. apply andb_true_iff in Hd as [Hd _].
    revert Hd. ascii_cases d1; split; reflexivity.
  - destruct (Hcall call Hc) as (x & e' & -> & H). eexists; eexists; split; [reflexivity | exact H].
  - apply Hcall, Hc.
Qed.

Lemma sargable_match pv kw col ws1 op ws2 e h :
  str_lower kw = txt "year(" ->
  col <> [] -> forallb word_or_dot col = true ->
  forallb is_space ws1 = true ->
  op <> [] -> forallb gt_or_eq op = true ->
  forallb is_space ws2 = true ->
  year_operand e h ->
  exists st',
    match_here sargable_pattern_gte pv
      (kw ++ col ++ ")"%char :: ws1 ++ op ++ ws2 ++ e ++ h) = Some st' /\
    rest st' = h /\ groups_text (caps st') 1 = col /\
    groups_text (caps st') 2 = op /\ groups_text (caps st') 3 = e.
Proof.
  intros Hkw Hcol Hc Hw1 Hop Ho Hw2 He.
  destruct (year_operand_head e h He) as (x & e' & Ex & Hx1 & Hx2).
  eexists. unfold match_here, sargable_pattern_gte.
  rewrite mt_seq, mt_lit_ci_here by exact Hkw.
  rewrite mt_seq, mt_grp_rep_det; [|exact Hc| |reflexivity].
  2:{ intros pv' y t cs' Hy. rewrite mt_seq, mt_chr. revert Hy. ascii_cases y. }
  replace (Nat.leb 1 (length col)) with true by (destruct col; [congruence | reflexivity]).
  rewrite mt_seq, mt_chr, Ascii.eqb_refl.
  rewrite mt_seq, mt_rep_det; [|exact Hw1| |].
  2:{ intros pv' y t Hy. rewrite mt_seq, mt_Grp. cbn [mt rest prev caps rep_greedy].
      revert Hy. ascii_cases y. }
  2:{ destruct op as [|o op]; [congruence|]. cbn in Ho. apply andb_true_iff in Ho as [Ho _].
      cbn [app]. revert Ho. ascii_cases o. }
  cbn [Nat.leb].
  rewrite mt_seq, mt_grp_rep_det; [|exact Ho| |].
  2:{ intros pv' y t cs' Hy. destruct (cmp_no_year y Hy) as (Y1 & Y2 & Y3).
      rewrite mt_seq. cbn [mt rest prev caps rep_greedy]. rewrite Y3. cbn [Nat.eqb].
      apply (year_expr_fail y t pv' _ _ Y1 Y2). }
  2:{ destruct ws2 as [|w ws2]; cbn [app].
      - rewrite Ex. cbn [app]. exact Hx1.
      - cbn in Hw2. apply andb_true_iff in Hw2 as [Hw _]. revert Hw. ascii_cases w. }
  replace (Nat.leb 1 (length op)) with true by (destruct op; [congruence | reflexivity]).
  rewrite mt_seq, mt_rep_det; [|exact Hw2| |].
  2:{ intros pv' y t Hy. destruct (space_no_year y Hy) as (Y1 & Y2).
      rewrite mt_Grp. apply (year_expr_fail y t pv' _ _ Y1 Y2). }
  2:{ rewrite Ex. cbn [app]. exact Hx2. }
  cbn [Nat.leb].
  split; [apply (year_operand_match e h He); reflexivity|].
  cbn [rest caps]. repeat split.
Qed.

Lemma sargable_sub_step (g kw col ws1 op ws2 e h : text) :
  no_match_in sargable_pattern_gte None g
    (kw ++ col ++ ")"%char :: ws1 ++ op ++ ws2 ++ e ++ h) = true ->
  str_lower kw = txt "year(" ->
  col <> [] -> forallb word_or_dot col = true ->
  forallb is_space ws1 = true ->
  op <> [] -> forallb gt_or_eq op = true ->
  forallb is_space ws2 = true ->
  year_operand e h ->
  sargable_sub (g ++ kw ++ col ++ ")"%char :: ws1 ++ op ++ ws2 ++ e ++ h) =
  g ++ date_from_parts col op e ++ sargable_sub h.
Proof.
  intros Hg Hkw Hcol Hc Hw1 Hop Ho Hw2 He. unfold sargable_sub, sub.
  rewrite sub_go_gap by exact Hg. f_equal.
  destruct (sargable_match (lastc None g) kw col ws1 op ws2 e h Hkw Hcol Hc Hw1 Hop Ho Hw2 He)
    as (st' & Hm & Hr & G1 & G2 & G3).
  set (m := kw ++ col ++ ")"%char :: ws1 ++ op ++ ws2 ++ e).
  assert (Em : kw ++ col ++ ")"%char :: ws1 ++ op ++ ws2 ++ e ++ h = m ++ h).
  { unfold m. rewrite <- !app_assoc. cbn. now rewrite <- !app_assoc. }
  rewrite Em in *.
  rewrite (sub_go_match sargable_pattern_gte optimize_date_sargable (lastc None g) m h st');
    [| |exact Hm|exact Hr].
  - unfold optimize_date_sargable. rewrite G1, G2, G3. f_equal.
    apply sub_go_prev. reflexivity.
  - unfold m. destruct kw; [discriminate | discriminate].
Qed.

Example less_than_is_left_alone :
  sargable_sub (txt "WHERE YEAR(BE_Date) < 2024") = txt "WHERE YEAR(BE_Date) < 2024".
Proof. vm_compute. reflexivity. Qed.

(** ** The product pattern *)

Lemma split_quote_some t A r :
  split_quote t = Some (A, r) -> t = A ++ "'"%char :: r /\ forallb not_quote A = true.
Proof.
  revert A r. induction t as [|x t IH]; intros A r; cbn; [discriminate|].
  destruct (Ascii.eqb_spec x "'").
  - intros [= <- <-]. subst. split; reflexivity.
  - destruct (split_quote t) as [[a r']|]; [|discriminate].
    intros [= <- <-]. destruct (IH a r' eq_refl) as [-> H]. split; [reflexivity|].
    cbn. rewrite H. unfold not_quote. destruct (Ascii.eqb_spec x "'"); [contradiction | reflexivity].
Qed.

Lemma split_quote_app A r :
  forallb not_quote A = true -> split_quote (A ++ "'"%char :: r) = Some (A, r).
Proof.
  induction A as [|x A IH]; cbn; [reflexivity|]. intros H.
  apply andb_true_iff in H as [Hx HA]. unfold not_quote in Hx.
  destruct (Ascii.eqb x "'"); [discriminate|]. now rewrite (IH HA).
Qed.

Lemma split_quote_none t : split_quote t = None <-> forallb not_quote t = true.
Proof.
  induction t as [|x t IH]; cbn; [tauto|]. unfold not_quote at 1.
  destruct (Ascii.eqb x "'"); cbn; [split; discriminate|].
  destruct (split_quote t) as [[a r]|]; [|tauto].
  split; [discriminate|]. intros H. apply IH in H. discriminate.
Qed.

Section RepTail.

Variable F : text -> mstate.
Let K (_ : option ascii) (rs : text) : option mstate :=
  if starts_with eq_cs (txt "%'") rs then Some (F rs) else None.

(** [[^']+] before [%']: everything up to the quote but the last [%]. *)
Lemma rep_greedy_tail (B : text) (t2 : text) :
  forallb not_quote B = true ->
  forall min pv,
  rep_greedy not_quote min pv (B ++ "'"%char :: t2) K =
  if Nat.ltb min (length B) && Ascii.eqb (last B " "%char) "%"
  then Some (F ("%"%char :: "'"%char :: t2)) else None.
Proof.
  induction B as [|x B IH]; intros HB min pv.
  - cbn. now destruct min.
  - cbn in HB. apply andb_true_iff in HB as [Hx HB].
    cbn [app rep_greedy]. rewrite Hx, (IH HB).
    destruct B as [|y B].
    + cbn [length app last]. unfold K. cbn [starts_with txt list_ascii_of_string].
      unfold eq_cs. rewrite (Ascii.eqb_sym "%" x), Ascii.eqb_refl.
      destruct (Ascii.eqb_spec x "%"); [subst x|]; destruct min as [|[|min]]; reflexivity.
    + assert (HK : K pv (x :: (y :: B) ++ "'"%char :: t2) = None).
      { unfold K. cbn [starts_with txt list_ascii_of_string app].
        cbn in HB. apply andb_true_iff in HB as [Hy _]. unfold not_quote in Hy.
        unfold eq_cs. rewrite (Ascii.eqb_sym "'" y). destruct (Ascii.eqb y "'"); [discriminate|].
        now rewrite andb_false_r. }
      rewrite HK.
      change (last (x :: y :: B) " "%char) with (last (y :: B) " "%char).
      destruct min as [|min].
      * cbn [pred Nat.eqb]. cbn [Nat.ltb Nat.leb length].
        now destruct (Ascii.eqb (last (y :: B) " "%char) "%").
      * cbn [pred Nat.eqb].
        replace (Nat.ltb (S min) (length (x :: y :: B))) with (Nat.ltb min (length (y :: B))) by reflexivity.
        now destruct (Nat.ltb min (length (y :: B)) && Ascii.eqb (last (y :: B) " "%char) "%").
Qed.

End RepTail.

Lemma firstn_removelast (B t : text) :
  B <> [] -> firstn (length (B ++ "'"%char :: t) - length ("%"%char :: "'"%char :: t)) (B ++ "'"%char :: t)
             = removelast B.
Proof.
  intros HB. destruct (exists_last HB) as (B0 & z & ->).
  rewrite removelast_last, <- app_assoc. cbn [app].
  replace (length (B0 ++ z :: "'"%char :: t) - length ("%"%char :: "'"%char :: t)) with (length B0)
    by (rewrite length_app; cbn [length]; lia).
  apply firstn_exact.
Qed.

Lemma no_quote_suffix (c rs : text) :
  forallb not_quote (c ++ rs) = true -> starts_with eq_cs (txt "%'") rs = false.
Proof.
  rewrite forallb_app. intros H. apply andb_true_iff in H as [_ H].
  destruct rs as [|a [|b rs]]; cbn [starts_with txt list_ascii_of_string];
    [reflexivity | now rewrite andb_false_r |].
  cbn [forallb] in H. apply andb_true_iff in H as [_ H]. apply andb_true_iff in H as [H _].
  unfold not_quote in H. unfold eq_cs. rewrite (Ascii.eqb_sym "'" b).
  destruct (Ascii.eqb b "'"); [discriminate|]. cbn [andb]. now rewrite andb_false_r.
Qed.

(** The quoted literal of the pattern, matched at [t]. *)
Lemma product_literal_spec pv t cs :
  mt product_literal (mkst pv t cs) Some =
  match t with
  | q :: t1 =>
      if Ascii.eqb q "'" then
        match split_quote t1 with
        | Some (B, t2) =>
            if is_lit B
            then Some (mkst (Some "'"%char) t2
                            (set_cap 1 (mkcap (length (tl t1)) (lit_value B)) cs))
            else None
        | None => None
        end
      else None
  | [] => None
  end.
Proof.
  unfold product_literal. rewrite mt_seq. unfold lit. rewrite mt_lit.
  destruct t as [|q t1]; [reflexivity|].
  cbn [rest prev caps starts_with txt list_ascii_of_string]. unfold eq_cs at 1.
  rewrite (Ascii.eqb_sym "'" q).
  destruct (Ascii.eqb_spec q "'") as [->|Hq]; [|reflexivity].
  destruct t1 as [|b r1]; [reflexivity|].
  unfold eq_cs at 1. rewrite (Ascii.eqb_sym "%" b).
  destruct (Ascii.eqb_spec b "%") as [->|Hb].
  - cbn [andb length firstn skipn lastc tl]. rewrite mt_seq, mt_Grp.
    cbn [mt rest prev caps].
    cbn [split_quote]. change (Ascii.eqb "%" "'") with false. cbn iota.
    set (F := fun rs' : text => mkst (Some "'"%char) (skipn 2 rs')
             (set_cap 1 (mkcap (length r1) (firstn (length r1 - length rs') r1)) cs)).
    rewrite (rep_greedy_ext _ not_quote 1 r1 (Some "%"%char) _
               (fun _ rs => if starts_with eq_cs (txt "%'") rs then Some (F rs) else None)).
    2:{ intros c rs' E Hc. unfold lit. rewrite mt_lit. cbn [rest prev caps].
        change (txt "%'") with ["%"%char; "'"%char].
        destruct (starts_with eq_cs _ rs') eqn:Es; [|reflexivity].
        destruct rs' as [|a [|b rs']]; cbn [starts_with] in Es;
          [discriminate | rewrite andb_false_r in Es; discriminate |].
        unfold eq_cs in Es. apply andb_true_iff in Es as [Ea Es].
        apply andb_true_iff in Es as [Eb _].
        apply Ascii.eqb_eq in Ea, Eb. subst. reflexivity. }
    destruct (split_quote r1) as [[B' t2]|] eqn:Esq.
    + destruct (split_quote_some _ _ _ Esq) as [-> HB].
      rewrite (rep_greedy_tail F B' t2 HB).
      unfold is_lit, lit_value. cbn [tl]. rewrite Ascii.eqb_refl. cbn [andb].
      destruct (Nat.ltb 1 (length B')) eqn:El; [|reflexivity]. cbn [andb].
      destruct (Ascii.eqb (last B' " "%char) "%"); [|reflexivity].
      unfold F. cbn [skipn]. rewrite firstn_removelast; [reflexivity|].
      destruct B'; [discriminate | discriminate].
    + apply split_quote_none in Esq.
      rewrite (rep_greedy_ext _ not_quote 1 r1 (Some "%"%char) _ (fun _ _ => None)).
      * apply rep_greedy_fail.
      * intros c rs' E _. rewrite E in Esq. now rewrite (no_quote_suffix c rs' Esq).
  - cbn [andb]. cbn [split_quote].
    destruct (Ascii.eqb b "'"); [reflexivity|].
    destruct (split_quote r1) as [[a r]|]; [|reflexivity].
    unfold is_lit. destruct (Ascii.eqb_spec b "%"); [contradiction | reflexivity].
Qed.

Lemma forallb_suffix (p : ascii -> bool) (c rs : text) :
  forallb p (c ++ rs) = true -> forallb p rs = true.
Proof. rewrite forallb_app. intros H. now apply andb_true_iff in H. Qed.

Lemma is_head_prev pv A :
  match mt product_head (mkst pv A []) at_end with Some _ => true | None => false end
  = is_head A.
Proof.
  unfold is_head.
  assert (H : same_rc (mt product_head (mkst pv A []) at_end)
                      (mt product_head (mkst None A []) at_end)).
  { apply mt_prev; [reflexivity|]. intros st st' E C. unfold at_end. rewrite E.
    destruct (rest st') eqn:R; cbn; [|exact I]. rewrite E, R. auto. }
  destruct (mt product_head (mkst pv A []) at_end),
           (mt product_head (mkst None A []) at_end); cbn in H; tauto.
Qed.

(** The pattern at the start of [t], in terms of the first two quotes. *)
Lemma product_match_spec pv t :
  match product_match t with
  | Some (A, v, t2) =>
      exists st', match_here product_like_re pv t = Some st' /\
                  rest st' = t2 /\ groups_text (caps st') 1 = v
  | None => match_here product_like_re pv t = None
  end.
Proof.
  unfold product_match, match_here, product_like_re. rewrite mt_seq.
  destruct (split_quote t) as [[A t1]|] eqn:Et.
  - destruct (split_quote_some _ _ _ Et) as [-> HA].
    rewrite mt_append by reflexivity.
    set (X := match split_quote t1 with
              | Some (B, t2) =>
                  if is_lit B
                  then Some (mkst (Some "'"%char) t2
                                  (set_cap 1 (mkcap (length (tl t1)) (lit_value B)) []))
                  else None
              | None => None
              end).
    rewrite (mt_ext product_head _ _ (fun st => match at_end st with Some _ => X | None => None end)).
    2:{ intros [pv' rs' cs'] (c & E & F & P & C). cbn in E, C. unfold with_suffix, at_end.
        cbn [rest prev caps]. rewrite product_literal_spec.
        rewrite (C eq_refl).
        destruct rs' as [|x rs']; cbn [app]; [reflexivity|].
        rewrite E in HA. apply forallb_suffix in HA. cbn in HA.
        apply andb_true_iff in HA as [Hx _]. unfold not_quote in Hx.
        destruct (Ascii.eqb x "'"); [discriminate | reflexivity]. }
    destruct X as [x0|] eqn:EX.
    + rewrite (mt_ext_all product_head _ _ (fun s => option_map (fun _ => x0) (at_end s))).
      2:{ intros st'. now destruct (at_end st'). }
      rewrite mt_map. rewrite <- (is_head_prev pv A).
      unfold X in EX.
      destruct (split_quote t1) as [[B t2]|]; [|discriminate].
      destruct (is_lit B); [|discriminate]. injection EX as <-.
      destruct (mt product_head _ at_end); cbn [option_map andb].
      * eexists. split; [reflexivity|]. split; reflexivity.
      * reflexivity.
    + rewrite (mt_ext_all product_head _ _ (fun _ => None)).
      2:{ intros st'. now destruct (at_end st'). }
      rewrite mt_fail. unfold X in EX.
      destruct (split_quote t1) as [[B t2]|]; [|reflexivity].
      destruct (is_lit B); [discriminate|]. now rewrite andb_false_r.
  - apply split_quote_none in Et. apply mt_none.
    intros [pv' rs' cs'] (c & E & _). cbn in E. rewrite product_literal_spec.
    destruct rs' as [|x rs']; [reflexivity|].
    rewrite E in Et. apply forallb_suffix in Et. cbn in Et.
    apply andb_true_iff in Et as [Hx _]. unfold not_quote in Hx.
    destruct (Ascii.eqb x "'"); [discriminate | reflexivity].
Qed.

(** *** The replacement and the scanning equations of [product_sub] *)

Lemma canonical_eq v :
  txt "[Product] LIKE '%" ++ normalize_value v ++ txt "%'" = canonical v.
Proof. reflexivity. Qed.

Lemma is_lit_shape B :
  is_lit B = true -> B = "%"%char :: lit_value B ++ ["%"%char] /\ lit_value B <> [].
Proof.
  unfold is_lit, lit_value. destruct B as [|b r]; [discriminate|]. cbn [tl].
  intros H. apply andb_true_iff in H as [H H3]. apply andb_true_iff in H as [H1 H2].
  apply Ascii.eqb_eq in H1, H3. subst b.
  assert (Hr : r <> []) by (destruct r; [discriminate | discriminate]).
  destruct (exists_last Hr) as (r0 & z & ->).
  rewrite last_last in H3. subst z. rewrite removelast_last. split; [reflexivity|].
  rewrite length_app in H2. cbn in H2. destruct r0; [discriminate | discriminate].
Qed.

Lemma product_match_shape t A v t2 :
  product_match t = Some (A, v, t2) ->
  t = A ++ "'"%char :: "%"%char :: v ++ "%"%char :: "'"%char :: t2 /\
  is_head A = true /\ v <> [] /\
  forallb not_quote A = true /\ forallb not_quote v = true.
Proof.
  unfold product_match.
  destruct (split_quote t) as [[A' t1]|] eqn:E1; [|discriminate].
  destruct (split_quote t1) as [[B t2']|] eqn:E2; [|discriminate].
  destruct (is_head A') eqn:EA; [|discriminate].
  destruct (is_lit B) eqn:EB; [|discriminate].
  cbn [andb]. intros [= <- <- <-].
  destruct (split_quote_some _ _ _ E1) as [-> HA].
  destruct (split_quote_some _ _ _ E2) as [-> HB].
  destruct (is_lit_shape B EB) as [EBs Hv].
  split.
  - rewrite EBs at 1. cbn [app]. rewrite <- app_assoc. reflexivity.
  - repeat split; auto. rewrite EBs in HB. cbn in HB.
    rewrite forallb_app in HB. now apply andb_true_iff in HB.
Qed.

Lemma product_match_complete A v t2 :
  forallb not_quote A = true -> forallb not_quote v = true -> v <> [] ->
  is_head A = true ->
  product_match (A ++ "'"%char :: "%"%char :: v ++ "%"%char :: "'"%char :: t2) = Some (A, v, t2).
Proof.
  intros HA Hv Hn Hh. unfold product_match.
  rewrite (split_quote_app A _ HA).
  change ("%"%char :: v ++ "%"%char :: "'"%char :: t2)
    with (("%"%char :: v) ++ "%"%char :: "'"%char :: t2).
  replace (("%"%char :: v) ++ "%"%char :: "'"%char :: t2)
    with (("%"%char :: v ++ ["%"%char]) ++ "'"%char :: t2)
    by (cbn; rewrite <- app_assoc; reflexivity).
  rewrite split_quote_app.
  - rewrite Hh. unfold is_lit, lit_value. cbn [tl andb]. rewrite Ascii.eqb_refl.
    rewrite last_last, removelast_last, Ascii.eqb_refl, length_app. cbn [length andb].
    destruct v; [congruence|]. cbn [length]. rewrite Nat.add_1_r. reflexivity.
  - cbn. rewrite forallb_app, Hv. reflexivity.
Qed.

Lemma product_match_extend p s A v t2 :
  product_match p = Some (A, v, t2) -> product_match (p ++ s) = Some (A, v, t2 ++ s).
Proof.
  intros H. destruct (product_match_shape _ _ _ _ H) as (-> & Hh & Hn & HA & Hv).
  rewrite <- app_assoc. cbn [app]. rewrite <- app_assoc. cbn [app].
  now apply product_match_complete.
Qed.

Lemma product_sub_nil : product_sub [] = [].
Proof.
  unfold product_sub, sub. cbn [sub_go].
  generalize (product_match_spec None []).
  replace (product_match []) with (@None (text * text * text)) by reflexivity.
  now intros ->.
Qed.

Lemma product_sub_skip x t :
  product_match (x :: t) = None -> product_sub (x :: t) = x :: product_sub t.
Proof.
  intros H. unfold product_sub, sub. cbn [sub_go].
  generalize (product_match_spec None (x :: t)). rewrite H. intros ->.
  f_equal. apply sub_go_prev. reflexivity.
Qed.

Lemma product_sub_match t A v t2 :
  product_match t = Some (A, v, t2) -> product_sub t = canonical v ++ product_sub t2.
Proof.
  intros H. unfold product_sub, sub.
  generalize (product_match_spec None t). rewrite H. intros (st' & Hm & Hr & Hg).
  destruct (product_match_shape _ _ _ _ H) as (E & _).
  set (m := A ++ "'"%char :: "%"%char :: v ++ ["%"%char; "'"%char]).
  assert (Em : t = m ++ t2).
  { rewrite E. unfold m. rewrite <- app_assoc. cbn [app]. rewrite <- app_assoc. reflexivity. }
  rewrite Em in Hm |- *.
  rewrite (sub_go_match product_like_re normalize_product_value None m t2 st'); auto.
  - unfold normalize_product_value. rewrite Hg, canonical_eq. f_equal.
    apply sub_go_prev. reflexivity.
  - unfold m. now destruct A.
Qed.

(** *** Facts about heads and literals *)

Lemma is_head_canonical : is_head canonical_head = true.
Proof. vm_compute. reflexivity. Qed.

Lemma is_head_nil : is_head [] = false.
Proof. vm_compute. reflexivity. Qed.

(** A pattern cannot take to its end a text with a character outside its
    alphabet. *)
Lemma mt_alphabet_end r st y :
  In y (rest st) -> alphabet r y = false -> mt r st at_end = None.
Proof.
  intros Hy Ha. apply mt_none. intros st' (c & E & F & _). unfold at_end.
  destruct (rest st') eqn:R; [|reflexivity].
  rewrite app_nil_r in E. rewrite E in Hy.
  rewrite forallb_forall in F. rewrite (F y Hy) in Ha. discriminate.
Qed.

Lemma product_head_unfold st :
  mt product_head st at_end =
  match
    match
      match rest st with
      | c :: rs => if eq_cs "[" c
                   then mt (after_bracket "Product") (mkst (Some c) rs (caps st)) at_end
                   else None
      | [] => None
      end
    with Some r => Some r | None => mt (after_bracket "Product") st at_end end
  with
  | Some r => Some r
  | None =>
    match
      match rest st with
      | c :: rs => if eq_cs "[" c
                   then mt (after_bracket "Product_Name") (mkst (Some c) rs (caps st)) at_end
                   else None
      | [] => None
      end
    with Some r => Some r | None => mt (after_bracket "Product_Name") st at_end end
  end.
Proof. reflexivity. Qed.

Lemma is_head_blocked u : u <> [] -> is_head (u ++ canonical_head) = false.
Proof.
  intros Hu. unfold is_head. rewrite product_head_unfold. cbn [rest caps].
  assert (H1 : forall name pv t cs, In "["%char t ->
             alphabet (after_bracket name) "[" = false ->
             mt (after_bracket name) (mkst pv t cs) at_end = None).
  { intros name pv t cs Hin Ha. now apply (mt_alphabet_end _ _ "["%char). }
  assert (Hin : In "["%char (u ++ canonical_head)).
  { apply in_or_app. right. now left. }
  destruct u as [|x u]; [congruence|]. cbn [app].
  assert (Hin' : In "["%char (u ++ canonical_head)).
  { apply in_or_app. right. now left. }
  rewrite !(H1 _ _ (x :: u ++ canonical_head)); [|exact Hin | reflexivity | exact Hin | reflexivity].
  rewrite !(H1 _ _ (u ++ canonical_head)); [|exact Hin' | reflexivity | exact Hin' | reflexivity].
  now destruct (eq_cs "[" x).
Qed.

Lemma is_lit_last B z : is_lit (B ++ [z]) = true -> z = "%"%char.
Proof.
  unfold is_lit. destruct B as [|b B]; cbn [app].
  - cbn. now rewrite andb_false_r.
  - intros H. apply andb_true_iff in H as [_ H]. rewrite last_last in H.
    now apply Ascii.eqb_eq in H.
Qed.

Lemma split_quote_app2 u X :
  split_quote (u ++ X) =
  match split_quote u with
  | Some (a, r) => Some (a, r ++ X)
  | None =>
      match split_quote X with
      | Some (a, r) => Some (u ++ a, r)
      | None => None
      end
  end.
Proof.
  induction u as [|x u IH]; cbn [app split_quote].
  - now destruct (split_quote X) as [[a r]|].
  - destruct (Ascii.eqb x "'"); [reflexivity|]. rewrite IH.
    destruct (split_quote u) as [[a r]|]; [reflexivity|].
    now destruct (split_quote X) as [[a r]|].
Qed.

Lemma product_match_no_head A X :
  forallb not_quote A = true -> is_head A = false ->
  product_match (A ++ "'"%char :: X) = None.
Proof.
  intros HA Hh. unfold product_match. rewrite (split_quote_app A X HA), Hh.
  now destruct (split_quote X) as [[B t2]|].
Qed.

Lemma product_match_no_lit A B X :
  forallb not_quote A = true -> forallb not_quote B = true -> is_lit B = false ->
  product_match (A ++ "'"%char :: B ++ "'"%char :: X) = None.
Proof.
  intros HA HB Hl. unfold product_match.
  rewrite (split_quote_app A _ HA), (split_quote_app B _ HB), Hl.
  now rewrite andb_false_r.
Qed.

(** *** Normalized values *)

Lemma upper_idem c : upper (upper c) = upper c.
Proof. ascii_cases c. Qed.

Lemma upper_space c : Ascii.eqb (upper c) " " = Ascii.eqb c " ".
Proof. ascii_cases c. Qed.

Lemma upper_quote c : not_quote (upper c) = not_quote c.
Proof. ascii_cases c. Qed.

Lemma normalize_value_idem v : normalize_value (normalize_value v) = normalize_value v.
Proof.
  unfold normalize_value, str_upper, remove_spaces.
  induction v as [|c v IH]; [reflexivity|]. cbn [filter].
  destruct (Ascii.eqb c " ") eqn:E; cbn [negb]; [exact IH|].
  cbn [map filter]. rewrite upper_space, E. cbn [negb map].
  now rewrite upper_idem, IH.
Qed.

Lemma normalize_value_quote v :
  forallb not_quote v = true -> forallb not_quote (normalize_value v) = true.
Proof.
  unfold normalize_value, str_upper, remove_spaces.
  induction v as [|c v IH]; [reflexivity|]. cbn [forallb filter]. intros H.
  apply andb_true_iff in H as [Hc Hv].
  destruct (negb (Ascii.eqb c " ")); [|now apply IH].
  cbn [map forallb]. now rewrite upper_quote, Hc, IH.
Qed.

(** *** Applying [product_sub] twice *)

Lemma count_quotes_app a b : count_quotes (a ++ b) = count_quotes a + count_quotes b.
Proof. unfold count_quotes. now rewrite filter_app, length_app. Qed.

Lemma count_quotes_free a : forallb not_quote a = true -> count_quotes a = 0.
Proof.
  unfold count_quotes. induction a as [|x a IH]; [reflexivity|]. cbn. intros H.
  apply andb_true_iff in H as [Hx Ha]. unfold not_quote in Hx.
  destruct (Ascii.eqb x "'"); [discriminate|]. now apply IH.
Qed.

Lemma count_quotes_cons x t :
  count_quotes (x :: t) = (if Ascii.eqb x "'" then 1 else 0) + count_quotes t.
Proof. unfold count_quotes. cbn. now destruct (Ascii.eqb x "'"). Qed.

Lemma product_match_two_quotes t A v t2 :
  product_match t = Some (A, v, t2) -> 2 <= count_quotes t.
Proof.
  intros H. destruct (product_match_shape _ _ _ _ H) as (-> & _).
  rewrite count_quotes_app, !count_quotes_cons, count_quotes_app, !count_quotes_cons.
  change (Ascii.eqb "'" "'") with true. change (Ascii.eqb "%" "'") with false. cbn iota. lia.
Qed.

(** With fewer than two quotes nothing is rewritten. *)
Lemma product_sub_few_quotes p : count_quotes p <= 1 -> product_sub p = p.
Proof.
  induction p as [|x p IH]; intros H; [apply product_sub_nil|].
  rewrite product_sub_skip.
  - f_equal. apply IH. change (x :: p) with ([x] ++ p) in H.
    rewrite count_quotes_app in H. lia.
  - destruct (product_match (x :: p)) as [[[A v] t2]|] eqn:E; [|reflexivity].
    apply product_match_two_quotes in E. lia.
Qed.

Lemma canonical_split v Y :
  split_quote (canonical v ++ Y) =
  Some (canonical_head, "%"%char :: normalize_value v ++ ["%"%char; "'"%char] ++ Y).
Proof.
  unfold canonical. rewrite <- app_assoc. cbn [app].
  rewrite split_quote_app by reflexivity. do 3 f_equal. now rewrite <- app_assoc.
Qed.

Lemma is_lit_canonical_head u : is_lit (u ++ canonical_head) = false.
Proof.
  destruct (is_lit (u ++ canonical_head)) eqn:E; [|reflexivity].
  change canonical_head with (txt "[Product] LIKE" ++ [" "%char]) in E.
  rewrite app_assoc in E. apply is_lit_last in E. discriminate.
Qed.

(** A match that starts before the output of [product_sub] and reaches
    into it is a match on the input as well. *)
Lemma product_match_before_sub n : forall c u,
  length c <= n -> u <> [] ->
  product_match (u ++ product_sub c) <> None -> product_match (u ++ c) <> None.
Proof.
  induction n as [|n IH]; intros c u Hn Hu.
  - destruct c; [|cbn in Hn; lia]. now rewrite product_sub_nil.
  - destruct c as [|y c]; [now rewrite product_sub_nil|].
    destruct (product_match (y :: c)) as [[[A v] t2]|] eqn:E.
    + rewrite (product_sub_match _ _ _ _ E).
      unfold product_match at 1 2. rewrite !(split_quote_app2 u).
      destruct (split_quote u) as [[u1 u2]|] eqn:Eu.
      * rewrite !(split_quote_app2 u2).
        destruct (split_quote u2) as [[u21 u22]|] eqn:Eu2.
        -- now destruct (is_head u1 && is_lit u21).
        -- rewrite canonical_split, is_lit_canonical_head, andb_false_r. congruence.
      * rewrite canonical_split, (is_head_blocked u Hu).
        cbn [andb]. intros H. exfalso. apply H.
        match goal with |- match ?X with _ => _ end = _ => destruct X as [[? ?]|] end; reflexivity.
    + rewrite (product_sub_skip _ _ E).
      change (u ++ y :: product_sub c) with (u ++ [y] ++ product_sub c).
      change (u ++ y :: c) with (u ++ [y] ++ c).
      rewrite !app_assoc. apply IH; [cbn in Hn; lia | now destruct u].
Qed.

Lemma count_quotes_canonical v :
  forallb not_quote v = true -> count_quotes (canonical v) = 2.
Proof.
  intros Hv. unfold canonical.
  rewrite count_quotes_app, !count_quotes_cons, count_quotes_app, !count_quotes_cons.
  rewrite (count_quotes_free (normalize_value v)) by now apply normalize_value_quote.
  reflexivity.
Qed.

Lemma count_quotes_last w :
  w <> [] -> last w " "%char = "'"%char -> 1 <= count_quotes w.
Proof.
  intros Hw Hl. destruct (exists_last Hw) as (w0 & z & ->).
  rewrite last_last in Hl. subst z.
  rewrite count_quotes_app, count_quotes_cons. cbn. lia.
Qed.

Lemma canonical_last v p w :
  canonical v = p ++ w -> w <> [] -> last w " "%char = "'"%char.
Proof.
  intros E Hw.
  assert (L : last (canonical v) " "%char = "'"%char).
  { replace (canonical v)
      with ((canonical_head ++ "'"%char :: "%"%char :: normalize_value v ++ ["%"%char]) ++ ["'"%char]).
    - apply last_last.
    - unfold canonical. rewrite <- app_assoc. cbn [app]. now rewrite <- app_assoc. }
  rewrite E in L. destruct (exists_last Hw) as (w0 & z & ->).
  rewrite app_assoc, last_last in L. now rewrite last_last.
Qed.

(** The replacement of a match is rewritten to itself. *)
Lemma product_sub_canonical v l :
  forallb not_quote v = true -> product_sub l = l ->
  product_sub (canonical v ++ l) = canonical v ++ l.
Proof.
  intros Hv Hl. destruct (normalize_value v) as [|v0 V] eqn:EV.
  - unfold canonical. rewrite EV. cbn [app canonical_head txt list_ascii_of_string].
    repeat (rewrite product_sub_skip;
            [f_equal | first [ reflexivity
                             | apply (product_match_no_head []); reflexivity
                             | apply (product_match_no_head (txt "%%")); reflexivity
                             | apply (product_match_no_head (txt "%")); reflexivity ]]).
    exact Hl.
  - assert (Hq : forallb not_quote (v0 :: V) = true).
    { rewrite <- EV. now apply normalize_value_quote. }
    assert (E : canonical v ++ l =
                canonical_head ++ "'"%char :: "%"%char :: (v0 :: V) ++ "%"%char :: "'"%char :: l).
    { unfold canonical. rewrite EV, <- app_assoc. cbn [app]. now rewrite <- app_assoc. }
    rewrite E at 1.
    rewrite (product_sub_match _ canonical_head (v0 :: V) l).
    + rewrite Hl. unfold canonical at 1. rewrite <- EV, normalize_value_idem. reflexivity.
    + apply product_match_complete; [reflexivity | exact Hq | discriminate | apply is_head_canonical].
Qed.

(** Every prefix of an output of [product_sub] is left as it is. *)
Lemma product_sub_stable n : forall c p s,
  length c <= n -> product_sub c = p ++ s -> product_sub p = p.
Proof.
  induction n as [|n IH]; intros c p s Hn.
  - destruct c; [|cbn in Hn; lia]. rewrite product_sub_nil. intros H.
    symmetry in H. apply app_eq_nil in H as [-> _]. apply product_sub_nil.
  - destruct c as [|x c].
    { rewrite product_sub_nil. intros H.
      symmetry in H. apply app_eq_nil in H as [-> _]. apply product_sub_nil. }
    destruct (product_match (x :: c)) as [[[A v] t2]|] eqn:E.
    + rewrite (product_sub_match _ _ _ _ E). intros H.
      destruct (product_match_shape _ _ _ _ E) as (Ec & _ & Hv & _ & Hq).
      assert (Ht2 : length t2 <= n).
      { apply (f_equal (@length ascii)) in Ec. rewrite length_app in Ec. cbn [length] in Ec, Hn.
        rewrite length_app in Ec. cbn [length] in Ec. lia. }
      assert (G : forall l s', product_sub t2 = l ++ s' ->
                  product_sub (canonical v ++ l) = canonical v ++ l).
      { intros l s' Hl. apply product_sub_canonical; [exact Hq|]. now apply (IH t2 l s'). }
      apply app_eq_app in H as [l [[Hc Hs]|[Hp Ht]]].
      * destruct l as [|z l].
        -- rewrite app_nil_r in Hc. cbn [app] in Hs. subst p.
           rewrite <- (app_nil_r (canonical v)). apply (G [] (product_sub t2)). reflexivity.
        -- apply product_sub_few_quotes.
           pose proof (count_quotes_canonical v Hq) as C2.
           rewrite Hc, count_quotes_app in C2.
           assert (1 <= count_quotes (z :: l)).
           { apply count_quotes_last; [discriminate|]. now apply (canonical_last v p). }
           lia.
      * subst p. now apply (G l s).
    + rewrite (product_sub_skip _ _ E). intros H.
      destruct p as [|x' p]; [apply product_sub_nil|].
      cbn [app] in H. injection H as <- H.
      rewrite product_sub_skip; [f_equal; apply (IH c p s); [cbn in Hn; lia | exact H]|].
      destruct (product_match (x :: p)) as [[[A v] t2]|] eqn:Ep; [|reflexivity].
      exfalso. apply (product_match_extend _ s) in Ep. cbn [app] in Ep. rewrite <- H in Ep.
      apply (product_match_before_sub (length c) c [x] (le_n _)); [discriminate| |exact E].
      cbn [app]. now rewrite Ep.
Qed.

(** [product_sub] is idempotent, also when its output is cut short. *)
Lemma product_sub_prefix c p s : product_sub c = p ++ s -> product_sub p = p.
Proof. apply (product_sub_stable (length c)). apply le_n. Qed.

Lemma product_sub_idempotent c : product_sub (product_sub c) = product_sub c.
Proof. apply (product_sub_prefix c _ []). now rewrite app_nil_r. Qed.

(** ** The WHERE pattern *)

Section RepCaps.

Variable p : ascii -> bool.

Variable f : mstate -> mstate.

Lemma rep_greedy_rel min : forall rs pv (k k' : option ascii -> text -> option mstate),
  (forall a t, k a t = option_map f (k' a t)) ->
  rep_greedy p min pv rs k = option_map f (rep_greedy p min pv rs k').
Proof.
  intros rs pv k k' H.
  rewrite <- rep_greedy_map. apply rep_greedy_ext. intros; apply H.
Qed.

Lemma rep_lazy_rel min : forall rs pv (k k' : option ascii -> text -> option mstate),
  (forall a t, k a t = option_map f (k' a t)) ->
  rep_lazy p min pv rs k = option_map f (rep_lazy p min pv rs k').
Proof.
  intros rs pv k k' H.
  rewrite <- rep_lazy_map. apply rep_lazy_ext. intros; apply H.
Qed.

End RepCaps.

(** A pattern without groups runs the same way whatever groups are set. *)
Lemma mt_plain_caps (f : mstate -> mstate) r : plain r = true ->
  forall pv t cs cs' k k',
  (forall a u, k (mkst a u cs) = option_map f (k' (mkst a u cs'))) ->
  mt r (mkst pv t cs) k = option_map f (mt r (mkst pv t cs') k').
Proof.
  induction r; cbn [plain]; intros Hp pv t cs cs' k k' H; try discriminate; cbn [mt rest prev caps].
  - destruct t as [|c t]; [reflexivity|]. destruct (p c); [apply H | reflexivity].
  - apply H.
  - apply andb_true_iff in Hp as [P1 P2]. apply IHr1; [exact P1|].
    intros a u. apply IHr2; [exact P2 | exact H].
  - apply andb_true_iff in Hp as [P1 P2].
    rewrite (IHr1 P1 pv t cs cs' k k' H), (IHr2 P2 pv t cs cs' k k' H).
    now destruct (mt r1 (mkst pv t cs') k').
  - destruct greedy; [apply rep_greedy_rel | apply rep_lazy_rel]; intros; apply H.
  - rewrite (IHr Hp pv t cs cs' k k' H), H.
    now destruct (mt r (mkst pv t cs') k').
  - destruct (word_boundary pv t); [apply H | reflexivity].
  - destruct (at_dollar t); [apply H | reflexivity].
Qed.

Lemma term_at_nil pv : term_at pv [] = true.
Proof.
  unfold term_at, where_terminator. rewrite !mt_alt, !mt_seq. cbn [mt rest prev caps].
  destruct (word_boundary pv []); reflexivity.
Qed.

Lemma look_term pv t cs k :
  mt (Look where_terminator) (mkst pv t cs) k =
  if term_at pv t then k (mkst pv t cs) else None.
Proof.
  cbn [mt rest prev caps]. unfold term_at.
  rewrite (mt_plain_caps (fun s => mkst (prev s) (rest s) cs) where_terminator eq_refl
             pv t cs [] Some Some) by reflexivity.
  now destruct (mt where_terminator (mkst pv t []) Some).
Qed.

Lemma where_span_spec t : forall pv c r,
  where_span pv t = (c, r) -> t = c ++ r /\ term_at (lastc pv c) r = true.
Proof.
  induction t as [|x t IH]; intros pv c r; cbn [where_span].
  - rewrite term_at_nil. intros [= <- <-]. split; [reflexivity | apply term_at_nil].
  - destruct (term_at pv (x :: t)) eqn:E.
    + intros [= <- <-]. split; [reflexivity | exact E].
    + destruct (where_span (Some x) t) as [c' r'] eqn:Es. intros [= <- <-].
      destruct (IH _ _ _ Es) as [-> H]. split; [reflexivity | exact H].
Qed.

(** The lazy [.*?] before the look-ahead stops where [where_span] does. *)
Lemma rep_lazy_span (G : option ascii -> text -> mstate) t : forall pv,
  rep_lazy any_char 0 pv t
    (fun pv' rs' => if term_at pv' rs' then Some (G pv' rs') else None) =
  let (c, r) := where_span pv t in Some (G (lastc pv c) r).
Proof.
  induction t as [|x t IH]; intros pv.
  - cbn [rep_lazy where_span Nat.eqb]. now rewrite term_at_nil.
  - cbn [rep_lazy where_span Nat.eqb]. destruct (term_at pv (x :: t)); [reflexivity|].
    cbn [any_char]. rewrite IH. now destruct (where_span (Some x) t).
Qed.

Lemma where_kw_run pv t cs k :
  mt where_kw_re (mkst pv t cs) k =
  if where_at pv t then k (mkst (lastc pv (firstn 5 t)) (skipn 5 t) cs) else None.
Proof.
  unfold where_at, match_here, where_kw_re. rewrite !mt_seq. cbn [mt rest prev caps].
  destruct (word_boundary pv t); [|reflexivity].
  unfold lit_ci. rewrite !mt_lit. cbn [rest prev caps].
  destruct (starts_with eq_ci (txt "WHERE") t); [|reflexivity].
  change (length (txt "WHERE")) with 5.
  now destruct (word_boundary _ _).
Qed.

Lemma where_at_length pv t : where_at pv t = true -> 5 <= length t.
Proof.
  unfold where_at, match_here, where_kw_re. rewrite !mt_seq. cbn [mt rest prev caps].
  destruct (word_boundary pv t); [|discriminate].
  unfold lit_ci. rewrite !mt_lit. cbn [rest prev caps].
  destruct (starts_with eq_ci (txt "WHERE") t) eqn:E; [|discriminate]. intros _.
  do 5 (destruct t as [|? t]; [cbn in E; rewrite ?andb_false_r in E; discriminate|]).
  cbn. lia.
Qed.

Lemma mt_Rep_lazy min p st k :
  mt (Rep false min p) st k =
  rep_lazy p min (prev st) (rest st) (fun pv rs => k (mkst pv rs (caps st))).
Proof. reflexivity. Qed.

(** The whole pattern at the start of [t]. *)
Lemma where_clause_match pv t :
  if where_at pv t then
    let kw := firstn 5 t in
    let (c, r) := where_span (lastc pv kw) (skipn 5 t) in
    exists st', match_here where_clause_regex pv t = Some st' /\
                rest st' = r /\
                groups_text (caps st') 1 = kw /\
                groups_text (caps st') 2 = c /\
                groups_text (caps st') 3 = []
  else match_here where_clause_regex pv t = None.
Proof.
  unfold match_here, where_clause_regex. rewrite mt_seq, mt_Grp.
  fold where_kw_re. rewrite where_kw_run.
  destruct (where_at pv t) eqn:Ew; [|reflexivity].
  pose proof (where_at_length pv t Ew) as Hl.
  cbn [rest prev caps]. rewrite mt_seq, mt_Grp, mt_Rep_lazy. cbn [rest prev caps].
  set (cs1 := set_cap 1 _ []).
  set (t5 := skipn 5 t). set (pv1 := lastc pv (firstn 5 t)).
  rewrite (rep_lazy_ext _ any_char 0 t5 pv1 _
     (fun pv' rs' => if term_at pv' rs' then
        Some (mkst pv' rs'
          (set_cap 3 (mkcap (length rs') [])
             (set_cap 2 (mkcap (length t5) (firstn (length t5 - length rs') t5)) cs1)))
        else None)).
  2:{ intros c rs' E _. rewrite mt_Grp, look_term. destruct (term_at _ _); [|reflexivity].
      cbn [rest prev caps]. now rewrite Nat.sub_diag. }
  rewrite rep_lazy_span.
  destruct (where_span pv1 t5) as [c r] eqn:Es.
  destruct (where_span_spec _ _ _ _ Es) as [Et5 _].
  assert (E5 : length t - length t5 = 5) by (unfold t5; rewrite length_skipn; lia).
  assert (Ec : firstn (length t5 - length r) t5 = c)
    by (rewrite Et5; apply firstn_len_diff).
  eexists. split; [reflexivity|]. cbn [rest caps]. split; [reflexivity|].
  subst cs1 t5. rewrite E5, Ec. clear. generalize (firstn 5 t) as kw. intros kw.
  cbn. repeat split.
Qed.

(** ** The normalizer *)

Lemma normalize_from_eq pv s :
  normalize_from pv s =
  if where_at pv s then
    let kw := firstn 5 s in
    let (c, r) := where_span (lastc pv kw) (skipn 5 s) in
    kw ++ product_sub c ++ r
  else
    match s with
    | [] => []
    | x :: s' => x :: normalize_from (Some x) s'
    end.
Proof. destruct s; reflexivity. Qed.

Lemma sub_go_drop r repl m : forall pv rs,
  sub_go r repl (Some 0) (length m) pv (m ++ rs) = rs.
Proof. intros pv rs. rewrite sub_go_skip. apply sub_go_done. Qed.

Lemma sub_once : forall s pv,
  sub_go where_clause_regex process_where_content (Some 1) 0 pv s = normalize_from pv s.
Proof.
  induction s as [|x s IH]; intros pv.
  - rewrite normalize_from_eq.
    generalize (where_clause_match pv []).
    destruct (where_at pv []) eqn:Ew.
    { apply where_at_length in Ew. cbn in Ew. lia. }
    intros H. cbn [sub_go]. now rewrite H.
  - rewrite normalize_from_eq.
    generalize (where_clause_match pv (x :: s)).
    destruct (where_at pv (x :: s)) eqn:Ew.
    + pose proof (where_at_length _ _ Ew) as Hl.
      cbv zeta.
      destruct (where_span _ _) as [c r] eqn:Es.
      intros (st' & Hm & Hr & H1 & H2 & H3).
      destruct (where_span_spec _ _ _ _ Es) as [Et _].
      assert (Hs : x :: s = (firstn 5 (x :: s) ++ c) ++ r).
      { rewrite <- app_assoc, <- Et. symmetry. apply firstn_skipn. }
      assert (Hk : length (firstn 5 (x :: s)) = 5) by (rewrite length_firstn; lia).
      set (kw := firstn 5 (x :: s)) in *.
      destruct (kw ++ c) as [|y m] eqn:Em.
      { apply (f_equal (@length _)) in Em. rewrite length_app in Em. cbn in Em. lia. }
      cbn [app] in Hs. injection Hs as <- Hs.
      cbn [sub_go]. rewrite Hm, Hr.
      replace (length (x :: s) - length r) with (S (length m))
        by (rewrite Hs; cbn [length]; rewrite length_app; lia).
      unfold process_where_content. rewrite H1, H2, H3, app_nil_r.
      rewrite <- app_assoc. f_equal. f_equal.
      cbn [dec_count option_map pred]. rewrite Hs. apply sub_go_drop.
    + intros H. cbn [sub_go]. rewrite H. f_equal. apply IH.
Qed.

Lemma search_none_normalize : forall s pv,
  search_at where_kw_re pv s = None -> normalize_from pv s = s.
Proof.
  induction s as [|x s IH]; intros pv H; rewrite normalize_from_eq; cbn [search_at] in H;
    unfold where_at; destruct (match_here where_kw_re pv _); try discriminate; [reflexivity|].
  f_equal. apply IH. now destruct (search_at where_kw_re (Some x) s).
Qed.

(** [_fix_product_column_in_sql] is the scan from the start of the query. *)
Lemma fix_spec s : _fix_product_column_in_sql s = normalize_from None s.
Proof.
  unfold _fix_product_column_in_sql, search.
  destruct (search_at where_kw_re None s) eqn:E.
  - apply sub_once.
  - symmetry. now apply search_none_normalize.
Qed.

(** *** The normalizer applied twice *)

Lemma word_boundary_hd pv t :
  word_boundary pv t = xorb (match pv with Some c => is_word c | None => false end) (hd_word t).
Proof. reflexivity. Qed.

Lemma where_at_eq pv t :
  where_at pv t =
  word_boundary pv t && starts_with eq_ci (txt "WHERE") t &&
  word_boundary (lastc pv (firstn 5 t)) (skipn 5 t).
Proof.
  unfold where_at, match_here. rewrite where_kw_run.
  unfold where_at, match_here, where_kw_re. rewrite !mt_seq. cbn [mt rest prev caps].
  destruct (word_boundary pv t); [|reflexivity].
  unfold lit_ci. rewrite !mt_lit. cbn [rest prev caps].
  destruct (starts_with eq_ci (txt "WHERE") t); [|reflexivity].
  change (length (txt "WHERE")) with 5.
  now destruct (word_boundary _ _).
Qed.

Lemma starts_with_firstn eq p : forall t,
  starts_with eq p (firstn (length p) t) = starts_with eq p t.
Proof.
  induction p as [|a p IH]; intros [|b t]; cbn; try reflexivity. now rewrite IH.
Qed.

Lemma hd_word_firstn n t : hd_word (firstn (S n) t) = hd_word t.
Proof. now destruct t. Qed.

(** Whether [WHERE] stands at a position depends on six characters. *)
Lemma where_at_firstn pv t t' : firstn 6 t = firstn 6 t' -> where_at pv t = where_at pv t'.
Proof.
  intros H. rewrite !where_at_eq, !word_boundary_hd.
  assert (H5 : firstn 5 t = firstn 5 t').
  { assert (F : forall l : text, firstn 5 l = firstn 5 (firstn 6 l))
      by (intros l; now rewrite firstn_firstn).
    now rewrite (F t), (F t'), H. }
  assert (Hh : hd_word t = hd_word t').
  { rewrite <- (hd_word_firstn 5 t), <- (hd_word_firstn 5 t'). now rewrite H. }
  assert (Hs : hd_word (skipn 5 t) = hd_word (skipn 5 t')).
  { rewrite <- (hd_word_firstn 0 (skipn 5 t)), <- (hd_word_firstn 0 (skipn 5 t')).
    rewrite !firstn_skipn_comm. cbn [Nat.add]. now rewrite H. }
  rewrite <- (starts_with_firstn eq_ci (txt "WHERE") t),
          <- (starts_with_firstn eq_ci (txt "WHERE") t').
  change (length (txt "WHERE")) with 5. now rewrite H5, Hh, Hs.
Qed.

Lemma normalize_firstn : forall s n pv, n <= 5 ->
  firstn n (normalize_from pv s) = firstn n s.
Proof.
  induction s as [|x s IH]; intros n pv Hn; rewrite normalize_from_eq.
  - destruct (where_at pv []) eqn:Ew; [|reflexivity].
    apply where_at_length in Ew. cbn in Ew. lia.
  - destruct (where_at pv (x :: s)) eqn:Ew.
    + pose proof (where_at_length _ _ Ew) as Hl. cbv zeta.
      destruct (where_span _ _) as [c r].
      assert (Hk : length (firstn 5 (x :: s)) = 5) by (rewrite length_firstn; lia).
      rewrite firstn_app, Hk. replace (n - 5) with 0 by lia.
      rewrite firstn_O, app_nil_r, firstn_firstn. f_equal. lia.
    + destruct n; [reflexivity|]. cbn [firstn]. f_equal. apply IH. lia.
Qed.

Lemma lastc_snoc pv u z : lastc pv (u ++ [z]) = Some z.
Proof. now rewrite lastc_app. Qed.

Lemma canonical_snoc v : exists u, canonical v = u ++ ["'"%char].
Proof.
  exists (canonical_head ++ "'"%char :: "%"%char :: normalize_value v ++ ["%"%char]).
  unfold canonical. rewrite <- !app_assoc. cbn. now rewrite <- !app_assoc.
Qed.

(** The rewrite keeps the last character of its text. *)
Lemma product_sub_last n : forall c pv,
  length c <= n -> lastc pv (product_sub c) = lastc pv c.
Proof.
  induction n as [|n IH]; intros c pv Hn.
  - destruct c; [|cbn in Hn; lia]. now rewrite product_sub_nil.
  - destruct c as [|x c]; [now rewrite product_sub_nil|].
    destruct (product_match (x :: c)) as [[[A v] t2]|] eqn:E.
    + rewrite (product_sub_match _ _ _ _ E).
      destruct (product_match_shape _ _ _ _ E) as (Ht & _).
      destruct (canonical_snoc v) as [u Hu].
      assert (Hl : length t2 <= n).
      { apply (f_equal (@length _)) in Ht. rewrite length_app in Ht. cbn in Ht, Hn.
        rewrite length_app in Ht. cbn in Ht. lia. }
      rewrite lastc_app, Hu, lastc_snoc, (IH _ _ Hl). rewrite Ht.
      replace (A ++ "'"%char :: "%"%char :: v ++ "%"%char :: "'"%char :: t2)
        with ((A ++ "'"%char :: "%"%char :: v ++ ["%"%char]) ++ ["'"%char] ++ t2)
        by (rewrite <- !app_assoc; cbn; now rewrite <- !app_assoc).
      now rewrite !lastc_app.
    + rewrite (product_sub_skip _ _ E). cbn [lastc]. apply IH. cbn in Hn. lia.
Qed.

(** After a character that is not of a word the rewrite starts with one. *)
Lemma product_sub_hd c r : hd_word (c ++ r) = false -> hd_word (product_sub c ++ r) = false.
Proof.
  destruct c as [|x c]; [now rewrite product_sub_nil|].
  destruct (product_match (x :: c)) as [[[A v] t2]|] eqn:E.
  - now rewrite (product_sub_match _ _ _ _ E).
  - now rewrite (product_sub_skip _ _ E).
Qed.

Lemma where_span_eq pv t :
  where_span pv t =
  if term_at pv t then ([], t)
  else match t with
       | x :: t' => let (c, r) := where_span (Some x) t' in (x :: c, r)
       | [] => ([], [])
       end.
Proof. destruct t; reflexivity. Qed.

(** A span that can end after [u] ends in [u]. *)
Lemma where_span_prefix r : forall u pv,
  term_at (lastc pv u) r = true ->
  exists p q, where_span pv (u ++ r) = (p, q ++ r) /\ u = p ++ q.
Proof.
  induction u as [|x u IH]; intros pv H.
  - exists [], []. rewrite where_span_eq. cbn [lastc app] in *. now rewrite H.
  - rewrite where_span_eq. destruct (term_at pv ((x :: u) ++ r)).
    + now exists [], (x :: u).
    + cbn [app]. destruct (IH (Some x) H) as (p & q & -> & ->).
      now exists (x :: p), q.
Qed.

Lemma is_word_lower x : is_word (lower x) = is_word x.
Proof. destruct x as [[] [] [] [] [] [] [] []]; reflexivity. Qed.

Lemma eq_ci_word a e : is_word a = true -> eq_ci a e = true -> is_word e = true.
Proof.
  unfold eq_ci. intros Ha He. apply Ascii.eqb_eq in He.
  now rewrite <- is_word_lower, <- He, is_word_lower.
Qed.

Lemma where_at_word pv kw X :
  length kw = 5 -> where_at pv (kw ++ X) = true ->
  lastc pv kw <> None /\ hd_word X = false /\
  forall Y, hd_word Y = false -> where_at pv (kw ++ Y) = true.
Proof.
  intros Hk. do 5 (destruct kw as [|? kw]; [discriminate|]). destruct kw; [|discriminate].
  rewrite where_at_eq. cbn [app firstn skipn lastc starts_with txt list_ascii_of_string].
  rewrite !word_boundary_hd. cbn [hd_word].
  intros H. apply andb_prop in H as [H H3]. apply andb_prop in H as [H1 H2].
  repeat (apply andb_prop in H2 as [? H2]).
  assert (Hw : is_word a3 = true) by (eapply eq_ci_word; [|eassumption]; reflexivity).
  rewrite Hw in H3. split; [discriminate|]. split.
  - now destruct (hd_word X).
  - intros Y HY. rewrite where_at_eq.
    cbn [app firstn skipn lastc starts_with txt list_ascii_of_string].
    rewrite !word_boundary_hd. cbn [hd_word]. rewrite H1, Hw, HY.
    repeat (apply andb_true_intro; split); auto.
Qed.

Lemma normalize_from_idem : forall s pv,
  normalize_from pv (normalize_from pv s) = normalize_from pv s.
Proof.
  induction s as [|x s IH]; intros pv.
  - rewrite (normalize_from_eq pv []).
    destruct (where_at pv []) eqn:Ew.
    { apply where_at_length in Ew. cbn in Ew. lia. }
    rewrite normalize_from_eq. now rewrite Ew.
  - rewrite (normalize_from_eq pv (x :: s)).
    destruct (where_at pv (x :: s)) eqn:Ew.
    + pose proof (where_at_length _ _ Ew) as Hl. cbv zeta.
      destruct (where_span _ _) as [c r] eqn:Es.
      destruct (where_span_spec _ _ _ _ Es) as [Et Hterm].
      assert (Hk : length (firstn 5 (x :: s)) = 5) by (rewrite length_firstn; lia).
      assert (Hs : x :: s = firstn 5 (x :: s) ++ c ++ r).
      { rewrite <- Et. symmetry. apply firstn_skipn. }
      set (kw := firstn 5 (x :: s)) in *.
      rewrite Hs in Ew.
      destruct (where_at_word pv kw (c ++ r) Hk Ew) as (_ & Hh & Hy).
      specialize (Hy _ (product_sub_hd c r Hh)).
      rewrite normalize_from_eq, Hy. cbv zeta.
      assert (F5 : forall X, firstn 5 (kw ++ X) = kw).
      { intros X. rewrite firstn_app, Hk, Nat.sub_diag, firstn_O, app_nil_r.
        rewrite <- Hk. apply firstn_all. }
      assert (S5 : forall X, skipn 5 (kw ++ X) = X).
      { intros X. rewrite <- Hk. rewrite skipn_app, Nat.sub_diag, skipn_all. reflexivity. }
      rewrite F5, S5.
      rewrite <- (product_sub_last (length c) c _ (le_n _)) in Hterm.
      destruct (where_span_prefix r (product_sub c) _ Hterm) as (p & q & -> & Hpq).
      rewrite (product_sub_prefix c p q Hpq), Hpq. now rewrite <- app_assoc.
    + rewrite normalize_from_eq.
      rewrite (where_at_firstn pv (x :: normalize_from (Some x) s) (x :: s)), Ew.
      * f_equal. apply IH.
      * change (x :: firstn 5 (normalize_from (Some x) s) = x :: firstn 5 s).
        f_equal. apply normalize_firstn. lia.
Qed.

Lemma fix_idempotent s :
  _fix_product_column_in_sql (_fix_product_column_in_sql s) = _fix_product_column_in_sql s.
Proof. rewrite !fix_spec. apply normalize_from_idem. Qed.

(** *** The span that is rewritten *)

Lemma product_sub_gap g rs :
  no_match_in product_like_re None g rs = true ->
  product_sub (g ++ rs) = g ++ product_sub rs.
Proof.
  intros H. unfold product_sub, sub. rewrite (sub_go_gap _ _ _ _ _ _ H).
  f_equal. apply sub_go_prev. reflexivity.
Qed.

Lemma normalize_gap : forall pre pv t,
  no_match_in where_kw_re pv pre t = true ->
  normalize_from pv (pre ++ t) = pre ++ normalize_from (lastc pv pre) t.
Proof.
  induction pre as [|x pre IH]; intros pv t H; [reflexivity|].
  cbn [no_match_in] in H. rewrite normalize_from_eq. unfold where_at.
  destruct (match_here where_kw_re pv ((x :: pre) ++ t)); [discriminate|].
  cbn [app lastc]. f_equal. now apply IH.
Qed.

Lemma is_head_no_quote A : is_head A = true -> forallb not_quote A = true.
Proof.
  intros H. apply forallb_forall. intros y Hy.
  destruct (not_quote y) eqn:E; [reflexivity|].
  unfold not_quote in E. apply negb_false_iff, Ascii.eqb_eq in E. subst y.
  unfold is_head in H.
  rewrite (mt_alphabet_end product_head (mkst None A []) "'"%char) in H;
    [discriminate | exact Hy | reflexivity].
Qed.

Lemma fix_first_where pre kw c r :
  no_match_in where_kw_re None pre (kw ++ c ++ r) = true ->
  where_at (lastc None pre) (kw ++ c ++ r) = true ->
  length kw = 5 ->
  where_span (lastc (lastc None pre) kw) (c ++ r) = (c, r) ->
  _fix_product_column_in_sql (pre ++ kw ++ c ++ r) = pre ++ kw ++ product_sub c ++ r.
Proof.
  intros Hpre Hat Hk Hspan. rewrite fix_spec, (normalize_gap _ _ _ Hpre).
  f_equal. rewrite normalize_from_eq, Hat. cbv zeta.
  assert (F5 : firstn 5 (kw ++ c ++ r) = kw).
  { rewrite firstn_app, Hk, Nat.sub_diag, firstn_O, app_nil_r.
    rewrite <- Hk. apply firstn_all. }
  assert (S5 : skipn 5 (kw ++ c ++ r) = c ++ r).
  { rewrite <- Hk. now rewrite skipn_app, Nat.sub_diag, skipn_all. }
  now rewrite F5, S5, Hspan.
Qed.

Lemma product_sub_predicate g A v h :
  no_match_in product_like_re None g (A ++ txt "'%" ++ v ++ txt "%'" ++ h) = true ->
  is_head A = true -> v <> [] -> forallb not_quote v = true ->
  product_sub (g ++ A ++ txt "'%" ++ v ++ txt "%'" ++ h) =
  g ++ txt "[Product] LIKE '%" ++ normalize_value v ++ txt "%'" ++ product_sub h.
Proof.
  intros Hg HA Hv Hq. rewrite (product_sub_gap _ _ Hg).
  f_equal.
  rewrite (product_sub_match _ A v h).
  - unfold canonical, canonical_head. cbn. now rewrite <- !app_assoc.
  - apply product_match_complete; auto. now apply is_head_no_quote.
Qed.

(** ** The completion parser *)

Lemma no_char_In c t : no_char c t = true -> ~ In c t.
Proof.
  unfold no_char. rewrite forallb_forall. intros H Hin.
  specialize (H c Hin). now rewrite Ascii.eqb_refl in H.
Qed.

Lemma mt_lit_fail eq s r st k :
  starts_with eq s (rest st) = false -> mt (lit_with eq s ;; r) st k = None.
Proof.
  revert st. induction s as [|c s IH]; intros [pv rs cs]; cbn in *.
  - discriminate.
  - destruct rs as [|x rs]; [reflexivity|].
    destruct (eq c x); cbn; [|reflexivity].
    intros H. apply (IH (mkst (Some x) rs cs) H).
Qed.

Lemma mt_lit_ok eq s r st k :
  starts_with eq s (rest st) = true ->
  mt (lit_with eq s ;; r) st k =
  mt r (mkst (lastc (prev st) (firstn (length s) (rest st)))
             (skipn (length s) (rest st)) (caps st)) k.
Proof.
  revert st. induction s as [|c s IH]; intros [pv rs cs]; cbn in *.
  - reflexivity.
  - destruct rs as [|x rs]; [discriminate|].
    destruct (eq c x); cbn; [|discriminate].
    intros H. apply (IH (mkst (Some x) rs cs) H).
Qed.

Lemma search_at_none r eq needle hay :
  (forall pv rs, starts_with eq needle rs = false -> match_here r pv rs = None) ->
  contains eq needle hay = false ->
  forall pv, search_at r pv hay = None.
Proof.
  intros Hr. induction hay as [|x hay IH]; cbn; intros H pv.
  - apply orb_false_elim in H as [H _]. now rewrite (Hr pv [] H).
  - apply orb_false_elim in H as [H1 H2].
    rewrite (Hr pv (x :: hay) H1). now rewrite (IH H2).
Qed.

Section RepLazy.

Variable A : Type.

Variable p : ascii -> bool.

Lemma rep_lazy_skip (u : text) : forall pv rs (k : option ascii -> text -> option A),
  (forall x, In x u -> p x = true) ->
  (forall pv' x t, In x u -> k pv' (x :: t) = None) ->
  rep_lazy p 0 pv (u ++ rs) k = rep_lazy p 0 (lastc pv u) rs k.
Proof.
  induction u as [|x u IH]; intros pv rs k Hp Hk; [reflexivity|].
  cbn. rewrite (Hk pv x (u ++ rs) (or_introl eq_refl)).
  rewrite (Hp x (or_introl eq_refl)).
  apply IH; intros; [apply Hp | apply Hk]; now right.
Qed.

End RepLazy.

Lemma brace_search (a b c : text) : forall pv,
  ~ In "{"%char a -> ~ In "}"%char b ->
  search_at brace_re pv (a ++ "{"%char :: b ++ "}"%char :: c) =
  Some (mkmobj (length a)
         (mkst (Some "}"%char) c
               [(1, mkcap (length ("{"%char :: b ++ "}"%char :: c)) ("{"%char :: b ++ ["}"%char]))])).
Proof.
  induction a as [|x a IH]; intros pv Ha Hb.
  - cbn [app search_at]. unfold match_here, brace_re, chr.
    cbn [mt rest prev caps eq_cs]. 
    replace (Ascii.eqb "{" "{") with true by reflexivity.
    cbn [rest prev caps].
    rewrite rep_lazy_skip.
    + cbn. replace (firstn _ _) with (firstn (length (("{"%char :: b ++ ["}"%char]) ++ c) - length c) (("{"%char :: b ++ ["}"%char]) ++ c)).
      * rewrite firstn_len_diff. reflexivity.
      * cbn. rewrite <- app_assoc. reflexivity.
    + reflexivity.
    + intros pv' x t Hx. cbn [mt rest prev caps]. unfold eq_cs.
      destruct (Ascii.eqb_spec "}"%char x); [subst; contradiction | reflexivity].
  - cbn [app search_at]. 
    assert (Hx : match_here brace_re pv (x :: a ++ "{"%char :: b ++ "}"%char :: c) = None).
    { unfold match_here, brace_re, chr. cbn [mt rest prev caps]. unfold eq_cs.
      destruct (Ascii.eqb_spec "{"%char x); [subst; exfalso; apply Ha; now left | reflexivity]. }
    rewrite Hx, IH; [reflexivity | intros H; apply Ha; now right | assumption].
Qed.

Lemma fence_needs_marker pv rs :
  starts_with eq_ci (txt "```json") rs = false -> match_here fence_re pv rs = None.
Proof. intros H. unfold match_here, fence_re, lit_ci. now apply mt_lit_fail. Qed.

Lemma no_marker_no_fence t :
  contains eq_ci (txt "```json") t = false -> search fence_re t = None.
Proof.
  intros Hf. unfold search.
  apply (search_at_none fence_re eq_ci (txt "```json") t fence_needs_marker Hf).
Qed.

Lemma brace_fallback a b c :
  search fence_re (a ++ "{"%char :: b ++ "}"%char :: c) = None ->
  no_char "{" a = true -> no_char "}" b = true ->
  _clean_llm_response (a ++ "{"%char :: b ++ "}"%char :: c) = Some ("{"%char :: b ++ ["}"%char]).
Proof.
  intros Hf Ha Hb. unfold _clean_llm_response. rewrite Hf. unfold search.
  rewrite brace_search by (now apply no_char_In).
  reflexivity.
Qed.

Lemma fenced_nested : _clean_llm_response fenced_completion = Some nested_object.
Proof. vm_compute. reflexivity. Qed.

(** ** Smalltalk *)

Lemma canned_nonempty canned :
  In canned [greeting_response; wellbeing_response; gratitude_response; help_response] ->
  exists c cs, canned = c :: cs.
Proof.
  intros [<-|[<-|[<-|[<-|[]]]]]; eexists; eexists; reflexivity.
Qed.

Lemma detect_smalltalk_some user_query :
  is_smalltalk user_query = true ->
  exists canned, _detect_smalltalk user_query = Some canned /\
    In canned [greeting_response; wellbeing_response; gratitude_response; help_response].
Proof.
  unfold is_smalltalk, _detect_smalltalk.
  destruct (any_word greetings _); [intros _; eexists; split; [reflexivity | simpl; tauto]|].
  destruct (any_word wellbeing _); [intros _; eexists; split; [reflexivity | simpl; tauto]|].
  destruct (any_word gratitude _); [intros _; eexists; split; [reflexivity | simpl; tauto]|].
  destruct (any_word help_queries _); [intros _; eexists; split; [reflexivity | simpl; tauto]|].
  discriminate.
Qed.

(** C7. Take a user input in ASCII, where the white space, the lower case
    and the word characters of the patterns are those of Python.  When it
    matches one of the four smalltalk categories (greeting, wellbeing,
    gratitude, help) by word-boundary matching, it gets a canned response
    that is not empty, and [ask] returns at once the fixed
    dictionary with that answer, no data, an empty query, the query type
    [analytical], an empty chart title and [is_time_series] false; the world
    is the one [ask] started in, so the completion capability was not
    called. *)
Theorem smalltalk_short_circuit (env : Env) (w : World) (user_query : text) (history : list dict) :
  ascii_text user_query = true ->
  is_smalltalk user_query = true ->
  exists canned,
    _detect_smalltalk user_query = Some canned /\
    canned <> [] /\
    ask env user_query history w =
      (Ok [(txt "answer", PStr canned); (txt "data", PList []);
           (txt "query", PStr []); (txt "query_type", PStr (txt "analytical"));
           (txt "chart_title", PStr []); (txt "is_time_series", PBool false)],
       w).
Proof.
  intros _ H. destruct (detect_smalltalk_some _ H) as (canned & Hd & Hin).
  destruct (canned_nonempty _ Hin) as (c & cs & ->).
  exists (c :: cs). split; [exact Hd|]. split; [discriminate|].
  unfold ask. rewrite Hd. reflexivity.
Qed.

Example hi_is_smalltalk : is_smalltalk (txt "  Hi there") = true.
Proof. vm_compute. reflexivity. Qed.

Example history_is_not : is_smalltalk (txt "history of zinc imports") = false.
Proof. vm_compute. reflexivity. Qed.

(** ** The shape of the response *)

Lemma reply3_reduced a q : reduced_envelope (reply3 a q) = true.
Proof. reflexivity. Qed.

Lemma returns_bind {A B} (m : M A) (f : A -> M B) (P : B -> Prop) :
  (forall a, returns (f a) P) -> returns (bind m f) P.
Proof.
  intros H w. unfold bind. destruct (m w) as [[a|e] w']; [apply H | exact I].
Qed.

Lemma returns_ret {A} (a : A) (P : A -> Prop) : P a -> returns (ret a) P.
Proof. intros H w. exact H. Qed.

Lemma returns_raise {A} e (P : A -> Prop) : returns (raise e) P.
Proof. intros w. exact I. Qed.

Lemma returns_lift {A} (r : res A) (P : A -> Prop) :
  (forall a, r = Ok a -> P a) -> returns (lift r) P.
Proof. intros H w. unfold lift. cbn. destruct r; [now apply H | exact I]. Qed.

Lemma returns_try {A} (m : M A) (h : text -> M A) (P : A -> Prop) :
  returns m P -> (forall e, returns (h e) P) -> returns (try_except m h) P.
Proof.
  intros Hm Hh w. unfold try_except. specialize (Hm w).
  destruct (m w) as [[a|e] w']; [exact Hm | apply Hh].
Qed.

Lemma returns_bind_post {A B} (m : M A) (f : A -> M B) (Q : A -> Prop) (P : B -> Prop) :
  returns m Q -> (forall a, Q a -> returns (f a) P) -> returns (bind m f) P.
Proof.
  intros Hm H w. unfold bind. specialize (Hm w).
  destruct (m w) as [[a|e] w']; [now apply H | exact I].
Qed.

Lemma returns_if {A} (b : bool) (m1 m2 : M A) (P : A -> Prop) :
  returns m1 P -> returns m2 P -> returns (if b then m1 else m2) P.
Proof. now destruct b. Qed.

Lemma check_completion_reduced env prompt r :
  returns (check_completion env prompt r) early_reduced.
Proof.
  unfold check_completion. apply returns_try; [|intros e; now apply returns_ret].
  apply returns_bind; intros empty.
  apply returns_bind_post with (Q := early_reduced).
  - apply returns_if; [|now apply returns_ret].
    apply returns_bind; intros r2. apply returns_bind; intros e2.
    apply returns_if; now apply returns_ret.
  - intros [x|d] Hd; [|now apply returns_ret].
    apply returns_bind; intros t. apply returns_if; now apply returns_ret.
Qed.

Lemma generate_query_reduced env prompt :
  returns (generate_query env prompt) early_reduced.
Proof.
  unfold generate_query. apply returns_bind; intros r.
  apply returns_bind_post with (Q := early_reduced);
    [apply check_completion_reduced|].
  intros [[[|c cl]|]|d] Hd; try apply returns_raise; [|now apply returns_ret].
  apply returns_bind; intros v.
  destruct v; try apply returns_raise.
  apply returns_bind; intros sq. apply returns_bind; intros _.
  destruct sq as [| | | |[|? ?]| | | |]; now apply returns_ret.
Qed.

Lemma export_branch_stable env q g data stats :
  returns (export_branch env q g data stats) (fun d => stable_envelope d = true).
Proof.
  unfold export_branch. apply returns_bind; intros _.
  apply returns_bind; intros ins. now apply returns_ret.
Qed.

Lemma run_queries_stable env q g :
  returns (run_queries env q g) early_stable.
Proof.
  unfold run_queries. do 4 (apply returns_bind; intros ?).
  apply returns_if; [|now apply returns_ret].
  apply returns_bind_post with (Q := fun d => stable_envelope d = true);
    [apply export_branch_stable|].
  intros d Hd. now apply returns_ret.
Qed.

Lemma answer_query_envelope env q g :
  returns (answer_query env q g) envelope.
Proof.
  unfold answer_query. apply returns_bind; intros _.
  apply returns_bind_post with (Q := fun f => match f with Return d => envelope d | Continue _ => True end).
  - apply returns_try.
    + intros w. generalize (run_queries_stable env q g w).
      destruct (fst _) as [[?|d]|]; auto. intros H; now left.
    + intros e. apply returns_ret. now right.
  - intros [[data stats]|d] Hd; [|now apply returns_ret].
    apply returns_bind; intros ins. apply returns_ret. now left.
Qed.

Lemma ask_body_envelope env q prompt :
  returns (ask_body env q prompt) envelope.
Proof.
  unfold ask_body.
  apply returns_bind_post with (Q := early_reduced); [apply generate_query_reduced|].
  intros [g|d] Hd; [apply answer_query_envelope | apply returns_ret; now right].
Qed.

(** ** The request after the primary query *)

Lemma keeps_ret {A} (a : A) : keeps_jobs (ret a).
Proof. now intros w. Qed.

Lemma keeps_raise {A} e : keeps_jobs (@raise A e).
Proof. now intros w. Qed.

Lemma keeps_lift {A} (r : res A) : keeps_jobs (lift r).
Proof. now intros w. Qed.

Lemma keeps_bind {A B} (m : M A) (f : A -> M B) :
  keeps_jobs m -> (forall a, keeps_jobs (f a)) -> keeps_jobs (bind m f).
Proof.
  intros Hm Hf w. unfold bind. specialize (Hm w).
  destruct (m w) as [[a|e] w']; cbn in *.
  - specialize (Hf a w'). destruct Hm as [<- <-]. exact Hf.
  - exact Hm.
Qed.

Lemma keeps_try {A} (m : M A) (h : text -> M A) :
  keeps_jobs m -> (forall e, keeps_jobs (h e)) -> keeps_jobs (try_except m h).
Proof.
  intros Hm Hh w. unfold try_except. specialize (Hm w).
  destruct (m w) as [[a|e] w']; cbn in *.
  - exact Hm.
  - specialize (Hh e w'). destruct Hm as [<- <-]. exact Hh.
Qed.

Lemma keeps_if {A} (b : bool) (m1 m2 : M A) :
  keeps_jobs m1 -> keeps_jobs m2 -> keeps_jobs (if b then m1 else m2).
Proof. now destruct b. Qed.

Lemma keeps_call_llm env prompt : keeps_jobs (call_llm env prompt).
Proof. now intros w. Qed.

Lemma keeps_call_db env q : keeps_jobs (call_db env q).
Proof. now intros w. Qed.

Lemma keeps_try_execute_sql env q : keeps_jobs (try_execute_sql env q).
Proof.
  unfold try_execute_sql. apply keeps_try; [apply keeps_call_db|].
  intros e. apply keeps_if; [apply keeps_call_db | apply keeps_raise].
Qed.

Lemma keeps_fetchall c : keeps_jobs (fetchall c).
Proof. destruct c; [apply keeps_ret | apply keeps_raise]. Qed.

Lemma keeps_run_summary env sq : keeps_jobs (run_summary env sq).
Proof.
  destruct sq as [[|c sq]|]; try apply keeps_ret.
  cbn [run_summary]. apply keeps_bind; [apply keeps_try_execute_sql|].
  intros c0. apply keeps_bind; [apply keeps_fetchall | intros; apply keeps_ret].
Qed.

Lemma keeps_generate_insights env q data stats :
  keeps_jobs (_generate_insights env q data stats).
Proof.
  unfold _generate_insights.
  destruct stats as [[|st sts]|]; try apply keeps_ret.
  destruct data; [apply keeps_ret|].
  apply keeps_if; [apply keeps_raise|].
  apply keeps_bind; [apply keeps_lift|]. intros _.
  apply keeps_try; [|intros; apply keeps_ret].
  apply keeps_bind; [apply keeps_call_llm|]. intros r.
  apply keeps_bind; [apply keeps_lift | intros; apply keeps_ret].
Qed.

Lemma keeps_no_content r : keeps_jobs (no_content r).
Proof. unfold no_content. destruct (has_parts r); [apply keeps_ret | apply keeps_raise]. Qed.

Lemma keeps_check_completion env prompt r :
  keeps_jobs (check_completion env prompt r).
Proof.
  unfold check_completion. apply keeps_try; [|intros; apply keeps_ret].
  apply keeps_bind; [apply keeps_no_content|]. intros empty.
  apply keeps_bind.
  - apply keeps_if; [|apply keeps_ret].
    apply keeps_bind; [apply keeps_call_llm|]. intros r2.
    apply keeps_bind; [apply keeps_no_content|]. intros e2.
    apply keeps_if; apply keeps_ret.
  - intros [x|d]; [|apply keeps_ret].
    apply keeps_bind; [apply keeps_lift|]. intros t. apply keeps_if; apply keeps_ret.
Qed.

Lemma keeps_generate_query env prompt : keeps_jobs (generate_query env prompt).
Proof.
  unfold generate_query. apply keeps_bind; [apply keeps_call_llm|]. intros r.
  apply keeps_bind; [apply keeps_check_completion|].
  intros [[[|c cl]|]|d]; try apply keeps_raise; [|apply keeps_ret].
  apply keeps_bind; [apply keeps_lift|]. intros v.
  destruct v; try apply keeps_raise.
  apply keeps_bind.
  { apply keeps_if; [|apply keeps_ret].
    destruct (get_default _ _ _); try apply keeps_raise; apply keeps_ret. }
  intros sq. apply keeps_bind.
  { destruct (get_default _ _ _); try apply keeps_raise; apply keeps_ret. }
  intros _. destruct sq as [| | | |[|? ?]| | | |]; apply keeps_ret.
Qed.

Lemma str_of_Z_nonempty z : str_of_Z z <> [].
Proof.
  unfold str_of_Z, txt.
  assert (H : forall s, s <> EmptyString -> list_ascii_of_string s <> []).
  { intros [|c s] Hs; [congruence | discriminate]. }
  apply H. unfold DecimalString.NilZero.string_of_int.
  destruct (Z.to_int z) as [d|d]; [|discriminate].
  unfold DecimalString.NilZero.string_of_uint. destruct d; discriminate.
Qed.

Lemma dict_get_set d k v : dict_get (dict_set d k v) k = Some v.
Proof.
  assert (Hr : text_eqb k k = true).
  { induction k as [|c k IH]; [reflexivity|]. cbn. now rewrite Ascii.eqb_refl. }
  induction d as [|[k0 v0] d IH]; cbn.
  - now rewrite Hr.
  - destruct (text_eqb k0 k) eqn:E; cbn; rewrite E; [reflexivity | exact IH].
Qed.

Section Primary.

Variables (env : Env) (w w1 w2 : World) (user_query : text) (history : list dict).

Variables (g : generated) (rs : rowset) (data : list dict).

Hypothesis not_smalltalk : _detect_smalltalk user_query = None.

Hypothesis generation :
  generate_query env (the_prompt env user_query history) w = (Ok (Continue g), w1).

Hypothesis connected : connect env = Ok tt.

Hypothesis primary : try_execute_sql env (g_sql_query g) w1 = (Ok (Some rs), w2).

Hypothesis formatted : format_rows env (result_keys rs) (result_rows rs) = Ok data.

Lemma ask_after_primary :
  ask env user_query history w =
  try_except
    (fun w1 =>
       match
         try_except
           (fun w2 =>
              match run_summary env (_generate_summary_query (g_sql_query g)) w2 with
              | (Ok summary_stats, w3) =>
                  if (10000 <? Z.of_nat (length data))%Z then
                    match export_branch env user_query g data summary_stats w3 with
                    | (Ok d, w4) => (Ok (Return d), w4)
                    | (Raise e, w4) => (Raise e, w4)
                    end
                  else (Ok (Continue (data, summary_stats)), w3)
              | (Raise e, w3) => (Raise e, w3)
              end)
           (fun _ => ret (Return (sql_error_reply (g_sql_query g)))) w2
       with
       | (Ok (Return d), w5) => (Ok d, w5)
       | (Ok (Continue (data_for_viz, summary_stats)), w5) =>
           match _generate_insights env user_query data_for_viz summary_stats w5 with
           | (Ok insights, w6) =>
               (Ok (data_reply g (final_answer env user_query (g_answer g) insights data_for_viz) data_for_viz), w6)
           | (Raise e, w6) => (Raise e, w6)
           end
       | (Raise e, w5) => (Raise e, w5)
       end)
    (fun _ => ret (reply3 "I'm sorry, I encountered a temporary issue while generating that insight. Please try rephrasing your question." (PStr []))) w1.
Proof.
  unfold ask. rewrite not_smalltalk. fold (the_prompt env user_query history).
  unfold try_except at 1. unfold ask_body, bind at 1. rewrite generation.
  unfold answer_query, bind at 1, lift. rewrite connected.
  unfold bind at 1. unfold try_except at 1. unfold run_queries.
  unfold bind at 1. rewrite primary. unfold bind at 1. cbn [fetchall ret].
  unfold bind at 1, lift. rewrite formatted.
  unfold bind at 1. unfold try_except.
  destruct (run_summary env _ w2) as [[stats|e] w3]; [|reflexivity].
  destruct (10000 <? _)%Z.
  - unfold bind at 1. destruct (export_branch _ _ _ _ _ _) as [[d|e] w4]; reflexivity.
  - cbn [ret]. unfold bind. destruct (_generate_insights _ _ _ _ _) as [[i|e] w6]; reflexivity.
Qed.

Lemma ask_without_summary :
  _generate_summary_query (g_sql_query g) = None ->
  ask env user_query history w =
    if (10000 <? Z.of_nat (length data))%Z then
      (Ok (export_reply env g None (length data) (str_of_Z (time_time env))),
       exported w2 (str_of_Z (time_time env)) data)
    else
      (Ok (data_reply g (final_answer env user_query (g_answer g) None data) data), w2).
Proof.
  intros Hnone. rewrite ask_after_primary. rewrite Hnone.
  unfold try_except. cbn [run_summary ret].
  destruct (10000 <? _)%Z.
  - unfold export_branch, bind, start_export. cbn [_generate_insights ret]. reflexivity.
  - cbn [_generate_insights ret]. reflexivity.
Qed.

Lemma ask_summary_raises sq e w3 :
  _generate_summary_query (g_sql_query g) = Some sq ->
  run_summary env (Some sq) w2 = (Raise e, w3) ->
  ask env user_query history w = (Ok (sql_error_reply (g_sql_query g)), w3).
Proof.
  intros Hsq Hrun. rewrite ask_after_primary. rewrite Hsq.
  unfold try_except. rewrite Hrun. reflexivity.
Qed.

Lemma ask_exports stats w3 ins w4 :
  (10000 < Z.of_nat (length data))%Z ->
  run_summary env (_generate_summary_query (g_sql_query g)) w2 = (Ok stats, w3) ->
  _generate_insights env user_query data stats
     (exported w3 (str_of_Z (time_time env)) data) = (Ok ins, w4) ->
  ask env user_query history w =
    (Ok (export_reply env g ins (length data) (str_of_Z (time_time env))), w4) /\
  dict_get (export_jobs w4) (str_of_Z (time_time env)) = Some processing_job.
Proof.
  intros Hn Hrun Hins. split.
  - rewrite ask_after_primary. unfold try_except. rewrite Hrun.
    apply Z.ltb_lt in Hn. rewrite Hn.
    unfold export_branch, bind, start_export. fold (exported w3 (str_of_Z (time_time env)) data).
    rewrite Hins. reflexivity.
  - destruct (keeps_generate_insights env user_query data stats
                (exported w3 (str_of_Z (time_time env)) data)) as [Hj _].
    rewrite Hins in Hj. cbn [snd] in Hj. rewrite Hj. cbn [exported export_jobs].
    apply dict_get_set.
Qed.

Lemma ask_small_no_export :
  (Z.of_nat (length data) <= 10000)%Z ->
  exists d w',
    ask env user_query history w = (Ok d, w') /\
    export_jobs w' = export_jobs w /\ threads w' = threads w /\
    dict_get d (txt "export_job_id") = None.
Proof.
  intros Hn. rewrite ask_after_primary.
  assert (Hn' : (10000 <? Z.of_nat (length data))%Z = false) by (apply Z.ltb_ge; exact Hn).
  rewrite Hn'.
  destruct (keeps_generate_query env (the_prompt env user_query history) w) as [J1 T1].
  rewrite generation in J1, T1. cbn [snd] in J1, T1.
  destruct (keeps_try_execute_sql env (g_sql_query g) w1) as [J2 T2].
  rewrite primary in J2, T2. cbn [snd] in J2, T2.
  destruct (keeps_run_summary env (_generate_summary_query (g_sql_query g)) w2) as [J3 T3].
  unfold try_except.
  destruct (run_summary env _ w2) as [[stats|e] w3]; cbn [snd] in J3, T3.
  - destruct (keeps_generate_insights env user_query data stats w3) as [J4 T4].
    destruct (_generate_insights env user_query data stats w3) as [[ins|e] w4]; cbn [snd] in J4, T4.
    + eexists; eexists; split; [reflexivity|].
      split; [congruence|]. split; [congruence | reflexivity].
    + eexists; eexists; split; [reflexivity|].
      split; [congruence|]. split; [congruence | reflexivity].
  - eexists; eexists; split; [reflexivity|].
    split; [cbn; congruence|]. split; [cbn; congruence | reflexivity].
Qed.

End Primary.

(** ** The claims about [ask] *)

(** C1, counterexample. When the completion capability fails, the
    dictionary [ask] returns has the fields answer, data and query only. *)
Lemma ask_llm_failure_reduced_fields :
  exists w',
    ask failing_llm zinc_question [] world0 = (Ok (reply3 error_message (PStr [])), w') /\
    keys (reply3 error_message (PStr [])) = [txt "answer"; txt "data"; txt "query"] /\
    stable_envelope (reply3 error_message (PStr [])) = false.
Proof. eexists. split; [vm_compute; reflexivity|]. split; reflexivity. Qed.

(** C7, at the input ["  Hi there"]. *)
Lemma smalltalk_short_circuit_witness :
  exists canned,
    _detect_smalltalk (txt "  Hi there") = Some canned /\
    canned <> [] /\
    ask failing_llm (txt "  Hi there") [] world0 =
      (Ok [(txt "answer", PStr canned); (txt "data", PList []);
           (txt "query", PStr []); (txt "query_type", PStr (txt "analytical"));
           (txt "chart_title", PStr []); (txt "is_time_series", PBool false)],
       world0).
Proof.
  apply (smalltalk_short_circuit failing_llm world0 (txt "  Hi there") []).
  - vm_compute. reflexivity.
  - vm_compute. reflexivity.
Defined.

Lemma no_from_no_summary sql :
  search from_re (main_block sql) = None -> _generate_summary_query sql = None.
Proof. intros H. unfold _generate_summary_query. now rewrite H. Qed.

(** C5. When no FROM clause is found in the SQL of a request whose primary
    query ran, [_generate_summary_query] returns [None], and [ask] runs no
    summary query: it answers from the primary rows with no statistics, in
    the world the primary query left (or starts the export when the rows
    are more than 10000). *)
Theorem no_from_skips_summary env user_query history w g data w2 :
  primary_run env user_query history w g data w2 ->
  search from_re (main_block (g_sql_query g)) = None ->
  _generate_summary_query (g_sql_query g) = None /\
  ask env user_query history w =
    if (10000 <? Z.of_nat (length data))%Z then
      (Ok (export_reply env g None (length data) (str_of_Z (time_time env))),
       exported w2 (str_of_Z (time_time env)) data)
    else
      (Ok (data_reply g (final_answer env user_query (g_answer g) None data) data), w2).
Proof.
  intros (Hs & Hc & w1 & rs & Hg & Hp & Hf) Hfrom.
  pose proof (no_from_no_summary _ Hfrom) as Hn. split; [exact Hn|].
  exact (ask_without_summary env w w1 w2 user_query history g rs data Hs Hg Hc Hp Hf Hn).
Qed.

(** C5, at the query [SELECT 1], which has no FROM clause. *)
Lemma no_from_skips_summary_witness :
  _generate_summary_query (txt "SELECT 1") = None /\
  ask (request_env "SELECT 1" db_ok) zinc_question [] world0 =
    (Ok [(txt "answer", PStr (txt "I found some data for you."));
         (txt "data", PList [PDict [(txt "n", PInt 1)]]);
         (txt "query", PStr (txt "SELECT 1"));
         (txt "chart_title", PStr []);
         (txt "query_type", PStr (txt "analytical"));
         (txt "is_time_series", PBool false)],
     after_queries [txt "SELECT 1"]).
Proof.
  apply (no_from_skips_summary (request_env "SELECT 1" db_ok) zinc_question [] world0
           (generated_for "SELECT 1") [[(txt "n", PInt 1)]] (after_queries [txt "SELECT 1"])).
  - split; [vm_compute; reflexivity|]. split; [reflexivity|].
    exists (after_queries []), (mkrows [txt "n"] [[PInt 1]]).
    repeat split; vm_compute; reflexivity.
  - vm_compute. reflexivity.
Defined.

(** C6. When a summary query is derived and its execution raises (after
    the repair and retry of [try_execute_sql] where that applies), [ask]
    returns the reply of a failed primary query: the message that the
    generated SQL could not be run, no data (the rows of the primary query
    are dropped) and the SQL text. *)
Theorem summary_failure_is_terminal env user_query history w g data w2 sq e w3 :
  primary_run env user_query history w g data w2 ->
  _generate_summary_query (g_sql_query g) = Some sq ->
  run_summary env (Some sq) w2 = (Raise e, w3) ->
  ask env user_query history w =
    (Ok [(txt "answer", PStr (txt sql_error_message)); (txt "data", PList []);
         (txt "query", PStr (g_sql_query g))], w3).
Proof.
  intros (Hs & Hc & w1 & rs & Hg & Hp & Hf) Hsq Hrun.
  exact (ask_summary_raises env w w1 w2 user_query history g rs data Hs Hg Hc Hp Hf sq e w3 Hsq Hrun).
Qed.

(** C6, at a database that answers the primary query and rejects the
    summary query and its repaired form. *)
Lemma summary_failure_is_terminal_witness :
  ask (request_env "SELECT n FROM t" (db_summary_fails one_row "Invalid column name 'x'"))
      zinc_question [] world0 =
    (Ok [(txt "answer", PStr (txt sql_error_message)); (txt "data", PList []);
         (txt "query", PStr (txt "SELECT n FROM t"))],
     after_queries [txt "SELECT n FROM t"; summary_of "SELECT n FROM t";
                    equality_to_like (summary_of "SELECT n FROM t")]).
Proof.
  apply (summary_failure_is_terminal
           (request_env "SELECT n FROM t" (db_summary_fails one_row "Invalid column name 'x'"))
           zinc_question [] world0 (generated_for "SELECT n FROM t")
           [[(txt "n", PInt 1)]] (after_queries [txt "SELECT n FROM t"])
           (summary_of "SELECT n FROM t") (txt "Invalid column name 'x'")).
  - split; [vm_compute; reflexivity|]. split; [reflexivity|].
    exists (after_queries []), (mkrows [txt "n"] [[PInt 1]]).
    repeat split; vm_compute; reflexivity.
  - vm_compute. reflexivity.
  - vm_compute. reflexivity.
Defined.

(** C8, counterexample. A primary query that ran and gave 10001 rows,
    followed by a summary query that fails: the reply is the one of a
    failed query, no export job is registered and no thread is started. *)
Lemma large_result_summary_failure_no_export :
  primary_run (request_env "SELECT n FROM t" (db_summary_fails many_rows "Timeout expired"))
    zinc_question [] world0 (generated_for "SELECT n FROM t") big_data
    (after_queries [txt "SELECT n FROM t"]) /\
  (10000 < Z.of_nat (length big_data))%Z /\
  exists w',
    ask (request_env "SELECT n FROM t" (db_summary_fails many_rows "Timeout expired"))
        zinc_question [] world0 = (Ok (sql_error_reply (txt "SELECT n FROM t")), w') /\
    export_jobs w' = [] /\ threads w' = [] /\
    dict_get (sql_error_reply (txt "SELECT n FROM t")) (txt "export_job_id") = None.
Proof.
  split.
  { split; [vm_compute; reflexivity|]. split; [reflexivity|].
    exists (after_queries []), (mkrows [txt "n"] (repeat [PInt 1] big)).
    repeat split; vm_compute; reflexivity. }
  split; [vm_compute; reflexivity|].
  eexists. split; [vm_compute; reflexivity|]. repeat split.
Qed.

(** C8, as amended. After a primary query that ran: when the rows are
    more than 10000 and the summary step and the insight generation end
    without an error, [ask] enters the job id in the export registry with
    status processing, progress 0 and no file, and its reply has that id,
    which is not empty, as export_job_id and no data; when the rows are at
    most 10000 the registry and the threads are left as they were and the
    reply has no export_job_id. *)
Theorem export_job_when_summary_succeeds env user_query history w g data w2 :
  primary_run env user_query history w g data w2 ->
  (forall stats w3 ins w4,
     (10000 < Z.of_nat (length data))%Z ->
     run_summary env (_generate_summary_query (g_sql_query g)) w2 = (Ok stats, w3) ->
     _generate_insights env user_query data stats
       (exported w3 (str_of_Z (time_time env)) data) = (Ok ins, w4) ->
     let job_id := str_of_Z (time_time env) in
     let reply := export_reply env g ins (length data) job_id in
     ask env user_query history w = (Ok reply, w4) /\
     job_id <> [] /\
     dict_get (export_jobs w4) job_id = Some processing_job /\
     dict_get reply (txt "export_job_id") = Some (PStr job_id) /\
     dict_get reply (txt "data") = Some (PList [])) /\
  ((Z.of_nat (length data) <= 10000)%Z ->
   exists d w',
     ask env user_query history w = (Ok d, w') /\
     export_jobs w' = export_jobs w /\ threads w' = threads w /\
     dict_get d (txt "export_job_id") = None).
Proof.
  intros (Hs & Hc & w1 & rs & Hg & Hp & Hf). split.
  - intros stats w3 ins w4 Hn Hrun Hins job_id reply.
    destruct (ask_exports env w w1 w2 user_query history g rs data Hs Hg Hc Hp Hf
                stats w3 ins w4 Hn Hrun Hins) as [Ha Hj].
    split; [exact Ha|]. split; [apply str_of_Z_nonempty|]. split; [exact Hj|].
    split; reflexivity.
  - intros Hn.
    exact (ask_small_no_export env w w1 w2 user_query history g rs data Hs Hg Hc Hp Hf Hn).
Qed.

(** C8, at a result of 10001 rows from a query with no FROM clause. *)
Lemma export_job_when_summary_succeeds_witness :
  exists w4,
    ask (request_env "SELECT 1" (fun _ _ => Ok many_rows)) zinc_question [] world0 =
      (Ok (export_reply (request_env "SELECT 1" (fun _ _ => Ok many_rows))
             (generated_for "SELECT 1") None (length big_data) (txt "1700000000")), w4) /\
    dict_get (export_jobs w4) (txt "1700000000") = Some processing_job.
Proof.
  exists (exported (after_queries [txt "SELECT 1"]) (txt "1700000000") big_data).
  destruct (export_job_when_summary_succeeds
              (request_env "SELECT 1" (fun _ _ => Ok many_rows)) zinc_question [] world0
              (generated_for "SELECT 1") big_data (after_queries [txt "SELECT 1"]))
    as [H _].
  - split; [vm_compute; reflexivity|]. split; [reflexivity|].
    exists (after_queries []), (mkrows [txt "n"] (repeat [PInt 1] big)).
    repeat split; vm_compute; reflexivity.
  - destruct (H None (after_queries [txt "SELECT 1"]) None
               (exported (after_queries [txt "SELECT 1"]) (txt "1700000000") big_data))
      as (Ha & _ & Hj & _).
    + vm_compute. reflexivity.
    + vm_compute. reflexivity.
    + vm_compute. reflexivity.
    + split; [exact Ha | exact Hj].
Defined.

(** ** The response of [ask], path by path *)

Lemma early_replies_reduced d : In d early_replies -> reduced_envelope d = true.
Proof. intros [<-|[<-|[<-|[<-|[]]]]]; reflexivity. Qed.

Lemma check_completion_listed env prompt r :
  returns (check_completion env prompt r) early_listed.
Proof.
  unfold check_completion. apply returns_try;
    [|intros e; apply returns_ret; cbn; tauto].
  apply returns_bind; intros empty.
  apply returns_bind_post with (Q := early_listed).
  - apply returns_if; [|now apply returns_ret].
    apply returns_bind; intros r2. apply returns_bind; intros e2.
    apply returns_if; apply returns_ret; cbn; tauto.
  - intros [x|d] Hd; [|now apply returns_ret].
    apply returns_bind; intros t. apply returns_if; apply returns_ret; cbn; tauto.
Qed.

Lemma generate_query_listed env prompt :
  returns (generate_query env prompt) early_listed.
Proof.
  unfold generate_query. apply returns_bind; intros r.
  apply returns_bind_post with (Q := early_listed);
    [apply check_completion_listed|].
  intros [[[|c cl]|]|d] Hd; try apply returns_raise; [|now apply returns_ret].
  apply returns_bind; intros v.
  destruct v; try apply returns_raise.
  apply returns_bind; intros sq. apply returns_bind; intros _.
  destruct sq as [| | | |[|? ?]| | | |]; apply returns_ret; cbn; tauto.
Qed.

Lemma run_queries_export env q g :
  returns (run_queries env q g) (early_export env g).
Proof.
  unfold run_queries. do 4 (apply returns_bind; intros ?).
  destruct (10000 <? Z.of_nat (length a1))%Z eqn:E; [|now apply returns_ret].
  apply Z.ltb_lt in E.
  apply returns_bind_post with
    (Q := fun d => exists insights,
            d = export_reply env g insights (length a1) (str_of_Z (time_time env))).
  - unfold export_branch. do 2 (apply returns_bind; intros ?). apply returns_ret.
    eexists. reflexivity.
  - intros d [insights ->]. apply returns_ret. cbn.
    exists insights, (length a1). split; [exact E | reflexivity].
Qed.

(** C1, as amended. Whatever the completion capability and the database
    do, [ask] returns a dictionary, and which one follows the path of the
    request.  On the smalltalk path it is the canned reply, and when the
    rows were fetched and the insights did not fail it is the reply with
    the rows: both have exactly the six fields answer, data, query,
    chart_title, query_type and is_time_series.  On the export path it is
    the export reply for more than 10000 rows, which has the six fields and
    export_job_id, and no data.  On every error path it has exactly the
    three fields answer, data and query, with no data and a fixed message:
    the generic message when the completion call, the reading of the
    completion, the connection or the insight generation raises, one of the
    four early replies when the completion is empty, blocked or without
    SQL, and the SQL message with the generated query when the execution
    raises. *)
Theorem ask_envelope (env : Env) (w : World) (user_query : text) (history : list dict) :
  exists d w', ask env user_query history w = (Ok d, w') /\
  match _detect_smalltalk user_query with
  | Some ((_ :: _) as canned) =>
      d = smalltalk_reply canned /\ six_fields d = true
  | _ =>
      match generate_query env (the_prompt env user_query history) w with
      | (Raise _, _) =>
          d = reply3 error_message (PStr []) /\ reduced_envelope d = true
      | (Ok (Return _), _) =>
          In d early_replies /\ reduced_envelope d = true
      | (Ok (Continue g), w1) =>
          match connect env with
          | Raise _ =>
              d = reply3 error_message (PStr []) /\ reduced_envelope d = true
          | Ok _ =>
              match run_queries env user_query g w1 with
              | (Raise _, _) =>
                  d = sql_error_reply (g_sql_query g) /\ reduced_envelope d = true
              | (Ok (Return _), _) =>
                  (exists insights n,
                     (10000 < Z.of_nat n)%Z /\
                     d = export_reply env g insights n (str_of_Z (time_time env))) /\
                  seven_fields d = true /\ empty_data d = true
              | (Ok (Continue (data, stats)), w2) =>
                  match _generate_insights env user_query data stats w2 with
                  | (Raise _, _) =>
                      d = reply3 error_message (PStr []) /\ reduced_envelope d = true
                  | (Ok insights, _) =>
                      d = data_reply g
                            (final_answer env user_query (g_answer g) insights data) data /\
                      six_fields d = true
                  end
              end
          end
      end
  end.
Proof.
  unfold ask, the_prompt.
  set (prompt := build_prompt env _ _ _).
  assert (Hb : exists d w',
    try_except (ask_body env user_query prompt)
      (fun _ => ret (reply3 error_message (PStr []))) w = (Ok d, w') /\
    match generate_query env prompt w with
    | (Raise _, _) =>
        d = reply3 error_message (PStr []) /\ reduced_envelope d = true
    | (Ok (Return _), _) =>
        In d early_replies /\ reduced_envelope d = true
    | (Ok (Continue g), w1) =>
        match connect env with
        | Raise _ =>
            d = reply3 error_message (PStr []) /\ reduced_envelope d = true
        | Ok _ =>
            match run_queries env user_query g w1 with
            | (Raise _, _) =>
                d = sql_error_reply (g_sql_query g) /\ reduced_envelope d = true
            | (Ok (Return _), _) =>
                (exists insights n,
                   (10000 < Z.of_nat n)%Z /\
                   d = export_reply env g insights n (str_of_Z (time_time env))) /\
                seven_fields d = true /\ empty_data d = true
            | (Ok (Continue (data, stats)), w2) =>
                match _generate_insights env user_query data stats w2 with
                | (Raise _, _) =>
                    d = reply3 error_message (PStr []) /\ reduced_envelope d = true
                | (Ok insights, _) =>
                    d = data_reply g
                          (final_answer env user_query (g_answer g) insights data) data /\
                    six_fields d = true
                end
            end
        end
    end).
  { unfold try_except, ask_body, bind.
    pose proof (generate_query_listed env prompt w) as L.
    destruct (generate_query env prompt w) as [[[g|d0]|e] w1]; cbn [fst] in L.
    - unfold answer_query, bind, lift.
      destruct (connect env) as [u|e]; [|eexists; eexists; repeat split].
      unfold try_except.
      pose proof (run_queries_export env user_query g w1) as X.
      destruct (run_queries env user_query g w1) as [[[[data stats]|d0]|e] w2];
        cbn [fst] in X.
      + destruct (_generate_insights env user_query data stats w2) as [[insights|e] w3];
          eexists; eexists; repeat split.
      + destruct X as (insights & n & Hn & ->).
        eexists. eexists. split; [reflexivity|].
        split; [|split; reflexivity]. now exists insights, n.
      + eexists; eexists; repeat split.
    - exists d0, w1. split; [reflexivity|]. split; [exact L|].
      now apply early_replies_reduced.
    - eexists; eexists; repeat split. }
  destruct (_detect_smalltalk user_query) as [[|c cs]|]; try exact Hb.
  eexists; eexists; repeat split.
Qed.

(** ** The claims about the rewrites *)

(** C2, counterexample. A comparison with [<] is left as it is, in the
    substitution and in the summary query. *)
Lemma sargable_less_than_unchanged :
  sargable_sub (txt "WHERE YEAR(BE_Date) < 2024") = txt "WHERE YEAR(BE_Date) < 2024" /\
  match _generate_summary_query
          (txt "SELECT * FROM View_Clean_Imports WHERE YEAR(BE_Date) < 2024") with
  | Some summary_query =>
      contains eq_cs (txt "WHERE YEAR(BE_Date) < 2024") summary_query &&
      negb (contains eq_cs (txt "DATEFROMPARTS") summary_query)
  | None => false
  end = true.
Proof. split; vm_compute; reflexivity. Qed.

Lemma try_execute_sql_eq env query w :
  try_execute_sql env query w =
  match execute env (length (db_log w)) query with
  | Ok c => (Ok c, logged w [query])
  | Raise e =>
      if repairable e
      then (execute env (S (length (db_log w))) (equality_to_like query),
            logged w [query; equality_to_like query])
      else (Raise e, logged w [query])
  end.
Proof.
  unfold try_execute_sql, try_except, call_db, logged. cbn [fst snd].
  destruct (execute env (length (db_log w)) query) as [c|e]; [reflexivity|].
  destruct (repairable e); [|reflexivity].
  cbn [db_log llm_log export_jobs threads].
  rewrite length_app, Nat.add_1_r, <- app_assoc. reflexivity.
Qed.

Example normalized_query_is_fixed :
  _fix_product_column_in_sql
    (txt "SELECT * FROM t WHERE [Product] LIKE '%ZINC%' ORDER BY Qty") =
  txt "SELECT * FROM t WHERE [Product] LIKE '%ZINC%' ORDER BY Qty".
Proof. vm_compute. reflexivity. Qed.

(** C10. When the fenced pattern is not found, the result is the text from
    the first opening brace to the first closing brace after it, so an
    object with a nested object is cut after the nested one; the fenced
    pattern returns such an object whole. *)
Theorem brace_fallback_first_closing_brace (a b c : text) :
  search fence_re (a ++ "{"%char :: b ++ "}"%char :: c) = None ->
  no_char "{" a = true -> no_char "}" b = true ->
  _clean_llm_response (a ++ "{"%char :: b ++ "}"%char :: c) =
    Some ("{"%char :: b ++ ["}"%char]) /\
  _clean_llm_response fenced_completion = Some nested_object.
Proof.
  intros Hf Ha Hb. split; [now apply brace_fallback | apply fenced_nested].
Qed.

(** C10, at a completion with a nested object and no fence. *)
Lemma brace_fallback_first_closing_brace_witness :
  _clean_llm_response (txt "Result: " ++ nested_object ++ txt " done") =
    Some (txt "{" ++ dq :: txt "sql_query" ++ dq :: txt ": " ++ dq :: txt "SELECT 1" ++ dq ::
          txt ", " ++ dq :: txt "meta" ++ dq :: txt ": {" ++ dq :: txt "k" ++ dq :: txt ": 1}") /\
  _clean_llm_response fenced_completion = Some nested_object.
Proof.
  apply (brace_fallback_first_closing_brace (txt "Result: ")
           (dq :: txt "sql_query" ++ dq :: txt ": " ++ dq :: txt "SELECT 1" ++ dq ::
            txt ", " ++ dq :: txt "meta" ++ dq :: txt ": {" ++ dq :: txt "k" ++ dq :: txt ": 1")
           (txt "} done"));
    vm_compute; reflexivity.
Defined.

(** ** Calls, payload and registry of [ask] *)

Lemma step_refl w : step w w [] [].
Proof. split; now rewrite app_nil_r. Qed.

Lemma step_trans w w' w'' a1 b1 a2 b2 :
  step w w' a1 b1 -> step w' w'' a2 b2 -> step w w'' (a1 ++ a2) (b1 ++ b2).
Proof.
  intros [H1 H2] [H3 H4]. split.
  - now rewrite H3, H1, app_assoc.
  - now rewrite H4, H2, app_assoc.
Qed.

Lemma within_nothing {A} S (m : M A) : (forall w, snd (m w) = w) -> within 0 0 S m.
Proof.
  intros H w. exists [], []. rewrite H. split; [apply step_refl|].
  cbn. repeat split; auto. apply incl_nil_l.
Qed.

Lemma within_ret {A} S (x : A) : within 0 0 S (ret x).
Proof. now apply within_nothing. Qed.

Lemma within_raise {A} S e : within 0 0 S (@raise A e).
Proof. now apply within_nothing. Qed.

Lemma within_lift {A} S (r : res A) : within 0 0 S (lift r).
Proof. now apply within_nothing. Qed.

Lemma within_weaken {A} a b S a' b' S' (m : M A) :
  within a b S m -> a <= a' -> b <= b' -> incl S S' -> within a' b' S' m.
Proof.
  intros H Ha Hb HS w. destruct (H w) as (l1 & l2 & Hs & H1 & H2 & Hi).
  exists l1, l2. repeat split; try apply Hs; try lia. intros x Hx. apply HS, Hi, Hx.
Qed.

Lemma within_bind {A B} a1 b1 a2 b2 S (m : M A) (f : A -> M B) :
  within a1 b1 S m -> (forall x, within a2 b2 S (f x)) ->
  within (a1 + a2) (b1 + b2) S (bind m f).
Proof.
  intros Hm Hf w. unfold bind. destruct (Hm w) as (l1 & l2 & Hs & H1 & H2 & Hi).
  destruct (m w) as [[x|e] w']; cbn [snd] in *.
  - destruct (Hf x w') as (l1' & l2' & Hs' & H1' & H2' & Hi').
    exists (l1 ++ l1'), (l2 ++ l2'). split; [eapply step_trans; eassumption|].
    rewrite !length_app. repeat split; try lia. now apply incl_app.
  - exists l1, l2. repeat split; try apply Hs; try lia. exact Hi.
Qed.

Lemma within_try {A} a1 b1 a2 b2 S (m : M A) (h : text -> M A) :
  within a1 b1 S m -> (forall e, within a2 b2 S (h e)) ->
  within (a1 + a2) (b1 + b2) S (try_except m h).
Proof.
  intros Hm Hh w. unfold try_except. destruct (Hm w) as (l1 & l2 & Hs & H1 & H2 & Hi).
  destruct (m w) as [[x|e] w']; cbn [snd] in *.
  - exists l1, l2. repeat split; try apply Hs; try lia. exact Hi.
  - destruct (Hh e w') as (l1' & l2' & Hs' & H1' & H2' & Hi').
    exists (l1 ++ l1'), (l2 ++ l2'). split; [eapply step_trans; eassumption|].
    rewrite !length_app. repeat split; try lia. now apply incl_app.
Qed.

Lemma within_if {A} a b S (c : bool) (m1 m2 : M A) :
  within a b S m1 -> within a b S m2 -> within a b S (if c then m1 else m2).
Proof. now destruct c. Qed.

Lemma within_call_llm env S prompt : within 1 0 S (call_llm env prompt).
Proof.
  intros w. exists [prompt], []. cbn. split; [split; cbn; now rewrite ?app_nil_r|].
  repeat split; auto. apply incl_nil_l.
Qed.

Lemma within_call_db env S q : In q S -> within 0 1 S (call_db env q).
Proof.
  intros Hq w. exists [], [q]. cbn. split; [split; cbn; now rewrite ?app_nil_r|].
  repeat split; auto. unfold incl. intros x [<-|[]]. exact Hq.
Qed.

Lemma within_try_execute_sql env S q :
  In q S -> In (equality_to_like q) S -> within 0 2 S (try_execute_sql env q).
Proof.
  intros H1 H2. unfold try_execute_sql.
  apply (within_try 0 1 0 1); [now apply within_call_db|].
  intros e. destruct (repairable e).
  - now apply within_call_db.
  - apply (within_weaken 0 0 S); auto using within_raise, incl_refl.
Qed.

Lemma within_fetchall S c : within 0 0 S (fetchall c).
Proof. destruct c; [apply within_ret | apply within_raise]. Qed.

Lemma within_run_summary env S sq :
  (forall q, sq = Some q -> In q S /\ In (equality_to_like q) S) ->
  within 0 2 S (run_summary env sq).
Proof.
  intros H. unfold run_summary.
  destruct sq as [[|c q]|];
    try solve [apply (within_weaken 0 0 S); auto using within_ret, incl_refl].
  destruct (H _ eq_refl) as [H1 H2].
  apply (within_bind 0 2 0 0); [now apply within_try_execute_sql|]. intros r.
  apply (within_bind 0 0 0 0); [apply within_fetchall | intros; apply within_ret].
Qed.

Lemma within_generate_insights env S q data stats :
  within 1 0 S (_generate_insights env q data stats).
Proof.
  unfold _generate_insights.
  destruct stats as [[|st sts]|];
    try solve [apply (within_weaken 0 0 S); auto using within_ret, incl_refl].
  destruct data; [apply (within_weaken 0 0 S); auto using within_ret, incl_refl|].
  apply within_if; [apply (within_weaken 0 0 S); auto using within_raise, incl_refl|].
  apply (within_bind 0 0 1 0); [apply within_lift|]. intros _.
  apply (within_try 1 0 0 0); [|intros; apply within_ret].
  apply (within_bind 1 0 0 0); [apply within_call_llm|]. intros r.
  apply (within_bind 0 0 0 0); [apply within_lift | intros; apply within_ret].
Qed.

Lemma within_no_content S r : within 0 0 S (no_content r).
Proof. unfold no_content. destruct (has_parts r); [apply within_ret | apply within_raise]. Qed.

Lemma within_check_completion env S prompt r :
  within 1 0 S (check_completion env prompt r).
Proof.
  unfold check_completion.
  apply (within_try 1 0 0 0); [|intros; apply within_ret].
  apply (within_bind 0 0 1 0); [apply within_no_content|]. intros empty.
  apply (within_bind 1 0 0 0).
  - destruct empty; [|apply (within_weaken 0 0 S); auto using within_ret, incl_refl].
    apply (within_bind 1 0 0 0); [apply within_call_llm|]. intros r'.
    apply (within_bind 0 0 0 0); [apply within_no_content|]. intros e'.
    destruct e'; apply within_ret.
  - intros [r'|d]; [|apply within_ret].
    apply (within_bind 0 0 0 0); [apply within_lift|]. intros t.
    destruct (text_eqb _ _); apply within_ret.
Qed.

Lemma within_generate_query env S prompt : within 2 0 S (generate_query env prompt).
Proof.
  unfold generate_query.
  apply (within_bind 1 0 1 0); [apply within_call_llm|]. intros r.
  apply (within_bind 1 0 0 0); [apply within_check_completion|].
  intros [[[|c0 j]|]|d]; try apply within_raise; try apply within_ret.
  apply (within_bind 0 0 0 0); [apply within_lift|].
  intros [ | | | | | | |llm_data| ]; try apply within_raise.
  apply (within_bind 0 0 0 0).
  - destruct (truthy _); [|apply within_ret].
    destruct (get_default llm_data _ _); try apply within_raise; apply within_ret.
  - intros sql. apply (within_bind 0 0 0 0).
    + destruct (get_default llm_data (txt "query_type") _); try apply within_raise; apply within_ret.
    + intros _. destruct sql as [ | | | |[|c1 s]| | | | ]; apply within_ret.
Qed.

Lemma within_quiet_bind {A B} a b1 b2 S (m : M A) (f : A -> M B) quiet :
  within 0 b1 S m -> (forall x, within_quiet a b2 S (f x) quiet) ->
  within_quiet a (b1 + b2) S (bind m f) quiet.
Proof.
  intros Hm Hf w. unfold bind. destruct (Hm w) as (l1 & l2 & Hs & H1 & H2 & Hi).
  assert (l1 = []) by (destruct l1; [reflexivity | cbn in H1; lia]). subst l1.
  destruct (m w) as [[x|e] w']; cbn [snd fst] in *.
  - destruct (Hf x w') as (l1' & l2' & Hs' & H1' & H2' & Hi' & Hq).
    exists l1', (l2 ++ l2'). split; [apply (step_trans _ _ _ [] _ _ _ Hs Hs')|].
    rewrite !length_app. repeat split; try lia; [now apply incl_app | exact Hq].
  - exists [], l2. split; [exact Hs|]. cbn. split; [lia|]. split; [lia|].
    split; [exact Hi | discriminate].
Qed.

Lemma allowed_primary sql :
  In sql (allowed_statements sql) /\ In (equality_to_like sql) (allowed_statements sql).
Proof. unfold allowed_statements. split; apply in_or_app; left; cbn; auto. Qed.

Lemma allowed_summary sql q :
  _generate_summary_query sql = Some q ->
  In q (allowed_statements sql) /\ In (equality_to_like q) (allowed_statements sql).
Proof.
  intros H. unfold allowed_statements. rewrite H.
  split; apply in_or_app; right; cbn; auto.
Qed.

Lemma within_start_export S job_id data : within 0 0 S (start_export job_id data).
Proof.
  intros w. exists [], []. cbn. split; [split; cbn; now rewrite app_nil_r|].
  repeat split; auto. apply incl_nil_l.
Qed.

Lemma within_export_branch env S q g data stats :
  within 1 0 S (export_branch env q g data stats).
Proof.
  unfold export_branch. apply (within_bind 0 0 1 0); [apply within_start_export|].
  intros _. apply (within_bind 1 0 0 0); [apply within_generate_insights|].
  intros; apply within_ret.
Qed.

Lemma run_queries_calls env q g :
  within_quiet 1 4 (allowed_statements (g_sql_query g)) (run_queries env q g) goes_on.
Proof.
  unfold run_queries. set (S := allowed_statements (g_sql_query g)).
  destruct (allowed_primary (g_sql_query g)) as [P1 P2].
  apply (within_quiet_bind 1 2 2); [now apply within_try_execute_sql|]. intros r.
  apply (within_quiet_bind 1 0 2); [apply within_fetchall|]. intros rs.
  apply (within_quiet_bind 1 0 2); [apply within_lift|]. intros data.
  apply (within_quiet_bind 1 2 0); [apply within_run_summary; apply allowed_summary|].
  intros stats w.
  destruct (10000 <? _)%Z.
  - destruct (within_bind 1 0 0 0 S _ (fun d => ret (@Return (list dict * option (list dict)) d))
                (within_export_branch env S q g data stats)
                (fun d => within_ret S _) w) as (l1 & l2 & Hs & H1 & H2 & Hi).
    exists l1, l2. split; [exact Hs|]. split; [exact H1|]. split; [exact H2|].
    split; [exact Hi|]. intros x Hx Hq. exfalso. revert Hx Hq. unfold bind.
    destruct (export_branch env q g data stats w) as [[d|e] w']; cbn.
    + intros [= <-]. exact (fun f => f).
    + discriminate.
  - exists [], []. cbn. split; [apply step_refl|]. repeat split; auto. apply incl_nil_l.
Qed.

Lemma answer_query_calls env q g :
  within 1 4 (allowed_statements (g_sql_query g)) (answer_query env q g).
Proof.
  unfold answer_query. set (S := allowed_statements (g_sql_query g)).
  apply (within_bind 0 0 1 4); [apply within_lift|]. intros _ w. unfold bind, try_except.
  destruct (run_queries_calls env q g w) as (l1 & l2 & Hs & H1 & H2 & Hi & Hq).
  fold S in Hi.
  destruct (run_queries env q g w) as [[[[data stats]|d]|e] w']; cbn [fst snd] in *.
  - specialize (Hq _ eq_refl I). subst l1.
    destruct (within_bind 1 0 0 0 S _
                (fun insights => ret (data_reply g (final_answer env q (g_answer g) insights data) data))
                (within_generate_insights env S q data stats)
                (fun i => within_ret S _) w') as (a1 & a2 & Hs' & A1 & A2 & Ai).
    unfold bind in Hs'.
    exists ([] ++ a1), (l2 ++ a2). split; [exact (step_trans _ _ _ _ _ _ _ Hs Hs')|].
    cbn [app length] in *. split; [lia|]. split; [rewrite length_app; lia|].
    now apply incl_app.
  - exists l1, l2. cbn. split; [exact Hs|]. auto.
  - exists l1, l2. cbn. split; [exact Hs|]. auto.
Qed.

Lemma length_0 {A} (l : list A) : length l <= 0 -> l = [].
Proof. destruct l; [reflexivity | cbn; lia]. Qed.

(** X14. One request sends at most three prompts to the completion
    capability and at most four statements to the database, and every
    statement is the generated query, its repaired form, the summary query
    derived from it or the repaired form of that. *)
Theorem ask_calls env user_query history w :
  exists l1 l2,
    step w (snd (ask env user_query history w)) l1 l2 /\
    length l1 <= 3 /\ length l2 <= 4 /\
    (l2 = [] \/
     exists g w1,
       generate_query env (the_prompt env user_query history) w = (Ok (Continue g), w1) /\
       incl l2 (allowed_statements (g_sql_query g))).
Proof.
  unfold ask. fold (the_prompt env user_query history).
  set (prompt := the_prompt env user_query history).
  assert (Hb : exists l1 l2,
    step w (snd (try_except (ask_body env user_query prompt)
      (fun _ => ret (reply3 "I'm sorry, I encountered a temporary issue while generating that insight. Please try rephrasing your question." (PStr []))) w)) l1 l2 /\
    length l1 <= 3 /\ length l2 <= 4 /\
    (l2 = [] \/ exists g w1, generate_query env prompt w = (Ok (Continue g), w1) /\
                             incl l2 (allowed_statements (g_sql_query g)))).
  { unfold try_except, ask_body, bind.
    destruct (within_generate_query env [] prompt w) as (a1 & b1 & Hs & A1 & B1 & _).
    apply length_0 in B1. subst b1.
    destruct (generate_query env prompt w) as [[[g|d]|e] w1]; cbn [snd] in Hs.
    - destruct (answer_query_calls env user_query g w1) as (a2 & b2 & Hs' & A2 & B2 & Hi).
      assert (Hst : step w (snd (match answer_query env user_query g w1 with
                                 | (Ok a, w') => (Ok a, w')
                                 | (Raise e, w') => ret (reply3 "I'm sorry, I encountered a temporary issue while generating that insight. Please try rephrasing your question." (PStr [])) w'
                                 end)) (a1 ++ a2) ([] ++ b2)).
      { apply (step_trans _ _ _ _ _ _ _ Hs).
        destruct (answer_query env user_query g w1) as [[x|e] w2]; exact Hs'. }
      exists (a1 ++ a2), ([] ++ b2). split; [exact Hst|].
      rewrite length_app. cbn [app]. split; [lia|]. split; [lia|].
      right. exists g, w1. auto.
    - exists a1, []. cbn. split; [exact Hs|]. split; [lia|]. split; [lia|]. now left.
    - exists a1, []. cbn. split; [exact Hs|]. split; [lia|]. split; [lia|]. now left. }
  destruct (_detect_smalltalk user_query) as [[|c cs]|]; try exact Hb.
  exists [], []. cbn. split; [apply step_refl|]. split; [lia|]. split; [lia|]. now left.
Qed.

(** *** The size of the payload *)

Lemma reduced_small d : reduced_envelope d = true -> small_data d.
Proof.
  unfold reduced_envelope, empty_data, small_data.
  intros H. apply andb_prop in H as [_ H].
  destruct (dict_get d (txt "data")) as [[ | | | | | |[|x l]| | ]|]; try discriminate.
  exists []. split; [reflexivity | cbn; lia].
Qed.

Lemma export_branch_small env q g data stats :
  returns (export_branch env q g data stats) small_data.
Proof.
  unfold export_branch. apply returns_bind; intros _.
  apply returns_bind; intros ins. apply returns_ret.
  exists []. split; [reflexivity | cbn; lia].
Qed.

Lemma run_queries_small env q g : returns (run_queries env q g) small_flow.
Proof.
  unfold run_queries. do 4 (apply returns_bind; intros ?).
  destruct (10000 <? Z.of_nat (length a1))%Z eqn:E.
  - apply returns_bind_post with (Q := small_data); [apply export_branch_small|].
    intros d Hd. now apply returns_ret.
  - apply returns_ret. cbn. now apply Z.ltb_ge in E.
Qed.

Lemma answer_query_small env q g : returns (answer_query env q g) small_data.
Proof.
  unfold answer_query. apply returns_bind; intros _.
  apply returns_bind_post with (Q := small_flow).
  - apply returns_try; [apply run_queries_small|].
    intros e. apply returns_ret. cbn. exists []. split; [reflexivity | cbn; lia].
  - intros [[data stats]|d] Hd; [|now apply returns_ret].
    apply returns_bind; intros ins. apply returns_ret.
    exists (map PDict data). split; [reflexivity|]. now rewrite length_map.
Qed.

Lemma ask_body_small env q prompt : returns (ask_body env q prompt) small_data.
Proof.
  unfold ask_body.
  apply returns_bind_post with (Q := early_reduced); [apply generate_query_reduced|].
  intros [g|d] Hd; [apply answer_query_small | apply returns_ret; now apply reduced_small].
Qed.

(** X15. [ask] never raises, and the dictionary it returns has a list of
    at most 10000 rows under [data]. *)
Theorem ask_payload_bounded env user_query history w :
  exists d w' rows,
    ask env user_query history w = (Ok d, w') /\
    dict_get d (txt "data") = Some (PList rows) /\
    (Z.of_nat (length rows) <= 10000)%Z.
Proof.
  assert (H : exists d w', ask env user_query history w = (Ok d, w') /\ small_data d).
  { unfold ask.
    destruct (_detect_smalltalk user_query) as [[|c cs]|].
    2:{ eexists; eexists; split; [reflexivity|]. exists []. split; [reflexivity | cbn; lia]. }
    all: unfold try_except;
      generalize (ask_body_small env user_query
                    (build_prompt env (schema env) (format_history env history) user_query) w);
      destruct (ask_body env user_query _ w) as [[d|e] w']; cbn;
      [ intros H; now exists d, w'
      | intros _; eexists; eexists; split; [reflexivity|];
        exists []; split; [reflexivity | cbn; lia] ]. }
  destruct H as (d & w' & Ha & rows & Hd & Hn). now exists d, w', rows.
Qed.

(** *** The generated query *)

Lemma get_default_some d k v :
  get_default d k PNone = PStr v -> dict_get d k = Some (PStr v).
Proof. unfold get_default. destruct (dict_get d k); [now intros -> | discriminate]. Qed.

Lemma generate_query_normalized env prompt :
  returns (generate_query env prompt) (normalized_flow env).
Proof.
  unfold generate_query. apply returns_bind; intros r.
  apply returns_bind; intros [[[|c cl]|]|d]; try apply returns_raise; [|now apply returns_ret].
  apply returns_bind_post with (Q := fun v => json_loads env (c :: cl) = Ok v);
    [now apply returns_lift|].
  intros v Hv.
  destruct v as [ | | | | | | |llm_data| ]; try apply returns_raise.
  apply returns_bind_post with
    (Q := fun v => forall s, v = PStr s -> s <> [] ->
            exists raw, dict_get llm_data (txt "sql_query") = Some (PStr raw) /\
                        s = _fix_product_column_in_sql raw).
  - destruct (truthy _) eqn:T.
    + destruct (get_default llm_data (txt "sql_query") PNone) as [ | | | |raw| | | | ] eqn:G;
        try apply returns_raise.
      apply returns_ret. intros s' [= <-] _. exists raw.
      split; [now apply get_default_some | reflexivity].
    + apply returns_ret. intros s' Hs Hn. rewrite Hs in T. cbn in T.
      destruct s'; [congruence | discriminate].
  - intros sq Hsq. apply returns_bind; intros _.
    destruct sq as [ | | | |[|c1 s1]| | | | ]; apply returns_ret; cbn; auto.
    destruct (Hsq (c1 :: s1) eq_refl) as (raw & Hd & Hf); [discriminate|].
    exists (c :: cl), llm_data, raw. repeat split; auto. discriminate.
Qed.

(** X5. The SQL that STEPS 4 to 7 hand to the execution is not empty, and it
    is the normalizer's result on the text that the parsed completion gives
    as [sql_query].  When that text is in ASCII, where the letters, the
    white space and the word characters of the patterns are those of
    Python, the normalizer leaves the SQL handed over as it is. *)
Theorem generated_query_is_normalized env prompt w g w1 :
  generate_query env prompt w = (Ok (Continue g), w1) ->
  g_sql_query g <> [] /\
  exists cleaned_json_str llm_data raw,
    json_loads env cleaned_json_str = Ok (PDict llm_data) /\
    dict_get llm_data (txt "sql_query") = Some (PStr raw) /\
    g_sql_query g = _fix_product_column_in_sql raw /\
    (ascii_text raw = true ->
     _fix_product_column_in_sql (g_sql_query g) = g_sql_query g).
Proof.
  intros H. generalize (generate_query_normalized env prompt w). rewrite H. cbn.
  intros (s & llm_data & raw & Hj & Hd & Hf & Hn). split; [exact Hn|].
  exists s, llm_data, raw. repeat split; auto.
  intros _. rewrite Hf. apply fix_idempotent.
Qed.

(** X5, at a completion whose filter on [Product_Name] is rewritten. *)
Lemma generated_query_is_normalized_witness :
  txt "SELECT * FROM t WHERE [Product] LIKE '%ZINCINGOT%'" <> [] /\
  _fix_product_column_in_sql (txt "SELECT * FROM t WHERE [Product] LIKE '%ZINCINGOT%'") =
  txt "SELECT * FROM t WHERE [Product] LIKE '%ZINCINGOT%'".
Proof.
  destruct (generated_query_is_normalized
              (request_env "SELECT * FROM t WHERE Product_Name LIKE '%zinc ingot%'" db_ok)
              zinc_prompt world0
              (generated_for "SELECT * FROM t WHERE [Product] LIKE '%ZINCINGOT%'")
              (after_queries []))
    as (Hn & s & llm_data & raw & Hj & Hd & _ & Ha).
  - vm_compute. reflexivity.
  - split; [exact Hn|]. apply Ha.
    cbn [json_loads request_env scenario] in Hj.
    destruct (text_eqb s _); [|discriminate].
    injection Hj as <-. cbn in Hd. injection Hd as <-.
    vm_compute. reflexivity.
Defined.

(** *** The export registry *)

Lemma keeps_may_export job {A} (m : M A) : keeps_jobs m -> may_export job m.
Proof. intros H w. left. apply H. Qed.

Lemma may_export_after job {A B} (m : M A) (f : A -> M B) :
  keeps_jobs m -> (forall x, may_export job (f x)) -> may_export job (bind m f).
Proof.
  intros Hm Hf w. unfold bind. destruct (Hm w) as [J T].
  destruct (m w) as [[x|e] w']; cbn [snd] in *.
  - destruct (Hf x w') as [[J' T']|(data & Hn & J' & T')].
    + left. split; congruence.
    + right. exists data. rewrite J', T', J, T. auto.
  - left. auto.
Qed.

Lemma may_export_before job {A B} (m : M A) (f : A -> M B) :
  may_export job m -> (forall x, keeps_jobs (f x)) -> may_export job (bind m f).
Proof.
  intros Hm Hf w. unfold bind. specialize (Hm w).
  destruct (m w) as [[x|e] w']; cbn [snd] in *; [|exact Hm].
  destruct (Hf x w') as [J T].
  destruct Hm as [[J' T']|(data & Hn & J' & T')].
  - left. split; congruence.
  - right. exists data. rewrite J, T. auto.
Qed.

Lemma may_export_try job {A} (m : M A) (h : text -> M A) :
  may_export job m -> (forall e, keeps_jobs (h e)) -> may_export job (try_except m h).
Proof.
  intros Hm Hh w. unfold try_except. specialize (Hm w).
  destruct (m w) as [[x|e] w']; cbn [snd] in *; [exact Hm|].
  destruct (Hh e w') as [J T].
  destruct Hm as [[J' T']|(data & Hn & J' & T')].
  - left. split; congruence.
  - right. exists data. rewrite J, T. auto.
Qed.

Lemma run_queries_may_export env q g :
  may_export (str_of_Z (time_time env)) (run_queries env q g).
Proof.
  unfold run_queries.
  apply may_export_after; [apply keeps_try_execute_sql|]. intros r.
  apply may_export_after; [apply keeps_fetchall|]. intros rs.
  apply may_export_after; [apply keeps_lift|]. intros data.
  apply may_export_after; [apply keeps_run_summary|]. intros stats.
  destruct (10000 <? Z.of_nat (length data))%Z eqn:E;
    [|apply keeps_may_export, keeps_ret].
  apply may_export_before; [|intros; apply keeps_ret].
  unfold export_branch. apply may_export_before.
  - intros w. right. exists data. cbn. split; [now apply Z.ltb_lt|]. auto.
  - intros _. apply keeps_bind; [apply keeps_generate_insights | intros; apply keeps_ret].
Qed.

(** X16. One request leaves the export registry and the threads as they
    were, or enters one job, under the id made from the clock, as
    processing and starts one thread for a result of more than 10000
    rows. *)
Theorem ask_registry env user_query history w :
  registry_step (str_of_Z (time_time env)) w (snd (ask env user_query history w)).
Proof.
  revert w. change (may_export (str_of_Z (time_time env)) (ask env user_query history)).
  unfold ask.
  assert (H : may_export (str_of_Z (time_time env))
    (try_except (ask_body env user_query
        (build_prompt env (schema env) (format_history env history) user_query))
      (fun _ => ret (reply3 "I'm sorry, I encountered a temporary issue while generating that insight. Please try rephrasing your question." (PStr []))))).
  { apply may_export_try; [|intros; apply keeps_ret].
    unfold ask_body. apply may_export_after; [apply keeps_generate_query|].
    intros [g|d]; [|apply keeps_may_export, keeps_ret].
    unfold answer_query. apply may_export_after; [apply keeps_lift|]. intros _.
    apply may_export_before.
    - apply may_export_try; [apply run_queries_may_export | intros; apply keeps_ret].
    - intros [[data stats]|d]; [|apply keeps_ret].
      apply keeps_bind; [apply keeps_generate_insights | intros; apply keeps_ret]. }
  destruct (_detect_smalltalk user_query) as [[|c cs]|]; try exact H.
  apply keeps_may_export, keeps_ret.
Qed.

(** ** More on the parser, the rewrites and the classifier *)

Section RepSound.

Variable A : Type.

Variable p : ascii -> bool.

Lemma rep_greedy_sound min : forall rs pv (k : option ascii -> text -> option A) x,
  rep_greedy p min pv rs k = Some x ->
  exists u rs', rs = u ++ rs' /\ forallb p u = true /\ k (lastc pv u) rs' = Some x.
Proof.
  intros rs. revert min. induction rs as [|c rs IH]; intros min pv k x; cbn.
  - destruct (Nat.eqb min 0); [|discriminate]. intros H. now exists [], [].
  - assert (Hh : (if Nat.eqb min 0 then k pv (c :: rs) else None) = Some x ->
                 exists u rs', c :: rs = u ++ rs' /\ forallb p u = true /\
                               k (lastc pv u) rs' = Some x).
    { destruct (Nat.eqb min 0); [|discriminate]. intros H. now exists [], (c :: rs). }
    destruct (p c) eqn:Ep; [|exact Hh].
    destruct (rep_greedy p (pred min) (Some c) rs k) as [y|] eqn:E; [|exact Hh].
    intros [= <-]. destruct (IH _ _ _ _ E) as (u & rs' & -> & Hu & Hk).
    exists (c :: u), rs'. cbn. rewrite Ep. auto.
Qed.

Lemma rep_lazy_sound min : forall rs pv (k : option ascii -> text -> option A) x,
  rep_lazy p min pv rs k = Some x ->
  exists u rs', rs = u ++ rs' /\ forallb p u = true /\ k (lastc pv u) rs' = Some x.
Proof.
  intros rs. revert min. induction rs as [|c rs IH]; intros min pv k x; cbn.
  - destruct (Nat.eqb min 0); [|discriminate]. intros H. now exists [], [].
  - assert (Hs : (if p c then rep_lazy p (pred min) (Some c) rs k else None) = Some x ->
                 exists u rs', c :: rs = u ++ rs' /\ forallb p u = true /\
                               k (lastc pv u) rs' = Some x).
    { destruct (p c) eqn:Ep; [|discriminate]. intros E.
      destruct (IH _ _ _ _ E) as (u & rs' & -> & Hu & Hk).
      exists (c :: u), rs'. cbn. rewrite Ep. auto. }
    destruct (Nat.eqb min 0) eqn:Em.
    + destruct (k pv (c :: rs)) as [y|] eqn:E.
      * intros [= <-]. now exists [], (c :: rs).
      * replace (pred min) with 0 in Hs by (apply Nat.eqb_eq in Em; now subst). exact Hs.
    + exact Hs.
Qed.

End RepSound.

(** A match that succeeds passes a state the pattern reaches to its
    continuation. *)
Lemma mt_sound r : forall st k x,
  mt r st k = Some x -> exists st', reach r st st' /\ k st' = Some x.
Proof.
  induction r; intros st k x; cbn [mt].
  - destruct (rest st) as [|c rs] eqn:E; [discriminate|].
    destruct (p c) eqn:Ep; [|discriminate]. intros H.
    eexists. split; [|exact H]. exists [c]. cbn. rewrite Ep. repeat split; auto.
  - intros H. exists st. split; [apply reach_refl | exact H].
  - intros H. destruct (IHr1 _ _ _ H) as (s1 & R1 & H1).
    destruct (IHr2 _ _ _ H1) as (s2 & R2 & H2).
    exists s2. split; [eapply reach_seq; eassumption | exact H2].
  - destruct (mt r1 st k) as [y|] eqn:E.
    + intros [= <-]. destruct (IHr1 _ _ _ E) as (s1 & R1 & H1).
      exists s1. split; [|exact H1].
      eapply reach_weaken; [| |exact R1]; cbn.
      * intros y' ->. reflexivity.
      * intros Hp. now apply andb_true_iff in Hp.
    + intros H. destruct (IHr2 _ _ _ H) as (s2 & R2 & H2).
      exists s2. split; [|exact H2].
      eapply reach_weaken; [| |exact R2]; cbn.
      * intros y' ->. apply orb_true_r.
      * intros Hp. now apply andb_true_iff in Hp.
  - intros H.
    assert (Hr : exists u rs', rest st = u ++ rs' /\ forallb p u = true /\
                 k (mkst (lastc (prev st) u) rs' (caps st)) = Some x).
    { destruct greedy; [apply rep_greedy_sound in H | apply rep_lazy_sound in H]; exact H. }
    destruct Hr as (u & rs' & E & Hu & Hk).
    eexists. split; [|exact Hk]. exists u. cbn. repeat split; auto.
  - destruct (mt r st k) as [y|] eqn:E.
    + intros [= <-]. destruct (IHr _ _ _ E) as (s1 & R1 & H1).
      exists s1. split; [|exact H1].
      eapply reach_weaken; [| |exact R1]; cbn; auto.
    + intros H. exists st. split; [apply reach_refl | exact H].
  - intros H. destruct (IHr _ _ _ H) as (s1 & (c & E & F & P & C) & H1).
    eexists. split; [|exact H1]. exists c. cbn. repeat split; auto. discriminate.
  - destruct (word_boundary _ _); [|discriminate]. intros H.
    exists st. split; [apply reach_refl | exact H].
  - destruct (at_dollar _); [|discriminate]. intros H.
    exists st. split; [apply reach_refl | exact H].
  - destruct (mt r st Some) as [s|]; [|discriminate]. intros H.
    eexists. split; [|exact H]. exists []. cbn. repeat split; auto. discriminate.
Qed.

(** A search that succeeds matched at the position it reports. *)
Lemma search_at_sound r : forall s pv m,
  search_at r pv s = Some m ->
  exists a b, s = a ++ b /\ m_start m = length a /\
              match_here r (lastc pv a) b = Some (m_end m).
Proof.
  induction s as [|c s IH]; intros pv m; cbn [search_at].
  - destruct (match_here r pv []) eqn:E; [|discriminate].
    intros [= <-]. now exists [], [].
  - destruct (match_here r pv (c :: s)) eqn:E.
    + intros [= <-]. now exists [], (c :: s).
    + destruct (search_at r (Some c) s) as [m'|] eqn:E'; [|discriminate].
      intros [= <-]. destruct (IH _ _ E') as (a & b & -> & Hs & Hm).
      exists (c :: a), b. cbn. auto.
Qed.

(** *** [_clean_llm_response] *)

Lemma braced_sound st k x :
  mt (chr "{" ;; Rep false 0 any_char ;; chr "}") st k = Some x ->
  exists u rs', rest st = "{"%char :: u ++ "}"%char :: rs' /\
                k (mkst (Some "}"%char) rs' (caps st)) = Some x.
Proof.
  rewrite !mt_seq. unfold chr. cbn [mt].
  destruct (rest st) as [|c rs]; [discriminate|]. unfold eq_cs at 1.
  destruct (Ascii.eqb_spec "{"%char c) as [<-|]; [|discriminate].
  cbn [rest prev caps]. intros H. apply rep_lazy_sound in H.
  destruct H as (u & rs' & -> & _ & H). cbn [mt rest prev caps] in H.
  destruct rs' as [|d rs']; [discriminate|]. unfold eq_cs in H.
  destruct (Ascii.eqb_spec "}"%char d) as [<-|]; [|discriminate].
  now exists u, rs'.
Qed.

Lemma group_braced_sound st k x :
  mt (Grp 1 (chr "{" ;; Rep false 0 any_char ;; chr "}")) st k = Some x ->
  exists u rs', rest st = "{"%char :: u ++ "}"%char :: rs' /\
    k (mkst (Some "}"%char) rs'
         (set_cap 1 (mkcap (length (rest st)) ("{"%char :: u ++ ["}"%char])) (caps st)))
    = Some x.
Proof.
  rewrite mt_Grp. intros H. apply braced_sound in H.
  destruct H as (u & rs' & E & H). exists u, rs'. split; [exact E|].
  cbn [rest prev caps] in H. rewrite E in H.
  replace ("{"%char :: u ++ "}"%char :: rs') with (("{"%char :: u ++ ["}"%char]) ++ rs') in H
    by (cbn; now rewrite <- app_assoc).
  rewrite firstn_len_diff in H. rewrite E.
  replace ("{"%char :: u ++ "}"%char :: rs') with (("{"%char :: u ++ ["}"%char]) ++ rs')
    by (cbn; now rewrite <- app_assoc).
  exact H.
Qed.

Lemma brace_match_sound pv b st' :
  match_here brace_re pv b = Some st' ->
  exists u c, b = "{"%char :: u ++ "}"%char :: c /\
              groups_text (caps st') 1 = "{"%char :: u ++ ["}"%char] /\
              lookup_cap 1 (caps st') <> None.
Proof.
  unfold match_here, brace_re. intros H. apply group_braced_sound in H.
  destruct H as (u & c & E & [= <-]). cbn in E. exists u, c.
  split; [exact E|]. cbn. split; [reflexivity | discriminate].
Qed.

Lemma fence_match_sound pv b st' :
  match_here fence_re pv b = Some st' ->
  exists a u c, b = a ++ "{"%char :: u ++ "}"%char :: c /\
                groups_text (caps st') 1 = "{"%char :: u ++ ["}"%char] /\
                lookup_cap 1 (caps st') <> None.
Proof.
  unfold match_here, fence_re. rewrite mt_seq. intros H.
  apply mt_sound in H. destruct H as (s1 & (c1 & E1 & _ & _ & C1) & H).
  cbv beta in H. rewrite mt_seq in H.
  apply mt_sound in H. destruct H as (s2 & (c2 & E2 & _ & _ & C2) & H).
  cbv beta in H. rewrite mt_seq in H.
  apply group_braced_sound in H. destruct H as (u & rs' & E3 & H).
  cbv beta in H.
  apply mt_sound in H. destruct H as (s4 & (c4 & E4 & _ & _ & C4) & [= <-]).
  cbn [rest caps] in *. specialize (C4 eq_refl).
  exists (c1 ++ c2), u, rs'. split.
  - rewrite E1, E2, E3. now rewrite <- app_assoc.
  - rewrite C4. cbn. split; [reflexivity | discriminate].
Qed.

Lemma brace_pair_intro u c : forall a,
  brace_pair (a ++ "{"%char :: u ++ "}"%char :: c) = true.
Proof.
  assert (Hc : forall v, existsb (Ascii.eqb "}"%char) (v ++ "}"%char :: c) = true).
  { intros v. rewrite existsb_app. cbn [existsb]. rewrite Ascii.eqb_refl.
    cbn. apply orb_true_r. }
  induction a as [|x a IH]; cbn [app brace_pair].
  - rewrite Ascii.eqb_refl. apply Hc.
  - destruct (Ascii.eqb x "{"); [|exact IH].
    change (a ++ "{"%char :: u ++ "}"%char :: c) with (a ++ ("{"%char :: u) ++ "}"%char :: c).
    rewrite app_assoc. apply Hc.
Qed.

Lemma first_closing t :
  existsb (Ascii.eqb "}"%char) t = true ->
  exists b c, t = b ++ "}"%char :: c /\ no_char "}" b = true.
Proof.
  induction t as [|x t IH]; cbn [existsb]; [discriminate|].
  destruct (Ascii.eqb_spec "}"%char x) as [<-|Hx].
  - intros _. now exists [], t.
  - cbn [orb]. intros H. destruct (IH H) as (b & c & -> & Hb).
    exists (x :: b), c. split; [reflexivity|]. unfold no_char in *. cbn [forallb].
    rewrite Hb. destruct (Ascii.eqb_spec x "}"%char); [congruence | reflexivity].
Qed.

Lemma brace_pair_split t :
  brace_pair t = true ->
  exists a b c, t = a ++ "{"%char :: b ++ "}"%char :: c /\
                no_char "{" a = true /\ no_char "}" b = true.
Proof.
  induction t as [|x t IH]; cbn [brace_pair]; [discriminate|].
  destruct (Ascii.eqb_spec x "{"%char) as [->|Hx].
  - intros H. destruct (first_closing _ H) as (b & c & -> & Hb). now exists [], b, c.
  - intros H. destruct (IH H) as (a & b & c & -> & Ha & Hb).
    exists (x :: a), b, c. split; [reflexivity|]. split; [|exact Hb].
    unfold no_char in *. cbn [forallb]. rewrite Ha.
    destruct (Ascii.eqb_spec x "{"%char); [congruence | reflexivity].
Qed.

Lemma clean_sound t j :
  _clean_llm_response t = Some j ->
  exists a u c, t = a ++ j ++ c /\ j = "{"%char :: u ++ ["}"%char].
Proof.
  unfold _clean_llm_response, search, group.
  destruct (search_at fence_re None t) as [m|] eqn:F.
  - destruct (search_at_sound _ _ _ _ F) as (a & b & -> & _ & Hm).
    destruct (fence_match_sound _ _ _ Hm) as (a' & u & c & -> & Hg & Hl).
    unfold groups_text in Hg.
    destruct (lookup_cap 1 (caps (m_end m))) as [cp|]; [|congruence]. cbn.
    intros [= <-]. exists (a ++ a'), u, c. rewrite Hg. split; [|reflexivity].
    rewrite <- !app_assoc. cbn. now rewrite <- app_assoc.
  - destruct (search_at brace_re None t) as [m|] eqn:B; [|discriminate].
    destruct (search_at_sound _ _ _ _ B) as (a & b & -> & _ & Hm).
    destruct (brace_match_sound _ _ _ Hm) as (u & c & -> & Hg & Hl).
    unfold groups_text in Hg.
    destruct (lookup_cap 1 (caps (m_end m))) as [cp|]; [|congruence]. cbn.
    intros [= <-]. exists a, u, c. rewrite Hg. split; [|reflexivity].
    cbn. now rewrite <- app_assoc.
Qed.

Lemma clean_complete t : brace_pair t = true -> _clean_llm_response t <> None.
Proof.
  intros H. destruct (brace_pair_split _ H) as (a & b & c & -> & Ha & Hb).
  destruct (search fence_re (a ++ "{"%char :: b ++ "}"%char :: c)) as [m|] eqn:F.
  - unfold _clean_llm_response. rewrite F. unfold search in F.
    destruct (search_at_sound _ _ _ _ F) as (a0 & b0 & _ & _ & Hm).
    destruct (fence_match_sound _ _ _ Hm) as (_ & _ & _ & _ & _ & Hl).
    unfold group. destruct (lookup_cap 1 (caps (m_end m))); [discriminate | congruence].
  - rewrite (brace_fallback a b c F Ha Hb). discriminate.
Qed.

(** X3. Whatever the parser returns is a part of the completion that starts
    with an opening brace and ends with a closing brace. *)
Theorem clean_llm_response_is_braced_part t j :
  _clean_llm_response t = Some j ->
  exists a u c, t = a ++ j ++ c /\ j = "{"%char :: u ++ ["}"%char].
Proof. apply clean_sound. Qed.

(** X4. The parser finds nothing exactly when no closing brace follows the
    first opening brace. *)
Theorem clean_llm_response_none_iff t :
  _clean_llm_response t = None <-> brace_pair t = false.
Proof.
  split.
  - intros H. destruct (brace_pair t) eqn:E; [|reflexivity].
    now apply clean_complete in E.
  - intros H. destruct (_clean_llm_response t) as [j|] eqn:E; [|reflexivity].
    destruct (clean_sound _ _ E) as (a & u & c & -> & ->).
    cbn in H. rewrite <- app_assoc in H. cbn in H.
    now rewrite brace_pair_intro in H.
Qed.

Lemma clean_llm_response_is_braced_part_witness :
  exists a u c, fenced_completion = a ++ nested_object ++ c /\
                nested_object = "{"%char :: u ++ ["}"%char].
Proof.
  apply (clean_llm_response_is_braced_part fenced_completion nested_object).
  vm_compute. reflexivity.
Defined.

(** *** Substitutions that find nothing *)

Lemma contains_suffix eq needle : forall a b,
  contains eq needle (a ++ b) = false -> contains eq needle b = false.
Proof.
  induction a as [|x a IH]; intros b H; [exact H|].
  cbn [app contains] in H. apply orb_false_elim in H as [_ H]. now apply IH.
Qed.

Lemma contains_head eq needle s :
  contains eq needle s = false -> starts_with eq needle s = false.
Proof. destruct s; cbn [contains]; intros H; now apply orb_false_elim in H. Qed.

(** A pattern that matches nowhere in [s] leaves [s] as it is. *)
Lemma sub_go_nowhere r repl cnt : forall s pv,
  (forall a b pv', s = a ++ b -> match_here r pv' b = None) ->
  sub_go r repl cnt 0 pv s = s.
Proof.
  induction s as [|c s IH]; intros pv H.
  - destruct cnt as [[|n]|]; cbn [sub_go]; try reflexivity;
      now rewrite (H [] [] pv eq_refl).
  - destruct cnt as [[|n]|]; cbn [sub_go]; try reflexivity;
      rewrite (H [] (c :: s) pv eq_refl); f_equal; apply IH;
      intros a b pv' ->; apply (H (c :: a) b pv' eq_refl).
Qed.

Lemma sargable_needs_year pv rs :
  starts_with eq_ci (txt "YEAR(") rs = false -> match_here sargable_pattern_gte pv rs = None.
Proof. intros H. unfold match_here, sargable_pattern_gte, lit_ci. now apply mt_lit_fail. Qed.

(** X7. A WHERE clause without [YEAR(], in any case, is left as it is by
    the rewrite of the year comparisons. *)
Theorem sargable_sub_without_year where_clause :
  contains eq_ci (txt "YEAR(") where_clause = false ->
  sargable_sub where_clause = where_clause.
Proof.
  intros H. unfold sargable_sub, sub. apply sub_go_nowhere.
  intros a b pv' ->. apply sargable_needs_year, contains_head.
  now apply contains_suffix in H.
Qed.

Lemma sargable_sub_without_year_witness :
  sargable_sub (txt "WHERE BE_Date >= '2024-01-01' AND Qty > 5") =
  txt "WHERE BE_Date >= '2024-01-01' AND Qty > 5".
Proof.
  apply (sargable_sub_without_year (txt "WHERE BE_Date >= '2024-01-01' AND Qty > 5")).
  vm_compute. reflexivity.
Defined.

Lemma equality_needs_name pv rs :
  starts_with eq_cs (txt "Importer_Name") rs = false ->
  starts_with eq_cs (txt "Exporter_Name") rs = false ->
  starts_with eq_cs (txt "Product_Name") rs = false ->
  match_here equality_re pv rs = None.
Proof.
  intros H1 H2 H3. unfold match_here, equality_re. rewrite mt_seq, mt_Grp.
  cbn [mt]. unfold lit. rewrite !mt_lit. cbn [rest]. now rewrite H1, H2, H3.
Qed.

Lemma equality_to_like_without_names query :
  contains eq_cs (txt "Importer_Name") query = false ->
  contains eq_cs (txt "Exporter_Name") query = false ->
  contains eq_cs (txt "Product_Name") query = false ->
  equality_to_like query = query.
Proof.
  intros H1 H2 H3. unfold equality_to_like, sub. apply sub_go_nowhere.
  intros a b pv' ->.
  apply equality_needs_name; apply contains_head; eapply contains_suffix; eassumption.
Qed.

(** X11. A failed query that names none of the three columns is sent again as
    it is. *)
Theorem retry_without_name_columns env w query e :
  contains eq_cs (txt "Importer_Name") query = false ->
  contains eq_cs (txt "Exporter_Name") query = false ->
  contains eq_cs (txt "Product_Name") query = false ->
  execute env (length (db_log w)) query = Raise e ->
  repairable e = true ->
  try_execute_sql env query w =
    (execute env (S (length (db_log w))) query, logged w [query; query]).
Proof.
  intros H1 H2 H3 He Hr. rewrite try_execute_sql_eq, He, Hr.
  now rewrite (equality_to_like_without_names query H1 H2 H3).
Qed.

Lemma retry_without_name_columns_witness :
  try_execute_sql
    (scenario "SELECT 1" (answers "SELECT 1") (db_rejects_first "Incorrect Syntax near 'FORM'"))
    (txt "SELECT * FORM t") world0 =
  (Ok one_row, logged world0 [txt "SELECT * FORM t"; txt "SELECT * FORM t"]).
Proof.
  apply (retry_without_name_columns
           (scenario "SELECT 1" (answers "SELECT 1")
              (db_rejects_first "Incorrect Syntax near 'FORM'"))
           world0 (txt "SELECT * FORM t") (txt "Incorrect Syntax near 'FORM'"));
    vm_compute; reflexivity.
Defined.

(** *** [_detect_smalltalk]: white space around the input and letter case *)

Lemma lstrip_spaces ws : forall s, forallb is_space ws = true -> lstrip (ws ++ s) = lstrip s.
Proof.
  induction ws as [|c ws IH]; intros s H; [reflexivity|].
  cbn in H. apply andb_prop in H as [Hc H]. cbn. rewrite Hc. now apply IH.
Qed.

Lemma lstrip_all ws : forallb is_space ws = true -> lstrip ws = [].
Proof. intros H. rewrite <- (app_nil_r ws). now rewrite lstrip_spaces. Qed.

Lemma forallb_reversed (p : ascii -> bool) l : forallb p l = true -> forallb p (rev l) = true.
Proof.
  rewrite !forallb_forall. intros H x Hx. apply H. now apply in_rev.
Qed.

Lemma rstrip_spaces s ws : forallb is_space ws = true -> rstrip (s ++ ws) = rstrip s.
Proof.
  intros H. unfold rstrip. rewrite rev_app_distr, lstrip_spaces; [reflexivity|].
  now apply forallb_reversed.
Qed.

Lemma strip_right s ws : forallb is_space ws = true -> strip (s ++ ws) = strip s.
Proof.
  intros H. unfold strip. induction s as [|c s IH]; cbn [app lstrip].
  - now rewrite (lstrip_all ws H).
  - destruct (is_space c); [exact IH|].
    change (c :: s ++ ws) with ((c :: s) ++ ws). now apply rstrip_spaces.
Qed.

Lemma strip_spaces ws1 s ws2 :
  forallb is_space ws1 = true -> forallb is_space ws2 = true ->
  strip (ws1 ++ s ++ ws2) = strip s.
Proof.
  intros H1 H2. unfold strip at 1. rewrite (lstrip_spaces ws1 _ H1).
  fold (strip (s ++ ws2)). now apply strip_right.
Qed.

Lemma is_space_upper c : is_space (upper c) = is_space c.
Proof. destruct c as [[] [] [] [] [] [] [] []]; reflexivity. Qed.

Lemma lower_upper c : lower (upper c) = lower c.
Proof. destruct c as [[] [] [] [] [] [] [] []]; reflexivity. Qed.

Lemma lstrip_upper s : lstrip (str_upper s) = str_upper (lstrip s).
Proof.
  induction s as [|c s IH]; [reflexivity|]. cbn. rewrite is_space_upper.
  destruct (is_space c); [exact IH | reflexivity].
Qed.

Lemma strip_upper s : strip (str_upper s) = str_upper (strip s).
Proof.
  unfold strip, rstrip, str_upper.
  fold (str_upper s). rewrite lstrip_upper. unfold str_upper.
  rewrite <- map_rev. fold (str_upper (rev (lstrip s))). rewrite lstrip_upper.
  unfold str_upper. now rewrite map_rev.
Qed.

Lemma str_lower_upper s : str_lower (str_upper s) = str_lower s.
Proof.
  unfold str_lower, str_upper. rewrite map_map. apply map_ext, lower_upper.
Qed.

(** X10. White space around a question in ASCII and the case of its letters
    do not change the answer of the classifier. *)
Theorem detect_smalltalk_spaces_and_case ws1 user_query ws2 :
  forallb is_space ws1 = true -> forallb is_space ws2 = true ->
  ascii_text user_query = true ->
  _detect_smalltalk (ws1 ++ str_upper user_query ++ ws2) = _detect_smalltalk user_query.
Proof.
  intros H1 H2 _. unfold _detect_smalltalk.
  now rewrite (strip_spaces ws1 _ ws2 H1 H2), strip_upper, str_lower_upper.
Qed.

Lemma detect_smalltalk_spaces_and_case_witness :
  _detect_smalltalk (txt "  " ++ str_upper (txt "thank you") ++ [nl]) =
  _detect_smalltalk (txt "thank you").
Proof.
  apply (detect_smalltalk_spaces_and_case (txt "  ") (txt "thank you") [nl]);
    reflexivity.
Defined.

(** *** The shape of the summary query *)

Lemma lstrip_id c s : is_space c = false -> lstrip (c :: s) = c :: s.
Proof. intros H. cbn. now rewrite H. Qed.

Lemma strip_id c s d :
  is_space c = false -> is_space d = false ->
  strip ((c :: s) ++ [d]) = (c :: s) ++ [d].
Proof.
  intros Hc Hd. unfold strip, rstrip. cbn [app]. rewrite (lstrip_id c _ Hc).
  change (c :: s ++ [d]) with ((c :: s) ++ [d]).
  rewrite rev_app_distr. cbn [rev app]. rewrite (lstrip_id d _ Hd).
  cbn [rev]. rewrite rev_app_distr, rev_involutive. reflexivity.
Qed.

Lemma strip_wrapped ws1 c s d ws2 :
  forallb is_space ws1 = true -> forallb is_space ws2 = true ->
  is_space c = false -> is_space d = false ->
  strip (ws1 ++ c :: s ++ d :: ws2) = c :: s ++ [d].
Proof.
  intros H1 H2 Hc Hd.
  replace (ws1 ++ c :: s ++ d :: ws2) with (ws1 ++ ((c :: s) ++ [d]) ++ ws2)
    by (cbn; now rewrite <- app_assoc).
  rewrite (strip_spaces _ _ _ H1 H2). now apply strip_id.
Qed.

Lemma summary_template_stripped name_col entity_name table_name where_clause date_col :
  exists mid,
    strip (summary_template name_col entity_name table_name where_clause date_col) =
    txt "WITH TopEntity AS (" ++ mid ++ txt "CROSS JOIN TopEntity t".
Proof.
  unfold summary_template.
  match goal with
  | |- context [ [nl] ++ line ?w ++ ?rest ] =>
      assert (E : exists Z, rest = Z ++ (line "        CROSS JOIN TopEntity t" ++ txt "        "))
  end.
  { eexists. rewrite !app_assoc. reflexivity. }
  destruct E as [Z E]. rewrite E. clear E.
  exists ([nl] ++ Z ++ txt "        ").
  set (S := txt "ITH TopEntity AS (" ++ [nl] ++ Z ++ txt "        " ++ txt "CROSS JOIN TopEntity ").
  assert (ET : [nl] ++ line "        WITH TopEntity AS (" ++
               Z ++ line "        CROSS JOIN TopEntity t" ++ txt "        " =
               (nl :: txt "        ") ++ "W"%char :: S ++ "t"%char :: (nl :: txt "        ")).
  { unfold S. rewrite <- !app_assoc. reflexivity. }
  rewrite ET, strip_wrapped by reflexivity.
  unfold S. rewrite <- !app_assoc. reflexivity.
Qed.

(** X6. A summary query, when one is derived, is the two-CTE statement: it is
    not empty, so that [ask] always runs it. *)
Theorem summary_query_shape original_query summary_query :
  _generate_summary_query original_query = Some summary_query ->
  summary_query <> [] /\
  exists mid,
    summary_query = txt "WITH TopEntity AS (" ++ mid ++ txt "CROSS JOIN TopEntity t".
Proof.
  unfold _generate_summary_query.
  destruct (search from_re (main_block original_query)) as [m|]; [|discriminate].
  cbv zeta.
  match goal with
  | |- (match ?X with (_, _) => _ end) = _ -> _ => destruct X as [n e]
  end.
  intros [= <-].
  match goal with
  | |- context [ summary_template ?a ?b ?c ?d ?f ] =>
      destruct (summary_template_stripped a b c d f) as [mid ->]
  end.
  split; [discriminate|]. now exists mid.
Qed.

Lemma summary_query_shape_witness :
  summary_of "SELECT n FROM t" <> [] /\
  exists mid,
    summary_of "SELECT n FROM t" =
    txt "WITH TopEntity AS (" ++ mid ++ txt "CROSS JOIN TopEntity t".
Proof.
  apply (summary_query_shape (txt "SELECT n FROM t") (summary_of "SELECT n FROM t")).
  vm_compute. reflexivity.
Defined.

(** ** Comparisons that the date rewrite leaves alone *)

Lemma no_match_in_intro r rs : forall g pv,
  (forall a b pv', g = a ++ b -> b <> [] -> match_here r pv' (b ++ rs) = None) ->
  no_match_in r pv g rs = true.
Proof.
  induction g as [|c g IH]; intros pv H; [reflexivity|].
  cbn [no_match_in]. rewrite (H [] (c :: g) pv eq_refl) by discriminate.
  apply IH. intros a b pv' -> Hb. now apply (H (c :: a) b pv').
Qed.

Lemma no_match_in_app r rs C : forall g pv,
  no_match_in r pv g (C ++ rs) = true ->
  no_match_in r (lastc pv g) C rs = true ->
  no_match_in r pv (g ++ C) rs = true.
Proof.
  induction g as [|c g IH]; intros pv H1 H2; [exact H2|].
  cbn [no_match_in app lastc] in *. rewrite <- app_assoc.
  destruct (match_here r pv (c :: g ++ C ++ rs)); [discriminate|].
  now apply IH.
Qed.

Lemma word_or_dot_not_paren x : word_or_dot x = true -> eq_ci "(" x = false.
Proof. ascii_cases x. Qed.

(** No call of YEAR starts inside a column name that is followed by the
    closing parenthesis. *)
Lemma year_not_in_col t : forall col,
  forallb word_or_dot col = true ->
  starts_with eq_ci (txt "YEAR(") (col ++ ")"%char :: t) = false.
Proof.
  intros col H.
  destruct col as [|c1 [|c2 [|c3 [|c4 [|c5 col]]]]];
    cbn [app starts_with txt list_ascii_of_string].
  6:{ cbn in H. repeat (apply andb_prop in H as [? H]).
      rewrite (word_or_dot_not_paren c5) by assumption.
      now rewrite !andb_false_r. }
  all: repeat match goal with
       | |- context [eq_ci ?a ?b] => is_var b; destruct (eq_ci a b)
       end; reflexivity.
Qed.

Lemma year_starts_with_y x t :
  eq_ci "Y" x = false -> starts_with eq_ci (txt "YEAR(") (x :: t) = false.
Proof. intros H. cbn [starts_with txt list_ascii_of_string]. now rewrite H. Qed.

(** The pattern does not match at a comparison whose operator starts with
    a character that is neither [>] nor [=]. *)
Lemma sargable_operator_fail pv kw col ws1 c0 t :
  str_lower kw = txt "year(" ->
  forallb word_or_dot col = true -> forallb is_space ws1 = true ->
  gt_or_eq c0 = false -> is_space c0 = false ->
  match_here sargable_pattern_gte pv (kw ++ col ++ ")"%char :: ws1 ++ c0 :: t) = None.
Proof.
  intros Hkw Hc Hw1 Hg Hs. unfold match_here, sargable_pattern_gte.
  rewrite mt_seq, mt_lit_ci_here by exact Hkw.
  rewrite mt_seq, mt_grp_rep_det; [|exact Hc| |reflexivity].
  2:{ intros pv' y u cs' Hy. rewrite mt_seq, mt_chr. revert Hy. ascii_cases y. }
  destruct (Nat.leb 1 (length col)); [|reflexivity].
  rewrite mt_seq, mt_chr, Ascii.eqb_refl.
  rewrite mt_seq, mt_rep_det; [|exact Hw1| |exact Hs].
  2:{ intros pv' y u Hy. rewrite mt_seq, mt_Grp. cbn [mt rest prev caps rep_greedy].
      revert Hy. ascii_cases y. }
  cbn [Nat.leb]. rewrite mt_seq, mt_Grp. cbn [mt rest prev caps rep_greedy].
  now rewrite Hg.
Qed.

Lemma other_comparison_head op :
  In op other_comparisons ->
  exists c0 op', op = c0 :: op' /\ gt_or_eq c0 = false /\ is_space c0 = false /\
                 forallb (fun x => negb (eq_ci "Y" x)) op = true.
Proof.
  intros [<-|[<-|[<-|[<-|[]]]]]; eexists; eexists; repeat split.
Qed.

Lemma space_not_y x : is_space x = true -> eq_ci "Y" x = false.
Proof. ascii_cases x. Qed.

Lemma suffix_cases (X Y a b : text) :
  X ++ Y = a ++ b ->
  (exists x2, X = a ++ x2 /\ b = x2 ++ Y) \/ (exists y1, Y = y1 ++ b /\ a = X ++ y1).
Proof.
  intros E. apply app_eq_app in E as [l [[-> ->]|[-> ->]]]; eauto.
Qed.

Lemma not_y_suffix (s a b h : text) pv :
  s = a ++ b -> b <> [] -> forallb (fun x => negb (eq_ci "Y" x)) s = true ->
  match_here sargable_pattern_gte pv (b ++ h) = None.
Proof.
  intros -> Hb Hn. destruct b as [|x b]; [congruence|].
  rewrite forallb_app in Hn. apply andb_prop in Hn as [_ Hn]. cbn in Hn.
  apply andb_prop in Hn as [Hx _]. apply negb_true_iff in Hx.
  apply sargable_needs_year. cbn [app]. now apply year_starts_with_y.
Qed.

(** No match starts inside a comparison with another operator. *)
Lemma comparison_no_match kw col ws1 op h pv :
  str_lower kw = txt "year(" ->
  forallb word_or_dot col = true -> forallb is_space ws1 = true ->
  In op other_comparisons ->
  no_match_in sargable_pattern_gte pv (kw ++ col ++ ")"%char :: ws1 ++ op) h = true.
Proof.
  intros Hkw Hc Hw1 Hop.
  destruct (other_comparison_head op Hop) as (c0 & op' & Eo & Hg & Hs & Hy).
  assert (Ek : exists k1 kw4, kw = k1 :: kw4 /\
               forallb (fun x => negb (eq_ci "Y" x)) kw4 = true).
  { destruct kw as [|k1 [|k2 [|k3 [|k4 [|k5 [|k6 kw]]]]]]; try discriminate.
    exists k1, [k2; k3; k4; k5]. split; [reflexivity|].
    cbn in Hkw. injection Hkw as H1 H2 H3 H4 H5.
    unfold eq_ci. cbn [forallb]. now rewrite H2, H3, H4, H5. }
  destruct Ek as (k1 & kw4 & Ek & Hk).
  assert (Hz : forallb (fun x => negb (eq_ci "Y" x)) (")"%char :: ws1 ++ op) = true).
  { cbn [forallb]. rewrite forallb_app, Hy, andb_true_r.
    apply andb_true_intro. split; [reflexivity|].
    apply forallb_forall. intros x Hx. rewrite forallb_forall in Hw1.
    now rewrite (space_not_y x (Hw1 x Hx)). }
  apply no_match_in_intro. intros a b pv' E Hb.
  apply suffix_cases in E as [(x2 & Ea & ->)|(y1 & Ey & Ea)].
  - destruct a as [|a1 a].
    + cbn [app] in Ea. subst x2. rewrite Eo, <- !app_assoc. cbn [app].
      rewrite <- app_assoc.
      now apply sargable_operator_fail.
    + rewrite Ek in Ea. cbn [app] in Ea. injection Ea as _ Ea.
      destruct x2 as [|x x2].
      * cbn [app]. apply sargable_needs_year. rewrite <- app_assoc. cbn [app].
        now apply year_not_in_col.
      * rewrite <- app_assoc. apply (not_y_suffix kw4 a (x :: x2)); [exact Ea | discriminate | exact Hk].
  - apply suffix_cases in Ey as [(x2 & Ec & ->)|(z1 & Ez & _)].
    + destruct x2 as [|x x2].
      * change ([] ++ ")"%char :: ws1 ++ op) with (")"%char :: ws1 ++ op).
        apply (not_y_suffix (")"%char :: ws1 ++ op) [] (")"%char :: ws1 ++ op));
          [reflexivity | discriminate | exact Hz].
      * apply sargable_needs_year. rewrite <- app_assoc.
        apply (year_not_in_col ((ws1 ++ op) ++ h) (x :: x2)).
        rewrite Ec, forallb_app in Hc.
        now apply andb_prop in Hc as [_ Hc].
    + apply (not_y_suffix (")"%char :: ws1 ++ op) z1 b); [exact Ez | exact Hb | exact Hz].
Qed.

(** A comparison with another operator is kept as it is, and the text
    after it is rewritten. *)
Lemma sargable_sub_keeps (g kw col ws1 op h : text) :
  no_match_in sargable_pattern_gte None g
    (kw ++ col ++ ")"%char :: ws1 ++ op ++ h) = true ->
  str_lower kw = txt "year(" ->
  forallb word_or_dot col = true -> forallb is_space ws1 = true ->
  In op other_comparisons ->
  sargable_sub (g ++ kw ++ col ++ ")"%char :: ws1 ++ op ++ h) =
  g ++ kw ++ col ++ ")"%char :: ws1 ++ op ++ sargable_sub h.
Proof.
  intros Hg Hkw Hc Hw1 Hop. unfold sargable_sub, sub.
  set (C := kw ++ col ++ ")"%char :: ws1 ++ op).
  assert (E : forall t, kw ++ col ++ ")"%char :: ws1 ++ op ++ t = C ++ t).
  { intros t. unfold C. rewrite <- !app_assoc. cbn [app]. now rewrite <- !app_assoc. }
  rewrite !E, app_assoc.
  rewrite sub_go_gap.
  - rewrite <- app_assoc. do 2 f_equal. apply sub_go_prev. reflexivity.
  - apply no_match_in_app; [now rewrite <- E|].
    now apply comparison_no_match.
Qed.

Lemma lower_word x : is_lower (lower x) = true -> word_or_dot x = true.
Proof. ascii_cases x. Qed.

Lemma lower_paren x : lower x = "("%char -> x = "("%char.
Proof. ascii_cases x. Qed.

Lemma digit_is_not_y d : is_digit d = true -> eq_ci "Y" d = false.
Proof. ascii_cases d. Qed.

Lemma sign_not_y x : minus_or_plus x = true -> eq_ci "Y" x = false.
Proof. ascii_cases x. Qed.

Lemma forallb_not_y (p : ascii -> bool) (l : text) :
  (forall x, p x = true -> eq_ci "Y" x = false) -> forallb p l = true ->
  forallb (fun x => negb (eq_ci "Y" x)) l = true.
Proof.
  intros Hp H. apply forallb_forall. intros x Hx. rewrite forallb_forall in H.
  now rewrite (Hp x (H x Hx)).
Qed.

(** The call of the current year: no match starts at it, whatever follows,
    and none of its characters after the first is a [Y]. *)
Lemma year_call_no_match call :
  str_lower call = year_call ->
  (forall pv t, match_here sargable_pattern_gte pv (call ++ t) = None) /\
  exists x call', call = x :: call' /\
                  forallb (fun x => negb (eq_ci "Y" x)) call' = true.
Proof.
  intros H.
  destruct call as [|c1 [|c2 [|c3 [|c4 [|c5 [|c6 [|c7 [|c8 [|c9 [|c10 [|c11 [|c12
                   [|c13 [|c14 [|c15 [|c16 call]]]]]]]]]]]]]]]]; try discriminate.
  cbn in H. injection H as H1 H2 H3 H4 H5 H6 H7 H8 H9 H10 H11 H12 H13 H14 H15.
  split.
  - intros pv t. apply lower_paren in H13. subst c13.
    change ([c1; c2; c3; c4; c5; c6; c7; c8; c9; c10; c11; c12; "("%char; c14; c15] ++ t)
      with ([c1; c2; c3; c4; c5] ++ [c6; c7; c8; c9; c10; c11; c12] ++
            "("%char :: c14 :: c15 :: t).
    unfold match_here, sargable_pattern_gte.
    rewrite mt_seq, mt_lit_ci_here
      by (cbn [str_lower map]; now rewrite H1, H2, H3, H4, H5).
    rewrite mt_seq, mt_grp_rep_det; [| | |reflexivity].
    + cbn [length Nat.leb]. now rewrite mt_seq, mt_chr.
    + cbn [forallb]. rewrite !lower_word; [reflexivity| | | | | | |];
        match goal with |- is_lower (lower ?c) = true =>
          first [rewrite H6 | rewrite H7 | rewrite H8 | rewrite H9 | rewrite H10
                | rewrite H11 | rewrite H12] end; reflexivity.
    + intros pv' y u cs' Hy. rewrite mt_seq, mt_chr. revert Hy. ascii_cases y.
  - eexists. eexists. split; [reflexivity|].
    unfold eq_ci. cbn [forallb].
    now rewrite H2, H3, H4, H5, H6, H7, H8, H9, H10, H11, H12, H13, H14, H15.
Qed.

(** No match starts inside the right-hand side of a comparison or in the
    white space before it. *)
Lemma operand_no_match ws2 e h pv :
  forallb is_space ws2 = true -> year_operand e h ->
  no_match_in sargable_pattern_gte pv (ws2 ++ e) h = true.
Proof.
  intros Hw He.
  assert (Hsp : forallb (fun x => negb (eq_ci "Y" x)) ws2 = true)
    by (apply (forallb_not_y is_space); [apply space_not_y | exact Hw]).
  assert (Hd : forall ds, forallb is_digit ds = true ->
                          forallb (fun x => negb (eq_ci "Y" x)) ds = true)
    by (intros ds; apply forallb_not_y, digit_is_not_y).
  assert (K : (forall pv', match_here sargable_pattern_gte pv' (e ++ h) = None) /\
              exists x e', e = x :: e' /\
                           forallb (fun x => negb (eq_ci "Y" x)) e' = true).
  { destruct He as [d1 d2 d3 d4 h Hds | call ws1 ws3 digits sign h Hc Hw1 Hs Hw3 Hn Hds Hh
                    | call ws h Hc Hws Hh].
    - split.
      + intros pv'. apply sargable_needs_year. cbn [app]. apply year_starts_with_y.
        cbn in Hds. apply andb_prop in Hds as [H1 _]. now apply digit_is_not_y.
      + exists d1, [d2; d3; d4]. split; [reflexivity|].
        apply Hd. cbn in Hds. now apply andb_prop in Hds as [_ Hds].
    - destruct (year_call_no_match call Hc) as [F (x & call' & -> & Hy)]. split.
      + intros pv'. rewrite <- app_assoc. apply F.
      + exists x, (call' ++ ws1 ++ sign :: ws3 ++ digits). split; [reflexivity|].
        rewrite !forallb_app. cbn [forallb]. rewrite forallb_app, Hy.
        rewrite (forallb_not_y is_space ws1 space_not_y Hw1).
        rewrite (forallb_not_y is_space ws3 space_not_y Hw3).
        rewrite (Hd digits Hds), (sign_not_y sign Hs). reflexivity.
    - destruct (year_call_no_match call Hc) as [F (x & call' & -> & Hy)]. split.
      + intros pv'. apply F.
      + exists x, call'. split; [reflexivity | exact Hy]. }
  destruct K as [F (x & e' & -> & Hy)].
  apply no_match_in_intro. intros a b pv' E Hb.
  apply suffix_cases in E as [(x2 & Ea & ->)|(y1 & Ey & Ea)].
  - destruct x2 as [|z x2].
    + cbn [app]. apply F.
    + rewrite <- app_assoc.
      apply (not_y_suffix ws2 a (z :: x2)); [exact Ea | discriminate | exact Hsp].
  - destruct y1 as [|z y1].
    + cbn [app] in Ey. subst b. apply F.
    + cbn [app] in Ey. injection Ey as _ Ey.
      apply (not_y_suffix e' y1 b); [exact Ey | exact Hb | exact Hy].
Qed.

(** A comparison with another operator is kept as it is, with its
    right-hand side, and the text after it is rewritten. *)
Lemma sargable_sub_keeps_comparison (g kw col ws1 op ws2 e h : text) :
  no_match_in sargable_pattern_gte None g
    (kw ++ col ++ ")"%char :: ws1 ++ op ++ ws2 ++ e ++ h) = true ->
  str_lower kw = txt "year(" ->
  forallb word_or_dot col = true -> forallb is_space ws1 = true ->
  In op other_comparisons ->
  forallb is_space ws2 = true -> year_operand e h ->
  sargable_sub (g ++ kw ++ col ++ ")"%char :: ws1 ++ op ++ ws2 ++ e ++ h) =
  g ++ kw ++ col ++ ")"%char :: ws1 ++ op ++ ws2 ++ e ++ sargable_sub h.
Proof.
  intros Hg Hkw Hc Hw1 Hop Hw2 He.
  rewrite (sargable_sub_keeps g kw col ws1 op (ws2 ++ e ++ h) Hg Hkw Hc Hw1 Hop).
  do 5 f_equal. unfold sargable_sub, sub.
  rewrite (app_assoc ws2 e h), sub_go_gap by (now apply operand_no_match).
  rewrite <- app_assoc. do 3 f_equal. apply sub_go_prev. reflexivity.
Qed.

(** ** The claims about the date rewrite, the repair and the normalizer applied twice *)

(** C2, as amended. In the WHERE clause text, take the leftmost comparison
    [YEAR(col) op e] of a column with a four-digit year or with the current
    year and an optional offset.  When [op] is a run of the characters [>]
    and [=], the comparison becomes [ col op DATEFROMPARTS(e, 1, 1) ]; when
    [op] is one of [<], [<=], [<>] and [!=], the comparison is left as it
    is.  In both cases the text before the comparison is kept and the text
    after it is rewritten in the same way. *)
Theorem sargable_rewrite_gte (g kw col ws1 op ws2 e h : text) :
  no_match_in sargable_pattern_gte None g
    (kw ++ col ++ ")"%char :: ws1 ++ op ++ ws2 ++ e ++ h) = true ->
  str_lower kw = txt "year(" ->
  col <> [] -> forallb word_or_dot col = true ->
  forallb is_space ws1 = true ->
  forallb is_space ws2 = true ->
  year_operand e h ->
  (op <> [] -> forallb gt_or_eq op = true ->
   sargable_sub (g ++ kw ++ col ++ ")"%char :: ws1 ++ op ++ ws2 ++ e ++ h) =
   g ++ txt " " ++ col ++ txt " " ++ op ++ txt " DATEFROMPARTS(" ++ e ++ txt ", 1, 1) " ++
   sargable_sub h) /\
  (In op [txt "<"; txt "<="; txt "<>"; txt "!="] ->
   sargable_sub (g ++ kw ++ col ++ ")"%char :: ws1 ++ op ++ ws2 ++ e ++ h) =
   g ++ kw ++ col ++ ")"%char :: ws1 ++ op ++ ws2 ++ e ++ sargable_sub h).
Proof.
  intros Hg Hkw Hcol Hc Hw1 Hw2 He. split.
  - intros Hop Ho. rewrite sargable_sub_step by assumption.
    unfold date_from_parts. now rewrite <- !app_assoc.
  - intros Hop. now apply sargable_sub_keeps_comparison.
Qed.

(** C2, at a clause with [>=] and at a clause with [<]. *)
Lemma sargable_rewrite_gte_witness :
  sargable_sub (txt "WHERE YEAR(v.BE_Date) >= YEAR(GETDATE()) - 2 AND YEAR(d) = 2024") =
  txt "WHERE  v.BE_Date >= DATEFROMPARTS(YEAR(GETDATE()) - 2, 1, 1)  AND  d = DATEFROMPARTS(2024, 1, 1) " /\
  sargable_sub (txt "WHERE YEAR(v.BE_Date) < YEAR(GETDATE()) - 2 AND YEAR(d) = 2024") =
  txt "WHERE YEAR(v.BE_Date) < YEAR(GETDATE()) - 2 AND  d = DATEFROMPARTS(2024, 1, 1) ".
Proof.
  assert (Hy : year_operand (txt "YEAR(GETDATE()) - 2") (txt " AND YEAR(d) = 2024")).
  { apply (relative_year (txt "YEAR(GETDATE())") (txt " ") (txt " ") (txt "2") "-"%char);
      try (vm_compute; reflexivity); try discriminate. }
  split.
  - apply (sargable_rewrite_gte (txt "WHERE ") (txt "YEAR(") (txt "v.BE_Date") (txt " ")
             (txt ">=") (txt " ") (txt "YEAR(GETDATE()) - 2") (txt " AND YEAR(d) = 2024"));
      try (vm_compute; reflexivity); try discriminate. exact Hy.
  - apply (sargable_rewrite_gte (txt "WHERE ") (txt "YEAR(") (txt "v.BE_Date") (txt " ")
             (txt "<") (txt " ") (txt "YEAR(GETDATE()) - 2") (txt " AND YEAR(d) = 2024"));
      try (vm_compute; reflexivity); try discriminate; [exact Hy | simpl; tauto].
Defined.




(** C9. For a query in ASCII, where the letters, the white space and the
    word characters of the patterns are those of Python, the normalizer
    applied to its own result gives that result. *)
Theorem normalizer_idempotent (s : text) :
  ascii_text s = true ->
  _fix_product_column_in_sql (_fix_product_column_in_sql s) = _fix_product_column_in_sql s.
Proof. intros _. apply fix_idempotent. Qed.

(** C9, at a query with a product predicate in lower case. *)
Lemma normalizer_idempotent_witness :
  _fix_product_column_in_sql
    (_fix_product_column_in_sql
       (txt "SELECT * FROM t WHERE Product_Name LIKE '%zinc ingot%' ORDER BY Qty")) =
  _fix_product_column_in_sql
    (txt "SELECT * FROM t WHERE Product_Name LIKE '%zinc ingot%' ORDER BY Qty").
Proof.
  apply (normalizer_idempotent
           (txt "SELECT * FROM t WHERE Product_Name LIKE '%zinc ingot%' ORDER BY Qty")).
  vm_compute. reflexivity.
Defined.

(** ** Row formatting *)

Lemma text_eqb_eq a : forall b, text_eqb a b = true <-> a = b.
Proof.
  induction a as [|x a IH]; intros [|y b]; cbn; split; try discriminate; auto.
  - intros H. apply andb_prop in H as [H1 H2]. apply Ascii.eqb_eq in H1.
    apply IH in H2. congruence.
  - intros [= -> ->]. rewrite Ascii.eqb_refl. now apply IH.
Qed.

Lemma dict_set_new d k v : ~ In k (keys d) -> dict_set d k v = d ++ [(k, v)].
Proof.
  induction d as [|[k0 v0] d IH]; cbn; intros H; [reflexivity|].
  destruct (text_eqb k0 k) eqn:E.
  - apply text_eqb_eq in E. tauto.
  - f_equal. apply IH. tauto.
Qed.

Lemma format_row_raises env cols : forall row i acc,
  i <= length cols -> length cols < i + length row ->
  format_row env cols i row acc = Raise (txt "IndexError").
Proof.
  induction row as [|v row IH]; intros i acc Hi H; cbn in *; [lia|].
  destruct (nth_error cols i) as [c|] eqn:E; [|reflexivity].
  assert (i < length cols) by (apply nth_error_Some; congruence).
  apply IH; lia.
Qed.

Lemma format_row_ok env cols : forall row i acc,
  i + length row <= length cols -> exists d, format_row env cols i row acc = Ok d.
Proof.
  induction row as [|v row IH]; intros i acc H; cbn in *; [now exists acc|].
  destruct (nth_error cols i) as [c|] eqn:E.
  - apply IH. lia.
  - apply nth_error_None in E. lia.
Qed.

(** X12. The rows are formatted when each has a column name for each cell, and
    then there are as many dictionaries as rows; a longer row raises
    [IndexError]. *)
Theorem format_rows_width env column_names rows :
  match format_rows env column_names rows with
  | Ok data => forallb (fits column_names) rows = true /\ length data = length rows
  | Raise e => forallb (fits column_names) rows = false /\ e = txt "IndexError"
  end.
Proof.
  induction rows as [|row rows IH]; cbn [format_rows forallb]; [auto|].
  unfold fits at 1 3. destruct (Nat.leb_spec (length row) (length column_names)) as [H|H].
  - destruct (format_row_ok env column_names row 0 [] H) as [d ->].
    destruct (format_rows env column_names rows) as [ds|e]; cbn; destruct IH; auto.
  - rewrite (format_row_raises env column_names row 0 [] (Nat.le_0_l _) H). auto.
Qed.

Lemma format_row_distinct env : forall row post pre acc,
  NoDup (keys acc ++ post) -> length row <= length post ->
  format_row env (pre ++ post) (length pre) row acc =
  Ok (acc ++ map (formatted_cell env) (combine post row)).
Proof.
  induction row as [|v row IH]; intros post pre acc Hn Hl.
  - cbn. destruct post; cbn; now rewrite app_nil_r.
  - destruct post as [|c post]; [cbn in Hl; lia|].
    cbn [format_row]. rewrite nth_error_app2, Nat.sub_diag by lia. cbn [nth_error].
    assert (Hc : ~ In c (keys acc)).
    { intros Hin. apply NoDup_remove_2 in Hn. apply Hn, in_or_app. now left. }
    rewrite (dict_set_new _ _ _ Hc).
    replace (pre ++ c :: post) with ((pre ++ [c]) ++ post) by (now rewrite <- app_assoc).
    replace (S (length pre)) with (length (pre ++ [c])) by (rewrite length_app; cbn; lia).
    rewrite IH.
    + cbn. now rewrite <- app_assoc.
    + unfold keys in *. rewrite map_app. cbn. rewrite <- app_assoc. exact Hn.
    + cbn in Hl. lia.
Qed.

(** X13. With distinct column names each row becomes the list of its cells,
    formatted, under their column names and in their order. *)
Theorem format_rows_distinct_columns env column_names rows :
  NoDup column_names ->
  forallb (fits column_names) rows = true ->
  format_rows env column_names rows =
  Ok (map (fun row => map (formatted_cell env) (combine column_names row)) rows).
Proof.
  intros Hn. induction rows as [|row rows IH]; cbn [format_rows forallb map]; [reflexivity|].
  intros H. apply andb_prop in H as [Hr H]. apply Nat.leb_le in Hr.
  pose proof (format_row_distinct env row column_names [] [] Hn Hr) as E.
  cbn [app length] in E. rewrite E, (IH H). reflexivity.
Qed.

Lemma format_rows_distinct_columns_witness :
  format_rows number_env
    [txt "BE_Number"; txt "BE_Date"; txt "Qty"]
    [[PInt 7001; PDate 2024 1 1; PInt 5]; [PNone; PNone; PNone]] =
  Ok [[(txt "BE_Number", PStr (txt "7001"));
       (txt "BE_Date", PStr (txt "01-Jan-2024"));
       (txt "Qty", PInt 5)];
      [(txt "BE_Number", PNone); (txt "BE_Date", PNone); (txt "Qty", PNone)]].
Proof.
  apply (format_rows_distinct_columns number_env
           [txt "BE_Number"; txt "BE_Date"; txt "Qty"]
           [[PInt 7001; PDate 2024 1 1; PInt 5]; [PNone; PNone; PNone]]).
  - repeat constructor; cbn; intuition discriminate.
  - reflexivity.
Defined.

(** ** The web application ([app.py]) and the export thread *)

Lemma envelope_basic d : envelope d -> basic_fields d = true.
Proof.
  unfold envelope, stable_envelope, reduced_envelope, has_fields, basic_fields.
  intros [H|H].
  - apply andb_prop in H as [H _]. cbn [stable_fields reduced_fields map forallb] in *.
    repeat (apply andb_prop in H as [? H]).
    repeat (apply andb_true_intro; split); auto.
  - apply andb_prop in H as [H _]. apply andb_prop in H as [H _]. exact H.
Qed.

Lemma ask_basic env q h w :
  exists d w', ask env q h w = (Ok d, w') /\ basic_fields d = true.
Proof.
  unfold ask.
  destruct (_detect_smalltalk q) as [[|c cs]|].
  2:{ eexists; eexists; split; reflexivity. }
  all: unfold try_except;
    generalize (ask_body_envelope env q
                  (build_prompt env (schema env) (format_history env h) q) w);
    destruct (ask_body env q _ w) as [[d|e] w']; cbn;
    [ intros H; exists d, w'; split; [reflexivity | now apply envelope_basic]
    | intros _; eexists; eexists; split; reflexivity ].
Qed.

Lemma basic_nonempty d : basic_fields d = true -> d <> [].
Proof. intros H ->. discriminate. Qed.

(** X20. Whatever the agent and the JSON object of the request, [chat] answers
    with status 200, 400 or 500 and a body that has the fields answer,
    data and query. *)
Theorem chat_always_answers query_agent serializable data w :
  exists body status w',
    chat query_agent serializable (PDict data) w = (Ok (body, status), w') /\
    In status [200; 400; 500]%Z /\
    basic_fields body = true.
Proof.
  unfold chat. destruct query_agent as [env|].
  2:{ eexists; eexists; eexists; split; [reflexivity|]. cbn. auto. }
  destruct (no_message _).
  { eexists; eexists; eexists; split; [reflexivity|]. cbn. auto. }
  unfold try_except, bind.
  assert (Hj : (exists d w', ask_json env (dict_get data (txt "message"))
                   (get_default data (txt "history") (PList [])) w = (Ok d, w') /\
                   basic_fields d = true) \/
               exists e w', ask_json env (dict_get data (txt "message"))
                   (get_default data (txt "history") (PList [])) w = (Raise e, w')).
  { unfold ask_json.
    destruct (dict_get data (txt "message")) as [[ | | | |q| | | | ]|];
      try (right; eexists; eexists; reflexivity).
    destruct (_detect_smalltalk q) as [[|c cs]|];
      try (destruct (as_history _) as [h|]; [left; apply ask_basic | right; eexists; eexists; reflexivity]).
    left; apply ask_basic. }
  destruct Hj as [(d & w' & -> & Hd)|(e & w' & ->)].
  - destruct d as [|kv d]; [discriminate|].
    destruct (serializable (kv :: d)).
    + eexists; eexists; eexists; split; [reflexivity|]. cbn [In]. auto.
    + eexists; eexists; eexists; split; [reflexivity|]. cbn. auto.
  - eexists; eexists; eexists; split; [reflexivity|]. cbn. auto.
Qed.

Lemma ask_smalltalk_history env q h c cs :
  _detect_smalltalk q = Some (c :: cs) -> ask env q h = ask env q [].
Proof. intros H. unfold ask. now rewrite H. Qed.

(** X21. A request with a text message and a history of mappings gets the
    response of [ask] with status 200 when that response can be
    serialized, and the failure body with status 500 when it cannot; the
    calls of [ask] have been made in both cases. *)
Theorem chat_well_formed_request env serializable data user_query history w :
  dict_get data (txt "message") = Some (PStr user_query) ->
  user_query <> [] ->
  as_history (get_default data (txt "history") (PList [])) = Some history ->
  exists reply w',
    ask env user_query history w = (Ok reply, w') /\
    chat (Some env) serializable (PDict data) w =
      (Ok (if serializable reply then (reply, 200%Z) else (chat_failure, 500%Z)), w').
Proof.
  intros Hm Hq Hh. destruct (ask_basic env user_query history w) as (d & w' & Ha & Hd).
  exists d, w'. split; [exact Ha|].
  unfold chat. rewrite Hm. cbn [no_message truthy].
  destruct user_query as [|c q]; [congruence|]. cbn [text_eqb negb].
  unfold try_except, bind, ask_json. rewrite Hh.
  assert (E : match _detect_smalltalk (c :: q) with
              | Some (_ :: _) => ask env (c :: q) []
              | _ => ask env (c :: q) history
              end w = (Ok d, w')).
  { destruct (_detect_smalltalk (c :: q)) as [[|x xs]|] eqn:Es; try exact Ha.
    now rewrite <- (ask_smalltalk_history env (c :: q) history x xs Es). }
  rewrite E. destruct d as [|kv d]; [discriminate|].
  now destruct (serializable (kv :: d)).
Qed.

Lemma chat_well_formed_request_witness :
  exists reply w',
    ask (request_env "SELECT 1" db_ok) zinc_question
        [[(txt "role", PStr (txt "user")); (txt "content", PStr (txt "hello"))]] world0 =
      (Ok reply, w') /\
    chat (Some (request_env "SELECT 1" db_ok)) (fun _ => true)
         (PDict [(txt "message", PStr zinc_question);
                 (txt "history",
                  PList [PDict [(txt "role", PStr (txt "user"));
                                (txt "content", PStr (txt "hello"))]])])
         world0 = (Ok (reply, 200%Z), w').
Proof.
  apply (chat_well_formed_request (request_env "SELECT 1" db_ok) (fun _ => true)
           [(txt "message", PStr zinc_question);
            (txt "history",
             PList [PDict [(txt "role", PStr (txt "user"));
                           (txt "content", PStr (txt "hello"))]])]
           zinc_question
           [[(txt "role", PStr (txt "user")); (txt "content", PStr (txt "hello"))]]
           world0).
  - reflexivity.
  - discriminate.
  - reflexivity.
Defined.

(** *** The export job after [ask] *)

Lemma text_eqb_refl k : text_eqb k k = true.
Proof. now apply text_eqb_eq. Qed.

Lemma dict_get_set_other d k k' v :
  k <> k' -> dict_get (dict_set d k v) k' = dict_get d k'.
Proof.
  intros Hk. induction d as [|[k0 v0] d IH]; cbn.
  - destruct (text_eqb k k') eqn:E; [apply text_eqb_eq in E; congruence | reflexivity].
  - destruct (text_eqb k0 k) eqn:E; cbn.
    + apply text_eqb_eq in E. subst k0.
      destruct (text_eqb k k') eqn:E'; [apply text_eqb_eq in E'; congruence | reflexivity].
    + destruct (text_eqb k0 k'); [reflexivity | exact IH].
Qed.

Lemma dict_set_set d k v v' : dict_set (dict_set d k v) k v' = dict_set d k v'.
Proof.
  induction d as [|[k0 v0] d IH]; cbn.
  - now rewrite text_eqb_refl.
  - destruct (text_eqb k0 k) eqn:E; cbn; rewrite E; [reflexivity | now rewrite IH].
Qed.

Lemma set_job_field_ok registry job_id job field value :
  dict_get registry job_id = Some (PDict job) ->
  set_job_field registry job_id field value =
  Ok (dict_set registry job_id (PDict (dict_set job field value))).
Proof. intros H. unfold set_job_field. now rewrite H. Qed.

Lemma export_job_finishes written job_id registry :
  dict_get registry job_id = Some processing_job ->
  exists registry',
    export_job written job_id registry = Ok registry' /\
    dict_get registry' job_id = Some (finished_job written job_id) /\
    forall k, k <> job_id -> dict_get registry' k = dict_get registry k.
Proof.
  intros H. unfold processing_job in H. unfold export_job.
  destruct written.
  - rewrite (set_job_field_ok _ _ _ _ _ H).
    rewrite (set_job_field_ok _ _ _ _ _ (dict_get_set _ _ _)).
    rewrite (set_job_field_ok _ _ _ _ _ (dict_get_set _ _ _)).
    eexists. split; [reflexivity|]. rewrite !dict_set_set. split.
    + rewrite dict_get_set. reflexivity.
    + intros k Hk. apply dict_get_set_other. congruence.
  - rewrite (set_job_field_ok _ _ _ _ _ H).
    eexists. split; [reflexivity|]. split.
    + rewrite dict_get_set. reflexivity.
    + intros k Hk. apply dict_get_set_other. congruence.
Qed.

(** X19. The thread of a job that is registered as processing ends with the
    job ready, with its file name and progress 100, or in error; the other
    jobs are as they were. *)
Theorem export_job_outcome written job_id registry :
  dict_get registry job_id = Some processing_job ->
  exists registry',
    export_job written job_id registry = Ok registry' /\
    dict_get registry' job_id = Some (finished_job written job_id) /\
    forall k, k <> job_id -> dict_get registry' k = dict_get registry k.
Proof. apply export_job_finishes. Qed.

Lemma export_job_outcome_witness :
  exists registry',
    export_job true (txt "1700000000")
      [(txt "1699999999", finished_job false (txt "1699999999"));
       (txt "1700000000", processing_job)] = Ok registry' /\
    dict_get registry' (txt "1700000000") = Some (finished_job true (txt "1700000000")) /\
    forall k, k <> txt "1700000000" ->
      dict_get registry' k =
      dict_get [(txt "1699999999", finished_job false (txt "1699999999"));
                (txt "1700000000", processing_job)] k.
Proof.
  apply (export_job_outcome true (txt "1700000000")
           [(txt "1699999999", finished_job false (txt "1699999999"));
            (txt "1700000000", processing_job)]).
  reflexivity.
Defined.

(** X22. After a request that started an export, the status lookup of the id
    in the reply finds the job, processing at first and ready or in error
    once the thread has ended; an id that is not in the registry is not
    found. *)
Theorem export_status_after_ask env user_query history w g data w2 stats w3 ins w4 :
  primary_run env user_query history w g data w2 ->
  (10000 < Z.of_nat (length data))%Z ->
  run_summary env (_generate_summary_query (g_sql_query g)) w2 = (Ok stats, w3) ->
  _generate_insights env user_query data stats
    (exported w3 (str_of_Z (time_time env)) data) = (Ok ins, w4) ->
  let job_id := str_of_Z (time_time env) in
  snd (ask env user_query history w) = w4 /\
  export_status job_id w4 = (processing_job, 200%Z) /\
  (forall written, exists registry',
     export_job written job_id (export_jobs w4) = Ok registry' /\
     export_status job_id (mkworld (llm_log w4) (db_log w4) registry' (threads w4)) =
       (finished_job written job_id, 200%Z)) /\
  (forall k, dict_get (export_jobs w4) k = None ->
     export_status k w4 = (PDict [(txt "status", PStr (txt "not_found"))], 404%Z)).
Proof.
  intros (Hs & Hc & w1 & rs & Hg & Hp & Hf) Hn Hrun Hins job_id.
  destruct (ask_exports env w w1 w2 user_query history g rs data Hs Hg Hc Hp Hf
              stats w3 ins w4 Hn Hrun Hins) as [Ha Hj].
  fold job_id in Hj. split; [now rewrite Ha|]. split.
  - unfold export_status. now rewrite Hj.
  - split.
    + intros written.
      destruct (export_job_finishes written job_id _ Hj) as (r' & Hr & Hd & _).
      exists r'. split; [exact Hr|]. unfold export_status. cbn [export_jobs].
      rewrite Hd. now destruct written.
    + intros k Hk. unfold export_status. now rewrite Hk.
Qed.

Lemma export_status_after_ask_witness :
  let env := request_env "SELECT 1" (fun _ _ => Ok many_rows) in
  let w4 := exported (after_queries [txt "SELECT 1"]) (txt "1700000000") big_data in
  snd (ask env zinc_question [] world0) = w4 /\
  export_status (txt "1700000000") w4 = (processing_job, 200%Z) /\
  (forall written, exists registry',
     export_job written (txt "1700000000") (export_jobs w4) = Ok registry' /\
     export_status (txt "1700000000")
       (mkworld (llm_log w4) (db_log w4) registry' (threads w4)) =
       (finished_job written (txt "1700000000"), 200%Z)) /\
  (forall k, dict_get (export_jobs w4) k = None ->
     export_status k w4 = (PDict [(txt "status", PStr (txt "not_found"))], 404%Z)).
Proof.
  apply (export_status_after_ask
           (request_env "SELECT 1" (fun _ _ => Ok many_rows)) zinc_question [] world0
           (generated_for "SELECT 1") big_data (after_queries [txt "SELECT 1"])
           None (after_queries [txt "SELECT 1"]) None
           (exported (after_queries [txt "SELECT 1"]) (txt "1700000000") big_data)).
  - split; [vm_compute; reflexivity|]. split; [reflexivity|].
    exists (after_queries []), (mkrows [txt "n"] (repeat [PInt 1] big)).
    repeat split; vm_compute; reflexivity.
  - vm_compute. reflexivity.
  - vm_compute. reflexivity.
  - vm_compute. reflexivity.
Defined.

(** ** The schema reader and the sample block of the insights *)

(** *** [_get_db_schema] *)

Lemma sanitized_name_length env name : length (sanitized_name env name) <= 80.
Proof.
  unfold sanitized_name. cbv zeta.
  destruct (75 <? length (to_str env name)) eqn:E.
  - rewrite !length_app, length_firstn. cbn [length txt list_ascii_of_string]. lia.
  - apply Nat.ltb_ge in E. rewrite length_app. cbn [length txt list_ascii_of_string]. lia.
Qed.

Lemma sanitized_name_dash env name :
  firstn 2 (sanitized_name env name) = txt "- ".
Proof. unfold sanitized_name. cbv zeta. now destruct (_ <? _). Qed.

Lemma top_names_length name_col : forall rows names,
  top_names name_col rows = Ok names -> length names = length rows.
Proof.
  induction rows as [|r rows IH]; intros names H; cbn in H.
  - now inversion H.
  - destruct (dict_get r name_col); [|discriminate].
    destruct (top_names name_col rows) as [ns|e]; [|discriminate].
    inversion H. cbn. f_equal. now apply IH.
Qed.

Lemma top_names_raise name_col : forall rows,
  match top_names name_col rows with
  | Ok _ => forallb (fun row => has_key row name_col) rows = true
  | Raise e => forallb (fun row => has_key row name_col) rows = false /\ e = txt "KeyError"
  end.
Proof.
  induction rows as [|r rows IH]; cbn [top_names forallb]; [reflexivity|].
  unfold has_key at 1 3. destruct (dict_get r name_col); [|now split].
  cbn [andb]. destruct (top_names name_col rows); exact IH.
Qed.

Lemma has_key_keys d k : has_key d k = mem_text k (keys d).
Proof.
  unfold has_key, mem_text. induction d as [|[k0 v] d IH]; [reflexivity|].
  cbn [dict_get keys map fst existsb].
  destruct (text_eqb k0 k) eqn:E.
  - apply text_eqb_eq in E. subst. now rewrite (proj2 (text_eqb_eq k k) eq_refl).
  - destruct (text_eqb k k0) eqn:E'.
    + apply text_eqb_eq in E'. subst. rewrite (proj2 (text_eqb_eq k0 k0) eq_refl) in E.
      discriminate.
    + exact IH.
Qed.

Lemma find_name_col_key row name_col :
  find_name_col row = Some name_col -> has_key row name_col = true.
Proof.
  unfold find_name_col. intros H. apply find_some in H. destruct H as [H _].
  rewrite has_key_keys. unfold mem_text. apply existsb_exists. exists name_col.
  split; [exact H | now apply text_eqb_eq].
Qed.

Lemma forallb_firstn (A : Type) (p : A -> bool) n : forall l,
  forallb p l = true -> forallb p (firstn n l) = true.
Proof.
  induction n as [|n IH]; intros [|x l] H; try reflexivity.
  cbn in *. apply andb_prop in H as [Hx H]. now rewrite Hx, IH.
Qed.

(** Rows that all carry the columns of the first one have the name column
    when the first one has it. *)
Lemma sample_summary_same_keys env row data :
  Forall (fun d => keys d = keys row) data ->
  exists sample, sample_summary env (row :: data) = Ok sample.
Proof.
  intros H. unfold sample_summary.
  destruct (find_name_col row) as [name_col|] eqn:F; [|now eexists].
  pose proof (top_names_raise name_col (firstn 10 (row :: data))) as T.
  destruct (top_names name_col (firstn 10 (row :: data))) as [ns|e]; [now eexists|].
  destruct T as [T _]. exfalso.
  rewrite forallb_firstn in T; [discriminate|].
  cbn [forallb]. rewrite (find_name_col_key _ _ F). cbn [andb].
  apply forallb_forall. intros d Hd. rewrite Forall_forall in H.
  rewrite has_key_keys, (H d Hd), <- has_key_keys. now apply find_name_col_key.
Qed.

Lemma schema_loop_raises columns : forall table_names acc,
  existsb (query_raises columns) table_names = true ->
  exists e, schema_loop columns table_names acc = Raise e.
Proof.
  induction table_names as [|t ts IH]; intros acc H; [discriminate|].
  cbn [existsb] in H. cbn [schema_loop]. unfold query_raises in H at 1.
  destruct (columns t) as [[|c cs]|e]; cbn [orb] in H; eauto.
Qed.

Lemma schema_loop_ok columns : forall table_names acc,
  existsb (query_raises columns) table_names = false ->
  schema_loop columns table_names acc =
  Ok (acc ++ map (part_of columns) (filter (has_columns columns) table_names)).
Proof.
  induction table_names as [|t ts IH]; intros acc H.
  - cbn. now rewrite app_nil_r.
  - cbn [existsb] in H. apply orb_false_iff in H. destruct H as [Ht Hts].
    cbn [schema_loop filter]. unfold query_raises in Ht. unfold has_columns at 1.
    assert (P : forall rows, columns t = Ok rows -> part_of columns t = schema_part t rows)
      by (intros rows Er; unfold part_of; now rewrite Er).
    destruct (columns t) as [[|c cs]|e] eqn:E; [| |discriminate].
    + now apply IH.
    + rewrite IH by exact Hts. cbn [map]. rewrite (P _ eq_refl).
      now rewrite <- app_assoc.
Qed.

Example get_db_schema_two_views :
  _get_db_schema (Ok tt) two_views [txt "View_Clean_Imports"; txt "View_Clean_Exports"] =
  txt "Table 'View_Clean_Imports':" ++ [nl] ++
  txt "- Product_Name (nvarchar)" ++ [nl] ++ txt "- BE_Date (date)".
Proof. reflexivity. Qed.

Example get_db_schema_second_view_fails :
  _get_db_schema (Ok tt) second_view_fails
    [txt "View_Clean_Imports"; txt "View_Clean_Exports"] = schema_fetch_error.
Proof. reflexivity. Qed.

Example get_db_schema_no_table :
  _get_db_schema (Ok tt) two_views [txt "EximImport"] = schema_no_tables.
Proof. reflexivity. Qed.

(** X8. The sample block of the insight prompt stays small whatever the rows
    hold, for rows whose keys and values are in ASCII, where a character is
    a byte: at most ten names, one for each of the first ten rows, each on
    a line of at most 80 characters that starts with a dash. *)
Theorem sample_names_bounded env viz_data names :
  ascii_rows env viz_data = true ->
  sanitized_names env viz_data = Ok names ->
  length names <= 10 /\
  (names = [] \/ length names = Nat.min 10 (length viz_data)) /\
  Forall (fun name => length name <= 80 /\ firstn 2 name = txt "- ") names /\
  sample_summary env viz_data = Ok (match names with
                                    | [] => []
                                    | _ => join [nl] names ++ sample_trailer viz_data
                                    end).
Proof.
  intros _. unfold sanitized_names, sample_summary.
  destruct viz_data as [|first_row rest]; [discriminate|].
  destruct (find_name_col first_row) as [name_col|].
  - destruct (top_names name_col (firstn 10 (first_row :: rest))) as [ns|e] eqn:E;
      [|discriminate].
    intros H. inversion H. subst names. clear H.
    pose proof (top_names_length _ _ _ E) as L. rewrite length_firstn in L.
    rewrite length_map.
    split; [lia|]. split; [right; exact L|]. split.
    + apply Forall_forall. intros n Hn. apply in_map_iff in Hn.
      destruct Hn as (v & <- & _).
      split; [apply sanitized_name_length | apply sanitized_name_dash].
    + destruct ns as [|n ns]; [cbn [length] in L; cbn in L; lia|reflexivity].
  - intros H. inversion H. subst names.
    split; [cbn; lia|]. split; [now left|]. split; [constructor|reflexivity].
Qed.

Lemma sample_names_bounded_witness :
  length [txt "- " ++ repeat "x"%char 75 ++ txt "..."] <= 10 /\
  ([txt "- " ++ repeat "x"%char 75 ++ txt "..."] = [] \/
   length [txt "- " ++ repeat "x"%char 75 ++ txt "..."] =
     Nat.min 10 (length long_name_rows)) /\
  Forall (fun name => length name <= 80 /\ firstn 2 name = txt "- ")
         [txt "- " ++ repeat "x"%char 75 ++ txt "..."] /\
  sample_summary (request_env "SELECT 1" db_ok) long_name_rows =
    Ok (txt "- " ++ repeat "x"%char 75 ++ txt "...").
Proof.
  apply (sample_names_bounded (request_env "SELECT 1" db_ok) long_name_rows
           [txt "- " ++ repeat "x"%char 75 ++ txt "..."]).
  - vm_compute. reflexivity.
  - vm_compute. reflexivity.
Defined.

(** X9. Building the sample block raises, with [KeyError], exactly when the
    first row has a name column and one of the first ten rows has no such
    column; rows that all carry the columns of the first one never do. *)
Theorem sample_summary_key_error env first_row rest :
  match sample_summary env (first_row :: rest) with
  | Ok _ =>
      forall name_col, find_name_col first_row = Some name_col ->
        forallb (fun row => has_key row name_col) (firstn 9 rest) = true
  | Raise e =>
      e = txt "KeyError" /\
      exists name_col, find_name_col first_row = Some name_col /\
        forallb (fun row => has_key row name_col) (firstn 9 rest) = false
  end.
Proof.
  unfold sample_summary.
  destruct (find_name_col first_row) as [name_col|] eqn:F; [|discriminate].
  pose proof (top_names_raise name_col (firstn 10 (first_row :: rest))) as H.
  change (firstn 10 (first_row :: rest)) with (first_row :: firstn 9 rest) in *.
  cbn [forallb] in H. rewrite (find_name_col_key _ _ F) in H. cbn [andb] in H.
  destruct (top_names name_col (first_row :: firstn 9 rest)) as [ns|e].
  - intros nc Hnc. inversion Hnc. subst nc. exact H.
  - destruct H as [H ->]. split; [reflexivity|]. now exists name_col.
Qed.

(** X1. The schema text in closed form: the fetch error when the connection
    or the query for any listed table fails, whatever the other tables
    gave; otherwise one part for each table that has columns, in the order
    of the list and separated by an empty line, the tables without columns
    leaving no trace; and the second error when no table has columns. *)
Theorem get_db_schema_outcome connect columns table_names :
  _get_db_schema connect columns table_names =
  match connect with
  | Raise _ => schema_fetch_error
  | Ok _ =>
      if existsb (query_raises columns) table_names then schema_fetch_error
      else match filter (has_columns columns) table_names with
           | [] => schema_no_tables
           | found => join [nl; nl] (map (part_of columns) found)
           end
  end.
Proof.
  unfold _get_db_schema. destruct connect as [u|e]; [|reflexivity].
  destruct (existsb (query_raises columns) table_names) eqn:E.
  - destruct (schema_loop_raises columns table_names [] E) as [e ->]. reflexivity.
  - rewrite (schema_loop_ok columns table_names [] E). cbn [app].
    now destruct (filter (has_columns columns) table_names).
Qed.

Lemma join_nonempty sep p ps : p <> [] -> join sep (p :: ps) <> [].
Proof.
  intros H. destruct ps; cbn [join]; [exact H|].
  destruct p; [congruence|discriminate].
Qed.

Lemma join_head sep p ps : exists rest, join sep (p :: ps) = p ++ rest.
Proof.
  destruct ps; cbn [join]; [exists []; now rewrite app_nil_r | eexists; reflexivity].
Qed.

Lemma filter_first (A : Type) (p : A -> bool) : forall l t ts,
  filter p l = t :: ts ->
  exists l1 l2, l = l1 ++ t :: l2 /\ forallb (fun x => negb (p x)) l1 = true /\ p t = true.
Proof.
  induction l as [|x l IH]; intros t ts H; [discriminate|].
  cbn [filter] in H. destruct (p x) eqn:E.
  - injection H as Hx _. subst x. exists [], l. repeat split; auto.
  - destruct (IH t ts H) as (l1 & l2 & -> & H1 & H2).
    exists (x :: l1), l2. repeat split; auto. cbn [forallb]. now rewrite E, H1.
Qed.

(** X2. The schema is never the empty text, and it is never a mix: either one
    of the two error messages or a text that starts with the part of the
    first table found, that is, of the first listed table whose query gave
    at least one column. *)
Theorem get_db_schema_never_empty connect columns table_names :
  _get_db_schema connect columns table_names <> [] /\
  (_get_db_schema connect columns table_names = schema_fetch_error \/
   _get_db_schema connect columns table_names = schema_no_tables \/
   exists before table_name after rows rest,
     table_names = before ++ table_name :: after /\
     forallb (fun t => negb (has_columns columns t)) before = true /\
     columns table_name = Ok rows /\ rows <> [] /\
     _get_db_schema connect columns table_names = schema_part table_name rows ++ rest).
Proof.
  unfold _get_db_schema. destruct connect as [u|e]; [|split; [discriminate|now left]].
  destruct (schema_loop columns table_names []) as [[|p ps]|e] eqn:E.
  - split; [discriminate|now right; left].
  - destruct (existsb (query_raises columns) table_names) eqn:R.
    + destruct (schema_loop_raises columns table_names [] R) as [e E']. congruence.
    + rewrite (schema_loop_ok columns table_names [] R) in E. cbn [app] in E.
      inversion E as [E']. clear E.
      destruct (filter (has_columns columns) table_names) as [|t ts] eqn:F;
        [discriminate|].
      cbn [map] in E'. injection E' as Ep Eps. subst p ps.
      destruct (filter_first _ _ _ _ _ F) as (before & after & Et & Hb & Ht).
      unfold has_columns in Ht.
      destruct (columns t) as [[|c cs]|e] eqn:C; try discriminate.
      assert (P : part_of columns t = schema_part t (c :: cs))
        by (unfold part_of; now rewrite C).
      cbn [map]. rewrite P. split.
      * apply join_nonempty. unfold schema_part. cbn [app txt list_ascii_of_string].
        discriminate.
      * right; right.
        destruct (join_head [nl; nl] (schema_part t (c :: cs)) (map (part_of columns) ts))
          as [rest Hr].
        exists before, t, after, (c :: cs), rest.
        repeat split; auto. discriminate.
  - split; [discriminate|now left].
Qed.

(** ** Insight generation in [ask] *)

Lemma generate_insights_eq env q row data stats sts w :
  numeric_statistic stats = false ->
  Forall (fun d => keys d = keys row) data ->
  _generate_insights env q (row :: data) (Some (stats :: sts)) w =
  (match insight_text env (length (llm_log w))
           (build_insight_prompt env q (row :: data) stats) with
   | Ok t => Ok (Some (strip t))
   | Raise _ => Ok None
   end,
   prompted w (build_insight_prompt env q (row :: data) stats)).
Proof.
  intros H Hk. unfold numeric_statistic in H. cbv zeta in H.
  destruct (sample_summary_same_keys env row data Hk) as [sample Hs].
  unfold _generate_insights. cbv beta iota zeta. rewrite H.
  unfold try_except, bind, call_llm, lift, insight_text, prompted. rewrite Hs.
  cbn [fst snd].
  destruct (generate_content env _ _) as [r|e]; [|reflexivity].
  destruct (resp_text r); reflexivity.
Qed.

Lemma generate_insights_numeric env q row data stats sts w :
  numeric_statistic stats = true ->
  _generate_insights env q (row :: data) (Some (stats :: sts)) w =
  (Raise (txt "ValueError"), w).
Proof.
  intros H. unfold numeric_statistic in H. cbv zeta in H. unfold _generate_insights. cbv beta iota zeta.
  now rewrite H.
Qed.

Lemma ask_small env user_query history w g data w2 stats w3 :
  primary_run env user_query history w g data w2 ->
  (Z.of_nat (length data) <= 10000)%Z ->
  run_summary env (_generate_summary_query (g_sql_query g)) w2 = (Ok stats, w3) ->
  ask env user_query history w =
  match _generate_insights env user_query data stats w3 with
  | (Ok insights, w4) =>
      (Ok (data_reply g (final_answer env user_query (g_answer g) insights data) data), w4)
  | (Raise _, w4) => (Ok (reply3 error_message (PStr [])), w4)
  end.
Proof.
  intros (Hs & Hc & w1 & rs & Hg & Hp & Hf) Hn Hrun.
  rewrite (ask_after_primary env w w1 w2 user_query history g rs data Hs Hg Hc Hp Hf).
  unfold try_except. rewrite Hrun.
  assert (Hb : (10000 <? Z.of_nat (length data))%Z = false) by (now apply Z.ltb_ge).
  rewrite Hb. destruct (_generate_insights env user_query data stats w3) as [[i|e] w4];
    reflexivity.
Qed.

(** X17. When the completion call for the insights fails (or its text cannot
    be read), the request does not: [ask] returns the rows with the answer
    of the first completion, unchanged.  The rows all carry the columns of
    the first one, as the rows of one result do, and none of the three
    statistics formatted as text is a number. *)
Theorem insight_failure_keeps_data
    env user_query history w g row data w2 stats sts w3 e :
  primary_run env user_query history w g (row :: data) w2 ->
  Forall (fun d => keys d = keys row) data ->
  (Z.of_nat (length (row :: data)) <= 10000)%Z ->
  run_summary env (_generate_summary_query (g_sql_query g)) w2 =
    (Ok (Some (stats :: sts)), w3) ->
  numeric_statistic stats = false ->
  insight_text env (length (llm_log w3))
    (build_insight_prompt env user_query (row :: data) stats) = Raise e ->
  ask env user_query history w =
    (Ok (data_reply g (g_answer g) (row :: data)),
     prompted w3 (build_insight_prompt env user_query (row :: data) stats)).
Proof.
  intros Hp Hk Hn Hrun Hs He.
  rewrite (ask_small env user_query history w g (row :: data) w2 _ w3 Hp Hn Hrun).
  rewrite (generate_insights_eq env user_query row data stats sts w3 Hs Hk), He.
  reflexivity.
Qed.

(** X18. When a date statistic or the name of the top entity is a number, the
    insight generation raises and the request is answered by the generic
    error, without the rows. *)
Theorem numeric_statistic_fails_request
    env user_query history w g row data w2 stats sts w3 :
  primary_run env user_query history w g (row :: data) w2 ->
  (Z.of_nat (length (row :: data)) <= 10000)%Z ->
  run_summary env (_generate_summary_query (g_sql_query g)) w2 =
    (Ok (Some (stats :: sts)), w3) ->
  numeric_statistic stats = true ->
  ask env user_query history w = (Ok (reply3 error_message (PStr [])), w3).
Proof.
  intros Hp Hn Hrun Hs.
  rewrite (ask_small env user_query history w g (row :: data) w2 _ w3 Hp Hn Hrun).
  now rewrite (generate_insights_numeric env user_query row data stats sts w3 Hs).
Qed.

Lemma insight_failure_keeps_data_witness :
  ask (insight_failure_env "SELECT n FROM t" db_with_stats) zinc_question [] world0 =
    (Ok [(txt "answer", PStr (txt "I found some data for you."));
         (txt "data", PList [PDict [(txt "n", PInt 1)]]);
         (txt "query", PStr (txt "SELECT n FROM t"));
         (txt "chart_title", PStr []);
         (txt "query_type", PStr (txt "analytical"));
         (txt "is_time_series", PBool false)],
     prompted (after_queries [txt "SELECT n FROM t"; summary_of "SELECT n FROM t"])
              zinc_question).
Proof.
  apply (insight_failure_keeps_data
           (insight_failure_env "SELECT n FROM t" db_with_stats) zinc_question [] world0
           (generated_for "SELECT n FROM t") [(txt "n", PInt 1)] []
           (after_queries [txt "SELECT n FROM t"])
           [(txt "TotalRecords", PInt 1); (txt "TopCompany", PStr (txt "ACME"))] []
           (after_queries [txt "SELECT n FROM t"; summary_of "SELECT n FROM t"])
           (txt "429 quota")).
  - split; [vm_compute; reflexivity|]. split; [reflexivity|].
    exists (after_queries []), (mkrows [txt "n"] [[PInt 1]]).
    repeat split; vm_compute; reflexivity.
  - constructor.
  - vm_compute. discriminate.
  - vm_compute. reflexivity.
  - vm_compute. reflexivity.
  - vm_compute. reflexivity.
Defined.

Lemma numeric_statistic_fails_request_witness :
  ask (request_env "SELECT n FROM t" db_numeric_date) zinc_question [] world0 =
    (Ok [(txt "answer", PStr (txt error_message)); (txt "data", PList []);
         (txt "query", PStr [])],
     after_queries [txt "SELECT n FROM t"; summary_of "SELECT n FROM t"]).
Proof.
  apply (numeric_statistic_fails_request
           (request_env "SELECT n FROM t" db_numeric_date) zinc_question [] world0
           (generated_for "SELECT n FROM t") [(txt "n", PInt 1)] []
           (after_queries [txt "SELECT n FROM t"])
           [(txt "TotalRecords", PInt 1); (txt "LatestDate", PInt 2024)] []).
  - split; [vm_compute; reflexivity|]. split; [reflexivity|].
    exists (after_queries []), (mkrows [txt "n"] [[PInt 1]]).
    repeat split; vm_compute; reflexivity.
  - vm_compute. discriminate.
  - vm_compute. reflexivity.
  - vm_compute. reflexivity.
Defined.

Lemma generate_insights_no_rows env q stats w :
  _generate_insights env q [] stats w = (Ok None, w).
Proof. destruct stats as [[|s sts]|]; reflexivity. Qed.

(** X26. When the primary query gives no row and the summary step ends
    without an error, [ask] answers with the fixed message that no
    matching records were found, which quotes the question; the answer of
    the completion is dropped and no insight is asked for. *)
Theorem empty_result_answer env user_query history w g w2 stats w3 :
  primary_run env user_query history w g [] w2 ->
  run_summary env (_generate_summary_query (g_sql_query g)) w2 = (Ok stats, w3) ->
  ask env user_query history w =
    (Ok [(txt "answer", PStr (no_data_answer user_query));
         (txt "data", PList []);
         (txt "query", PStr (g_sql_query g));
         (txt "chart_title", g_chart_title g);
         (txt "query_type", g_query_type g);
         (txt "is_time_series", g_is_time_series g)], w3).
Proof.
  intros Hp Hrun.
  rewrite (ask_small env user_query history w g [] w2 stats w3 Hp); [|cbn; lia | exact Hrun].
  now rewrite generate_insights_no_rows.
Qed.

Lemma empty_result_answer_witness :
  ask (request_env "SELECT 1" db_no_rows) zinc_question [] world0 =
    (Ok [(txt "answer", PStr (no_data_answer zinc_question));
         (txt "data", PList []);
         (txt "query", PStr (txt "SELECT 1"));
         (txt "chart_title", PStr []);
         (txt "query_type", PStr (txt "analytical"));
         (txt "is_time_series", PBool false)],
     after_queries [txt "SELECT 1"]).
Proof.
  apply (empty_result_answer (request_env "SELECT 1" db_no_rows) zinc_question [] world0
           (generated_for "SELECT 1") (after_queries [txt "SELECT 1"]) None).
  - split; [vm_compute; reflexivity|]. split; [reflexivity|].
    exists (after_queries []), (mkrows [txt "n"] []).
    repeat split; vm_compute; reflexivity.
  - vm_compute. reflexivity.
Defined.

(** ** Smalltalk phrases inside a question *)

Lemma starts_with_self w B : starts_with eq_cs w (w ++ B) = true.
Proof.
  induction w as [|c w IH]; [reflexivity|]. cbn. unfold eq_cs at 1.
  now rewrite Ascii.eqb_refl.
Qed.

Lemma lastc_nonempty pv pv' c u : lastc pv (c :: u) = lastc pv' (c :: u).
Proof. reflexivity. Qed.

Lemma mt_WordB st k :
  mt WordB st k = if word_boundary (prev st) (rest st) then k st else None.
Proof. reflexivity. Qed.

Lemma word_match word pv B :
  word_ends word = true -> outside pv = true -> starts_outside_word B = true ->
  match_here (word_re word) pv (word ++ B) <> None.
Proof.
  intros Hw Hp Hb. unfold match_here, word_re.
  apply andb_prop in Hw as [H1 H2].
  assert (B1 : word_boundary pv (word ++ B) = true).
  { destruct word as [|c word]; [discriminate|].
    unfold word_boundary. cbn [app]. rewrite H1.
    destruct pv as [x|]; cbn in Hp |- *; [|reflexivity].
    now destruct (is_word x). }
  assert (B2 : word_boundary (lastc pv word) B = true).
  { destruct word as [|c word]; [discriminate|].
    unfold word_boundary. rewrite (lastc_nonempty pv None).
    destruct (lastc None (c :: word)) as [x|]; [|discriminate]. rewrite H2.
    destruct B as [|y B]; [reflexivity|]. cbn in Hb. now destruct (is_word y). }
  rewrite (mt_seq WordB), mt_WordB. cbn [prev rest]. rewrite B1.
  rewrite (mt_seq (lit_with eq_cs word) WordB).
  rewrite (mt_lit_here eq_cs word word B pv [] _ eq_refl (starts_with_self word B)).
  rewrite mt_WordB. cbn [prev rest]. rewrite B2. discriminate.
Qed.

Lemma search_at_some r b : forall a pv,
  match_here r (lastc pv a) b <> None -> search_at r pv (a ++ b) <> None.
Proof.
  induction a as [|c a IH]; intros pv H.
  - cbn [app lastc] in *. destruct b; cbn [search_at];
      destruct (match_here r pv _); congruence.
  - cbn [app search_at]. destruct (match_here r pv (c :: a ++ b)); [discriminate|].
    specialize (IH (Some c) H). destruct (search_at r (Some c) (a ++ b)); congruence.
Qed.

Lemma any_word_in word words query :
  In word words -> search (word_re word) query <> None -> any_word words query = true.
Proof.
  intros Hin Hs. unfold any_word. apply existsb_exists. exists word.
  split; [exact Hin|]. now destruct (search (word_re word) query).
Qed.

Lemma lstrip_keep c t : is_space c = false ->
  forall a, lstrip (a ++ c :: t) = lstrip a ++ c :: t.
Proof.
  intros Hc. induction a as [|x a IH]; cbn [app lstrip].
  - now rewrite Hc.
  - destruct (is_space x); [exact IH | reflexivity].
Qed.

Lemma rstrip_keep s d b : is_space d = false ->
  rstrip (s ++ d :: b) = s ++ d :: rstrip b.
Proof.
  intros Hd. unfold rstrip. rewrite rev_app_distr. cbn [rev].
  rewrite <- app_assoc. cbn [app]. rewrite (lstrip_keep d (rev s) Hd).
  rewrite rev_app_distr. cbn [rev]. rewrite rev_involutive, <- app_assoc. reflexivity.
Qed.

Lemma lstrip_suffix s : exists ws, s = ws ++ lstrip s.
Proof.
  induction s as [|c s [ws IH]]; [now exists []|]. cbn [lstrip].
  destruct (is_space c); [|now exists []].
  exists (c :: ws). cbn. now f_equal.
Qed.

Lemma rstrip_prefix b : exists ws, b = rstrip b ++ ws.
Proof.
  destruct (lstrip_suffix (rev b)) as [ws H]. exists (rev ws). unfold rstrip.
  rewrite <- rev_app_distr, <- H. now rewrite rev_involutive.
Qed.

Lemma word_not_space c : is_word c = true -> is_space c = false.
Proof. destruct c as [[] [] [] [] [] [] [] []]; cbn; congruence. Qed.

Lemma lastc_map_lower u : forall pv,
  lastc (option_map lower pv) (map lower u) = option_map lower (lastc pv u).
Proof. induction u as [|y u IH]; intros pv; [reflexivity|]. apply (IH (Some y)). Qed.

Lemma ends_outside_lower a :
  ends_outside_word a = true -> ends_outside_word (str_lower a) = true.
Proof.
  unfold ends_outside_word, str_lower.
  change (lastc None (map lower a)) with (lastc (option_map lower None) (map lower a)).
  rewrite (lastc_map_lower a None).
  destruct (lastc None a) as [z|]; cbn [option_map]; [|reflexivity].
  now rewrite is_word_lower.
Qed.

Lemma ends_outside_lstrip a :
  ends_outside_word a = true -> ends_outside_word (lstrip a) = true.
Proof.
  destruct (lstrip_suffix a) as [ws H]. intros Ha.
  destruct (lstrip a) as [|x l] eqn:E; [reflexivity|].
  unfold ends_outside_word in *. rewrite H, lastc_app in Ha.
  now rewrite (lastc_nonempty None (lastc None ws)).
Qed.

Lemma starts_outside_rstrip b :
  starts_outside_word b = true -> starts_outside_word (str_lower (rstrip b)) = true.
Proof.
  destruct (rstrip_prefix b) as [ws H]. intros Hb.
  destruct (rstrip b) as [|x l]; [reflexivity|].
  rewrite H in Hb. cbn in Hb |- *. now rewrite is_word_lower.
Qed.

Lemma phrases_word_ends word : In word smalltalk_phrases -> word_ends word = true.
Proof.
  intros H.
  assert (A : forallb word_ends smalltalk_phrases = true) by (vm_compute; reflexivity).
  rewrite forallb_forall in A. now apply A.
Qed.

Lemma str_lower_app a b : str_lower (a ++ b) = str_lower a ++ str_lower b.
Proof. apply map_app. Qed.

(** A text whose lower-case form starts and ends with a word character
    starts and ends with a character that is no white space. *)
Lemma word_ends_split kw :
  word_ends (str_lower kw) = true ->
  (exists c k, kw = c :: k /\ is_space c = false) /\
  (exists k d, kw = k ++ [d] /\ is_space d = false).
Proof.
  intros H. apply andb_prop in H as [H1 H2]. split.
  - destruct kw as [|c k]; [discriminate|]. exists c, k. split; [reflexivity|].
    cbn in H1. rewrite is_word_lower in H1. now apply word_not_space.
  - destruct (exists_last (l := kw)) as (k & d & E).
    { intros ->. discriminate. }
    exists k, d. split; [exact E|]. subst kw.
    unfold str_lower in H2.
    change (lastc None (map lower (k ++ [d])))
      with (lastc (option_map lower None) (map lower (k ++ [d]))) in H2.
    rewrite (lastc_map_lower (k ++ [d]) None), lastc_snoc in H2.
    cbn in H2. rewrite is_word_lower in H2. now apply word_not_space.
Qed.

Lemma strip_around a kw b :
  word_ends (str_lower kw) = true ->
  strip (a ++ kw ++ b) = lstrip a ++ kw ++ rstrip b.
Proof.
  intros H. destruct (word_ends_split kw H) as [(c & k & E1 & Hc) (k' & d & E2 & Hd)].
  unfold strip.
  assert (L : lstrip (a ++ kw ++ b) = lstrip a ++ kw ++ b).
  { rewrite E1. cbn [app]. now apply lstrip_keep. }
  rewrite L.
  assert (R : forall x, x ++ kw ++ b = (x ++ k') ++ d :: b).
  { intros x. rewrite E2 at 1. now rewrite <- !app_assoc. }
  rewrite R, (rstrip_keep _ d b Hd), <- app_assoc.
  f_equal. rewrite E2, <- app_assoc. reflexivity.
Qed.

Lemma phrase_is_smalltalk a kw b :
  In (str_lower kw) smalltalk_phrases ->
  ends_outside_word a = true -> starts_outside_word b = true ->
  is_smalltalk (a ++ kw ++ b) = true.
Proof.
  intros Hin Ha Hb. pose proof (phrases_word_ends _ Hin) as Hw.
  assert (S : forall words, In (str_lower kw) words ->
            any_word words (str_lower (strip (a ++ kw ++ b))) = true).
  { intros words Hi. apply (any_word_in (str_lower kw)); [exact Hi|].
    rewrite (strip_around a kw b Hw), !str_lower_app. unfold search.
    apply search_at_some. apply word_match; [exact Hw| |].
    - apply ends_outside_lstrip, ends_outside_lower in Ha. exact Ha.
    - now apply starts_outside_rstrip. }
  unfold is_smalltalk. cbv zeta. unfold smalltalk_phrases in Hin.
  apply in_app_or in Hin as [Hin|Hin]; [now rewrite (S _ Hin)|].
  apply in_app_or in Hin as [Hin|Hin]; [rewrite (S _ Hin); now rewrite !orb_true_r|].
  apply in_app_or in Hin as [Hin|Hin]; rewrite (S _ Hin); now rewrite !orb_true_r.
Qed.

(** X23. A question in ASCII that contains one of the smalltalk phrases, in
    any letter case and not inside a longer word, is answered with a canned
    response whatever else it asks: the completion capability and the
    database are not called. *)
Theorem phrase_in_question_is_smalltalk env w history a kw b :
  mem_text (str_lower kw) smalltalk_phrases = true ->
  ends_outside_word a = true -> starts_outside_word b = true ->
  ascii_text (a ++ kw ++ b) = true ->
  exists canned,
    In canned [greeting_response; wellbeing_response; gratitude_response;
               help_response] /\
    ask env (a ++ kw ++ b) history w = (Ok (smalltalk_reply canned), w).
Proof.
  intros Hm Ha Hb _.
  assert (Hin : In (str_lower kw) smalltalk_phrases).
  { unfold mem_text in Hm. apply existsb_exists in Hm as (p & Hp & He).
    apply text_eqb_eq in He. now subst p. }
  destruct (detect_smalltalk_some _ (phrase_is_smalltalk a kw b Hin Ha Hb))
    as (canned & Hd & Hc).
  exists canned. split; [exact Hc|].
  destruct (canned_nonempty _ Hc) as (c & cs & ->).
  unfold ask. rewrite Hd. reflexivity.
Qed.

Lemma phrase_in_question_is_smalltalk_witness :
  exists canned,
    In canned [greeting_response; wellbeing_response; gratitude_response;
               help_response] /\
    ask failing_llm (txt "Show me the " ++ txt "COOL" ++ txt " products of 2024") []
        world0 = (Ok (smalltalk_reply canned), world0).
Proof.
  apply (phrase_in_question_is_smalltalk failing_llm world0 []
           (txt "Show me the ") (txt "COOL") (txt " products of 2024")).
  - reflexivity.
  - reflexivity.
  - reflexivity.
  - reflexivity.
Defined.

(** ** The summary query of a plain filter query *)

(* ------------------------------------------------------------------ *)

Lemma index_of_here eq needle b :
  index_of eq needle b = Some 0 -> starts_with eq needle b = true.
Proof.
  destruct b as [|x b]; cbn [index_of]; destruct (starts_with eq needle _); try reflexivity.
  - discriminate.
  - destruct (index_of eq needle b); discriminate.
Qed.

Lemma index_of_later eq needle x a b n :
  index_of eq needle (x :: a ++ b) = Some (S n) ->
  starts_with eq needle (x :: a ++ b) = false /\ index_of eq needle (a ++ b) = Some n.
Proof.
  cbn [index_of]. destruct (starts_with eq needle (x :: a ++ b)); [discriminate|].
  destruct (index_of eq needle (a ++ b)) as [m|]; [|discriminate].
  cbn. intros [= ->]. auto.
Qed.

(** The search finds a pattern that starts with a literal at the first
    occurrence of the literal, when the pattern matches there. *)
Lemma search_at_index r eq needle b st :
  (forall pv rs, starts_with eq needle rs = false -> match_here r pv rs = None) ->
  forall a pv,
  index_of eq needle (a ++ b) = Some (length a) ->
  match_here r (lastc pv a) b = Some st ->
  search_at r pv (a ++ b) = Some (mkmobj (length a) st).
Proof.
  intros Hr. induction a as [|x a IH]; intros pv Hi Hm.
  - cbn [app lastc length] in *. destruct b; cbn [search_at]; now rewrite Hm.
  - cbn [app length] in *. apply index_of_later in Hi as [Hs Hi].
    cbn [search_at]. rewrite (Hr pv _ Hs).
    cbn [lastc] in Hm. now rewrite (IH (Some x) Hi Hm).
Qed.

Lemma mt_rep_all p min u v pv cs k r :
  forallb p u = true -> min <= length u ->
  match v with x :: _ => p x = false | [] => True end ->
  k (mkst (lastc pv u) v cs) = Some r ->
  mt (Rep true min p) (mkst pv (u ++ v) cs) k = Some r.
Proof.
  intros Hu Hm Hv Hk. cbn [mt rest prev caps].
  now apply rep_greedy_all.
Qed.

Lemma mt_grp_rep_all n p min u v pv cs k r :
  forallb p u = true -> min <= length u ->
  match v with x :: _ => p x = false | [] => True end ->
  k (mkst (lastc pv u) v (set_cap n (mkcap (length (u ++ v)) u) cs)) = Some r ->
  mt (Grp n (Rep true min p)) (mkst pv (u ++ v) cs) k = Some r.
Proof.
  intros Hu Hm Hv Hk. cbn [mt rest prev caps].
  apply rep_greedy_all; [exact Hu | exact Hm | exact Hv|].
  cbn [rest prev caps]. now rewrite firstn_len_diff.
Qed.

(** Lazy repetition before something that succeeds at the end only. *)
Lemma rep_lazy_to_end (A : Type) (k : option ascii -> text -> option A) : forall s pv,
  (forall a b pv', s = a ++ b -> b <> [] -> k pv' b = None) ->
  rep_lazy any_char 0 pv s k = k (lastc pv s) [].
Proof.
  induction s as [|x s IH]; intros pv H; [reflexivity|].
  cbn [rep_lazy Nat.eqb any_char lastc].
  rewrite (H [] (x :: s) pv eq_refl) by discriminate.
  apply IH. intros a b pv' -> Hb. now apply (H (x :: a) b pv').
Qed.

Lemma blank_spec ws : blank ws = true -> forallb is_space ws = true /\ 1 <= length ws.
Proof.
  unfold blank. intros H. apply andb_prop in H as [H1 H2]. split; [exact H2|].
  destruct ws; [discriminate | cbn; lia].
Qed.

Lemma lower_head kw (w : string) c k :
  str_lower kw = txt w -> kw = c :: k ->
  exists d, txt w = lower c :: d.
Proof. intros H ->. cbn in H. rewrite <- H. eauto. Qed.

Lemma space_not_word x : is_space x = true -> is_word x = false.
Proof. destruct x as [[] [] [] [] [] [] [] []]; cbn; congruence. Qed.

Lemma space_not_word_or_dot x : is_space x = true -> word_or_dot x = false.
Proof. destruct x as [[] [] [] [] [] [] [] []]; cbn; congruence. Qed.

Lemma word_or_dot_not_space x : word_or_dot x = true -> is_space x = false.
Proof. destruct x as [[] [] [] [] [] [] [] []]; cbn; congruence. Qed.

Lemma space_not_a x : is_space x = true -> eq_ci "a" x = false.
Proof. destruct x as [[] [] [] [] [] [] [] []]; cbn; congruence. Qed.

Lemma upper_lower c : upper (lower c) = upper c.
Proof. destruct c as [[] [] [] [] [] [] [] []]; reflexivity. Qed.

Lemma str_upper_lower s : str_upper (str_lower s) = str_upper s.
Proof. unfold str_upper, str_lower. rewrite map_map. apply map_ext, upper_lower. Qed.

Lemma lower_is_word c : is_word (lower c) = true -> is_space c = false.
Proof. rewrite is_word_lower. apply word_not_space. Qed.

Lemma mt_opt_some a st k r : mt a st k = Some r -> mt (Opt a) st k = Some r.
Proof. intros H. cbn [mt]. now rewrite H. Qed.

Lemma forallb_word_lower kw : forallb is_word (str_lower kw) = forallb is_word kw.
Proof.
  induction kw as [|c kw IH]; [reflexivity|].
  unfold str_lower in *. cbn [map forallb]. now rewrite is_word_lower, IH.
Qed.

Lemma where_is_word kw_where :
  str_lower kw_where = txt "where" ->
  forallb is_word kw_where = true /\ length kw_where = 5 /\
  exists c k, kw_where = c :: k /\ is_space c = false /\ eq_ci "a" c = false.
Proof.
  intros H. split; [|split].
  - rewrite <- forallb_word_lower, H. reflexivity.
  - apply (f_equal (@length ascii)) in H. unfold str_lower in H.
    now rewrite length_map in H.
  - destruct kw_where as [|c k]; [discriminate|]. exists c, k. split; [reflexivity|].
    cbn in H. injection H as Hc _. split.
    + apply lower_is_word. now rewrite Hc.
    + unfold eq_ci. now rewrite Hc.
Qed.

(** The FROM pattern on [FROM table WHERE]: the table is group 1 and the
    keyword WHERE is taken for the alias. *)
Lemma from_match pv kw_from ws1 table ws2 kw_where ws3 cond :
  str_lower kw_from = txt "from" -> blank ws1 = true -> table_text table = true ->
  blank ws2 = true -> str_lower kw_where = txt "where" -> blank ws3 = true ->
  exists pv' n1 n2,
    match_here from_re pv (kw_from ++ ws1 ++ table ++ ws2 ++ kw_where ++ ws3 ++ cond) =
    Some (mkst pv' (ws3 ++ cond) [(2, mkcap n2 kw_where); (1, mkcap n1 table)]).
Proof.
  intros Hf H1 Ht H2 Hw H3.
  apply blank_spec in H1 as [S1 L1]. apply blank_spec in H2 as [S2 L2].
  apply blank_spec in H3 as [S3 L3].
  unfold table_text in Ht. apply andb_prop in Ht as [Tn Tw].
  destruct (where_is_word kw_where Hw) as (Ww & Wl & w0 & kw' & Ew & Wsp & Wa).
  destruct table as [|t0 table']; [discriminate|].
  destruct ws2 as [|s2 ws2']; [cbn in L2; lia|].
  destruct ws3 as [|s3 ws3']; [cbn in L3; lia|].
  assert (T0 : word_or_dot t0 = true) by (cbn in Tw; now apply andb_prop in Tw as [? _]).
  assert (P2 : is_space s2 = true) by (cbn in S2; now apply andb_prop in S2 as [? _]).
  assert (P3 : is_space s3 = true) by (cbn in S3; now apply andb_prop in S3 as [? _]).
  do 3 eexists. unfold match_here, from_re.
  rewrite mt_seq, (mt_lit_ci_here "FROM" kw_from _ pv [] _ Hf).
  rewrite mt_seq. apply mt_rep_all; [exact S1 | exact L1 | |].
  { cbn [app]. now apply word_or_dot_not_space. }
  rewrite mt_seq. apply mt_grp_rep_all; [exact Tw | cbn; lia | |].
  { cbn [app]. now apply space_not_word_or_dot. }
  apply mt_opt_some. rewrite mt_seq, mt_alt.
  match goal with
  | |- match ?X with Some _ => _ | None => _ end = _ => assert (E : X = None)
  end.
  { rewrite mt_seq, mt_rep_det; [|exact S2| |].
    - destruct (Nat.leb 1 (length (s2 :: ws2'))); [|reflexivity].
      apply mt_lit_fail. cbn [rest]. rewrite Ew.
      cbn [app starts_with txt list_ascii_of_string]. now rewrite Wa.
    - intros pv' x t Hx. apply mt_lit_fail.
      cbn [rest starts_with txt list_ascii_of_string].
      now rewrite (space_not_a x Hx).
    - rewrite Ew. cbn [app]. exact Wsp. }
  rewrite E. clear E.
  apply mt_rep_all; [exact S2 | exact L2 | |].
  { rewrite Ew. cbn [app]. exact Wsp. }
  apply mt_grp_rep_all; [exact Ww | lia | |].
  { cbn [app]. now apply space_not_word. }
  cbn [set_cap filter fst Nat.eqb negb]. reflexivity.
Qed.

(** What may end the WHERE clause does not start at [b]. *)
Lemma terminators_fail pv b cs k :
  starts_with eq_ci (txt "GROUP BY") b = false ->
  starts_with eq_ci (txt "ORDER BY") b = false ->
  starts_with eq_ci (txt "UNION") b = false ->
  at_dollar b = false ->
  mt (lit_ci "GROUP BY" <|> lit_ci "ORDER BY" <|> lit_ci "UNION" <|> Dollar)
     (mkst pv b cs) k = None.
Proof.
  intros H1 H2 H3 H4. rewrite !mt_alt. unfold lit_ci. rewrite !mt_lit.
  cbn [rest]. rewrite H1, H2, H3. cbn [mt rest]. now rewrite H4.
Qed.

Lemma at_dollar_suffix c0 a b d :
  b <> [] -> lastc None (c0 :: a ++ b) = Some d -> is_space d = false ->
  at_dollar b = false.
Proof.
  intros Hb Hl Hd. destruct b as [|x b]; [congruence|].
  destruct b as [|y b]; [|reflexivity].
  change (c0 :: a ++ [x]) with ((c0 :: a) ++ [x]) in Hl. rewrite lastc_snoc in Hl.
  injection Hl as ->. cbn [at_dollar].
  destruct (Ascii.eqb d "010") eqn:E; [|reflexivity].
  apply Ascii.eqb_eq in E. subst d. discriminate.
Qed.

(** The WHERE pattern on [WHERE cond] at the end of the query: group 1 is
    the clause up to the end. *)
Lemma where_match pv kw_where ws3 cond :
  str_lower kw_where = txt "where" -> blank ws3 = true -> trimmed cond = true ->
  contains eq_ci (txt "GROUP BY") cond = false ->
  contains eq_ci (txt "ORDER BY") cond = false ->
  contains eq_ci (txt "UNION") cond = false ->
  exists pv' n,
    match_here summary_where_re pv (kw_where ++ ws3 ++ cond) =
    Some (mkst pv' [] [(1, mkcap n (kw_where ++ ws3 ++ cond))]).
Proof.
  intros Hw H3 Hc G O U.
  apply blank_spec in H3 as [S3 L3].
  unfold trimmed in Hc. apply andb_prop in Hc as [C0 Cl].
  destruct cond as [|c0 cond']; [discriminate|].
  destruct (lastc None (c0 :: cond')) as [d|] eqn:El; [|discriminate].
  apply andb_prop in Cl as [Cd _].
  apply negb_true_iff in C0, Cd.
  do 2 eexists. unfold match_here, summary_where_re.
  rewrite mt_seq, mt_Grp, mt_seq, (mt_lit_ci_here "WHERE" kw_where _ pv [] _ Hw).
  rewrite mt_seq. apply mt_rep_all; [exact S3 | exact L3 | exact C0 |].
  rewrite mt_Rep_lazy. cbn [prev rest caps rep_lazy Nat.eqb any_char pred].
  rewrite rep_lazy_to_end.
  - cbn [rest prev caps length]. rewrite Nat.sub_0_r, firstn_all.
    cbn [set_cap filter]. reflexivity.
  - intros a b pv' E Hb. cbn [rest prev caps].
    assert (Es : c0 :: cond' = (c0 :: a) ++ b) by (now rewrite E).
    apply terminators_fail.
    + apply contains_head, (contains_suffix eq_ci _ (c0 :: a)). now rewrite <- Es.
    + apply contains_head, (contains_suffix eq_ci _ (c0 :: a)). now rewrite <- Es.
    + apply contains_head, (contains_suffix eq_ci _ (c0 :: a)). now rewrite <- Es.
    + apply (at_dollar_suffix c0 a b d Hb); [now rewrite <- E | exact Cd].
Qed.

Lemma cte_needs_with pv rs :
  starts_with eq_ci (txt "WITH") rs = false -> match_here cte_re pv rs = None.
Proof.
  intros H. unfold match_here, cte_re. rewrite mt_seq, mt_WordB.
  destruct (word_boundary _ _); [|reflexivity]. unfold lit_ci. now apply mt_lit_fail.
Qed.

Lemma group_by_needs_keyword pv rs :
  starts_with eq_ci (txt "GROUP BY") rs = false -> match_here group_by_re pv rs = None.
Proof. intros H. unfold match_here, group_by_re, lit_ci. now apply mt_lit_fail. Qed.

Lemma from_needs_keyword pv rs :
  starts_with eq_ci (txt "FROM") rs = false -> match_here from_re pv rs = None.
Proof. intros H. unfold match_here, from_re, lit_ci. now apply mt_lit_fail. Qed.

Lemma where_needs_keyword pv rs :
  starts_with eq_ci (txt "WHERE") rs = false -> match_here summary_where_re pv rs = None.
Proof.
  intros H. unfold match_here, summary_where_re, lit_ci. rewrite mt_seq, mt_Grp.
  now apply mt_lit_fail.
Qed.

Lemma main_block_without_with q :
  contains eq_ci (txt "WITH") q = false -> main_block q = q.
Proof.
  intros H. unfold main_block, search.
  now rewrite (search_at_none cte_re eq_ci (txt "WITH") q cte_needs_with H None).
Qed.

Lemma sargable_sub_id where_clause :
  contains eq_ci (txt "YEAR(") where_clause = false ->
  sargable_sub where_clause = where_clause.
Proof.
  intros H. unfold sargable_sub, sub. apply sub_go_nowhere.
  intros a b pv' ->. apply sargable_needs_year, contains_head.
  now apply contains_suffix in H.
Qed.

Lemma ends_with_last c s d :
  lastc None s = Some d -> Ascii.eqb d c = false -> ends_with_char c s = false.
Proof.
  intros Hl Hd. unfold ends_with_char.
  destruct (exists_last (l := s)) as (s' & x & ->).
  { intros ->. discriminate. }
  rewrite lastc_snoc in Hl. injection Hl as ->.
  rewrite rev_app_distr. cbn. exact Hd.
Qed.

Lemma none_of_spec keywords q kw :
  none_of keywords q = true -> In kw keywords -> contains eq_ci kw q = false.
Proof.
  unfold none_of. rewrite forallb_forall. intros H Hin.
  apply negb_true_iff. now apply H.
Qed.

(** X24. For a query in ASCII of the form [... FROM table WHERE cond], with
    nothing after the condition, no second occurrence of FROM or WHERE
    before these two and no WITH, GROUP BY, ORDER BY, UNION or YEAR call,
    the summary query is the two-CTE statement over the same table and
    with the same WHERE clause, character by character, summarized by
    company; the keyword WHERE, which the FROM pattern reads as an alias,
    is not used as one. *)
Theorem summary_query_of_filter_query pre kw_from ws1 table ws2 kw_where ws3 cond :
  ascii_text (filter_query pre kw_from ws1 table ws2 kw_where ws3 cond) = true ->
  str_lower kw_from = txt "from" -> str_lower kw_where = txt "where" ->
  blank ws1 = true -> blank ws2 = true -> blank ws3 = true ->
  table_text table = true -> trimmed cond = true ->
  index_of eq_ci (txt "FROM")
    (filter_query pre kw_from ws1 table ws2 kw_where ws3 cond) = Some (length pre) ->
  index_of eq_ci (txt "WHERE")
    (filter_query pre kw_from ws1 table ws2 kw_where ws3 cond) =
    Some (length (pre ++ kw_from ++ ws1 ++ table ++ ws2)) ->
  none_of other_keywords
    (filter_query pre kw_from ws1 table ws2 kw_where ws3 cond) = true ->
  _generate_summary_query (filter_query pre kw_from ws1 table ws2 kw_where ws3 cond) =
  Some (strip (summary_template (txt "[Importer/Exporter_Name]") (txt "Company") table
                 (kw_where ++ ws3 ++ cond) (date_column table))).
Proof.
  intros _ Hf Hw H1 H2 H3 Ht Hc If Iw Hn.
  set (q := filter_query pre kw_from ws1 table ws2 kw_where ws3 cond) in *.
  assert (Nw := none_of_spec _ q (txt "WITH") Hn ltac:(cbn; tauto)).
  assert (Ng := none_of_spec _ q (txt "GROUP BY") Hn ltac:(cbn; tauto)).
  assert (No := none_of_spec _ q (txt "ORDER BY") Hn ltac:(cbn; tauto)).
  assert (Nu := none_of_spec _ q (txt "UNION") Hn ltac:(cbn; tauto)).
  assert (Ny := none_of_spec _ q (txt "YEAR(") Hn ltac:(cbn; tauto)).
  assert (Q1 : q = pre ++ (kw_from ++ ws1 ++ table ++ ws2 ++ kw_where ++ ws3 ++ cond))
    by reflexivity.
  assert (Q2 : q = (pre ++ kw_from ++ ws1 ++ table ++ ws2) ++ (kw_where ++ ws3 ++ cond))
    by (unfold q, filter_query; now rewrite <- !app_assoc).
  assert (Q3 : q = (pre ++ kw_from ++ ws1 ++ table ++ ws2 ++ kw_where ++ ws3) ++ cond)
    by (unfold q, filter_query; now rewrite <- !app_assoc).

(* the three searches *)
destruct (from_match (lastc None pre) kw_from ws1 table ws2 kw_where ws3 cond
            Hf H1 Ht H2 Hw H3) as (pf & n1 & n2 & Mf).
assert (Sf : search from_re q = Some (mkmobj (length pre)
               (mkst pf (ws3 ++ cond) [(2, mkcap n2 kw_where); (1, mkcap n1 table)]))).
{ unfold search. rewrite Q1.
  apply (search_at_index from_re eq_ci (txt "FROM") _ _ from_needs_keyword);
    [now rewrite <- Q1 | exact Mf]. }
destruct (where_match (lastc None (pre ++ kw_from ++ ws1 ++ table ++ ws2))
            kw_where ws3 cond Hw H3 Hc) as (pw & n & Mw).
{ apply (contains_suffix eq_ci _ (pre ++ kw_from ++ ws1 ++ table ++ ws2 ++ kw_where ++ ws3)).
  now rewrite <- Q3. }
{ apply (contains_suffix eq_ci _ (pre ++ kw_from ++ ws1 ++ table ++ ws2 ++ kw_where ++ ws3)).
  now rewrite <- Q3. }
{ apply (contains_suffix eq_ci _ (pre ++ kw_from ++ ws1 ++ table ++ ws2 ++ kw_where ++ ws3)).
  now rewrite <- Q3. }
assert (Sw : search summary_where_re q =
             Some (mkmobj (length (pre ++ kw_from ++ ws1 ++ table ++ ws2))
                     (mkst pw [] [(1, mkcap n (kw_where ++ ws3 ++ cond))]))).
{ unfold search. rewrite Q2.
  apply (search_at_index summary_where_re eq_ci (txt "WHERE") _ _ where_needs_keyword);
    [now rewrite <- Q2 | exact Mw]. }
assert (Sg : search group_by_re q = None).
{ unfold search.
  exact (search_at_none group_by_re eq_ci (txt "GROUP BY") q group_by_needs_keyword
           Ng None). }

(* the WHERE clause as it is extracted *)
destruct (where_is_word kw_where Hw) as (_ & _ & w0 & kw' & Ew & Wsp & _).
assert (Hc' := Hc). unfold trimmed in Hc'. apply andb_prop in Hc' as [_ Cl].
destruct (lastc None cond) as [d|] eqn:El; [|discriminate].
apply andb_prop in Cl as [Cd Cs]. apply negb_true_iff in Cd, Cs.
assert (Ec : exists cond', cond = cond' ++ [d]).
{ destruct (exists_last (l := cond)) as (c' & x & E).
  { intros ->. discriminate. }
  exists c'. rewrite E in El. rewrite lastc_snoc in El. injection El as <-. exact E. }
destruct Ec as [cond' Ec].
assert (St : strip (kw_where ++ ws3 ++ cond) = kw_where ++ ws3 ++ cond).
{ rewrite Ew, Ec.
  replace ((w0 :: kw') ++ ws3 ++ cond' ++ [d]) with ((w0 :: kw' ++ ws3 ++ cond') ++ [d])
    by (cbn; now rewrite <- !app_assoc).
  now apply strip_id. }
assert (Se : ends_with_char ";" (kw_where ++ ws3 ++ cond) = false).
{ apply (ends_with_last _ _ d); [|exact Cs].
  rewrite Ec, !app_assoc. apply lastc_snoc. }
assert (Sy : sargable_sub (kw_where ++ ws3 ++ cond) = kw_where ++ ws3 ++ cond).
{ apply sargable_sub_id.
  apply (contains_suffix eq_ci _ (pre ++ kw_from ++ ws1 ++ table ++ ws2)).
  now rewrite <- Q2. }
assert (Su : str_upper kw_where = txt "WHERE").
{ now rewrite <- str_upper_lower, Hw. }
unfold _generate_summary_query.
rewrite (main_block_without_with q Nw), Sf. cbv zeta.
rewrite Sw, Sg.
cbn [m_end caps groups_text lookup_cap Nat.eqb cap_text group option_map].
rewrite Su, St, Se, Sy.
rewrite Ew. cbn [app text_eqb negb andb].
replace (mem_text (txt "WHERE") [txt "WHERE"; txt "GROUP"; txt "ORDER"; txt "HAVING"])
  with true by reflexivity.
reflexivity.
Qed.

Lemma summary_query_of_filter_query_witness :
  _generate_summary_query (txt "SELECT * FROM View_Clean_Imports WHERE Quantity > 5") =
  Some (strip (summary_template (txt "[Importer/Exporter_Name]") (txt "Company")
                 (txt "View_Clean_Imports") (txt "WHERE Quantity > 5")
                 (txt "BE_Date"))).
Proof.
  apply (summary_query_of_filter_query (txt "SELECT * ") (txt "FROM") (txt " ")
           (txt "View_Clean_Imports") (txt " ") (txt "WHERE") (txt " ")
           (txt "Quantity > 5")); reflexivity.
Defined.

(** ** The first WHERE span of the normalizer *)

Lemma starts_with_word k : forall t,
  starts_with eq_ci k t = true -> hd_word k = true -> hd_word t = true.
Proof.
  destruct k as [|c k]; intros [|x t] H Hk; try discriminate.
  cbn in *. apply andb_prop in H as [H _]. now apply (eq_ci_word c x).
Qed.

Lemma starts_with_last k : forall t pv,
  k <> [] -> starts_with eq_ci k t = true ->
  (match lastc None k with Some c => is_word c | None => false end) = true ->
  (match lastc pv (firstn (length k) t) with Some c => is_word c | None => false end) = true.
Proof.
  induction k as [|c k IH]; intros [|x t] pv Hk H Hl; try congruence; try discriminate.
  cbn [starts_with] in H. apply andb_prop in H as [Hx H].
  cbn [length firstn lastc] in *.
  destruct k as [|c' k].
  - cbn [length firstn lastc] in *. now apply (eq_ci_word c x).
  - apply (IH t (Some x)); [discriminate | exact H | exact Hl].
Qed.

(** A keyword between two word boundaries. *)
Lemma keyword_run (k : string) pv t cs (K : mstate -> option mstate) :
  word_ends (txt k) = true ->
  mt (WordB ;; lit_ci k ;; WordB) (mkst pv t cs) K =
  if keyword_at k pv t
  then K (mkst (lastc pv (firstn (length (txt k)) t)) (skipn (length (txt k)) t) cs)
  else None.
Proof.
  intros Hk. apply andb_prop in Hk as [H1 H2].
  rewrite (mt_seq WordB), mt_WordB. cbn [prev rest].
  unfold keyword_at. destruct (starts_with eq_ci (txt k) t) eqn:S.
  - pose proof (starts_with_word _ _ S H1) as Ht.
    assert (Hn : txt k <> []) by (intros E; rewrite E in H1; discriminate).
    pose proof (starts_with_last _ _ pv Hn S H2) as Hl.
    rewrite word_boundary_hd, Ht. unfold outside.
    unfold lit_ci. rewrite (mt_seq (lit_with eq_ci (txt k)) WordB), mt_lit.
    cbn [prev rest caps]. rewrite S, mt_WordB. cbn [prev rest caps].
    rewrite word_boundary_hd.
    destruct (lastc pv (firstn (length (txt k)) t)) as [y|]; [|discriminate].
    rewrite Hl. unfold starts_outside_word, hd_word.
    destruct pv as [x|]; [destruct (is_word x)|]; cbn [xorb negb andb];
      try reflexivity;
      destruct (skipn (length (txt k)) t) as [|z u]; cbn [xorb negb andb];
      try reflexivity; now destruct (is_word z).
  - rewrite andb_false_r. cbn [andb].
    destruct (word_boundary pv t); [|reflexivity].
    unfold lit_ci. rewrite (mt_seq (lit_with eq_ci (txt k)) WordB), mt_lit.
    cbn [prev rest caps]. now rewrite S.
Qed.

Lemma where_at_keyword pv t : where_at pv t = keyword_at "WHERE" pv t.
Proof.
  unfold where_at, match_here, where_kw_re. rewrite keyword_run by reflexivity.
  now destruct (keyword_at "WHERE" pv t).
Qed.

(** The look-ahead of the WHERE pattern, in the words of [span_end]. *)
Lemma term_at_span_end pv t : term_at pv t = span_end pv t.
Proof.
  unfold term_at, where_terminator, span_end.
  rewrite !mt_alt, !keyword_run by reflexivity.
  destruct (keyword_at "GROUP BY" pv t); [reflexivity|].
  destruct (keyword_at "ORDER BY" pv t); [reflexivity|].
  destruct (keyword_at "HAVING" pv t); [reflexivity|].
  cbn [mt rest orb]. unfold at_dollar.
  destruct t as [|c [|d t]]; try reflexivity. now destruct (Ascii.eqb c _).
Qed.

Lemma where_span_first : forall c pv r,
  first_after span_end pv c r = true -> where_span pv (c ++ r) = (c, r).
Proof.
  unfold first_after.
  induction c as [|x c IH]; intros pv r H; rewrite where_span_eq, term_at_span_end.
  - cbn [none_before lastc andb app] in *. now rewrite H.
  - cbn [none_before lastc] in H. apply andb_prop in H as [H H2].
    apply andb_prop in H as [H0 H1]. apply negb_true_iff in H0. rewrite H0.
    cbn [app]. rewrite (IH (Some x) r); [reflexivity|]. now rewrite H1, H2.
Qed.

Lemma no_where_before : forall pre pv t,
  none_before (keyword_at "WHERE") pv pre t = true ->
  no_match_in where_kw_re pv pre t = true.
Proof.
  induction pre as [|x pre IH]; intros pv t H; [reflexivity|].
  cbn [none_before] in H. apply andb_prop in H as [H0 H1].
  apply negb_true_iff in H0. rewrite <- where_at_keyword in H0.
  unfold where_at in H0. cbn [no_match_in].
  destruct (match_here where_kw_re pv ((x :: pre) ++ t)); [discriminate|].
  now apply IH.
Qed.

Lemma search_no_where : forall s pv,
  none_before (keyword_at "WHERE") pv s [] = true -> search_at where_kw_re pv s = None.
Proof.
  induction s as [|x s IH]; intros pv H.
  - cbn [search_at]. pose proof (where_at_keyword pv []) as E. unfold where_at in E.
    destruct (match_here where_kw_re pv []); [|reflexivity].
    unfold keyword_at in E. cbn in E. rewrite andb_false_r in E. discriminate.
  - cbn [none_before] in H. apply andb_prop in H as [H0 H1].
    apply negb_true_iff in H0. rewrite app_nil_r, <- where_at_keyword in H0.
    unfold where_at in H0. cbn [search_at].
    destruct (match_here where_kw_re pv (x :: s)); [discriminate|].
    now rewrite (IH (Some x) H1).
Qed.

Lemma starts_with_prefix eq (a b : text) : forall t,
  starts_with eq (a ++ b) t = true -> starts_with eq a t = true.
Proof.
  induction a as [|c a IH]; intros [|x t] H; try reflexivity; try discriminate.
  cbn in *. apply andb_prop in H as [Hx H]. now rewrite Hx, (IH t H).
Qed.

Lemma mt_Opt a st k :
  mt (Opt a) st k = match mt a st k with Some r => Some r | None => k st end.
Proof. reflexivity. Qed.

(** One alternative of the column: it needs the name, after the bracket
    when there is one. *)
Lemma column_needs_name (name : string) pv t cs k :
  starts_with eq_ci (txt name) t = false ->
  starts_with eq_ci ("["%char :: txt name) t = false ->
  mt (Opt (chr "[") ;; lit_ci name ;; Opt (chr "]")) (mkst pv t cs) k = None.
Proof.
  intros H1 H2. rewrite mt_seq.
  assert (F : forall pv' u, starts_with eq_ci (txt name) u = false ->
            mt (lit_ci name ;; Opt (chr "]")) (mkst pv' u cs) k = None).
  { intros pv' u Hu. unfold lit_ci. rewrite mt_seq, mt_lit. cbn [rest]. now rewrite Hu. }
  rewrite mt_Opt, (F pv t H1).
  destruct t as [|c rs]; [reflexivity|].
  rewrite mt_chr. destruct (Ascii.eqb "[" c) eqn:E; [|reflexivity].
  apply Ascii.eqb_eq in E. subst c. cbn [starts_with] in H2.
  now rewrite F.
Qed.

Lemma product_needs_column pv t :
  product_column_at pv t = false -> match_here product_like_re pv t = None.
Proof.
  unfold product_column_at. intros H. apply orb_false_elim in H as [H1 H2].
  unfold match_here, product_like_re, product_head, product_column.
  rewrite !mt_seq, mt_alt.
  rewrite column_needs_name; [|exact H1|exact H2].
  rewrite column_needs_name; [reflexivity| |].
  - destruct (starts_with eq_ci (txt "Product_Name") t) eqn:E; [|reflexivity].
    now rewrite (starts_with_prefix eq_ci (txt "Product") (txt "_Name") t E) in H1.
  - destruct (starts_with eq_ci ("["%char :: txt "Product_Name") t) eqn:E; [|reflexivity].
    now rewrite (starts_with_prefix eq_ci (txt "[Product") (txt "_Name") t E) in H2.
Qed.

Lemma no_product_before : forall g pv t,
  none_before product_column_at pv g t = true ->
  no_match_in product_like_re pv g t = true.
Proof.
  induction g as [|x g IH]; intros pv t H; [reflexivity|].
  cbn [none_before] in H. apply andb_prop in H as [H0 H1].
  apply negb_true_iff in H0. cbn [no_match_in].
  rewrite (product_needs_column pv _ H0). now apply IH.
Qed.

Lemma mt_Opt_skip a st k : k st <> None -> mt (Opt a) st k <> None.
Proof. cbn [mt]. now destruct (mt a st k). Qed.

Lemma mt_Opt_take a st k : mt a st k <> None -> mt (Opt a) st k <> None.
Proof. cbn [mt]. now destruct (mt a st k). Qed.

Lemma blank_cons ws : blank ws = true ->
  exists x ws', ws = x :: ws' /\ is_space x = true /\ forallb is_space ws = true.
Proof.
  unfold blank. destruct ws as [|x ws']; [discriminate|]. cbn [text_eqb negb andb].
  intros H. exists x, ws'. split; [reflexivity|]. split; [|exact H].
  cbn in H. now apply andb_prop in H as [H _].
Qed.

(** [\s+LIKE\s+] up to the end of the text. *)
Lemma like_tail pv ws1 like ws2 cs :
  blank ws1 = true -> str_lower like = txt "like" -> blank ws2 = true ->
  mt (Rep true 1 is_space ;; lit_ci "LIKE" ;; Rep true 1 is_space)
     (mkst pv (ws1 ++ like ++ ws2) cs) at_end <> None.
Proof.
  intros H1 Hl H2.
  destruct (blank_cons ws1 H1) as (x1 & w1 & E1 & _ & F1).
  destruct (blank_cons ws2 H2) as (x2 & w2 & E2 & _ & F2).
  rewrite mt_seq, mt_rep_det; [|exact F1| |].
  - replace (Nat.leb 1 (length ws1)) with true by (now rewrite E1).
    rewrite mt_seq, mt_lit_ci_here by exact Hl.
    rewrite <- (app_nil_r ws2), mt_rep_det; [|exact F2| |exact I].
    + replace (Nat.leb 1 (length ws2)) with true by (now rewrite E2). discriminate.
    + intros pv' y u Hy. reflexivity.
  - intros pv' y u Hy. unfold lit_ci. rewrite mt_seq, mt_lit.
    cbn [rest starts_with txt list_ascii_of_string].
    replace (eq_ci "L" y) with false by (revert Hy; ascii_cases y). reflexivity.
  - destruct like as [|l like]; [discriminate|]. cbn [app]. injection Hl as Hl _.
    revert Hl. ascii_cases l.
Qed.

(** One alternative of the column, with what follows it. *)
Lemma column_run (N : string) pv lb name rb X cs (K : mstate -> option mstate) :
  In lb [[]; txt "["] -> str_lower name = str_lower (txt N) -> In rb [[]; txt "]"] ->
  (forall pv', K (mkst pv' X cs) <> None) ->
  mt (Opt (chr "[") ;; lit_ci N ;; Opt (chr "]")) (mkst pv (lb ++ name ++ rb ++ X) cs) K
    <> None.
Proof.
  intros Hlb Hn Hrb HK.
  assert (F : forall pv', mt (lit_ci N ;; Opt (chr "]")) (mkst pv' (name ++ rb ++ X) cs) K
                          <> None).
  { intros pv'. rewrite mt_seq, mt_lit_ci_here by exact Hn.
    destruct Hrb as [<-|[<-|[]]].
    - apply mt_Opt_skip, HK.
    - apply mt_Opt_take. cbn [app txt list_ascii_of_string]. rewrite mt_chr.
      cbn. apply HK. }
  rewrite mt_seq. destruct Hlb as [<-|[<-|[]]].
  - apply mt_Opt_skip, F.
  - apply mt_Opt_take. cbn [app txt list_ascii_of_string]. rewrite mt_chr. cbn. apply F.
Qed.

(** The column, [LIKE] and the white space around it make a head. *)
Lemma is_head_shape lb name rb ws1 like ws2 :
  In lb [[]; txt "["] ->
  In (str_lower name) [txt "product"; txt "product_name"] ->
  In rb [[]; txt "]"] ->
  blank ws1 = true -> str_lower like = txt "like" -> blank ws2 = true ->
  is_head (lb ++ name ++ rb ++ ws1 ++ like ++ ws2) = true.
Proof.
  intros Hlb Hn Hrb H1 Hl H2.
  assert (E : mt product_head (mkst None (lb ++ name ++ rb ++ ws1 ++ like ++ ws2) [])
                 at_end <> None).
  { unfold product_head, product_column. rewrite mt_seq, mt_alt.
    destruct Hn as [Hn|[Hn|[]]].
    - match goal with |- match ?x with _ => _ end <> None =>
        assert (Hx : x <> None); [|destruct x; congruence] end.
      apply column_run; auto. intros pv'. now apply like_tail.
    - match goal with |- match ?x with Some r => Some r | None => ?y end <> None =>
        assert (Hy : y <> None); [|destruct x; [discriminate | exact Hy]] end.
      apply column_run; auto. intros pv'. now apply like_tail. }
  unfold is_head. destruct (mt product_head _ at_end); congruence.
Qed.

(** C4. Take a query in ASCII, where the letters, the white space and the
    word characters of the patterns are those of Python.  Let its first
    [WHERE] that stands as a word come after [pre], and let the text [c]
    after that keyword run up to the first GROUP BY, ORDER BY or HAVING
    that stands as a word, or to the end of the query (or to the line
    break that ends it).  Let the first column [Product] or [Product_Name]
    of [c], in any case and bracketed or not, be followed by [LIKE] and a
    literal ['%v%'].  Then this predicate becomes [[Product] LIKE '%V%']
    with [V] the value without spaces in upper case; the text before the
    WHERE, the keyword and the text [r] from the end of the span on, with
    the columns of SELECT, GROUP BY and ORDER BY, are kept, and the rest
    of the span is rewritten in the same way.  A query in which [WHERE]
    stands nowhere as a word is returned as it is. *)
Theorem normalizer_first_where_span
    (pre kw g lb name rb ws1 like ws2 v h r plain_query : text) :
  let predicate :=
    lb ++ name ++ rb ++ ws1 ++ like ++ ws2 ++ txt "'%" ++ v ++ txt "%'" in
  let c := g ++ predicate ++ h in
  ascii_text (pre ++ kw ++ c ++ r) = true ->
  first_after (keyword_at "WHERE") None pre (kw ++ c ++ r) = true ->
  length kw = 5 ->
  first_after span_end (lastc None kw) c r = true ->
  none_before product_column_at None g (predicate ++ h) = true ->
  In lb [[]; txt "["] ->
  In (str_lower name) [txt "product"; txt "product_name"] ->
  In rb [[]; txt "]"] ->
  blank ws1 = true -> str_lower like = txt "like" -> blank ws2 = true ->
  v <> [] -> forallb not_quote v = true ->
  ascii_text plain_query = true ->
  none_before (keyword_at "WHERE") None plain_query [] = true ->
  _fix_product_column_in_sql (pre ++ kw ++ c ++ r) =
    pre ++ kw ++
    (g ++ txt "[Product] LIKE '%" ++ str_upper (remove_spaces v) ++ txt "%'" ++ product_sub h) ++
    r /\
  _fix_product_column_in_sql plain_query = plain_query.
Proof.
  intros predicate c _ Hpre Hk Hspan Hg Hlb Hn Hrb H1 Hl H2 Hv Hq _ Hplain.
  set (A := lb ++ name ++ rb ++ ws1 ++ like ++ ws2).
  assert (Ec : c = g ++ A ++ txt "'%" ++ v ++ txt "%'" ++ h).
  { unfold c, predicate, A. now rewrite <- !app_assoc. }
  assert (Ep : predicate ++ h = A ++ txt "'%" ++ v ++ txt "%'" ++ h).
  { unfold predicate, A. now rewrite <- !app_assoc. }
  unfold first_after in Hpre. apply andb_prop in Hpre as [Hpre Hat].
  rewrite <- where_at_keyword in Hat. apply no_where_before in Hpre.
  assert (Hkw : lastc (lastc None pre) kw = lastc None kw)
    by (destruct kw; [discriminate | reflexivity]).
  rewrite <- Hkw in Hspan. apply where_span_first in Hspan.
  rewrite Ep in Hg. apply no_product_before in Hg.
  pose proof (is_head_shape lb name rb ws1 like ws2 Hlb Hn Hrb H1 Hl H2) as HA.
  fold A in HA. split.
  - rewrite (fix_first_where pre kw c r Hpre Hat Hk Hspan). do 2 f_equal.
    rewrite Ec. now rewrite (product_sub_predicate g A v h Hg HA Hv Hq).
  - unfold _fix_product_column_in_sql, search.
    now rewrite (search_no_where plain_query None Hplain).
Qed.

(** C4, at a query with the column in SELECT, WHERE, GROUP BY and ORDER BY,
    and at a query with no WHERE. *)
Lemma normalizer_first_where_span_witness :
  _fix_product_column_in_sql
    (txt "SELECT Product_Name, SUM(Qty) FROM t WHERE Product LIKE '%zinc ingot%' AND y = 1 GROUP BY Product_Name ORDER BY Product_Name") =
  txt "SELECT Product_Name, SUM(Qty) FROM t WHERE [Product] LIKE '%ZINCINGOT%' AND y = 1 GROUP BY Product_Name ORDER BY Product_Name" /\
  _fix_product_column_in_sql (txt "SELECT Product_Name FROM t GROUP BY Product_Name") =
  txt "SELECT Product_Name FROM t GROUP BY Product_Name".
Proof.
  apply (normalizer_first_where_span
           (txt "SELECT Product_Name, SUM(Qty) FROM t ") (txt "WHERE") (txt " ")
           [] (txt "Product") [] (txt " ") (txt "LIKE") (txt " ")
           (txt "zinc ingot") (txt " AND y = 1 ")
           (txt "GROUP BY Product_Name ORDER BY Product_Name")
           (txt "SELECT Product_Name FROM t GROUP BY Product_Name"));
    try (vm_compute; reflexivity); try discriminate; simpl; tauto.
Defined.

(** ** The fenced object of a completion *)

(** The maximal run of white space at the start of a text. *)
Lemma span_spaces (s : text) :
  exists sp s', s = sp ++ s' /\ forallb is_space sp = true /\
                match s' with x :: _ => is_space x = false | [] => True end.
Proof.
  induction s as [|x s (sp & s' & E & Hs & Hh)].
  - exists [], []. auto.
  - destruct (is_space x) eqn:Ex.
    + exists (x :: sp), s'. cbn. rewrite Ex, Hs, E. auto.
    + exists [], (x :: s). auto.
Qed.

Lemma ticks_not_here x R :
  contains eq_ci (txt "```") x = false ->
  starts_with eq_ci (txt "```") (x ++ "}"%char :: R) = false.
Proof.
  intros H. apply contains_head in H.
  destruct x as [|x1 [|x2 [|x3 x']]]; cbn [app starts_with txt list_ascii_of_string] in *.
  - reflexivity.
  - destruct (eq_ci "`" x1); reflexivity.
  - destruct (eq_ci "`" x1), (eq_ci "`" x2); reflexivity.
  - exact H.
Qed.

Lemma space_not_tick x : is_space x = true -> eq_ci "`" x = false.
Proof. destruct x as [[] [] [] [] [] [] [] []]; cbn; congruence. Qed.

(** After a closing brace inside the object the fence does not close. *)
Lemma fence_not_closed pv b R cs k :
  contains eq_ci (txt "```") b = false ->
  mt (Rep true 0 is_space ;; lit_ci "```") (mkst pv (b ++ "}"%char :: R) cs) k = None.
Proof.
  intros H. destruct (span_spaces b) as (sp & b' & -> & Hs & Hh).
  rewrite mt_seq, <- app_assoc, mt_rep_det; [|exact Hs| |].
  - cbn [Nat.leb]. unfold lit_ci. rewrite mt_lit. cbn [rest].
    rewrite ticks_not_here; [reflexivity|]. now apply contains_suffix in H.
  - intros pv' x t Hx. unfold lit_ci. rewrite mt_lit.
    cbn [rest starts_with txt list_ascii_of_string]. now rewrite (space_not_tick x Hx).
  - destruct b' as [|y b']; [reflexivity | exact Hh].
Qed.

(** Lazy repetition before something that fails inside [u]. *)
Lemma rep_lazy_until (A : Type) (k : option ascii -> text -> option A) R : forall u pv,
  (forall a b pv', u = a ++ b -> b <> [] -> k pv' (b ++ R) = None) ->
  rep_lazy any_char 0 pv (u ++ R) k = rep_lazy any_char 0 (lastc pv u) R k.
Proof.
  induction u as [|x u IH]; intros pv H; [reflexivity|].
  cbn [app rep_lazy Nat.eqb any_char lastc].
  assert (H0 : k pv ((x :: u) ++ R) = None) by (apply (H [] (x :: u) pv eq_refl); discriminate).
  cbn [app] in H0. rewrite H0.
  apply IH. intros a b pv' -> Hb. now apply (H (x :: a) b pv').
Qed.

(** The fence pattern at the marker: group 1 is the object. *)
Lemma fence_match pv marker ws1 u ws2 c :
  str_lower marker = txt "```json" ->
  forallb is_space ws1 = true -> forallb is_space ws2 = true ->
  contains eq_ci (txt "```") u = false ->
  exists pv' n,
    match_here fence_re pv (marker ++ ws1 ++ "{"%char :: u ++ "}"%char :: ws2 ++ txt "```" ++ c) =
    Some (mkst pv' c [(1, mkcap n ("{"%char :: u ++ ["}"%char]))]).
Proof.
  intros Hm H1 H2 Hu. do 2 eexists. unfold match_here, fence_re.
  rewrite mt_seq, (mt_lit_ci_here "```json" marker _ pv [] _ Hm).
  rewrite mt_seq. apply mt_rep_all; [exact H1 | lia | reflexivity |].
  rewrite mt_seq, mt_Grp, mt_seq, mt_chr. cbn [rest prev caps].
  replace (Ascii.eqb "{" "{") with true by reflexivity.
  rewrite mt_seq, mt_Rep_lazy. cbn [rest prev caps].
  rewrite rep_lazy_until.
  - cbn [rep_lazy Nat.eqb]. rewrite mt_chr.
    replace (Ascii.eqb "}" "}") with true by reflexivity.
    cbn [rest prev caps].
    match goal with
    | |- match ?X with Some _ => _ | None => _ end = _ =>
        assert (E : X = Some (mkst (lastc (Some "}"%char) (ws2 ++ txt "```")) c
                               [(1, mkcap (length ("{"%char :: u ++ "}"%char :: ws2 ++ txt "```" ++ c))
                                          ("{"%char :: u ++ ["}"%char]))]))
    end.
    { rewrite mt_seq. apply mt_rep_all; [exact H2 | lia | reflexivity |].
      rewrite (mt_lit_ci_here "```" (txt "```") c _ _ _ eq_refl).
      replace ("{"%char :: u ++ "}"%char :: ws2 ++ txt "```" ++ c)
        with (("{"%char :: u ++ ["}"%char]) ++ ws2 ++ txt "```" ++ c)
        by (cbn; now rewrite <- app_assoc).
      rewrite firstn_len_diff. cbn [set_cap filter]. rewrite lastc_app. reflexivity. }
    rewrite E. reflexivity.
  - intros a b pv' E Hb.
    destruct b as [|x b]; [congruence|]. cbn [app]. rewrite mt_chr.
    destruct (Ascii.eqb "}" x); [|reflexivity].
    cbn [rest prev caps].
    match goal with
    | |- mt _ (mkst ?p _ ?cs) ?k = None =>
        apply (fence_not_closed p b (ws2 ++ txt "```" ++ c) cs k)
    end.
    rewrite E in Hu. apply contains_suffix in Hu.
    cbn [contains] in Hu. now apply orb_false_elim in Hu as [_ Hu].
Qed.

(** X25. In a completion in ASCII whose first fence marker is followed by
    an object and the closing fence, the parser returns that object whole,
    nested braces included, as long as no triple backquote is inside it;
    braces in the text before the fence are not looked at. *)
Theorem fenced_object_is_returned a marker ws1 u ws2 c :
  ascii_text (fenced a marker ws1 u ws2 c) = true ->
  str_lower marker = txt "```json" ->
  index_of eq_ci (txt "```json") (fenced a marker ws1 u ws2 c) = Some (length a) ->
  forallb is_space ws1 = true -> forallb is_space ws2 = true ->
  contains eq_ci (txt "```") u = false ->
  _clean_llm_response (fenced a marker ws1 u ws2 c) = Some ("{"%char :: u ++ ["}"%char]).
Proof.
  intros _ Hm Hi H1 H2 Hu.
  destruct (fence_match (lastc None a) marker ws1 u ws2 c Hm H1 H2 Hu) as (pv' & n & M).
  unfold _clean_llm_response, search, fenced in *.
  rewrite (search_at_index fence_re eq_ci (txt "```json") _ _ fence_needs_marker
             a None Hi M).
  reflexivity.
Qed.

Lemma fenced_object_is_returned_witness :
  _clean_llm_response explained_completion =
  Some (txt "{" ++ jstr "sql_query" ++ txt ": " ++ jstr "SELECT 1" ++ txt ", " ++
        jstr "meta" ++ txt ": {" ++ jstr "k" ++ txt ": 1}}").
Proof.
  apply (fenced_object_is_returned
           (txt "Using {table} as asked." ++ [nl]) (txt "```JSON") [nl]
           (jstr "sql_query" ++ txt ": " ++ jstr "SELECT 1" ++ txt ", " ++
            jstr "meta" ++ txt ": {" ++ jstr "k" ++ txt ": 1}")
           [nl] (txt " {done}")); reflexivity.
Defined.
